(* ===== verification/_CoqProject ===== *)
-Q . S2P
Prelude.v
GoStrings.v
GoPath.v
Regex.v
GoTime.v
Config.v
Validate.v
Names.v
ValidateSpec.v
Sync.v
Sha256.v
Store.v
Concurrent.v
Generate.v
NetIP.v
Resolve.v
Ping.v
Proxy.v
ProxyRun.v
AuditLog.v
TLSPSK.v
PeerListener.v
PeerClient.v
Watcher.v
Daemon.v
Host.v
Flags.v
Server.v
Router.v
System.v
Samples.v
ConfigProps.v
LWW.v
Convergence.v
SyncProps.v
Cluster.v
StoreProps.v
GenerateProps.v
ProxyProps.v
ProxyRunProps.v
AuditProps.v
TLSProps.v
ListenerProps.v
ClientProps.v
WatcherProps.v
DaemonProps.v
HostProps.v
ServerProps.v
ServerViews.v
SystemProps.v
ClusterProps.v
RouterProps.v
ConcurrentProps.v
