(* ===== verification/Prelude.v ===== *)
(** A model of AzureDNSForwarder, a DNS forwarder appliance in Go, and the
    theorems that make it correct.

    * The program

    One process (cmd/dnsforwarderd/main.go) keeps a YAML configuration: upstream
    resolvers, forward zones, static records, settings, peers.  A store
    (internal/config) holds it in memory and on disk and lets one writer at a
    time change it.  An HTTP API (internal/server) edits it; peers exchange it
    (internal/sync) over TLS keyed by a preshared key and merge it item by item,
    the last writer winning; a watcher (internal/watcher) turns each new version
    into a configuration of unbound (internal/unbound), has it checked, and makes
    unbound reload; a small DNS server (internal/unbound/proxy) answers for the
    zones that ask for the least latency, with the addresses whose pings came
    back first.  internal/audit is the log of who changed what.

    * The files

    Go itself: Prelude (results, records, 64-bit wrap-around), GoStrings (with the
    repair of UTF-8), GoPath (filepath.Join, the paths of ServeMux), Regex
    (byte-class expressions matched by derivatives), GoTime, NetIP (ParseIP,
    SplitHostPort), Sha256.

    Model, in the order of the calls:
    - Config, Validate: config.go.  Names and ValidateSpec hold what Validate
      accepts, without its loops.
    - Sync: sync.go.  LWW is the abstract last-writer-wins map, Convergence what
      follows from it for two peers, Cluster for any number of them.
    - Store: store.go, each operation as one function on files and memory;
      Concurrent: its Save and its poll again, in the steps others can see.
    - Generate: generate.go; Resolve: test.go; Ping and Proxy: proxy/*.go, and
      ProxyRun: the proxy's goroutines in their steps; AuditLog: audit.go.
    - TLSPSK: tlspsk.go; PeerListener: listener.go; PeerClient: client.go and
      status.go.  Listener and client act on any world, given as a record of
      operations; Daemon gives them the process.
    - Watcher: watcher.go; Daemon: the callbacks and hooks of main.go on a [Node],
      the state of one process; Host: any number of applications at once, the
      supervisor of main.go and the unbound processes; Flags: the command line;
      Server: the API on a Node;
      Router: its routes and the pages; System: [main] and the steps of all
      goroutines as a relation on Nodes.
    The theorems are in the files whose names end in Props: Validate's in
    ConfigProps, those of Ping, NetIP and Proxy in ProxyProps, TLSPSK's in TLSProps,
    those of PeerListener and PeerClient in ListenerProps and ClientProps, Server's
    in ServerProps and ServerViews, those of several processes in ClusterProps.
    Samples has values on which they are tried.

    * What the theorems show

    - The whole process (SystemProps): in every state it reaches, the
      configuration in memory is one that Validate accepts, also when applications
      overlap and polls come late; an edit of the file is in force after one poll
      that can be applied; a push arrives and is merged.
    - Several processes (ClusterProps): N of them have the same live items, the newest
      copies, after N-1 rounds in each of which an envelope got from everyone to
      everyone; [deleted_zone_returns] shows what a dropped tombstone does.
    - Validation (ConfigProps, ValidateSpec): Validate accepts exactly the files
      of a declarative specification and returns them normalised.
    - Synchronisation (SyncProps, LWW, Convergence): Merge refines the abstract
      map, is idempotent, never goes back, and two peers that exchange what they
      have end alike; an envelope has exactly the items meant for its peer.
    - The store (StoreProps): a Save replaces the file and the memory or neither,
      whatever call fails; hash and memory agree; a restart recovers the file.
    - Concurrency (ConcurrentProps): any schedule of any number of Saves, in one
      process or in several, is equivalent to whole Saves one after the other;
      readers find whole files; a Save waits for no lock, only for its own two
      hooks, which run without the lock and end when they end (the pushes of the
      first wait for other processes).  With polls beside the Saves, memory and
      hash always agree, and a poll that runs alone catches up with the file.  The
      poll is not under the lock: [poll_undoes_save] shows what that allows.
    - The machine (HostProps): whatever runs at once, an unbound that is not about to
      end has read what a successful application has left; when applications come
      one after the other, its file is always one that has been checked, of a
      configuration that was saved, and of the last one once all is quiet.  The
      code does not keep them apart: [applications_share_tmp],
      [older_application_wins], and [initial_apply_not_loaded].
    - The generated file (GenerateProps): no value that Validate looks at can add a
      line or leave its quotes (DNSListen can: [DNSListen_injects]); the clauses are
      those of the live zones.
    - The API (ServerProps, ServerViews, RouterProps): a refused call changes
      nothing, a call that is answered 200 made the edit it asked for, stored it,
      and (calls about peers apart) applied it; a GET never changes anything.
    - Peers (ListenerProps, ClientProps, TLSProps, DaemonProps): nothing without
      the key, retries bounded, no echo of what was received, the same key on
      both sides exactly when the preshared keys lead to it.
    - The proxy's goroutines (ProxyRunProps): a query is answered with what one probe
      of the configured upstream has measured, RefreshNow waits for its own
      probes and leaves no zone out, Stop ends the loop; and [Proxy] has the
      schedules in which nothing else happens.
    - Proxy, audit log, watcher (ProxyProps, AuditProps, WatcherProps).

    * Conventions

    What the system answers is an input: a record such as [SaveIO] says which
    call fails, how much of a failed write reached the disk, what the clock
    reads; operations that retry take a function from the attempt to its answers.
    A file system is a map from paths to contents; [Rename] replaces at once.
    Host alone has inodes, where two writers meet on one file.  Errors are a sum
    type per component, with their texts where other code reads them.  Times are Z
    with the zero Time 0; Durations and ints wrap at 64 bits where the source
    computes with them.  A Go slice that may be nil is an option of a list.

    Code that is not in the repository is a parameter: [Yaml] (with its round
    trip [YamlLaws], up to the fields that are not written), [EntryCodec] for JSON
    log lines (up to the repair of UTF-8), [URLs] for net/url, [DNSLib] for the DNS
    library, [Chi] and [JSONBodies] for the router, unbound-checkconf in Host,
    and scalar multiplication, HKDF and X.509 in TLSPSK.  Every law has an instance
    in a witness.

    Loops run on structural recursion or on fuel that the source bounds: 5
    attempts to push, 20 to save, 20 to signal unbound, 10000 candidates for a
    key, 8 groups of an IPv6 address, 20 digits of an int64.  None of these is a
    bound of the model's own.

    * Not modelled

    The TCP, UDP and ICMP sockets and the goroutine per connection; the TLS
    handshake beyond the certificate and its check; timers and contexts, whose
    effect is the order of the steps; chi's matching and middlewares; the text of
    templates, the scripts in the browser, the embedded assets; logging; deployment files. Text is bytes: case mapping and trimming are
    those of ASCII. sort.Slice is modelled as an insertion sort, which it is up
    to twelve elements. The audit log of a Node is the list of entries written;
    a write error of the log, which the source ignores everywhere, loses the
    entry in the file only. *)
From stdpp Require Export base tactics list numbers gmap strings pretty.
From Stdlib Require Export ZArith Lia Ascii.

Declare Scope go_scope.
Delimit Scope go_scope with go.
#[global] Open Scope go_scope.
#[global] Open Scope string_scope.
#[global] Open Scope list_scope.
#[global] Open Scope Z_scope.

(** the lemmas that keep what is in memory validated *)
Create HintDb checked.

(** ** Go's [(value, error)] results *)

Inductive result (E A : Type) : Type :=
  | Ok (a : A)
  | Err (e : E).
Arguments Ok {E A} a.
Arguments Err {E A} e.

Notation "'let?' x ':=' e 'in' k" :=
  (match e with Ok x => k | Err err => Err err end)
  (at level 10, x pattern, e at level 100, k at level 200) : go_scope.

(** [if !c { return err }] *)
Notation "'ensure' c 'else' err ';;' k" :=
  (if c then k else Err err)
  (at level 10, c at level 100, err at level 99, k at level 200) : go_scope.

Definition is_Ok {E A} (r : result E A) : bool :=
  match r with Ok _ => true | Err _ => false end.

Lemma ensure_ok {E A} (c : bool) (k : result E A) e x :
  (if c then k else Err e) = Ok x <-> c = true /\ k = Ok x.
Proof. destruct c; naive_solver. Qed.

Lemma bind_ok {E A B} (r : result E A) (k : A -> result E B) y :
  match r with Ok x => k x | Err err => Err err end = Ok y <-> exists x, r = Ok x /\ k x = Ok y.
Proof. destruct r; naive_solver. Qed.

(** ** Slices: [None] is the nil slice, which [x == nil] tells from the empty one *)

Definition elems {A} (s : option (list A)) : list A := default [] s.
Definition slice_append {A} (s : option (list A)) (xs : list A) : option (list A) :=
  match s, xs with
  | None, [] => None
  | _, _ => Some (elems s ++ xs)
  end.

(** ** Lists *)

Lemma map_insert_list {A B} (g : A -> B) (l : list A) i x : map g (<[i := x]> l) = <[i := g x]> (map g l).
Proof. apply list_fmap_insert. Qed.
Lemma lookup_map_list {A B} (g : A -> B) (l : list A) i : map g l !! i = g <$> l !! i.
Proof. apply list_lookup_fmap. Qed.
Lemma elem_of_concat {A} (ls : list (list A)) x : x ∈ concat ls <-> exists l, l ∈ ls /\ x ∈ l.
Proof.
  rewrite list_elem_of_In, in_concat. split; intros (l & Hl & Hx); exists l; by rewrite !list_elem_of_In in *.
Qed.
Lemma elem_of_concat_lookup {A} (ls : list (list A)) i l x : ls !! i = Some l -> x ∈ l -> x ∈ concat ls.
Proof. intros Hl Hx. apply elem_of_concat. exists l. split; [by eapply list_elem_of_lookup_2 | done]. Qed.

Lemma map_fixed {A} (g : A -> A) (l : list A) : (forall x, x ∈ l -> g x = x) -> map g l = l.
Proof.
  induction l as [|x l IH]; intros Hl; simpl; [done|]. rewrite Hl by (by left). f_equal. apply IH. intros y Hy. apply Hl. by right.
Qed.

(** ** Machine integers: Go's [int] and [int64] are 64 bits wide *)

Definition wrap64 (z : Z) : Z := (z + 2 ^ 63) mod 2 ^ 64 - 2 ^ 63.
Definition in64 (z : Z) : Prop := - 2 ^ 63 <= z < 2 ^ 63.

Lemma wrap64_id z : in64 z -> wrap64 z = z.
Proof. unfold in64, wrap64. intros. rewrite Z.mod_small; lia. Qed.

Lemma wrap64_range z : in64 (wrap64 z).
Proof. unfold in64, wrap64. pose proof (Z.mod_pos_bound (z + 2 ^ 63) (2 ^ 64)). lia. Qed.

(** ** Record update: [r <| f := v |>], for the records with a [Settable] instance *)

Class Settable (R : Type) : Type := eta_record : R -> R.
Class Setter {R T : Type} (proj : R -> T) : Type := set_field : (T -> T) -> R -> R.
Arguments set_field {R T} proj {_} _ _ /.

Ltac derive_setter :=
  match goal with
  | |- @Setter ?R ?T ?proj =>
      let inst := constr:(_ : Settable R) in
      let body := eval hnf in inst in
      let abs := eval pattern proj in body in
      match abs with ?g _ => exact (fun f : T -> T => g (fun r => f (proj r))) end
  end.
#[export] Hint Extern 1 (Setter _) => derive_setter : typeclass_instances.

Notation "r '<|' f ':=' v '|>'" := (set_field f (fun _ => v) r)
  (at level 1, f constr at level 0, v at level 200, left associativity) : go_scope.

(** ** Tactics of the development *)

(** split every [if] and [match] of the goal, keeping the equations *)
Ltac go_cases := repeat (case_match; simplify_eq/=).
(** booleans to propositions, everywhere *)
Ltac go_bools :=
  repeat match goal with
  | H : _ && _ = true |- _ => apply andb_true_iff in H as [??]
  | H : _ || _ = false |- _ => apply orb_false_iff in H as [??]
  | H : negb _ = true |- _ => apply negb_true_iff in H
  | H : negb _ = false |- _ => apply negb_false_iff in H
  | H : (_ =? _)%string = true |- _ => apply String.eqb_eq in H
  | H : (_ =? _)%string = false |- _ => apply String.eqb_neq in H
  end.
