(* ===== verification/GoStrings.v ===== *)
(** Go's [strings], [strconv] and [fmt] functions, as far as the sources use
    them.  A Go string is a [string] of bytes; case mapping and white space
    are those of ASCII (bytes from 128 up are left as they are). *)
From S2P Require Import Prelude.

(** ** Characters *)

Definition code (c : ascii) : Z := Z.of_N (N_of_ascii c).
Definition between (lo hi : ascii) (c : ascii) : bool :=
  (code lo <=? code c) && (code c <=? code hi).

Definition NL : ascii := ascii_of_nat 10.
Definition TAB : ascii := ascii_of_nat 9.
Definition DQ : ascii := ascii_of_nat 34.

Definition isDigit : ascii -> bool := between "0"%char "9"%char.
Definition isSpace (c : ascii) : bool :=
  between (ascii_of_nat 9) (ascii_of_nat 13) c || (c =? " ")%char.

Definition lowerc (c : ascii) : ascii :=
  if between "A"%char "Z"%char c then ascii_of_N (N_of_ascii c + 32) else c.
Definition upperc (c : ascii) : ascii :=
  if between "a"%char "z"%char c then ascii_of_N (N_of_ascii c - 32) else c.

(** ** Strings as sequences *)

Fixpoint smap (f : ascii -> ascii) (s : string) : string :=
  match s with EmptyString => EmptyString | String c s' => String (f c) (smap f s') end.
Fixpoint sforall (p : ascii -> bool) (s : string) : bool :=
  match s with EmptyString => true | String c s' => p c && sforall p s' end.
Fixpoint str_take (n : nat) (s : string) : string :=
  match n, s with
  | S n', String c s' => String c (str_take n' s')
  | _, _ => EmptyString
  end.
Fixpoint str_drop (n : nat) (s : string) : string :=
  match n, s with
  | S n', String _ s' => str_drop n' s'
  | O, _ => s
  | _, EmptyString => EmptyString
  end.
Definition str1 (c : ascii) : string := String c EmptyString.
(** [len(s)] *)
Definition len (s : string) : Z := Z.of_nat (String.length s).
Definition concat_str (l : list string) : string := foldr String.append EmptyString l.

(** ** [strings] *)

Fixpoint HasPrefix (s pre : string) : bool :=
  match pre, s with
  | EmptyString, _ => true
  | String c pre', String d s' => (d =? c)%char && HasPrefix s' pre'
  | _, EmptyString => false
  end.
Definition TrimPrefix (s pre : string) : string :=
  if HasPrefix s pre then str_drop (String.length pre) s else s.
Definition HasSuffix (s suf : string) : bool :=
  (String.length suf <=? String.length s)%nat
  && (str_drop (String.length s - String.length suf) s =? suf)%string.

(** [strings.Index]: the first position where [sub] occurs *)
Fixpoint Index (s sub : string) : option nat :=
  if HasPrefix s sub then Some O
  else match s with
       | EmptyString => None
       | String _ s' => S <$> Index s' sub
       end.
(** [strings.LastIndex] *)
Fixpoint LastIndex (s sub : string) : option nat :=
  match s with
  | EmptyString => if HasPrefix s sub then Some O else None
  | String _ s' =>
      match LastIndex s' sub with
      | Some i => Some (S i)
      | None => if HasPrefix s sub then Some O else None
      end
  end.
Definition Contains (s sub : string) : bool :=
  match Index s sub with Some _ => true | None => false end.

Definition ToLower : string -> string := smap lowerc.
Definition ToUpper : string -> string := smap upperc.

Fixpoint trim_left (s : string) : string :=
  match s with
  | String c s' => if isSpace c then trim_left s' else s
  | EmptyString => EmptyString
  end.
Fixpoint trim_right (s : string) : string :=
  match s with
  | EmptyString => EmptyString
  | String c s' =>
      match trim_right s' with
      | EmptyString => if isSpace c then EmptyString else str1 c
      | t => String c t
      end
  end.
Definition TrimSpace (s : string) : string := trim_right (trim_left s).

(** [strings.ReplaceAll] of one byte by another *)
Definition ReplaceAll (s : string) (old new : ascii) : string :=
  smap (fun c => if (c =? old)%char then new else c) s.

(** [strings.Split] at a one-byte separator; never empty *)
Fixpoint Split (s : string) (sep : ascii) : list string :=
  match s with
  | EmptyString => [EmptyString]
  | String c s' =>
      if (c =? sep)%char then EmptyString :: Split s' sep
      else match Split s' sep with
           | [] => [str1 c]
           | w :: ws => String c w :: ws
           end
  end.

(** [strings.Join] *)
Fixpoint Join (l : list string) (sep : string) : string :=
  match l with
  | [] => EmptyString
  | [w] => w
  | w :: ws => w +:+ sep +:+ Join ws sep
  end.

(** ** Numbers in text *)

Definition digit_val (c : ascii) : Z := code c - 48.

(** the longest run of digits at the front, and what follows it *)
Fixpoint span_digits (s : string) : string * string :=
  match s with
  | String c s' =>
      if isDigit c then let (d, r) := span_digits s' in (String c d, r)
      else (EmptyString, s)
  | EmptyString => (EmptyString, EmptyString)
  end.
Fixpoint digits_val (acc : Z) (s : string) : Z :=
  match s with
  | EmptyString => acc
  | String c s' => digits_val (acc * 10 + digit_val c) s'
  end.

(** an optional sign: whether it is a minus, and the rest *)
Definition read_sign (s : string) : bool * string :=
  match s with
  | String c s' =>
      if (c =? "-")%char then (true, s')
      else if (c =? "+")%char then (false, s') else (false, s)
  | EmptyString => (false, s)
  end.
Definition signed (neg : bool) (v : Z) : Z := if neg then - v else v.
Definition fits64 (z : Z) : bool := (- 2 ^ 63 <=? z) && (z <? 2 ^ 63).

(** [strconv.Atoi]: the value, which is returned with the error too
    (0 for a syntax error, the nearest bound for a range error) *)
Definition Atoi (s : string) : Z * bool :=
  let (neg, t) := read_sign s in
  let (d, rest) := span_digits t in
  if (d =? "")%string || negb (rest =? "")%string then (0, false)
  else let v := signed neg (digits_val 0 d) in
       if fits64 v then (v, true)
       else (if neg then - 2 ^ 63 else 2 ^ 63 - 1, false).

(** [strconv.ParseUint(s, 10, 64)] when it succeeds *)
Definition ParseUint (s : string) : option Z :=
  let (d, rest) := span_digits s in
  if (d =? "")%string || negb (rest =? "")%string then None
  else let v := digits_val 0 d in if v <? 2 ^ 64 then Some v else None.

(** [fmt.Sscanf(s, "%d", &p)]: blanks (not newlines) are skipped, a sign and
    the longest run of digits are read; [p] keeps its value on an error *)
Fixpoint skip_blanks (s : string) : string :=
  match s with
  | String c s' => if isSpace c && negb (c =? NL)%char then skip_blanks s' else s
  | EmptyString => EmptyString
  end.
Definition Sscanf_d (s : string) (p : Z) : Z :=
  let (neg, t) := read_sign (skip_blanks s) in
  let (d, _) := span_digits t in
  if (d =? "")%string then p
  else let v := signed neg (digits_val 0 d) in if fits64 v then v else p.

(** the verb [%d] of [fmt] *)
Definition fmt_d (z : Z) : string := pretty z.

(** the verb [%q] on a string: double quotes, with Go's escapes *)
Definition hex_digit (n : N) : ascii :=
  ascii_of_N (if (n <? 10)%N then n + 48 else n + 87).
Definition quote_char (c : ascii) : string :=
  let n := N_of_ascii c in
  let esc (l : ascii) := String "\" (str1 l) in
  if (c =? DQ)%char then esc DQ
  else if (c =? "\")%char then esc "\"%char
  else if (n =? 7)%N then esc "a"%char else if (n =? 8)%N then esc "b"%char
  else if (n =? 12)%N then esc "f"%char else if (n =? 10)%N then esc "n"%char
  else if (n =? 13)%N then esc "r"%char else if (n =? 9)%N then esc "t"%char
  else if (n =? 11)%N then esc "v"%char
  else if (n <? 32)%N || (n =? 127)%N
       then String "\" (String "x" (String (hex_digit (n / 16)) (str1 (hex_digit (n mod 16)))))
  else str1 c.
Fixpoint quote_body (s : string) : string :=
  match s with
  | EmptyString => EmptyString
  | String c s' => quote_char c +:+ quote_body s'
  end.
Definition fmt_q (s : string) : string := str1 DQ +:+ quote_body s +:+ str1 DQ.

(** ** [unicode/utf8] *)

Definition byte_in (lo hi : Z) (s : string) : bool :=
  match s with String c _ => (lo <=? code c) && (code c <=? hi) | EmptyString => false end.
(** the length of the rune a text starts with, [None] when its bytes are not one *)
Definition rune_len (s : string) : option nat :=
  match s with
  | EmptyString => None
  | String c s1 =>
      let b := code c in
      let s2 := str_drop 1 s1 in
      let s3 := str_drop 1 s2 in
      let second := if b =? 0xE0 then byte_in 0xA0 0xBF s1 else if b =? 0xED then byte_in 0x80 0x9F s1
                    else if b =? 0xF0 then byte_in 0x90 0xBF s1 else if b =? 0xF4 then byte_in 0x80 0x8F s1
                    else byte_in 0x80 0xBF s1 in
      if b <? 0x80 then Some 1%nat
      else if (0xC2 <=? b) && (b <=? 0xDF) && second then Some 2%nat
      else if (0xE0 <=? b) && (b <=? 0xEF) && second && byte_in 0x80 0xBF s2 then Some 3%nat
      else if (0xF0 <=? b) && (b <=? 0xF4) && second && byte_in 0x80 0xBF s2 && byte_in 0x80 0xBF s3 then Some 4%nat
      else None
  end.
(** U+FFFD *)
Definition replacement : string :=
  String (ascii_of_nat 239) (String (ascii_of_nat 191) (str1 (ascii_of_nat 189))).
(** What encoding/json makes of a text: a byte that belongs to no rune becomes
    U+FFFD; [k] bytes are left of the current rune. *)
Fixpoint to_utf8 (k : nat) (s : string) : string :=
  match s with
  | EmptyString => EmptyString
  | String c s' =>
      match k with
      | S k => String c (to_utf8 k s')
      | O => match rune_len s with
             | Some n => String c (to_utf8 (pred n) s')
             | None => replacement +:+ to_utf8 0 s'
             end
      end
  end.
Definition ToUTF8 (s : string) : string := to_utf8 0 s.

Example ToUTF8_ex :
  ToUTF8 (String (ascii_of_nat 195) (str1 (ascii_of_nat 188))) = String (ascii_of_nat 195) (str1 (ascii_of_nat 188))
  /\ ToUTF8 ("a" +:+ String (ascii_of_nat 195) "b") = "a" +:+ replacement +:+ "b".
Proof. vm_compute. auto. Qed.

(** ** Facts about strings *)

Lemma ToUTF8_ascii s : sforall (fun c => code c <? 128) s = true -> ToUTF8 s = s.
Proof.
  unfold ToUTF8. induction s as [|c s IH]; simpl; [done|]. intros [-> Hs]%andb_true_iff. simpl. by rewrite IH.
Qed.

Lemma smap_app f s t : smap f (s +:+ t) = smap f s +:+ smap f t.
Proof. induction s as [|c s IH]; simpl; [done | by rewrite IH]. Qed.

Lemma sforall_app p s t : sforall p (s +:+ t) = sforall p s && sforall p t.
Proof. induction s as [|c s IH]; simpl; [done | by rewrite IH, andb_assoc]. Qed.

Lemma sforall_impl (p q : ascii -> bool) s :
  (forall c, p c = true -> q c = true) -> sforall p s = true -> sforall q s = true.
Proof. intros Hpq. induction s as [|c s IH]; simpl; [done|]. rewrite !andb_true_iff. naive_solver. Qed.

Lemma append_cons c s t : String c s +:+ t = String c (s +:+ t).
Proof. done. Qed.

Lemma append_nil_l t : "" +:+ t = t.
Proof. done. Qed.

Lemma append_nil_r s : s +:+ "" = s.
Proof. induction s as [|c s IH]; [done | by rewrite ?append_cons, IH]. Qed.

Lemma append_assoc s t u : (s +:+ t) +:+ u = s +:+ (t +:+ u).
Proof. induction s as [|c s IH]; [done | by rewrite ?append_cons, IH]. Qed.

Lemma append_length s t : String.length (s +:+ t) = (String.length s + String.length t)%nat.
Proof. induction s as [|c s IH]; [done|]. rewrite append_cons. simpl. by rewrite IH. Qed.

(** [c] does not occur in [s] *)
Definition lacks (c : ascii) (s : string) : bool := sforall (fun d => negb (d =? c)%char) s.

(** A string has one last occurrence of a separator. *)
Lemma last_sep_inj c s1 s2 t1 t2 :
  lacks c t1 = true -> lacks c t2 = true ->
  s1 +:+ String c t1 = s2 +:+ String c t2 -> s1 = s2 /\ t1 = t2.
Proof.
  intros H1 H2. revert s2. induction s1 as [|d s1 IH]; intros [|e s2]; simpl; intros E; simplify_eq.
  - done.
  - unfold lacks in H1. rewrite sforall_app in H1. simpl in H1.
    rewrite Ascii.eqb_refl, andb_false_r in H1. done.
  - unfold lacks in H2. rewrite sforall_app in H2. simpl in H2.
    rewrite Ascii.eqb_refl, andb_false_r in H2. done.
  - edestruct IH as [-> ->]; done.
Qed.

(** All 256 bytes, for facts that are checked on each of them. *)
Definition all_bytes : list ascii := Eval vm_compute in map ascii_of_nat (seq 0 256).

Lemma all_bytes_complete c : In c all_bytes.
Proof.
  change all_bytes with (map ascii_of_nat (seq 0 256)). rewrite <- (ascii_nat_embedding c).
  apply in_map, in_seq. pose proof (nat_ascii_bounded c). lia.
Qed.

Lemma ascii_check (p : ascii -> bool) : forallb p all_bytes = true -> forall c, p c = true.
Proof. rewrite forallb_forall. intros H c. apply H, all_bytes_complete. Qed.

(** ** What [%d] prints *)

Lemma pretty_Z_pos n : 0 < n -> pretty n = pretty_N_go (Z.to_N n) "".
Proof. destruct n; try lia. reflexivity. Qed.

Lemma pretty_Z_neg n : n < 0 -> pretty n = String "-" (pretty_N_go (Z.to_N (- n)) "").
Proof. destruct n; try lia. reflexivity. Qed.

Lemma pretty_N_go_nonempty x : forall s, s <> "" -> pretty_N_go x s <> "".
Proof.
  induction (N.lt_wf_0 x) as [x _ IH]. intros s Hs.
  destruct (decide (x = 0)%N) as [->|Hx]; [by rewrite pretty_N_go_0|].
  rewrite pretty_N_go_step by lia. apply IH; [apply N.div_lt; lia | done].
Qed.

Lemma pretty_N_go_all (p : ascii -> bool) x : forall s,
  (forall d, (d < 10)%N -> p (pretty_N_char d) = true) -> sforall p s = true -> sforall p (pretty_N_go x s) = true.
Proof.
  induction (N.lt_wf_0 x) as [x _ IH]. intros s Hp Hs.
  destruct (decide (x = 0)%N) as [->|Hx]; [by rewrite pretty_N_go_0|].
  rewrite pretty_N_go_step by lia. apply IH; [apply N.div_lt; lia | done |].
  simpl. rewrite Hs, andb_true_r. apply Hp, N.mod_lt. lia.
Qed.

(** a predicate that holds of the ten digits and the minus sign holds of every printed number *)
Lemma fmt_d_all (p : ascii -> bool) z :
  forallb p ["0"; "1"; "2"; "3"; "4"; "5"; "6"; "7"; "8"; "9"; "-"]%char = true -> sforall p (fmt_d z) = true.
Proof.
  rewrite forallb_forall. intros H. unfold fmt_d.
  assert (Hd : forall d, (d < 10)%N -> p (pretty_N_char d) = true).
  { intros d Hd. apply H. do 10 (destruct d as [|d] using N.peano_ind; [simpl; tauto|]; clear IHd). lia. }
  destruct (Z.lt_trichotomy z 0) as [Hz|[->|Hz]].
  - rewrite pretty_Z_neg by done. simpl. rewrite H by (simpl; tauto). simpl. by apply pretty_N_go_all.
  - simpl. rewrite H by (simpl; tauto). done.
  - rewrite pretty_Z_pos by done. by apply pretty_N_go_all.
Qed.

Lemma digits_val_pretty x : forall s, digits_val 0 (pretty_N_go x s) = digits_val (Z.of_N x) s.
Proof.
  induction (N.lt_wf_0 x) as [x _ IH]. intros s.
  destruct (decide (x = 0)%N) as [->|Hx]; [by rewrite pretty_N_go_0|].
  rewrite pretty_N_go_step by lia. rewrite IH by (apply N.div_lt; lia). simpl. f_equal.
  assert (Hd : forall d, (d < 10)%N -> digit_val (pretty_N_char d) = Z.of_N d).
  { intros d Hd. do 10 (destruct d as [|d] using N.peano_ind; [reflexivity|]; clear IHd). lia. }
  rewrite Hd by (apply N.mod_lt; lia). pose proof (N.div_mod x 10). lia.
Qed.

Lemma span_digits_all s : sforall isDigit s = true -> span_digits s = (s, "").
Proof.
  induction s as [|c s IH]; simpl; [done|]. intros [Hc Hs]%andb_true_iff. by rewrite Hc, (IH Hs).
Qed.

Lemma skip_blanks_digit c s : isDigit c = true -> skip_blanks (String c s) = String c s /\ read_sign (String c s) = (false, String c s).
Proof.
  assert (H : forall c, (negb (isDigit c) || (negb (isSpace c) && negb (c =? "-")%char && negb (c =? "+")%char)) = true)
    by (apply ascii_check; vm_compute; reflexivity).
  intros Hc. specialize (H c). rewrite Hc in H. simpl in H. go_bools. simpl. by rewrite H, H1, H0.
Qed.

(** [Sscanf("%d")] reads what [%d] prints *)
Lemma Sscanf_fmt z p : 0 <= z < 2 ^ 63 -> Sscanf_d (fmt_d z) p = z.
Proof.
  intros Hz. assert (Hd : sforall isDigit (fmt_d z) = true /\ digits_val 0 (fmt_d z) = z /\ fmt_d z <> "").
  { unfold fmt_d. destruct (decide (z = 0)) as [->|]; [done|]. rewrite pretty_Z_pos by lia. split_and!.
    - apply pretty_N_go_all; [|done]. intros d Hd.
      do 10 (destruct d as [|d] using N.peano_ind; [reflexivity|]; clear IHd). lia.
    - rewrite digits_val_pretty. simpl. lia.
    - rewrite pretty_N_go_step by lia. by apply pretty_N_go_nonempty. }
  destruct Hd as (Hd & Hv & Hn). unfold Sscanf_d. destruct (fmt_d z) as [|c s] eqn:E; [done|].
  assert (Hc : isDigit c = true) by (simpl in Hd; by apply andb_true_iff in Hd as [? _]).
  destruct (skip_blanks_digit c s Hc) as [-> ->]. rewrite (span_digits_all _ Hd).
  change (String c s =? "")%string with false. cbv iota. cbn [signed]. rewrite Hv.
  unfold fits64. destruct (Z.leb_spec (-2 ^ 63) z), (Z.ltb_spec z (2 ^ 63)); lia || done.
Qed.

(** ** Pieces of a string *)

Lemma sforall_take p n s : sforall p s = true -> sforall p (str_take n s) = true.
Proof.
  revert s. induction n as [|n IH]; intros [|c s]; simpl; try done.
  intros [-> ?]%andb_true_iff. by apply IH.
Qed.

Lemma sforall_drop p n s : sforall p s = true -> sforall p (str_drop n s) = true.
Proof.
  revert s. induction n as [|n IH]; intros [|c s]; simpl; try done.
  intros [_ ?]%andb_true_iff. by apply IH.
Qed.

Lemma sforall_TrimPrefix p s pre : sforall p s = true -> sforall p (TrimPrefix s pre) = true.
Proof. unfold TrimPrefix. case_match; [apply sforall_drop | done]. Qed.

Lemma sforall_trim p s : sforall p s = true -> sforall p (TrimSpace s) = true.
Proof.
  intros H. unfold TrimSpace.
  assert (Hl : sforall p (trim_left s) = true).
  { induction s as [|c s IH]; simpl in *; [done|]. apply andb_true_iff in H as [Hc Hs].
    destruct (isSpace c); [by apply IH|]. simpl. by rewrite Hc. }
  revert Hl. generalize (trim_left s). clear. intros s.
  induction s as [|c s IH]; simpl; [done|]. intros [Hc Hs]%andb_true_iff.
  destruct (trim_right s) as [|d t]; [destruct (isSpace c); simpl; by rewrite ?Hc|].
  simpl in *. by rewrite Hc, IH.
Qed.

(** A string without white space at its ends is its own trim. *)
Lemma TrimSpace_none s : sforall (fun c => negb (isSpace c)) s = true -> TrimSpace s = s.
Proof.
  intros H. unfold TrimSpace.
  assert (trim_left s = s) as ->.
  { destruct s as [|c s]; simpl in *; [done|]. by apply andb_true_iff in H as [->%negb_true_iff _]. }
  induction s as [|c s IH]; simpl in *; [done|]. apply andb_true_iff in H as [Hc%negb_true_iff Hs].
  rewrite (IH Hs), Hc. by destruct s.
Qed.

(** Trimming again changes nothing. *)
Lemma trim_right_idem s : trim_right (trim_right s) = trim_right s.
Proof.
  induction s as [|c s IH]; simpl; [done|]. destruct (trim_right s) as [|d t] eqn:E.
  - destruct (isSpace c) eqn:Hc; simpl; by rewrite ?Hc.
  - cbn [trim_right] in *. by rewrite IH.
Qed.
Lemma trim_left_head s : match trim_left s with String c _ => isSpace c = false | EmptyString => True end.
Proof. induction s as [|c s IH]; simpl; [done|]. by destruct (isSpace c) eqn:E. Qed.
Lemma TrimSpace_idem s : TrimSpace (TrimSpace s) = TrimSpace s.
Proof.
  unfold TrimSpace. pose proof (trim_left_head s) as H. destruct (trim_left s) as [|c t]; [done|].
  assert (Hl : trim_left (trim_right (String c t)) = trim_right (String c t)).
  { cbn [trim_right]. destruct (trim_right t); rewrite ?H; simpl; by rewrite H. }
  rewrite Hl. apply trim_right_idem.
Qed.

Lemma Split_lacks c s : lacks c s = true -> Split s c = [s].
Proof.
  unfold lacks. induction s as [|d s IH]; simpl; [done|]. intros [Hd%negb_true_iff Hs]%andb_true_iff.
  by rewrite Hd, IH.
Qed.
Lemma Split_cons c s t : lacks c s = true -> Split (s +:+ String c t) c = s :: Split t c.
Proof.
  unfold lacks. induction s as [|d s IH]; [by simpl; rewrite Ascii.eqb_refl|]. rewrite append_cons. simpl.
  intros [Hd%negb_true_iff Hs]%andb_true_iff. by rewrite Hd, IH.
Qed.
