(* ===== verification/GoPath.v ===== *)
(** Go's path/filepath on Unix, as far as the program uses it: [Clean], [Join]
    of two elements and [Dir]; and the cleaning of a URL path by net/http. *)
From S2P Require Import Prelude GoStrings.

(** the elements of a path that [Clean] keeps, the last one first *)
Fixpoint clean_elems (rooted : bool) (kept : list string) (elems : list string) : list string :=
  match elems with
  | [] => kept
  | e :: elems =>
      if (e =? "")%string || (e =? ".")%string then clean_elems rooted kept elems
      else if (e =? "..")%string then
        match kept with
        | k :: kept' => if (k =? "..")%string then clean_elems rooted (e :: kept) elems else clean_elems rooted kept' elems
        | [] => clean_elems rooted (if rooted then [] else [e]) elems
        end
      else clean_elems rooted (e :: kept) elems
  end.
Definition Clean (path : string) : string :=
  if (path =? "")%string then "."
  else
    let rooted := HasPrefix path "/" in
    let body := Join (rev (clean_elems rooted [] (Split path "/"))) "/" in
    if rooted then "/" +:+ body else if (body =? "")%string then "." else body.

Definition filepath_Join (a b : string) : string :=
  if negb (a =? "")%string then Clean (a +:+ "/" +:+ b) else if negb (b =? "")%string then Clean b else "".
Definition Dir (path : string) : string :=
  Clean (match LastIndex path "/" with Some i => str_take (S i) path | None => "" end).

(** net/http's [cleanPath], which keeps a slash at the end *)
Definition cleanPath (p : string) : string :=
  if (p =? "")%string then "/"
  else
    let p := if HasPrefix p "/" then p else "/" +:+ p in
    let np := Clean p in
    if HasSuffix p "/" && negb (np =? "/")%string then np +:+ "/" else np.

Example Clean_ex :
  map Clean [""; "/"; "a//b/./c"; "/../a"; "../../a/.."; "a/b/../.."; "/etc/unbound/"]
  = ["."; "/"; "a/b/c"; "/a"; "../.."; "."; "/etc/unbound"].
Proof. vm_compute. reflexivity. Qed.
Example Join_Dir_ex :
  filepath_Join "/etc/unbound/" "unbound.conf" = "/etc/unbound/unbound.conf"
  /\ filepath_Join (Dir "/config/dnsforwarder.yml") "audit.log" = "/config/audit.log" /\ Dir "x.yml" = "."
  /\ cleanPath "/base//peer/v1/items" = "/base/peer/v1/items" /\ cleanPath "/peer/v1/items" = "/peer/v1/items".
Proof. vm_compute. auto. Qed.
