(* ===== verification/Regex.v ===== *)
(** Go's [regexp] as far as config.go uses it: byte classes, literals,
    sequence, [?], [*], [+] and counted repetition, always anchored at both
    ends.  [re_match] is executable (derivatives); [lang] is the language it
    decides. *)
From S2P Require Import Prelude GoStrings.

Inductive re : Type :=
  | Void
  | Eps
  | Cls (ranges : list (ascii * ascii))
  | Seq (r s : re)
  | Alt (r s : re)
  | Star (r : re).

Definition in_cls (ranges : list (ascii * ascii)) (c : ascii) : bool :=
  existsb (fun '(lo, hi) => between lo hi c) ranges.

(** ** The language of an expression *)

Inductive lang : re -> list ascii -> Prop :=
  | lang_eps : lang Eps []
  | lang_cls ranges c : in_cls ranges c = true -> lang (Cls ranges) [c]
  | lang_seq r s u v : lang r u -> lang s v -> lang (Seq r s) (u ++ v)
  | lang_alt_l r s u : lang r u -> lang (Alt r s) u
  | lang_alt_r r s u : lang s u -> lang (Alt r s) u
  | lang_star_nil r : lang (Star r) []
  | lang_star_app r u v : lang r u -> lang (Star r) v -> lang (Star r) (u ++ v).

(** ** The matcher *)

Fixpoint nullable (r : re) : bool :=
  match r with
  | Void | Cls _ => false
  | Eps | Star _ => true
  | Seq r s => nullable r && nullable s
  | Alt r s => nullable r || nullable s
  end.

Definition mkSeq (r s : re) : re :=
  match r with Void => Void | Eps => s | _ => match s with Void => Void | _ => Seq r s end end.
Definition mkAlt (r s : re) : re :=
  match r with Void => s | _ => match s with Void => r | _ => Alt r s end end.

Fixpoint der (c : ascii) (r : re) : re :=
  match r with
  | Void | Eps => Void
  | Cls ranges => if in_cls ranges c then Eps else Void
  | Seq r s =>
      if nullable r then mkAlt (mkSeq (der c r) s) (der c s) else mkSeq (der c r) s
  | Alt r s => mkAlt (der c r) (der c s)
  | Star r => mkSeq (der c r) (Star r)
  end.

Definition re_match (r : re) (s : string) : bool :=
  nullable (foldl (fun r c => der c r) r (String.list_ascii_of_string s)).

(** ** Derived forms *)

Definition Opt (r : re) : re := Alt r Eps.
Definition Plus (r : re) : re := Seq r (Star r).
Fixpoint Times (n : nat) (r : re) : re :=
  match n with O => Eps | S n' => Seq r (Times n' r) end.
Fixpoint Upto (n : nat) (r : re) : re :=
  match n with O => Eps | S n' => Opt (Seq r (Upto n' r)) end.
(** [r{lo,hi}] *)
Definition Rep (lo hi : nat) (r : re) : re := Seq (Times lo r) (Upto (hi - lo) r).
(** [r{lo,}] *)
Definition AtLeast (lo : nat) (r : re) : re := Seq (Times lo r) (Star r).
Definition Chr (c : ascii) : re := Cls [(c, c)].

(** ** The matcher decides the language *)

Section matcher.
Implicit Types r s : re.

Lemma nullable_lang r : nullable r = true <-> lang r [].
Proof.
  split.
  - induction r; simpl; intros H; try discriminate.
    + constructor.
    + apply andb_true_iff in H as [??]. apply (lang_seq _ _ [] []); auto.
    + apply orb_true_iff in H as [?|?]; [apply lang_alt_l | apply lang_alt_r]; auto.
    + constructor.
  - remember [] as u eqn:E. intros H. revert E.
    induction H; intros E; simpl; try done.
    + apply app_eq_nil in E as [-> ->]. by rewrite IHlang1, IHlang2.
    + by rewrite IHlang.
    + rewrite IHlang by done. apply orb_true_r.
Qed.

Lemma lang_void u : ~ lang Void u.
Proof. by inversion 1. Qed.
Lemma lang_eps_inv u : lang Eps u -> u = [].
Proof. by inversion 1. Qed.
Lemma lang_seq_inv r s u : lang (Seq r s) u -> exists v w, u = v ++ w /\ lang r v /\ lang s w.
Proof. inversion 1; subst; eauto. Qed.
Lemma lang_alt_inv r s u : lang (Alt r s) u <-> lang r u \/ lang s u.
Proof. split; [inversion 1; auto | intros [?|?]; [by apply lang_alt_l | by apply lang_alt_r]]. Qed.
Lemma lang_seq_eps s u : lang (Seq Eps s) u <-> lang s u.
Proof.
  split.
  - intros (v & w & -> & ->%lang_eps_inv & ?)%lang_seq_inv. done.
  - intros. apply (lang_seq _ _ [] u); [constructor | done].
Qed.

Lemma mkSeq_lang r s u : lang (mkSeq r s) u <-> lang (Seq r s) u.
Proof.
  assert (Hv : forall r, lang (Seq r Void) u <-> lang Void u).
  { split; [intros (?&?&_&_&H)%lang_seq_inv | intros H]; by apply lang_void in H. }
  destruct r; simpl; rewrite ?lang_seq_eps; try done; try (destruct s; by rewrite ?Hv).
  split; [intros H | intros (?&?&_&H&_)%lang_seq_inv]; by apply lang_void in H.
Qed.

Lemma mkAlt_lang r s u : lang (mkAlt r s) u <-> lang (Alt r s) u.
Proof.
  pose proof (lang_void u). destruct r, s; simpl; rewrite ?lang_alt_inv; tauto.
Qed.

Lemma der_lang c r u : lang (der c r) u <-> lang r (c :: u).
Proof.
  revert u. induction r as [| |rs|r IHr s IHs|r IHr s IHs|r IHr]; intros u; simpl.
  - split; intros H; by apply lang_void in H.
  - split; intros H; [by apply lang_void in H | inversion H].
  - destruct (in_cls rs c) eqn:E; split; intros H.
    + apply lang_eps_inv in H as ->. by constructor.
    + inversion H; subst. constructor.
    + by apply lang_void in H.
    + inversion H; subst. congruence.
  - assert (Hl : lang (mkSeq (der c r) s) u <->
                 exists v w, u = v ++ w /\ lang r (c :: v) /\ lang s w).
    { rewrite mkSeq_lang. setoid_rewrite <- IHr. split; [apply lang_seq_inv|].
      intros (v & w & -> & ? & ?). by constructor. }
    assert (Hs : lang (Seq r s) (c :: u) <->
                 (exists v w, u = v ++ w /\ lang r (c :: v) /\ lang s w)
                 \/ (lang r [] /\ lang s (c :: u))).
    { split.
      - intros ([|d v] & w & E & ? & ?)%lang_seq_inv; simplify_eq/=; [by right|].
        left; eauto.
      - intros [(v & w & -> & ? & ?)|[? ?]].
        + by apply (lang_seq r s (c :: v) w).
        + by apply (lang_seq r s [] (c :: u)). }
    destruct (nullable r) eqn:E.
    + rewrite mkAlt_lang, lang_alt_inv, Hl, IHs, Hs. apply nullable_lang in E. tauto.
    + rewrite Hl, Hs. split; [auto | intros [?|[H ?]]; [done|]].
      apply nullable_lang in H. congruence.
  - by rewrite mkAlt_lang, !lang_alt_inv, IHr, IHs.
  - rewrite mkSeq_lang. split.
    + intros (v & w & -> & H & ?)%lang_seq_inv. apply IHr in H.
      by apply (lang_star_app r (c :: v) w).
    + intros H. remember (Star r) as t eqn:Et. remember (c :: u) as cu eqn:E.
      revert E. induction H as [| | | | | |r' v w Hv _ Hw IH]; intros E; simplify_eq/=.
      destruct v as [|d v]; simplify_eq/=; [by apply IH|].
      constructor; [by apply IHr | done].
Qed.

Theorem re_match_lang r (s : string) :
  re_match r s = true <-> lang r (String.list_ascii_of_string s).
Proof.
  unfold re_match. generalize (String.list_ascii_of_string s) as u. intros u.
  revert r. induction u as [|c u IH]; intros r; simpl; [apply nullable_lang|].
  by rewrite IH, der_lang.
Qed.
End matcher.

(** ** Every byte of a match is in one of the classes *)

Definition cls_bytes (p : ascii -> bool) (ranges : list (ascii * ascii)) : bool :=
  forallb (fun c => negb (in_cls ranges c) || p c) all_bytes.

Lemma cls_bytes_spec p ranges c :
  cls_bytes p ranges = true -> in_cls ranges c = true -> p c = true.
Proof.
  unfold cls_bytes. intros H Hc. pose proof (ascii_check _ H c) as E. cbv beta in E.
  by rewrite Hc in E.
Qed.

Fixpoint re_bytes (p : ascii -> bool) (r : re) : bool :=
  match r with
  | Void | Eps => true
  | Cls ranges => cls_bytes p ranges
  | Seq r s | Alt r s => re_bytes p r && re_bytes p s
  | Star r => re_bytes p r
  end.

Lemma lang_bytes p r u : re_bytes p r = true -> lang r u -> Forall (fun c => p c = true) u.
Proof.
  intros Hp H. induction H; simpl in *; rewrite ?andb_true_iff, ?Forall_app in *;
    intuition eauto using cls_bytes_spec.
Qed.

Lemma re_match_bytes p r s :
  re_bytes p r = true -> re_match r s = true -> sforall p s = true.
Proof.
  intros Hp H%re_match_lang. apply (lang_bytes p) in H; [|done].
  clear Hp. induction s as [|c s IH]; [done|]. simpl in *.
  inversion H; subst. apply andb_true_iff; auto.
Qed.
