(* ===== verification/GoTime.v ===== *)
(** Go's [time.Time] and [time.Duration].  A [Time] is the number of
    nanoseconds since 1 January of year 1, UTC, so that the zero Time is 0; a
    [Duration] is an int64 number of nanoseconds, and [Sub] saturates. *)
From S2P Require Import Prelude.

(** Plain abbreviations, so that [lia] works on times. *)
Abbreviation Time := Z (only parsing).
Abbreviation Duration := Z (only parsing).

Definition minDuration : Duration := - 2 ^ 63.
Definition maxDuration : Duration := 2 ^ 63 - 1.
Definition Millisecond : Duration := 1000000.
Definition Second : Duration := 1000 * Millisecond.
Definition Minute : Duration := 60 * Second.

Definition IsZero (t : Time) : bool := t =? 0.
Definition After (t u : Time) : bool := u <? t.
Definition Before (t u : Time) : bool := t <? u.
Definition Equal (t u : Time) : bool := t =? u.

(** [t.Sub(u)] *)
Definition Sub (t u : Time) : Duration := Z.max minDuration (Z.min maxDuration (t - u)).
(** [time.Since(t)] at the moment [now] *)
Definition Since (now t : Time) : Duration := Sub now t.
(** [time.Duration(n) * unit]: a product of int64s *)
Definition times (n unit : Z) : Duration := wrap64 (n * unit).

(** [dt < -skew || dt > skew], the test of both skew windows *)
Definition outside (skew dt : Duration) : bool := (dt <? wrap64 (- skew)) || (skew <? dt).

Lemma Sub_range t u : in64 (Sub t u).
Proof. unfold Sub, in64, minDuration, maxDuration. lia. Qed.

Lemma Sub_exact t u : in64 (t - u) -> Sub t u = t - u.
Proof. unfold Sub, in64, minDuration, maxDuration. lia. Qed.

(** For a positive skew the window test is the distance test, saturation included. *)
Lemma outside_Sub skew t u :
  0 < skew < maxDuration ->
  outside skew (Sub t u) = (skew <? Z.abs (t - u)).
Proof.
  unfold outside, Sub, minDuration, maxDuration. intros H.
  rewrite wrap64_id by (unfold in64; lia).
  destruct (Z.ltb_spec skew (Z.abs (t - u))); [apply orb_true_iff | apply orb_false_iff];
    rewrite ?Z.ltb_lt, ?Z.ltb_ge; lia.
Qed.
