(* ===== verification/Config.v ===== *)
(** The configuration file of internal/config/config.go: its data, defaults,
    peer selection, validation and copying. *)
From S2P Require Import Prelude GoStrings Regex GoTime.

(** ** Data *)

Definition CurrentVersion : Z := 1.

Record Settings := {
  CacheSize : Z;
  DNSSEC : bool;
  LogQueries : bool;
  HTTPListen : string;
  DNSListen : string;
  PollSeconds : Z;
}.

Record PeerStatus := {
  LastContact : Time;
  LastSeq : Z;
  LastError : string;
  LastAction : string;
}.

Record Peer := {
  p_Name : string;
  p_URL : string;
  p_Enabled : bool;
  p_Status : PeerStatus;
}.

Record Peers := {
  Listen : string;
  SharedKey : string;
  SyncIntervalSeconds : Z;
  ClockSkewSeconds : Z;
  List : list Peer;
}.

Record UpstreamDefault := {
  u_Address : string;
  u_Port : Z;
  u_Enabled : bool;
  u_Note : string;
  u_DoNotSync : bool;
  u_SyncPeers : list string;
  u_UpdatedAt : Time;
  u_UpdatedBy : string;
  u_Deleted : bool;
}.

Record ForwardZone := {
  z_ID : string;
  z_Name : string;
  z_Wildcard : bool;
  z_Upstreams : list string;
  z_LeastLatency : bool;
  z_LatencyTestFrequency : Z;
  z_DoNotSync : bool;
  z_SyncPeers : list string;
  z_UpdatedAt : Time;
  z_UpdatedBy : string;
  z_Deleted : bool;
}.

Record StaticRecord := {
  r_ID : string;
  r_Name : string;
  r_Type : string;
  r_Value : string;
  r_TTL : Z;
  r_DoNotSync : bool;
  r_SyncPeers : list string;
  r_UpdatedAt : Time;
  r_UpdatedBy : string;
  r_Deleted : bool;
}.

(** [UpstreamDefaults] is the one slice the code compares with nil. *)
Record File := {
  Version : Z;
  Updated : Time;
  UpdatedBy : string;
  f_Settings : Settings;
  f_Peers : Peers;
  UpstreamDefaults : option (list UpstreamDefault);
  ForwardZones : list ForwardZone;
  StaticRecords : list StaticRecord;
  DoNotSyncSettings : bool;
}.

#[export] Instance settings_settable : Settable Settings := fun s =>
  {| CacheSize := s.(CacheSize); DNSSEC := s.(DNSSEC); LogQueries := s.(LogQueries);
     HTTPListen := s.(HTTPListen); DNSListen := s.(DNSListen); PollSeconds := s.(PollSeconds) |}.
#[export] Instance peerstatus_settable : Settable PeerStatus := fun p =>
  {| LastContact := p.(LastContact); LastSeq := p.(LastSeq);
     LastError := p.(LastError); LastAction := p.(LastAction) |}.
#[export] Instance peer_settable : Settable Peer := fun p =>
  {| p_Name := p.(p_Name); p_URL := p.(p_URL); p_Enabled := p.(p_Enabled); p_Status := p.(p_Status) |}.
#[export] Instance peers_settable : Settable Peers := fun p =>
  {| Listen := p.(Listen); SharedKey := p.(SharedKey);
     SyncIntervalSeconds := p.(SyncIntervalSeconds);
     ClockSkewSeconds := p.(ClockSkewSeconds); List := p.(List) |}.
#[export] Instance upstream_settable : Settable UpstreamDefault := fun u =>
  {| u_Address := u.(u_Address); u_Port := u.(u_Port); u_Enabled := u.(u_Enabled);
     u_Note := u.(u_Note); u_DoNotSync := u.(u_DoNotSync); u_SyncPeers := u.(u_SyncPeers);
     u_UpdatedAt := u.(u_UpdatedAt); u_UpdatedBy := u.(u_UpdatedBy); u_Deleted := u.(u_Deleted) |}.
#[export] Instance zone_settable : Settable ForwardZone := fun z =>
  {| z_ID := z.(z_ID); z_Name := z.(z_Name); z_Wildcard := z.(z_Wildcard);
     z_Upstreams := z.(z_Upstreams); z_LeastLatency := z.(z_LeastLatency);
     z_LatencyTestFrequency := z.(z_LatencyTestFrequency); z_DoNotSync := z.(z_DoNotSync);
     z_SyncPeers := z.(z_SyncPeers); z_UpdatedAt := z.(z_UpdatedAt);
     z_UpdatedBy := z.(z_UpdatedBy); z_Deleted := z.(z_Deleted) |}.
#[export] Instance record_settable : Settable StaticRecord := fun r =>
  {| r_ID := r.(r_ID); r_Name := r.(r_Name); r_Type := r.(r_Type); r_Value := r.(r_Value);
     r_TTL := r.(r_TTL); r_DoNotSync := r.(r_DoNotSync); r_SyncPeers := r.(r_SyncPeers);
     r_UpdatedAt := r.(r_UpdatedAt); r_UpdatedBy := r.(r_UpdatedBy); r_Deleted := r.(r_Deleted) |}.
#[export] Instance file_settable : Settable File := fun f =>
  {| Version := f.(Version); Updated := f.(Updated); UpdatedBy := f.(UpdatedBy);
     f_Settings := f.(f_Settings); f_Peers := f.(f_Peers);
     UpstreamDefaults := f.(UpstreamDefaults); ForwardZones := f.(ForwardZones);
     StaticRecords := f.(StaticRecords); DoNotSyncSettings := f.(DoNotSyncSettings) |}.

(** ** Defaults *)

Definition Settings_WithDefaults (s : Settings) : Settings :=
  let out := s in
  let out := if out.(CacheSize) =? 0 then out <| CacheSize := 1000 |> else out in
  let out := if (out.(HTTPListen) =? "")%string then out <| HTTPListen := "0.0.0.0:80" |> else out in
  let out := if (out.(DNSListen) =? "")%string then out <| DNSListen := "0.0.0.0:53" |> else out in
  if out.(PollSeconds) =? 0 then out <| PollSeconds := 10 |> else out.

Definition Peers_WithDefaults (p : Peers) : Peers :=
  let out := p in
  let out := if (out.(Listen) =? "")%string then out <| Listen := "0.0.0.0:8443" |> else out in
  let out := if out.(SyncIntervalSeconds) =? 0 then out <| SyncIntervalSeconds := 300 |> else out in
  let out := if out.(SyncIntervalSeconds) <? 10 then out <| SyncIntervalSeconds := 10 |> else out in
  if out.(ClockSkewSeconds) =? 0 then out <| ClockSkewSeconds := 300 |> else out.

Definition Upstream_defaults (u : UpstreamDefault) : UpstreamDefault :=
  if u.(u_Port) =? 0 then u <| u_Port := 53 |> else u.

Definition UpstreamDefault_String (u : UpstreamDefault) : string :=
  u.(u_Address) +:+ ":" +:+ fmt_d u.(u_Port).

(** ** Which peers an item goes to *)

Definition SyncsToPeer (doNotSync : bool) (syncPeers : list string) (peerName : string) : bool :=
  if doNotSync then false
  else match syncPeers with
       | [] => true
       | _ =>
           let peerName := ToLower (TrimSpace peerName) in
           existsb (fun p => (ToLower (TrimSpace p) =? peerName)%string) syncPeers
       end.

(** ** The patterns of Validate *)

Definition alnum : re :=
  Cls [("a", "z"); ("A", "Z"); ("0", "9")]%char.
Definition alnum_dash : re :=
  Cls [("a", "z"); ("A", "Z"); ("0", "9"); ("-", "-")]%char.
Definition alpha : re := Cls [("a", "z"); ("A", "Z")]%char.
Definition digit : re := Cls [("0", "9")]%char.
Definition star_dot : re := Opt (Seq (Chr "*") (Chr ".")).
(** [[a-zA-Z0-9]([a-zA-Z0-9-]{0,61}[a-zA-Z0-9])?] *)
Definition label : re := Seq alnum (Opt (Seq (Rep 0 61 alnum_dash) alnum)).
Definition label_dot : re := Seq label (Chr ".").

Definition domainRe : re := Seq star_dot (Seq (Plus label_dot) (AtLeast 2 alpha)).
Definition labelRe : re := Seq star_dot label.
Definition dnsNameRe : re := Seq star_dot (Seq (Star label_dot) label).
Definition ipv4Re : re := Seq (Rep 3 3 (Seq (Rep 1 3 digit) (Chr "."))) (Rep 1 3 digit).
Definition ipv6Re : re := Plus (Cls [("0", "9"); ("a", "f"); ("A", "F"); (":", ":")]%char).
Definition hostnameRe : re := Seq (Plus label_dot) label.
