(* ===== verification/Validate.v ===== *)
(** [File.Validate], [Snapshot] and [Clone] of internal/config/config.go, with
    the errors in the order of the source's checks. *)
From S2P Require Import Prelude GoStrings Regex GoTime Config.

(** ** Errors *)

Inductive ConfigError :=
  | EUpstreamsRequired
  | EUpstreamAddress (i : nat) (addr : string)
  | EUpstreamPort (i : nat)
  | EAllDisabled
  | ENoRoute
  | EZoneID (i : nat)
  | EZoneName (i : nat) (name : string)
  | EZoneDuplicate (i : nat) (name : string)
  | EWildcardNoStar (i : nat)
  | EStarNoWildcard (i : nat)
  | EZoneNoUpstream (i : nat) (name : string)
  | ELeastLatencyWildcard (i : nat) (name : string)
  | EZoneUpstream (i : nat) (name up : string) (j : nat)
  | ERecordID (i : nat)
  | ERecordName (i : nat) (name : string)
  | ERecordDuplicate (i : nat) (type name : string)
  | ERecordA (i : nat) (name value : string)
  | ERecordAAAA (i : nat) (name value : string)
  | ERecordCNAME (i : nat) (name value : string)
  | ERecordType (i : nat) (name type : string).

Definition fmt_i (i : nat) : string := fmt_d (Z.of_nat i).

(** the text of the error *)
Definition ConfigError_Error (e : ConfigError) : string :=
  let fz i := "forward_zones[" +:+ fmt_i i +:+ "]" in
  let sr i := "static_records[" +:+ fmt_i i +:+ "]" in
  let ud i := "upstream_defaults[" +:+ fmt_i i +:+ "]" in
  match e with
  | EUpstreamsRequired => "upstream_defaults is required (use an empty list if you only forward to specific zones)"
  | EUpstreamAddress i a => ud i +:+ ".address: invalid IP " +:+ fmt_q a
  | EUpstreamPort i => ud i +:+ ".port: out of range"
  | EAllDisabled => "upstream_defaults has entries but all are disabled and there are no forward_zones; either enable one, remove them, or add a forward zone"
  | ENoRoute => "no upstream_defaults and no forward_zones: every query would be refused"
  | EZoneID i => fz i +:+ ": id is required"
  | EZoneName i n => fz i +:+ ".name: invalid domain " +:+ fmt_q n
  | EZoneDuplicate i n => fz i +:+ ": duplicate zone " +:+ fmt_q n
  | EWildcardNoStar i => fz i +:+ ": wildcard=true but name does not start with '*."
  | EStarNoWildcard i => fz i +:+ ": name starts with '*. but wildcard=false"
  | EZoneNoUpstream i n => fz i +:+ " " +:+ fmt_q n +:+ ": at least one upstream required"
  | ELeastLatencyWildcard i n =>
      fz i +:+ " " +:+ fmt_q n +:+ ": least latency is only available for exact (non-wildcard) names"
  | EZoneUpstream i n up j =>
      fz i +:+ " " +:+ fmt_q n +:+ ": invalid upstream " +:+ fmt_q up +:+ " at index " +:+ fmt_i j
  | ERecordID i => sr i +:+ ": id is required"
  | ERecordName i n => sr i +:+ ".name: invalid " +:+ fmt_q n
  | ERecordDuplicate i t n => sr i +:+ ": duplicate " +:+ t +:+ " " +:+ n
  | ERecordA i n v => sr i +:+ " " +:+ n +:+ ": A record needs IPv4, got " +:+ fmt_q v
  | ERecordAAAA i n v => sr i +:+ " " +:+ n +:+ ": AAAA record needs IPv6, got " +:+ fmt_q v
  | ERecordCNAME i n v => sr i +:+ " " +:+ n +:+ ": CNAME target invalid " +:+ fmt_q v
  | ERecordType i n t => sr i +:+ " " +:+ n +:+ ": unsupported type " +:+ fmt_q t +:+ " (A, AAAA, CNAME)"
  end.

(** ** Validate *)

Definition valid_ip (s : string) : bool := re_match ipv4Re s || re_match ipv6Re s.
Definition valid_upstream (s : string) : bool :=
  re_match ipv4Re s || re_match ipv6Re s || re_match hostnameRe s.
Definition port_ok (p : Z) : bool := negb ((p <=? 0) || (65535 <? p)).

(** The first loop: every entry gets its default port in place; the number of
    enabled live entries is returned. *)
Fixpoint validate_upstreams (i : nat) (us : list UpstreamDefault) (enabledCount : nat)
    : result ConfigError (list UpstreamDefault * nat) :=
  match us with
  | [] => Ok ([], enabledCount)
  | u :: us =>
      let u := Upstream_defaults u in
      let continue cnt :=
        let? (us', n) := validate_upstreams (S i) us cnt in Ok (u :: us', n) in
      if u.(u_Deleted) then continue enabledCount
      else ensure valid_ip u.(u_Address) else EUpstreamAddress i u.(u_Address);;
           ensure port_ok u.(u_Port) else EUpstreamPort i;;
           continue (if u.(u_Enabled) then S enabledCount else enabledCount)
  end.

Fixpoint validate_zone_upstreams (i : nat) (name : string) (j : nat) (ups : list string)
    : result ConfigError unit :=
  match ups with
  | [] => Ok tt
  | up :: ups =>
      ensure valid_upstream up else EZoneUpstream i name up j;;
      validate_zone_upstreams i name (S j) ups
  end.

(** What the loop body normalises in its copy of the zone: a wildcard on a
    single label, and the latency test frequency. *)
Definition single_label_copy (z : ForwardZone) : ForwardZone :=
  if z.(z_Wildcard) && negb (Contains (TrimPrefix z.(z_Name) "*.") ".")
  then z <| z_Wildcard := false |> else z.
Definition frequency_copy (z : ForwardZone) : ForwardZone :=
  if z.(z_LeastLatency) then
    let z := if z.(z_LatencyTestFrequency) <=? 0 then z <| z_LatencyTestFrequency := 5 |> else z in
    if z.(z_LatencyTestFrequency) <? 1 then z <| z_LatencyTestFrequency := 1 |> else z
  else z.

(** The body of the zone loop: the new [seenZones], and the loop's own copy of
    the zone with what was normalised in it. *)
Definition validate_zone (i : nat) (seenZones : gset string) (z : ForwardZone)
    : result ConfigError (gset string * ForwardZone) :=
  ensure negb (z.(z_ID) =? "")%string else EZoneID i;;
  let cleanName := TrimPrefix z.(z_Name) "*." in
  ensure re_match domainRe z.(z_Name) || re_match labelRe z.(z_Name)
    else EZoneName i z.(z_Name);;
  ensure z.(z_Deleted) || negb (bool_decide (cleanName ∈ seenZones))
    else EZoneDuplicate i cleanName;;
  let seenZones := if z.(z_Deleted) then seenZones else {[cleanName]} ∪ seenZones in
  ensure negb (z.(z_Wildcard) && negb (HasPrefix z.(z_Name) "*.")) else EWildcardNoStar i;;
  ensure negb (negb z.(z_Wildcard) && HasPrefix z.(z_Name) "*.") else EStarNoWildcard i;;
  let z := single_label_copy z in
  ensure negb (Nat.eqb (length z.(z_Upstreams)) 0) else EZoneNoUpstream i z.(z_Name);;
  ensure negb (z.(z_LeastLatency) && z.(z_Wildcard)) else ELeastLatencyWildcard i z.(z_Name);;
  let z := frequency_copy z in
  let? _ := validate_zone_upstreams i z.(z_Name) 0 z.(z_Upstreams) in
  Ok (seenZones, z).

(** [for i, z := range f.ForwardZones]: [z] is a copy, so what the body
    changes in it is lost. *)
Fixpoint validate_zones (i : nat) (seenZones : gset string) (zs : list ForwardZone)
    : result ConfigError unit :=
  match zs with
  | [] => Ok tt
  | z :: zs =>
      let? (seenZones, _) := validate_zone i seenZones z in
      validate_zones (S i) seenZones zs
  end.

Definition record_key (r : StaticRecord) : string :=
  ToLower r.(r_Name) +:+ "|" +:+ ToUpper r.(r_Type).

Definition validate_value (i : nat) (r : StaticRecord) : result ConfigError unit :=
  let t := ToUpper r.(r_Type) in
  if (t =? "A")%string then
    ensure re_match ipv4Re r.(r_Value) else ERecordA i r.(r_Name) r.(r_Value);; Ok tt
  else if (t =? "AAAA")%string then
    ensure re_match ipv6Re r.(r_Value) else ERecordAAAA i r.(r_Name) r.(r_Value);; Ok tt
  else if (t =? "CNAME")%string then
    ensure re_match hostnameRe r.(r_Value) else ERecordCNAME i r.(r_Name) r.(r_Value);; Ok tt
  else Err (ERecordType i r.(r_Name) r.(r_Type)).

Fixpoint validate_records (i : nat) (seenRecs : gset string) (rs : list StaticRecord)
    : result ConfigError unit :=
  match rs with
  | [] => Ok tt
  | r :: rs =>
      ensure negb (r.(r_ID) =? "")%string else ERecordID i;;
      ensure re_match dnsNameRe r.(r_Name) else ERecordName i r.(r_Name);;
      let key := record_key r in
      ensure r.(r_Deleted) || negb (bool_decide (key ∈ seenRecs))
        else ERecordDuplicate i r.(r_Type) r.(r_Name);;
      let seenRecs := if r.(r_Deleted) then seenRecs else {[key]} ∪ seenRecs in
      let? _ := validate_value i r in
      validate_records (S i) seenRecs rs
  end.

Definition Validate (f : File) : result ConfigError File :=
  let f := if f.(Version) =? 0 then f <| Version := CurrentVersion |> else f in
  match f.(UpstreamDefaults) with
  | None => Err EUpstreamsRequired
  | Some us =>
      let? (us, enabledCount) := validate_upstreams 0 us 0 in
      let f := f <| UpstreamDefaults := Some us |> in
      ensure negb (negb (Nat.eqb (length us) 0) && Nat.eqb enabledCount 0
                   && Nat.eqb (length f.(ForwardZones)) 0) else EAllDisabled;;
      ensure negb (Nat.eqb (length us) 0 && Nat.eqb (length f.(ForwardZones)) 0) else ENoRoute;;
      let f := f <| f_Settings := Settings_WithDefaults f.(f_Settings) |> in
      let f := f <| f_Peers := Peers_WithDefaults f.(f_Peers) |> in
      let? _ := validate_zones 0 ∅ f.(ForwardZones) in
      let? _ := validate_records 0 ∅ f.(StaticRecords) in
      Ok f
  end.

(** ** Snapshot and Clone *)

(** [append([]T(nil), xs...)] is nil for an empty [xs], nil or not. *)
Definition Snapshot (f : File) : File :=
  f <| UpstreamDefaults := slice_append None (elems f.(UpstreamDefaults)) |>
    <| ForwardZones := f.(ForwardZones) |>
    <| StaticRecords := f.(StaticRecords) |>.
Definition Clone (f : File) : File := Snapshot f.
