(* ===== verification/Names.v ===== *)
(** What the patterns of Validate accept, in terms of labels and digits: DNS
    names are labels joined by dots, IPv4 addresses four groups of digits; and
    no accepted text holds a byte that means something to unbound's parser. *)
From S2P Require Import Prelude GoStrings Regex GoTime Config Validate.

(** ** Languages of the derived forms *)

Lemma lang_cls_iff rs u : lang (Cls rs) u <-> exists c, u = [c] /\ in_cls rs c = true.
Proof. split; [inversion 1; subst; eauto | intros (c & -> & ?); by constructor]. Qed.

Lemma lang_seq_iff r s u : lang (Seq r s) u <-> exists v w, u = v ++ w /\ lang r v /\ lang s w.
Proof. split; [apply lang_seq_inv | intros (v & w & -> & ? & ?); by constructor]. Qed.

Lemma lang_eps_iff u : lang Eps u <-> u = [].
Proof. split; [apply lang_eps_inv | intros ->; constructor]. Qed.

Lemma lang_opt_iff r u : lang (Opt r) u <-> u = [] \/ lang r u.
Proof. unfold Opt. rewrite lang_alt_inv, lang_eps_iff. tauto. Qed.

Lemma lang_chr_iff c u : lang (Chr c) u <-> u = [c].
Proof.
  unfold Chr. rewrite lang_cls_iff. simpl. unfold between, code. split.
  - intros (d & -> & Hd). rewrite orb_false_r, andb_true_iff, !Z.leb_le in Hd.
    f_equal. rewrite <- (ascii_N_embedding c), <- (ascii_N_embedding d). f_equal. lia.
  - intros ->. exists c. rewrite !Z.leb_refl. done.
Qed.

(** every byte of [u] is in the class *)
Definition all_in (rs : list (ascii * ascii)) (u : list ascii) : Prop :=
  Forall (fun c => in_cls rs c = true) u.

Lemma lang_times_cls rs n u : lang (Times n (Cls rs)) u <-> length u = n /\ all_in rs u.
Proof.
  revert u. induction n as [|n IH]; intros u; simpl.
  - rewrite lang_eps_iff. split; [intros ->; by split; [|constructor] | intros [Hu%length_zero_iff_nil _]; done].
  - rewrite lang_seq_iff. setoid_rewrite lang_cls_iff. setoid_rewrite IH. split.
    + intros (v & w & -> & (c & -> & ?) & <- & ?). split; [done|]. by constructor.
    + destruct u as [|c u]; intros [[= <-] Hu]. apply Forall_cons in Hu as [??].
      exists [c], u. eauto 10.
Qed.

Lemma lang_upto_cls rs n u : lang (Upto n (Cls rs)) u <-> (length u <= n)%nat /\ all_in rs u.
Proof.
  revert u. induction n as [|n IH]; intros u; simpl.
  - rewrite lang_eps_iff. split; [intros ->; by split; [|constructor] | intros [Hu _]; destruct u; [done | simpl in Hu; lia]].
  - rewrite lang_opt_iff, lang_seq_iff. setoid_rewrite lang_cls_iff. setoid_rewrite IH. split.
    + intros [->|(v & w & -> & (c & -> & ?) & ? & ?)]; (split; [simpl; lia|]); by constructor.
    + destruct u as [|c u]; simpl; intros [? Hu]; [by left|]. apply Forall_cons in Hu as [??].
      right. exists [c], u. split_and!; eauto with lia.
Qed.

Lemma lang_star_cls rs u : lang (Star (Cls rs)) u <-> all_in rs u.
Proof.
  split.
  - remember (Star (Cls rs)) as r eqn:E. intros H. revert E.
    induction H; intros E; simplify_eq; [constructor|].
    apply lang_cls_iff in H as (c & -> & ?). constructor; [done | by apply IHlang2].
  - induction 1 as [|c u Hc _ IH]; [constructor|].
    change (c :: u) with ([c] ++ u). by constructor; [constructor|].
Qed.

Lemma lang_rep_cls rs lo hi u :
  (lo <= hi)%nat ->
  lang (Rep lo hi (Cls rs)) u <-> (lo <= length u <= hi)%nat /\ all_in rs u.
Proof.
  intros Hle. unfold Rep. rewrite lang_seq_iff. setoid_rewrite lang_times_cls. setoid_rewrite lang_upto_cls.
  split.
  - intros (v & w & -> & [<- ?] & ? & ?). rewrite length_app. split; [lia | by apply Forall_app].
  - intros [? Hu]. exists (take lo u), (drop lo u). rewrite take_drop, length_take, length_drop.
    rewrite <- (take_drop lo u) in Hu. apply Forall_app in Hu as [??]. split_and!; try done; lia.
Qed.

(** ** Labels *)

Definition cls_alnum : list (ascii * ascii) := [("a", "z"); ("A", "Z"); ("0", "9")]%char.
Definition cls_alnum_dash : list (ascii * ascii) := [("a", "z"); ("A", "Z"); ("0", "9"); ("-", "-")]%char.
Definition isAlnum (c : ascii) : bool := in_cls cls_alnum c.

(** a label of a DNS name: 1 to 63 letters, digits and dashes, with no dash at
    either end *)
Definition valid_label (u : list ascii) : Prop :=
  (1 <= length u <= 63)%nat
  /\ Forall (fun c => isAlnum c || (c =? "-")%char = true) u
  /\ (exists c, head u = Some c /\ isAlnum c = true)
  /\ (exists c, last u = Some c /\ isAlnum c = true).

Lemma alnum_dash_iff c : in_cls cls_alnum_dash c = isAlnum c || (c =? "-")%char.
Proof.
  apply eqb_prop. revert c. apply (ascii_check (fun c =>
    Bool.eqb (in_cls cls_alnum_dash c) (isAlnum c || (c =? "-")%char))). vm_compute. reflexivity.
Qed.

Lemma all_alnum_dash u :
  all_in cls_alnum_dash u <-> Forall (fun c => isAlnum c || (c =? "-")%char = true) u.
Proof. unfold all_in. apply Forall_iff. intros c. by rewrite alnum_dash_iff. Qed.

Lemma label_iff u : lang label u <-> valid_label u.
Proof.
  unfold label, alnum, alnum_dash. fold cls_alnum cls_alnum_dash.
  rewrite lang_seq_iff. setoid_rewrite lang_cls_iff. setoid_rewrite lang_opt_iff.
  setoid_rewrite lang_seq_iff. setoid_rewrite lang_cls_iff.
  setoid_rewrite (fun u => lang_rep_cls cls_alnum_dash 0 61 u ltac:(lia)).
  setoid_rewrite all_alnum_dash. unfold valid_label, isAlnum. split.
  - intros (v & w & -> & (c & -> & Hc) & [->|(x & y & -> & [Hx Hxa] & d & -> & Hd)]); simpl.
    + split_and!; eauto; try lia. constructor; [by apply orb_true_iff; left | done].
    + rewrite length_app. simpl. split_and!; try lia.
      * constructor; [by apply orb_true_iff; left|]. apply Forall_app. split; [done|].
        constructor; [by apply orb_true_iff; left | done].
      * eauto.
      * exists d. split; [|done]. by rewrite app_comm_cons, last_snoc.
  - intros (Hlen & Hall & (c & Hc & Hca) & (d & Hd & Hda)).
    destruct u as [|c' u]; simplify_eq/=. exists [c], u. split; [done|]. split; [eauto|].
    destruct u as [|e u _] using rev_ind; [by left|]. right.
    rewrite app_comm_cons, last_snoc in Hd. injection Hd as ->.
    rewrite length_app in Hlen. simpl in Hlen.
    apply Forall_cons in Hall as [_ Hall]. apply Forall_app in Hall as [Hall _].
    exists u, [d]. split_and!; try lia; eauto.
Qed.

(** ** Names *)

Definition opt_star (w : bool) : list ascii := if w then ["*"; "."]%char else [].

Lemma star_dot_iff u : lang star_dot u <-> exists w, u = opt_star w.
Proof.
  unfold star_dot. rewrite lang_opt_iff, lang_seq_iff. setoid_rewrite lang_chr_iff. split.
  - intros [->|(v & w & -> & -> & ->)]; [by exists false | by exists true].
  - intros [[] ->]; [right; by exists ["*"%char], ["."%char] | by left].
Qed.

Lemma label_dot_iff u : lang label_dot u <-> exists v, u = v ++ ["."%char] /\ valid_label v.
Proof.
  unfold label_dot. rewrite lang_seq_iff. setoid_rewrite lang_chr_iff. setoid_rewrite label_iff.
  naive_solver.
Qed.

(** labels, each followed by a dot *)
Definition dotted (ls : list (list ascii)) : list ascii := concat (map (fun v => v ++ ["."%char]) ls).

Lemma star_label_dot_iff u :
  lang (Star label_dot) u <-> exists ls, u = dotted ls /\ Forall valid_label ls.
Proof.
  split.
  - remember (Star label_dot) as r eqn:E. intros H. revert E.
    induction H as [| | | | |r|r v w Hv _ Hw IH]; intros E; simplify_eq; [by exists []|].
    apply label_dot_iff in Hv as (v' & -> & ?). destruct (IH eq_refl) as (ls & -> & ?).
    exists (v' :: ls). by split; [|constructor].
  - intros (ls & -> & Hls). induction Hls as [|v ls Hv _ IH]; [constructor|].
    unfold dotted. simpl. constructor; [|done]. apply label_dot_iff. eauto.
Qed.

(** The pattern of static record names: an optional star label, then labels
    joined by dots, at least one. *)
Lemma dnsNameRe_iff u :
  lang dnsNameRe u <-> exists w ls v, u = opt_star w ++ dotted ls ++ v
                                       /\ Forall valid_label ls /\ valid_label v.
Proof.
  unfold dnsNameRe. rewrite lang_seq_iff. setoid_rewrite star_dot_iff. setoid_rewrite lang_seq_iff.
  setoid_rewrite star_label_dot_iff. setoid_rewrite label_iff. naive_solver.
Qed.

Definition isHexColon (c : ascii) : bool :=
  in_cls [("0", "9"); ("a", "f"); ("A", "F"); (":", ":")]%char c.

(** one to three digits *)
Definition octet_text (u : list ascii) : Prop :=
  (1 <= length u <= 3)%nat /\ Forall (fun c => isDigit c = true) u.

Lemma rep_digit_iff u : lang (Rep 1 3 digit) u <-> octet_text u.
Proof.
  unfold digit. rewrite lang_rep_cls by lia. unfold octet_text, all_in.
  enough (Hc : forall c, in_cls [("0"%char, "9"%char)] c = isDigit c) by (by setoid_rewrite Hc).
  intros c. unfold in_cls, isDigit. simpl. apply orb_false_r.
Qed.

Lemma lang_thrice r u :
  lang (Rep 3 3 r) u <-> exists a b c, u = a ++ b ++ c /\ lang r a /\ lang r b /\ lang r c.
Proof.
  unfold Rep. simpl. rewrite !lang_seq_iff. setoid_rewrite lang_eps_iff. split.
  - intros (?&?&->&(a&?&->&Ha&(b&?&->&Hb&(c&?&->&Hc&->%lang_eps_inv)%lang_seq_inv)%lang_seq_inv)%lang_seq_inv&->).
    exists a, b, c. by rewrite !app_nil_r.
  - intros (a & b & c & -> & Ha & Hb & Hc). exists (a ++ b ++ c), []. rewrite app_nil_r.
    split; [done|]. split; [|done]. constructor; [done|]. constructor; [done|].
    rewrite <- (app_nil_r c). constructor; [done | constructor].
Qed.

Lemma ipv4Re_iff u :
  lang ipv4Re u <-> exists a b c d, u = a ++ ["."%char] ++ b ++ ["."%char] ++ c ++ ["."%char] ++ d
    /\ octet_text a /\ octet_text b /\ octet_text c /\ octet_text d.
Proof.
  unfold ipv4Re. rewrite lang_seq_iff. setoid_rewrite lang_thrice. setoid_rewrite rep_digit_iff.
  setoid_rewrite lang_seq_iff. setoid_rewrite lang_chr_iff. setoid_rewrite rep_digit_iff. split.
  - intros (?&d&->&(?&?&?&->&(a&?&->&?&->)&(b&?&->&?&->)&(c&?&->&?&->))&?).
    exists a, b, c, d. by rewrite <- !app_assoc.
  - intros (a & b & c & d & -> & ? & ? & ? & ?).
    exists ((a ++ ["."%char]) ++ (b ++ ["."%char]) ++ (c ++ ["."%char])), d.
    split; [by rewrite <- !app_assoc|]. split; [|done]. eexists _, _, _. eauto 20.
Qed.

(** ** No byte with a meaning in unbound.conf *)

(** letters, digits, and [.:*-]: no newline, blank, quote or comment sign *)
Definition plain (c : ascii) : bool :=
  isAlnum c || existsb (Ascii.eqb c) ["."; ":"; "*"; "-"]%char.

Lemma re_plain :
  Forall (fun r => re_bytes plain r = true) [domainRe; labelRe; dnsNameRe; ipv4Re; ipv6Re; hostnameRe].
Proof. repeat (apply Forall_cons; split; [vm_compute; reflexivity|]). apply Forall_nil. exact I. Qed.

Lemma match_plain r s :
  In r [domainRe; labelRe; dnsNameRe; ipv4Re; ipv6Re; hostnameRe] ->
  re_match r s = true -> sforall plain s = true.
Proof.
  intros Hr. apply re_match_bytes. pose proof re_plain as Hp. rewrite Forall_forall in Hp.
  apply Hp. by apply list_elem_of_In.
Qed.

Lemma plain_domain s : re_match domainRe s = true -> sforall plain s = true.
Proof. apply match_plain. do 0 right. left. reflexivity. Qed.
Lemma plain_label s : re_match labelRe s = true -> sforall plain s = true.
Proof. apply match_plain. do 1 right. left. reflexivity. Qed.
Lemma plain_dnsName s : re_match dnsNameRe s = true -> sforall plain s = true.
Proof. apply match_plain. do 2 right. left. reflexivity. Qed.
Lemma plain_ipv4 s : re_match ipv4Re s = true -> sforall plain s = true.
Proof. apply match_plain. do 3 right. left. reflexivity. Qed.
Lemma plain_ipv6 s : re_match ipv6Re s = true -> sforall plain s = true.
Proof. apply match_plain. do 4 right. left. reflexivity. Qed.
Lemma plain_hostname s : re_match hostnameRe s = true -> sforall plain s = true.
Proof. apply match_plain. do 5 right. left. reflexivity. Qed.
