(* ===== verification/ValidateSpec.v ===== *)
(** What [Validate] accepts, stated without its loops: [ValidFile].  Validate
    succeeds exactly on these files and returns them normalised; normalising
    again changes nothing. *)
From S2P Require Import Prelude GoStrings Regex GoTime Config Validate.

(** ** The specification *)

Definition default_ok (u : UpstreamDefault) : Prop :=
  u.(u_Deleted) = false -> valid_ip u.(u_Address) = true /\ 0 <= u.(u_Port) <= 65535.
Definition routes (u : UpstreamDefault) : bool := negb u.(u_Deleted) && u.(u_Enabled).

Definition cleanName (z : ForwardZone) : string := TrimPrefix z.(z_Name) "*.".
Definition live_zone_names (zs : list ForwardZone) : list string :=
  map cleanName (List.filter (fun z => negb z.(z_Deleted)) zs).

Record zone_ok (z : ForwardZone) : Prop := {
  zo_id : z.(z_ID) <> "";
  zo_name : re_match domainRe z.(z_Name) || re_match labelRe z.(z_Name) = true;
  zo_wildcard : z.(z_Wildcard) = HasPrefix z.(z_Name) "*.";
  zo_upstreams : z.(z_Upstreams) <> [];
  zo_least : z.(z_LeastLatency) = true ->
             z.(z_Wildcard) = true -> Contains (cleanName z) "." = false;
  zo_each : Forall (fun up => valid_upstream up = true) z.(z_Upstreams);
}.

Definition value_ok (r : StaticRecord) : Prop :=
  let t := ToUpper r.(r_Type) in
  (t = "A" /\ re_match ipv4Re r.(r_Value) = true)
  \/ (t = "AAAA" /\ re_match ipv6Re r.(r_Value) = true)
  \/ (t = "CNAME" /\ re_match hostnameRe r.(r_Value) = true).
Definition live_record_keys (rs : list StaticRecord) : list string :=
  map record_key (List.filter (fun r => negb r.(r_Deleted)) rs).

Record record_ok (r : StaticRecord) : Prop := {
  ro_id : r.(r_ID) <> "";
  ro_name : re_match dnsNameRe r.(r_Name) = true;
  ro_value : value_ok r;
}.

Record ValidFile (f : File) : Prop := {
  vf_present : f.(UpstreamDefaults) <> None;
  vf_defaults : Forall default_ok (elems f.(UpstreamDefaults));
  vf_route : f.(ForwardZones) <> [] \/ existsb routes (elems f.(UpstreamDefaults)) = true;
  vf_zones : Forall zone_ok f.(ForwardZones);
  vf_zone_names : NoDup (live_zone_names f.(ForwardZones));
  vf_records : Forall record_ok f.(StaticRecords);
  vf_record_keys : NoDup (live_record_keys f.(StaticRecords));
}.

Definition normalise (f : File) : File :=
  f <| Version := if f.(Version) =? 0 then CurrentVersion else f.(Version) |>
    <| UpstreamDefaults := map Upstream_defaults <$> f.(UpstreamDefaults) |>
    <| f_Settings := Settings_WithDefaults f.(f_Settings) |>
    <| f_Peers := Peers_WithDefaults f.(f_Peers) |>.

(** ** The loops *)

(** the list of keys a "seen" set has accepted *)
Definition fresh_keys (seen : gset string) (ks : list string) : Prop :=
  NoDup ks /\ Forall (fun k => k ∉ seen) ks.

Lemma fresh_keys_cons seen k ks :
  fresh_keys seen (k :: ks) <-> (k ∉ seen) /\ fresh_keys ({[k]} ∪ seen) ks.
Proof.
  unfold fresh_keys. rewrite NoDup_cons, Forall_cons, !Forall_forall.
  split.
  - intros [[Hk ?] [? Hs]]. split_and!; try done. intros x Hx.
    rewrite not_elem_of_union, not_elem_of_singleton. split; [intros ->; done | auto].
  - intros [? [? Hs]]. split_and!; try done.
    + intros Hk. apply Hs in Hk. set_solver.
    + intros x Hx. apply Hs in Hx. set_solver.
Qed.

(** one step of a loop that skips tombstones *)
Lemma fresh_keys_step seen (deleted : bool) k ks :
  fresh_keys seen (if deleted then ks else k :: ks) <->
  (deleted = false -> k ∉ seen) /\ fresh_keys (if deleted then seen else {[k]} ∪ seen) ks.
Proof. destruct deleted; [|rewrite fresh_keys_cons]; naive_solver. Qed.

Lemma fresh_keys_nil seen : fresh_keys seen [].
Proof. split; constructor. Qed.

Lemma fresh_keys_empty ks : fresh_keys ∅ ks <-> NoDup ks.
Proof.
  unfold fresh_keys. split; [by intros [? _]|]. split; [done|].
  apply Forall_forall. set_solver.
Qed.

Lemma port_ok_iff p : port_ok p = true <-> 0 < p <= 65535.
Proof. unfold port_ok. rewrite negb_true_iff, orb_false_iff. lia. Qed.

Lemma Upstream_defaults_port u :
  port_ok (Upstream_defaults u).(u_Port) = true <-> 0 <= u.(u_Port) <= 65535.
Proof.
  rewrite port_ok_iff. unfold Upstream_defaults. destruct (Z.eqb_spec u.(u_Port) 0); simpl; lia.
Qed.

Lemma Upstream_defaults_same u :
  (Upstream_defaults u).(u_Address) = u.(u_Address) /\
  (Upstream_defaults u).(u_Enabled) = u.(u_Enabled) /\
  (Upstream_defaults u).(u_Deleted) = u.(u_Deleted).
Proof. unfold Upstream_defaults. by destruct (_ =? 0). Qed.

Lemma validate_upstreams_ok us : forall i c us' n,
  validate_upstreams i us c = Ok (us', n) <->
  Forall default_ok us /\ us' = map Upstream_defaults us
  /\ n = (c + length (List.filter routes us))%nat.
Proof.
  induction us as [|u us IH]; intros i c us' n; simpl.
  - split; [intros [= <- <-]; split_and!; auto with lia | intros (_ & -> & ->)].
    by rewrite Nat.add_0_r.
  - destruct (Upstream_defaults_same u) as (Ha & He & Hd).
    rewrite Forall_cons, Hd, Ha, He. unfold default_ok at 1, routes at 1.
    pose proof (Upstream_defaults_port u) as Hp.
    assert (Hrec : forall c',
      (let? (us', n) := validate_upstreams (S i) us c' in Ok (Upstream_defaults u :: us', n)) = Ok (us', n) <->
      Forall default_ok us /\ us' = Upstream_defaults u :: map Upstream_defaults us
          /\ n = (c' + length (List.filter routes us))%nat).
    { intros c'. specialize (IH (S i) c').
      destruct (validate_upstreams (S i) us c') as [[us1 n1]|e] eqn:E.
      - split; [intros [= <- <-] | intros (? & -> & ->)].
        + destruct (proj1 (IH us1 n1) eq_refl) as (? & -> & ->). done.
        + destruct (proj1 (IH us1 n1) eq_refl) as (? & -> & ->). done.
      - split; [done|]. intros (? & _ & _).
        by specialize (proj2 (IH _ _) (conj H (conj eq_refl eq_refl))). }
    destruct (u_Deleted u); simpl; [rewrite Hrec; naive_solver|].
    destruct (valid_ip (u_Address u)); simpl; [|naive_solver].
    destruct (port_ok _); simpl; [|naive_solver].
    rewrite Hrec. destruct (u_Enabled u); simpl; naive_solver lia.
Qed.

Lemma validate_zone_upstreams_ok i name ups : forall j,
  validate_zone_upstreams i name j ups = Ok tt <-> Forall (fun up => valid_upstream up = true) ups.
Proof.
  induction ups as [|up ups IH]; intros j; simpl; [done|].
  rewrite Forall_cons, <- (IH (S j)). destruct (valid_upstream up); naive_solver.
Qed.

(** The zone step accepts a zone exactly when it is well formed and, if live,
    its name is new; what it normalises is in the loop's own copy. *)
Definition zone_copy (z : ForwardZone) : ForwardZone := frequency_copy (single_label_copy z).

Lemma single_label_copy_same z :
  (single_label_copy z).(z_Name) = z.(z_Name)
  /\ (single_label_copy z).(z_Upstreams) = z.(z_Upstreams)
  /\ (single_label_copy z).(z_LeastLatency) = z.(z_LeastLatency)
  /\ (single_label_copy z).(z_Wildcard) = z.(z_Wildcard) && Contains (cleanName z) ".".
Proof.
  unfold single_label_copy, cleanName. destruct (z_Wildcard z) eqn:E; simpl; [|by rewrite E].
  destruct (Contains _ _); simpl; by rewrite ?E.
Qed.

Lemma frequency_copy_same z :
  (frequency_copy z).(z_Name) = z.(z_Name) /\ (frequency_copy z).(z_Upstreams) = z.(z_Upstreams).
Proof. unfold frequency_copy. by repeat case_match. Qed.

Lemma validate_zone_ok i seen z seen' z' :
  validate_zone i seen z = Ok (seen', z') <->
  zone_ok z /\ (z.(z_Deleted) = false -> cleanName z ∉ seen)
  /\ seen' = (if z.(z_Deleted) then seen else {[cleanName z]} ∪ seen) /\ z' = zone_copy z.
Proof.
  unfold validate_zone. fold (cleanName z). rewrite !ensure_ok, bind_ok.
  destruct (frequency_copy_same (single_label_copy z)) as [-> ->].
  destruct (single_label_copy_same z) as (-> & -> & -> & ->). fold (zone_copy z).
  rewrite !negb_true_iff, (orb_true_iff (z_Deleted z)), negb_true_iff, bool_decide_eq_false.
  rewrite String.eqb_neq, Nat.eqb_neq, length_zero_iff_nil.
  split.
  - intros (? & ? & Hseen & Hw & Hw' & ? & Hl & [] & Hup & [= <- <-]).
    apply validate_zone_upstreams_ok in Hup. split; [split; try done|].
    + by destruct (z_Wildcard z), (HasPrefix _ _).
    + intros Hll Hwc. rewrite Hll, Hwc in Hl. done.
    + split; [|done]. intros Hd. destruct Hseen; congruence.
  - intros ([? ? Hw ? Hl Hup] & Hseen & -> & ->). rewrite <- !Hw. split_and!; try done.
    + destruct (z_Deleted z); auto.
    + by destruct (z_Wildcard z).
    + by destruct (z_Wildcard z).
    + destruct (z_LeastLatency z), (z_Wildcard z); simpl; auto.
    + exists tt. split; [by apply validate_zone_upstreams_ok | done].
Qed.

Lemma live_zone_names_cons z zs :
  live_zone_names (z :: zs) =
  if z.(z_Deleted) then live_zone_names zs else cleanName z :: live_zone_names zs.
Proof. unfold live_zone_names. simpl. by destruct (z_Deleted z). Qed.

Lemma validate_zones_ok zs : forall i seen,
  validate_zones i seen zs = Ok tt <-> Forall zone_ok zs /\ fresh_keys seen (live_zone_names zs).
Proof.
  induction zs as [|z zs IH]; intros i seen; simpl.
  - split; [|done]. intros _. split; [done | apply fresh_keys_nil].
  - rewrite bind_ok, Forall_cons, live_zone_names_cons, fresh_keys_step.
    split.
    + intros [[s' z'] [(? & ? & -> & ->)%validate_zone_ok [??]%IH]]. done.
    + intros [[??] [??]]. eexists (_, zone_copy z).
      split; [by apply validate_zone_ok | by apply IH].
Qed.

Lemma live_record_keys_cons r rs :
  live_record_keys (r :: rs) =
  if r.(r_Deleted) then live_record_keys rs else record_key r :: live_record_keys rs.
Proof. unfold live_record_keys. simpl. by destruct (r_Deleted r). Qed.

Lemma validate_value_ok i r : validate_value i r = Ok tt <-> value_ok r.
Proof.
  unfold validate_value, value_ok.
  destruct (String.eqb_spec (ToUpper (r_Type r)) "A") as [->|];
    [|destruct (String.eqb_spec (ToUpper (r_Type r)) "AAAA") as [->|];
      [|destruct (String.eqb_spec (ToUpper (r_Type r)) "CNAME") as [->|]]];
    rewrite ?ensure_ok; naive_solver.
Qed.

Lemma validate_records_ok rs : forall i seen,
  validate_records i seen rs = Ok tt <-> Forall record_ok rs /\ fresh_keys seen (live_record_keys rs).
Proof.
  induction rs as [|r rs IH]; intros i seen; simpl.
  - split; [|done]. intros _. split; [done | apply fresh_keys_nil].
  - rewrite !ensure_ok, bind_ok, Forall_cons, live_record_keys_cons, fresh_keys_step.
    rewrite negb_true_iff, orb_true_iff, negb_true_iff, bool_decide_eq_false, String.eqb_neq.
    split.
    + intros (? & ? & Hseen & [] & ?%validate_value_ok & [? ?]%IH).
      split_and!; [by split | done | | done]. intros Hd. destruct Hseen; congruence.
    + intros [[[? ? Hv] ?] [Hseen ?]]. split_and!; try done.
      * destruct (r_Deleted r); auto.
      * exists tt. split; [by apply validate_value_ok | by apply IH].
Qed.

(** ** Validate as a whole *)

Lemma length_filter_existsb {A} (p : A -> bool) l :
  length (List.filter p l) = 0%nat <-> existsb p l = false.
Proof. induction l as [|x l IH]; simpl; [done|]. destruct (p x); simpl; naive_solver. Qed.

Lemma route_ok us (zs : list ForwardZone) :
  negb (negb (Nat.eqb (length us) 0) && Nat.eqb (length (List.filter routes us)) 0
        && Nat.eqb (length zs) 0) = true
  /\ negb (Nat.eqb (length us) 0 && Nat.eqb (length zs) 0) = true
  <-> zs <> [] \/ existsb routes us = true.
Proof.
  destruct zs as [|z zs]; simpl; [|rewrite !andb_false_r; naive_solver].
  rewrite !andb_true_r. destruct us as [|u us]; [simpl; naive_solver|].
  destruct (existsb routes (u :: us)) eqn:E.
  - destruct (Nat.eqb_spec (length (List.filter routes (u :: us))) 0) as [H|];
      [apply length_filter_existsb in H; congruence | naive_solver].
  - apply length_filter_existsb in E. rewrite E. simpl. naive_solver.
Qed.

Lemma Validate_iff f f' : Validate f = Ok f' <-> ValidFile f /\ f' = normalise f.
Proof.
  unfold Validate, normalise.
  destruct f as [v up by_ st pe [us|] zs rs ds]; simpl; cycle 1.
  { split; [by destruct (v =? 0) | intros [[Hp] _]; by destruct Hp]. }
  destruct (v =? 0); simpl; rewrite bind_ok; split.
  1,3: (intros [[us' n] [(Hd & -> & ->)%validate_upstreams_ok H]];
    rewrite length_map, !ensure_ok in H; simpl in H; destruct H as (Hr1 & Hr2 & H);
    apply bind_ok in H as ([] & [Hz Hzn]%validate_zones_ok & H);
    apply bind_ok in H as ([] & [Hr Hrn]%validate_records_ok & [= <-]);
    rewrite fresh_keys_empty in Hzn, Hrn;
    pose proof (proj1 (route_ok us zs) (conj Hr1 Hr2));
    split; [by split | done]).
  1,2: intros [[? Hd Hr Hz Hzn Hrec Hrn] ->]; simpl in *;
    eexists (_, _); split; [by apply validate_upstreams_ok|];
    rewrite length_map, !ensure_ok; apply (route_ok us zs) in Hr as [??]; split_and!; try done;
    apply bind_ok; exists tt; split; [apply validate_zones_ok; by rewrite fresh_keys_empty|];
    apply bind_ok; exists tt; split; [apply validate_records_ok; by rewrite fresh_keys_empty | done].
Qed.

(** ** Normalising *)

Definition or_default {T} (zero : T -> bool) (d v : T) : T := if zero v then d else v.
Definition noZ (v : Z) : bool := v =? 0.
Definition noS (v : string) : bool := (v =? "")%string.

Lemma or_default_idem {T} (zero : T -> bool) d v :
  zero d = false -> or_default zero d (or_default zero d v) = or_default zero d v.
Proof. unfold or_default. intros Hd. destruct (zero v) eqn:E; by rewrite ?Hd, ?E. Qed.

Lemma Settings_WithDefaults_eq s :
  Settings_WithDefaults s =
  {| CacheSize := or_default noZ 1000 s.(CacheSize); DNSSEC := s.(DNSSEC); LogQueries := s.(LogQueries);
     HTTPListen := or_default noS "0.0.0.0:80" s.(HTTPListen);
     DNSListen := or_default noS "0.0.0.0:53" s.(DNSListen);
     PollSeconds := or_default noZ 10 s.(PollSeconds) |}.
Proof.
  destruct s as [c d q h l p]. unfold Settings_WithDefaults, or_default, noZ, noS. cbn -[Z.eqb String.eqb].
  destruct (c =? 0); cbn -[Z.eqb String.eqb]; destruct (h =? "")%string; cbn -[Z.eqb String.eqb];
    destruct (l =? "")%string; cbn -[Z.eqb String.eqb]; by destruct (p =? 0).
Qed.

Definition interval_floor (i : Z) : Z := Z.max 10 (or_default noZ 300 i).

Lemma Peers_WithDefaults_eq p :
  Peers_WithDefaults p =
  {| Listen := or_default noS "0.0.0.0:8443" p.(Listen); SharedKey := p.(SharedKey);
     SyncIntervalSeconds := interval_floor p.(SyncIntervalSeconds);
     ClockSkewSeconds := or_default noZ 300 p.(ClockSkewSeconds); List := p.(List) |}.
Proof.
  destruct p as [l k i c ps]. unfold Peers_WithDefaults, interval_floor, or_default, noZ, noS.
  cbn -[Z.eqb String.eqb Z.ltb Z.max].
  destruct (l =? "")%string; cbn -[Z.eqb String.eqb Z.ltb Z.max];
    destruct (i =? 0); cbn -[Z.eqb String.eqb Z.ltb Z.max]; try (destruct (Z.ltb_spec i 10); cbn -[Z.eqb Z.max]); try (destruct (c =? 0));
      cbn -[Z.max]; f_equal; lia.
Qed.

Lemma Settings_WithDefaults_idem s :
  Settings_WithDefaults (Settings_WithDefaults s) = Settings_WithDefaults s.
Proof. rewrite !Settings_WithDefaults_eq. cbn. by rewrite !or_default_idem. Qed.

Lemma Peers_WithDefaults_idem p : Peers_WithDefaults (Peers_WithDefaults p) = Peers_WithDefaults p.
Proof.
  rewrite !Peers_WithDefaults_eq. cbn -[interval_floor]. rewrite !or_default_idem by done. f_equal.
  unfold interval_floor, or_default, noZ. destruct (Z.eqb_spec (SyncIntervalSeconds p) 0); [done|].
  destruct (Z.eqb_spec (Z.max 10 (SyncIntervalSeconds p)) 0); lia.
Qed.

Lemma Upstream_defaults_idem u : Upstream_defaults (Upstream_defaults u) = Upstream_defaults u.
Proof.
  unfold Upstream_defaults. destruct (u_Port u =? 0) eqn:E; simpl; [done | by rewrite E].
Qed.

Lemma normalise_idem f : normalise (normalise f) = normalise f.
Proof.
  unfold normalise. simpl. rewrite Settings_WithDefaults_idem, Peers_WithDefaults_idem. f_equal.
  - destruct (Version f =? 0) eqn:E; [done | by rewrite E].
  - destruct (UpstreamDefaults f) as [us|]; [|done]. simpl. f_equal. rewrite map_map.
    apply map_ext. apply Upstream_defaults_idem.
Qed.

Lemma elems_normalise f :
  elems (normalise f).(UpstreamDefaults) = map Upstream_defaults (elems f.(UpstreamDefaults)).
Proof. unfold normalise. simpl. by destruct (UpstreamDefaults f). Qed.

Lemma default_ok_normalised u : default_ok u -> default_ok (Upstream_defaults u).
Proof.
  unfold default_ok. destruct (Upstream_defaults_same u) as (-> & _ & ->). intros H Hd.
  destruct (H Hd). split; [done|]. unfold Upstream_defaults. destruct (_ =? 0); simpl; lia.
Qed.

Lemma existsb_routes_normalised us : existsb routes (map Upstream_defaults us) = existsb routes us.
Proof.
  induction us as [|u us IH]; simpl; [done|]. rewrite IH. unfold routes at 1.
  by destruct (Upstream_defaults_same u) as (_ & -> & ->).
Qed.

Lemma ValidFile_normalise f : ValidFile f -> ValidFile (normalise f).
Proof.
  intros [Hp Hd Hr Hz Hzn Hre Hrn]. split; try done.
  - unfold normalise. simpl. by destruct (UpstreamDefaults f).
  - rewrite elems_normalise. apply Forall_map. eapply Forall_impl; [exact Hd|].
    apply default_ok_normalised.
  - by rewrite elems_normalise, existsb_routes_normalised.
Qed.
