(* ===== verification/Sync.v ===== *)
(** Peer synchronisation, internal/sync/sync.go: the envelope, the export
    filter, the manifest and the last-writer-wins merge. *)
From S2P Require Import Prelude GoStrings GoTime Config Validate.

(** ** itoa and the key of an upstream default *)

(** The digit loop writes [b[i]] from the right of a 20-byte array: [i] is the
    room left, [None] the out-of-range panic. *)
Fixpoint itoa_loop (i : nat) (n : Z) (acc : string) : option (nat * string) :=
  if 0 <? n then
    match i with
    | O => None
    | S i' => itoa_loop i' (n / 10) (String (ascii_of_N (Z.to_N (48 + n mod 10))) acc)
    end
  else Some (i, acc).

Definition itoa (n : Z) : option string :=
  if n =? 0 then Some "0"
  else
    let neg := n <? 0 in
    let n := if neg then wrap64 (- n) else n in
    match itoa_loop 20 n EmptyString with
    | None => None
    | Some (i, s) =>
        if neg then match i with O => None | S _ => Some (String "-" s) end
        else Some s
    end.

Definition upstreamKey (addr : string) (port : Z) : string :=
  ToLower addr +:+ ":" +:+ default EmptyString (itoa port).

(** ** What the three kinds of items have in common *)

Class SyncItem (A : Type) := {
  it_key : A -> string;
  it_DoNotSync : A -> bool;
  it_SyncPeers : A -> list string;
  it_UpdatedAt : A -> Time;
  it_Deleted : A -> bool;
  (** the further test under which two items with one timestamp count as the same *)
  it_same : A -> A -> bool;
}.

#[export] Instance upstream_item : SyncItem UpstreamDefault := {|
  it_key u := upstreamKey u.(u_Address) u.(u_Port);
  it_DoNotSync := u_DoNotSync;
  it_SyncPeers := u_SyncPeers;
  it_UpdatedAt := u_UpdatedAt;
  it_Deleted := u_Deleted;
  it_same cur inc := Bool.eqb cur.(u_Enabled) inc.(u_Enabled) && (cur.(u_Note) =? inc.(u_Note))%string;
|}.

#[export] Instance zone_item : SyncItem ForwardZone := {|
  it_key := z_ID;
  it_DoNotSync := z_DoNotSync;
  it_SyncPeers := z_SyncPeers;
  it_UpdatedAt := z_UpdatedAt;
  it_Deleted := z_Deleted;
  it_same _ _ := true;
|}.

#[export] Instance record_item : SyncItem StaticRecord := {|
  it_key := r_ID;
  it_DoNotSync := r_DoNotSync;
  it_SyncPeers := r_SyncPeers;
  it_UpdatedAt := r_UpdatedAt;
  it_Deleted := r_Deleted;
  it_same _ _ := true;
|}.

(** ** Envelope, manifest and export *)

Record Envelope := {
  e_InstanceID : string;
  e_FromSeq : Z;
  e_ServerTime : Time;
  e_UpstreamDefaults : list UpstreamDefault;
  e_ForwardZones : list ForwardZone;
  e_StaticRecords : list StaticRecord;
  e_Settings : option Settings;
}.
#[export] Instance envelope_settable : Settable Envelope := fun e =>
  {| e_InstanceID := e.(e_InstanceID); e_FromSeq := e.(e_FromSeq); e_ServerTime := e.(e_ServerTime);
     e_UpstreamDefaults := e.(e_UpstreamDefaults); e_ForwardZones := e.(e_ForwardZones);
     e_StaticRecords := e.(e_StaticRecords); e_Settings := e.(e_Settings) |}.

Record ItemCount := { c_UpstreamDefaults : nat; c_ForwardZones : nat; c_StaticRecords : nat }.
Record Manifest := {
  m_InstanceID : string;
  m_Seq : Z;
  m_Counts : ItemCount;
  m_ServerTime : Time;
}.

Definition syncs_to {A} `{SyncItem A} (peerName : string) (x : A) : bool :=
  SyncsToPeer (it_DoNotSync x) (it_SyncPeers x) peerName.

(** one counting loop of BuildManifest *)
Definition count_items {A} `{SyncItem A} (peerName : string) (l : list A) : nat :=
  foldl (fun n x => if negb (it_Deleted x) && syncs_to peerName x then S n else n) 0%nat l.

Definition BuildManifest (now : Time) (instanceID : string) (seq : Z) (f : File) (peerName : string) : Manifest :=
  {| m_InstanceID := instanceID;
     m_Seq := seq;
     m_Counts := {| c_UpstreamDefaults := count_items peerName (elems f.(UpstreamDefaults));
                    c_ForwardZones := count_items peerName f.(ForwardZones);
                    c_StaticRecords := count_items peerName f.(StaticRecords) |};
     m_ServerTime := now |}.

(** one filtering loop of FilterForExport *)
Definition export_items {A} `{SyncItem A} (peerName : string) (l : list A) : list A :=
  foldl (fun acc x => if negb (syncs_to peerName x) then acc else acc ++ [x]) [] l.

Definition FilterForExport (now : Time) (instanceID : string) (seq : Z) (f : File) (peerName : string) : Envelope :=
  {| e_InstanceID := instanceID;
     e_FromSeq := seq;
     e_ServerTime := now;
     e_UpstreamDefaults := export_items peerName (elems f.(UpstreamDefaults));
     e_ForwardZones := export_items peerName f.(ForwardZones);
     e_StaticRecords := export_items peerName f.(StaticRecords);
     e_Settings := if negb f.(DoNotSyncSettings) then Some f.(f_Settings) else None |}.

(** ** Merge *)

Record MergeResult := {
  Added : nat;
  MUpdated : nat;
  MDeleted : nat;
  Skipped : nat;
  Conflicts : nat;
  Rejected : nat;
}.
#[export] Instance mergeresult_settable : Settable MergeResult := fun r =>
  {| Added := r.(Added); MUpdated := r.(MUpdated); MDeleted := r.(MDeleted);
     Skipped := r.(Skipped); Conflicts := r.(Conflicts); Rejected := r.(Rejected) |}.
Definition noResult : MergeResult :=
  {| Added := 0; MUpdated := 0; MDeleted := 0; Skipped := 0; Conflicts := 0; Rejected := 0 |}.

Definition bump (c : MergeResult -> nat) `{!Setter c} (r : MergeResult) : MergeResult :=
  set_field c S r.

Section merge.
Context {A : Type} `{SyncItem A}.

(** [idx[key(l[i])] = i] for every [i], in order *)
Fixpoint build_index (i : nat) (l : list A) (idx : gmap string nat) : gmap string nat :=
  match l with
  | [] => idx
  | x :: l => build_index (S i) l (<[it_key x := i]> idx)
  end.

(** the slice being merged into, its index and the counters *)
Record mstate := MState { ms_items : list A; ms_idx : gmap string nat; ms_res : MergeResult }.

(** the skew test of an item: [skew > 0 && !in.UpdatedAt.IsZero() && outside] *)
Definition out_of_window (now : Time) (skew : Duration) (x : A) : bool :=
  (0 <? skew) && negb (IsZero (it_UpdatedAt x)) && outside skew (Sub now (it_UpdatedAt x)).

(** What becomes of the current copy [cur] when [inc] arrives: the copy kept
    and the counter to bump. *)
Definition resolve (cur inc : A) (r : MergeResult) : A * MergeResult :=
  if it_Deleted inc && negb (it_Deleted cur) then
    if After (it_UpdatedAt cur) (it_UpdatedAt inc) then (cur, bump Conflicts r)
    else (inc, bump MDeleted r)
  else if it_Deleted cur && negb (it_Deleted inc) then
    if After (it_UpdatedAt inc) (it_UpdatedAt cur) then (inc, bump MUpdated r)
    else (cur, bump Conflicts r)
  else if After (it_UpdatedAt cur) (it_UpdatedAt inc) then (cur, bump Conflicts r)
  else if Equal (it_UpdatedAt cur) (it_UpdatedAt inc) && it_same cur inc then (cur, bump Skipped r)
  else (inc, bump Conflicts r).

(** the body of the loop over the incoming items *)
Definition merge_step (now : Time) (skew : Duration) (s : mstate) (inc : A) : mstate :=
  let (items, idx, r) := s in
  if it_DoNotSync inc then MState items idx (bump Skipped r)
  else if out_of_window now skew inc then MState items idx (bump Rejected r)
  else
    let k := it_key inc in
    match idx !! k with
    | None =>
        if it_Deleted inc then MState items idx (bump Skipped r)
        else MState (items ++ [inc]) (<[k := length items]> idx) (bump Added r)
    | Some i =>
        match items !! i with
        | None => s
        | Some cur =>
            let (kept, r) := resolve cur inc r in
            MState (<[i := kept]> items) idx r
        end
    end.

Definition merge_items (now : Time) (skew : Duration) (items incoming : list A) (r : MergeResult)
    : list A * MergeResult :=
  let s := foldl (merge_step now skew) (MState items (build_index 0 items ∅) r) incoming in
  (s.(ms_items), s.(ms_res)).
End merge.
Arguments mstate A : clear implicits.
#[global] Arguments merge_items : simpl never.

Definition Merge (now : Time) (local : File) (env : Envelope) (skew : Duration) : File * MergeResult :=
  let ups := elems local.(UpstreamDefaults) in
  let (us, r) := merge_items now skew ups env.(e_UpstreamDefaults) noResult in
  let (zs, r) := merge_items now skew local.(ForwardZones) env.(e_ForwardZones) r in
  let (rs, r) := merge_items now skew local.(StaticRecords) env.(e_StaticRecords) r in
  (** a nil slice becomes non-nil only by an append *)
  let us' := match local.(UpstreamDefaults), us with None, [] => None | _, _ => Some us end in
  let local := local <| UpstreamDefaults := us' |> <| ForwardZones := zs |> <| StaticRecords := rs |> in
  let local :=
    match env.(e_Settings) with
    | Some s =>
        if negb local.(DoNotSyncSettings) then
          if Before local.(Updated) env.(e_ServerTime) then local <| f_Settings := s |> else local
        else local
    | None => local
    end in
  (local, r).

(** ** SortByUpdated: a stable sort of each list by timestamp *)

Section sort.
Context {A : Type} `{SyncItem A}.
Fixpoint insert_stable (x : A) (l : list A) : list A :=
  match l with
  | [] => [x]
  | y :: l' => if Before (it_UpdatedAt y) (it_UpdatedAt x) then y :: insert_stable x l' else x :: l
  end.
Definition SliceStable (l : list A) : list A := foldr insert_stable [] l.
End sort.

Definition SortByUpdated (env : Envelope) : Envelope :=
  env <| e_UpstreamDefaults := SliceStable env.(e_UpstreamDefaults) |>
      <| e_ForwardZones := SliceStable env.(e_ForwardZones) |>
      <| e_StaticRecords := SliceStable env.(e_StaticRecords) |>.
