(* ===== verification/Sha256.v ===== *)
(** [crypto/sha256.Sum256] and [encoding/hex.EncodeToString] (FIPS 180-4, on
    32-bit words kept as [Z]): the fingerprints of internal/config/store.go
    and internal/sync/tlspsk.go. *)
From S2P Require Import Prelude GoStrings.

Definition w32 (z : Z) : Z := z mod 2 ^ 32.
Definition rotr (n x : Z) : Z := Z.lor (Z.shiftr x n) (w32 (Z.shiftl x (32 - n))).
Definition Ch (x y z : Z) : Z := Z.lxor (Z.land x y) (Z.land (Z.lxor x (2 ^ 32 - 1)) z).
Definition Maj (x y z : Z) : Z := Z.lxor (Z.lxor (Z.land x y) (Z.land x z)) (Z.land y z).
Definition Sigma0 x := Z.lxor (Z.lxor (rotr 2 x) (rotr 13 x)) (rotr 22 x).
Definition Sigma1 x := Z.lxor (Z.lxor (rotr 6 x) (rotr 11 x)) (rotr 25 x).
Definition sigma0 x := Z.lxor (Z.lxor (rotr 7 x) (rotr 18 x)) (Z.shiftr x 3).
Definition sigma1 x := Z.lxor (Z.lxor (rotr 17 x) (rotr 19 x)) (Z.shiftr x 10).

(** The constants as the standard defines them: the first 32 bits of the
    fractional parts of the cube roots of the first 64 primes, and of the square
    roots of the first eight. *)
Definition is_prime (n : Z) : bool :=
  forallb (fun d => negb (n mod Z.of_nat d =? 0)) (seq 2 (Z.to_nat (Z.sqrt n) - 1)).
Definition primes : list Z := Eval vm_compute in List.filter is_prime (map Z.of_nat (seq 2 310)).
(** the largest [r] below [2 ^ bits] plus [r0] whose cube is at most [n] *)
Fixpoint cbrt (bits : nat) (r0 n : Z) : Z :=
  match bits with
  | O => r0
  | S bits => let r := r0 + 2 ^ Z.of_nat bits in cbrt bits (if r * r * r <=? n then r else r0) n
  end.
Definition K256 : list Z := Eval vm_compute in map (fun p => w32 (cbrt 36 0 (p * 2 ^ 96))) primes.
Definition H256 : list Z := Eval vm_compute in map (fun p => w32 (Z.sqrt (p * 2 ^ 64))) (take 8 primes).
Example K256_length : length K256 = 64%nat. Proof. reflexivity. Qed.

(** the message schedule, newest word first, 48 words after the first 16 *)
Fixpoint schedule (n : nat) (w : list Z) : list Z :=
  match n with
  | O => w
  | S n' =>
      let at_ k := nth k w 0 in
      schedule n' (w32 (sigma1 (at_ 1%nat) + at_ 6%nat + sigma0 (at_ 14%nat) + at_ 15%nat) :: w)
  end.

Definition round (s : list Z) (kw : Z * Z) : list Z :=
  match s with
  | [a; b; c; d; e; f; g; h] =>
      let t1 := w32 (h + Sigma1 e + Ch e f g + kw.1 + kw.2) in
      let t2 := w32 (Sigma0 a + Maj a b c) in
      [w32 (t1 + t2); a; b; c; w32 (d + t1); e; f; g]
  | _ => s
  end.

Definition block (st : list Z) (w16 : list Z) : list Z :=
  let ws := rev (schedule 48 (rev w16)) in
  zip_with (fun x y => w32 (x + y)) st (foldl round st (combine K256 ws)).

(** big-endian words of the bytes *)
Fixpoint words (l : list Z) : list Z :=
  match l with
  | a :: b :: c :: d :: l' => (((a * 256 + b) * 256 + c) * 256 + d) :: words l'
  | _ => []
  end.
Fixpoint blocks (n : nat) (st : list Z) (ws : list Z) : list Z :=
  match n with
  | O => st
  | S n' => blocks n' (block st (firstn 16 ws)) (skipn 16 ws)
  end.

Fixpoint bytes_of (s : string) : list Z :=
  match s with EmptyString => [] | String c s' => code c :: bytes_of s' end.
(** [n] big-endian bytes of [z] *)
Definition be_bytes (n : nat) (z : Z) : list Z :=
  map (fun i => Z.shiftr z (8 * Z.of_nat i) mod 256) (rev (seq 0 n)).

Definition pad (l : list Z) : list Z :=
  let n := length l in
  l ++ [128] ++ repeat 0 (Z.to_nat ((55 - Z.of_nat n) mod 64)) ++ be_bytes 8 (8 * Z.of_nat n).

Definition Sum256_bytes (l : list Z) : list Z :=
  let m := pad l in
  concat (map (be_bytes 4) (blocks (length m / 64) H256 (words m))).
Definition Sum256 (s : string) : list Z := Sum256_bytes (bytes_of s).

Fixpoint EncodeToString (l : list Z) : string :=
  match l with
  | [] => EmptyString
  | b :: l' => String (hex_digit (Z.to_N (b / 16))) (String (hex_digit (Z.to_N (b mod 16))) (EncodeToString l'))
  end.

(** The test vectors of FIPS 180-4. *)
Example Sum256_abc :
  EncodeToString (Sum256 "abc") = "ba7816bf8f01cfea414140de5dae2223b00361a396177a9cb410ff61f20015ad".
Proof. vm_compute. reflexivity. Qed.

Example Sum256_two_blocks :
  EncodeToString (Sum256 "abcdbcdecdefdefgefghfghighijhijkijkljklmklmnlmnomnopnopq")
  = "248d6a61d20638b8e5c026930c3e6039a33ce45964ff2167f6ecedd419db06c1".
Proof. vm_compute. reflexivity. Qed.

#[global] Opaque Sum256.
