(* ===== verification/Store.v ===== *)
(** The configuration store, internal/config/store.go: the in-memory current
    configuration, its file on disk, and the operations that keep the two
    together ([Load], [ReloadIfChanged], [Save]).

    The file system is a map from paths to contents.  What the operating
    system answers to a call (an error, a held lock, a partial write) and the
    readings of the clock are inputs of each operation. *)
From S2P Require Import Prelude GoStrings GoTime Config Validate Sync Sha256.

(** ** What the store uses and the repository does not define: yaml.v3 *)

Class Yaml := {
  Marshal : File -> result string string;
  Unmarshal : string -> result string File;
}.

Definition noStatus : PeerStatus := {| LastContact := 0; LastSeq := 0; LastError := ""; LastAction := "" |}.
(** What the tags of the struct fields write of a file: all of it but the
    peers' status, whose tag is a dash. *)
Definition persisted (f : File) : File :=
  f <| f_Peers := f.(f_Peers) <| List := map (fun p => p <| p_Status := noStatus |>) f.(f_Peers).(List) |> |>.

(** What the store relies on: what Marshal writes of a file is read back. *)
Class YamlLaws (Y : Yaml) := {
  Unmarshal_Marshal f data :
    f.(UpstreamDefaults) <> None -> Marshal f = Ok data -> Unmarshal data = Ok (persisted f);
}.

(** ** State *)

Abbreviation FS := (gmap string string) (only parsing).

Inductive LoadError :=
  | LErrIO (msg : string)
  | LErrParse (msg : string)
  | LErrValidate (e : ConfigError)
  | LErrMarshal (msg : string).

(** [path] is a parameter of the operations; of the two hooks the store keeps
    whether they are set. *)
Record Store := {
  current : option File;
  hash : string;
  loadErr : option LoadError;
  onSave : bool;
  onApply : bool;
}.
#[export] Instance store_settable : Settable Store := fun s =>
  {| current := s.(current); hash := s.(hash); loadErr := s.(loadErr);
     onSave := s.(onSave); onApply := s.(onApply) |}.

Definition NewStore : Store :=
  {| current := None; hash := ""; loadErr := None; onSave := false; onApply := false |}.

Definition setCurrent (f : File) (h : string) (s : Store) : Store :=
  s <| current := Some f |> <| hash := h |>.
Definition SetOnSave (fn : bool) (s : Store) : Store := s <| onSave := fn |>.
Definition SetOnApply (fn : bool) (s : Store) : Store := s <| onApply := fn |>.

Inductive Hook := OnSave | OnApply.
Definition fireOnSave (s : Store) : list Hook := if s.(onSave) then [OnSave] else [].
Definition fireOnApply (s : Store) : list Hook := if s.(onApply) then [OnApply] else [].

Definition content_hash (data : string) : string := EncodeToString (Sum256 data).

(** ** Files *)

(** [os.WriteFile] truncates, then writes: an error leaves the file as it was
    (it could not be opened) or with the first [n] bytes of the data. *)
Inductive WriteOutcome := Written | WriteNotOpened (msg : string) | WritePartial (n : nat) (msg : string).
Definition WriteFile (o : WriteOutcome) (p data : string) (fs : FS) : FS * option string :=
  match o with
  | Written => (<[p := data]> fs, None)
  | WriteNotOpened msg => (fs, Some msg)
  | WritePartial n msg => (<[p := str_take n data]> fs, Some msg)
  end.
(** [os.ReadFile], when the system lets it be read *)
Inductive ReadResult := RData (data : string) | RNotExist | RError (msg : string).
Definition ReadFile (fault : option string) (p : string) (fs : FS) : ReadResult :=
  match fault with
  | Some msg => RError msg
  | None => match fs !! p with Some d => RData d | None => RNotExist end
  end.
(** [os.Rename], which replaces the target at once *)
Definition Rename (src dst : string) (fs : FS) : FS :=
  match fs !! src with Some d => <[dst := d]> (delete src fs) | None => fs end.

(** ** The environment *)

Record Env := {
  LookupEnv : string -> option string;
  readKeyFile : string -> option string;
}.
(** [v, ok := os.LookupEnv(name); ok && v != ""] *)
Definition env_nonempty (e : Env) (name : string) : option string :=
  match e.(LookupEnv) name with
  | Some v => if (v =? "")%string then None else Some v
  | None => None
  end.

Definition peerNameFromURL (u : string) : string :=
  let s := u in
  let s := TrimPrefix s "https://" in
  let s := TrimPrefix s "http://" in
  let s := match Index s "/" with Some i => str_take i s | None => s end in
  let s := ReplaceAll s ":" "-" in
  let s := ReplaceAll s "." "-" in
  if (s =? "")%string then "peer" else s.

(** the loop over the urls of [PEERS_INITIAL] *)
Fixpoint initial_peers (raws : list string) (l : list Peer) : list Peer :=
  match raws with
  | [] => l
  | raw :: raws =>
      let url := TrimSpace raw in
      if (url =? "")%string then initial_peers raws l
      else initial_peers raws
             (l ++ [{| p_Name := peerNameFromURL url; p_URL := url; p_Enabled := true; p_Status := noStatus |}])
  end.

Definition seed_listen (e : Env) (p : Peers) : Peers :=
  match env_nonempty e "PEER_LISTEN" with
  | Some v => if (p.(Listen) =? "")%string then p <| Listen := v |> else p
  | None => p
  end.
Definition seed_key (e : Env) (p : Peers) : Peers :=
  if (p.(SharedKey) =? "")%string then
    match env_nonempty e "PEER_SHARED_KEY" with
    | Some v => p <| SharedKey := v |>
    | None =>
        match env_nonempty e "PEER_SHARED_KEY_FILE" with
        | Some path =>
            match e.(readKeyFile) path with
            | Some data =>
                let key := TrimSpace data in
                if negb (key =? "")%string then p <| SharedKey := key |> else p
            | None => p
            end
        | None => p
        end
    end
  else p.
Definition seed_list (e : Env) (p : Peers) : Peers :=
  match env_nonempty e "PEERS_INITIAL" with
  | Some v =>
      if Nat.eqb (length p.(List)) 0 then p <| List := initial_peers (Split v ",") p.(List) |> else p
  | None => p
  end.
Definition SeedFromEnv (e : Env) (f : File) : File :=
  f <| f_Peers := seed_list e (seed_key e (seed_listen e f.(f_Peers))) |>.

(** ** The default configuration and the stamps *)

Definition DefaultConfig (now : Time) : File :=
  {| Version := CurrentVersion; Updated := 0; UpdatedBy := "";
     f_Settings := {| CacheSize := 1000; DNSSEC := false; LogQueries := false;
                      HTTPListen := "0.0.0.0:80"; DNSListen := "0.0.0.0:53"; PollSeconds := 10 |};
     f_Peers := {| Listen := "0.0.0.0:8443"; SharedKey := ""; SyncIntervalSeconds := 300;
                   ClockSkewSeconds := 300; List := [] |};
     UpstreamDefaults :=
       Some [{| u_Address := "168.63.129.16"; u_Port := 53; u_Enabled := true; u_Note := "Azure DNS";
                u_DoNotSync := false; u_SyncPeers := []; u_UpdatedAt := now; u_UpdatedBy := "bootstrap";
                u_Deleted := false |}];
     ForwardZones := []; StaticRecords := []; DoNotSyncSettings := false |}.

Definition stamp_at (now t : Time) : Time := if IsZero t then now else t.
Definition stamp_by (actor s : string) : string := if (s =? "")%string then actor else s.
Definition stamp_upstream now actor (u : UpstreamDefault) : UpstreamDefault :=
  u <| u_UpdatedAt := stamp_at now u.(u_UpdatedAt) |> <| u_UpdatedBy := stamp_by actor u.(u_UpdatedBy) |>.
Definition stamp_zone now actor (z : ForwardZone) : ForwardZone :=
  z <| z_UpdatedAt := stamp_at now z.(z_UpdatedAt) |> <| z_UpdatedBy := stamp_by actor z.(z_UpdatedBy) |>.
Definition stamp_record now actor (r : StaticRecord) : StaticRecord :=
  r <| r_UpdatedAt := stamp_at now r.(r_UpdatedAt) |> <| r_UpdatedBy := stamp_by actor r.(r_UpdatedBy) |>.
Definition stampItems (now : Time) (actor : string) (f : File) : File :=
  f <| UpstreamDefaults := map (stamp_upstream now actor) <$> f.(UpstreamDefaults) |>
    <| ForwardZones := map (stamp_zone now actor) f.(ForwardZones) |>
    <| StaticRecords := map (stamp_record now actor) f.(StaticRecords) |>.

(** ** Load and ReloadIfChanged *)

(** the answers of the system to one [Load] *)
Record LoadIO := {
  li_read : option string;
  li_mkdir : option string;
  li_write : WriteOutcome;
  li_default_now : Time;
  li_now : Time;
}.

(** the configuration written when there is no file *)
Definition bootstrap (io : LoadIO) (env : Env) : File :=
  (SeedFromEnv env (DefaultConfig io.(li_default_now)))
    <| Updated := io.(li_now) |> <| UpdatedBy := "bootstrap" |>.

Section store.
Context `{Y : Yaml} (path : string) (env : Env).

Definition fail_load (e : LoadError) (s : Store) : Store * option LoadError :=
  (s <| loadErr := Some e |>, Some e).

Definition Load (io : LoadIO) (fs : FS) (s : Store) : FS * (Store * option LoadError) :=
  match ReadFile io.(li_read) path fs with
  | RNotExist =>
      let f := bootstrap io env in
      match io.(li_mkdir) with
      | Some msg => (fs, (s, Some (LErrIO msg)))
      | None =>
          match Marshal f with
          | Err msg => (fs, (s, Some (LErrMarshal msg)))
          | Ok out =>
              let (fs, wErr) := WriteFile io.(li_write) path out fs in
              match wErr with
              | Some msg => (fs, (s, Some (LErrIO msg)))
              | None => (fs, ((setCurrent f (content_hash out) s) <| loadErr := None |>, None))
              end
          end
      end
  | RError msg => (fs, fail_load (LErrIO msg) s)
  | RData data =>
      match Unmarshal data with
      | Err msg => (fs, fail_load (LErrParse msg) s)
      | Ok f =>
          match Validate (SeedFromEnv env f) with
          | Err e => (fs, fail_load (LErrValidate e) s)
          | Ok f => (fs, ((setCurrent f (content_hash data) s) <| loadErr := None |>, None))
          end
      end
  end.

Definition ReloadIfChanged (fault : option string) (fs : FS) (s : Store) : Store * (bool * option LoadError) :=
  match ReadFile fault path fs with
  | RError msg => (s, (false, Some (LErrIO msg)))
  | RNotExist => (s, (false, Some (LErrIO "file does not exist")))
  | RData data =>
      let h := content_hash data in
      if (h =? s.(hash))%string then (s, (false, None))
      else match Unmarshal data with
           | Err msg => (s, (true, Some (LErrParse msg)))
           | Ok f =>
               match Validate (SeedFromEnv env f) with
               | Err e => (s, (true, Some (LErrValidate e)))
               | Ok f => (setCurrent f h s, (true, None))
               end
           end
  end.

(** ** Save *)

Inductive FlockOutcome := FlockOk | FlockWouldBlock | FlockFailed (msg : string).

Record SaveIO := {
  si_mkdir : option string;
  si_open : option string;
  si_flock : FlockOutcome;
  si_write : WriteOutcome;
  si_rename : option string;
  si_unlock : option string;
  si_default_now : Time;
  si_now : Time;
  si_stamp_now : Time;
}.

Context {E : Type}.

Inductive SaveError :=
  | SErrIO (msg : string)
  | ErrLocked
  | SErrMutate (e : E)
  | SErrValidate (e : ConfigError)
  | SErrMarshal (msg : string)
  | SErrUnlock (msg : string).

(** What [Mutate] does to its argument: the draft and the error it leaves, and
    the contents of the array behind [Peers.List], which [Clone] shares with
    the current configuration: a callback that writes the peers in place
    writes those of the current configuration too, error or not. *)
Record Mutated := {
  mut_draft : File;
  mut_err : option E;
  mut_shared : list Peer;
}.

Record SaveOptions := {
  Actor : string;
  Mutate : option (File -> Mutated);
}.

Definition run_mutate (opts : SaveOptions) (f : File) : Mutated :=
  match opts.(Mutate) with
  | Some m => m f
  | None => {| mut_draft := f; mut_err := None; mut_shared := f.(f_Peers).(List) |}
  end.

Definition share_peers (l : list Peer) (s : Store) : Store :=
  s <| current := (fun f => f <| f_Peers := f.(f_Peers) <| List := l |> |>) <$> s.(current) |>.

(** between the mutation and the write: stamps, validation *)
Definition finish_draft (io : SaveIO) (actor : string) (draft : File) : result ConfigError File :=
  let draft := draft <| Updated := io.(si_now) |> <| UpdatedBy := actor |> <| Version := CurrentVersion |> in
  Validate (stampItems io.(si_stamp_now) actor draft).

Definition Save (io : SaveIO) (opts : SaveOptions) (fs : FS) (s : Store)
    : FS * Store * list Hook * result SaveError File :=
  match io.(si_mkdir) with
  | Some msg => (fs, s, [], Err (SErrIO msg))
  | None =>
  match io.(si_open) with
  | Some msg => (fs, s, [], Err (SErrIO msg))
  | None =>
  let lockPath := path +:+ ".lock" in
  let fs := match fs !! lockPath with Some _ => fs | None => <[lockPath := EmptyString]> fs end in
  match io.(si_flock) with
  | FlockWouldBlock => (fs, s, [], Err ErrLocked)
  | FlockFailed msg => (fs, s, [], Err (SErrIO msg))
  | FlockOk =>
  let cur := default (DefaultConfig io.(si_default_now)) s.(current) in
  let draft := Clone cur in
  let m := run_mutate opts draft in
  let s := share_peers m.(mut_shared) s in
  match m.(mut_err) with
  | Some e => (fs, s, [], Err (SErrMutate e))
  | None =>
  match finish_draft io opts.(Actor) m.(mut_draft) with
  | Err e => (fs, s, [], Err (SErrValidate e))
  | Ok draft =>
  match Marshal draft with
  | Err msg => (fs, s, [], Err (SErrMarshal msg))
  | Ok data =>
  let tmp := path +:+ ".tmp" in
  let (fs, wErr) := WriteFile io.(si_write) tmp data fs in
  match wErr with
  | Some msg => (fs, s, [], Err (SErrIO msg))
  | None =>
  match io.(si_rename) with
  | Some msg => (fs, s, [], Err (SErrIO msg))
  | None =>
  let fs := Rename tmp path fs in
  let s := setCurrent draft (content_hash data) s in
  match io.(si_unlock) with
  | Some msg => (fs, s, [], Err (SErrUnlock msg))
  | None => (fs, s, fireOnSave s ++ fireOnApply s, Ok draft)
  end end end end end end end end end.
End store.
Arguments SaveError E : clear implicits.
Arguments Mutated E : clear implicits.
Arguments SaveOptions E : clear implicits.
