(* ===== verification/Concurrent.v ===== *)
(** Save and ReloadIfChanged of internal/config/store.go in the steps that other
    goroutines and other processes can see: the same code as [Store.Save], cut
    where it goes to the system or to the memory the process shares, so that any
    number of them can run at once, under the lock of the lock file. *)
From S2P Require Import Prelude GoStrings GoTime Config Validate Sync Store.

(** Where a Save stands.  Between [AtRead] and [AtUnlock] it holds the lock; in
    [InSave] and [InApply] it waits, without the lock, for the hook it has called. *)
Inductive Phase (E : Type) :=
  | AtLock
  | AtRead
  | AtValidate (d : File)
  | AtTmp (d : File) (data : string)
  | AtWrite (d : File) (data : string)
  | AtRename (d : File) (data : string)
  | AtSet (d : File) (data : string)
  | AtUnlock (d : File)
  | AtHooks (d : File)
  | InSave (d : File) (called : list Hook)
  | InApply (d : File) (fired called : list Hook)
  | Returned (hooks : list Hook) (r : result (SaveError E) File).
Arguments AtLock {E}. Arguments AtRead {E}. Arguments AtValidate {E}. Arguments AtTmp {E}. Arguments AtWrite {E}.
Arguments AtRename {E}. Arguments AtSet {E}. Arguments AtUnlock {E}. Arguments AtHooks {E}.
Arguments InSave {E}. Arguments InApply {E}. Arguments Returned {E}.

Inductive LockOp := Keep | Acquire | Release.

(** Whose turn it is: the Save [j] runs on, or the hook that it waits for ends.
    The hook that pushes to the peers waits for their answers, up to fifteen
    seconds each, so it ends when it ends: whatever the other Saves do before. *)
Inductive Turn := Runs (j : nat) | HookEnds (j : nat).
#[export] Instance turn_eq_dec : EqDecision Turn.
Proof. solve_decision. Defined.
Definition turn_of (t : Turn) : nat := match t with Runs j | HookEnds j => j end.

(** a Save that runs in the process [j_proc] *)
Record Job (E : Type) := { j_proc : nat; j_io : SaveIO; j_opts : SaveOptions E; j_phase : Phase E }.
Arguments j_proc {E}. Arguments j_io {E}. Arguments j_opts {E}. Arguments j_phase {E}. Arguments Build_Job {E}.
#[export] Instance job_settable {E} : Settable (Job E) := fun b =>
  {| j_proc := b.(j_proc); j_io := b.(j_io); j_opts := b.(j_opts); j_phase := b.(j_phase) |}.

(** the files, the memory of each process, the Saves, and the one that holds the lock *)
Record World (E : Type) := {
  w_fs : FS;
  w_stores : gmap nat Store;
  w_jobs : gmap nat (Job E);
  w_lock : option nat;
}.
Arguments w_fs {E}. Arguments w_stores {E}. Arguments w_jobs {E}. Arguments w_lock {E}. Arguments Build_World {E}.

Section concurrent.
Context `{Y : Yaml} (path : string) {E : Type}.

(** [OpenFile] of the lock file with [O_CREATE] *)
Definition open_lock (fs : FS) : FS :=
  match fs !! (path +:+ ".lock") with Some _ => fs | None => <[path +:+ ".lock" := EmptyString]> fs end.

(** [fireOnApply] at the end of a Save, after the hooks [fired]: it calls the hook
    and waits, or there is none *)
Definition fire_apply (d : File) (fired : list Hook) (s : Store) : Phase E :=
  match fireOnApply s with [] => Returned fired (Ok d) | called => InApply d fired called end.
(** [fireOnSave], and what comes after it *)
Definition fire_save (d : File) (s : Store) : Phase E :=
  match fireOnSave s with [] => fire_apply d [] s | called => InSave d called end.
(** the hook that a Save waits for has returned *)
Definition hook_returns (ph : Phase E) (s : Store) : Phase E :=
  match ph with
  | InSave d called => fire_apply d called s
  | InApply d fired called => Returned (fired ++ called) (Ok d)
  | _ => ph
  end.

(** One step of a Save; [taken] tells whether someone holds the lock.  Every
    return drops the lock: explicitly, or when the deferred [Close] of the lock
    file runs.  [WriteFile] is two steps: it truncates, then it writes.  A Save
    that has called a hook does not move. *)
Definition advance (io : SaveIO) (opts : SaveOptions E) (taken : bool) (ph : Phase E) (fs : FS) (s : Store)
    : FS * Store * Phase E * LockOp :=
  let fail e := Returned [] (Err e) in
  match ph with
  | AtLock =>
      match io.(si_mkdir) with
      | Some msg => (fs, s, fail (SErrIO msg), Keep)
      | None =>
      match io.(si_open) with
      | Some msg => (fs, s, fail (SErrIO msg), Keep)
      | None =>
      match io.(si_flock) with
      | FlockFailed msg => (open_lock fs, s, fail (SErrIO msg), Keep)
      | _ => if taken then (open_lock fs, s, fail ErrLocked, Keep) else (open_lock fs, s, AtRead, Acquire)
      end end end
  | AtRead =>
      let m := run_mutate opts (Clone (default (DefaultConfig io.(si_default_now)) s.(current))) in
      let s := share_peers m.(mut_shared) s in
      match m.(mut_err) with
      | Some e => (fs, s, fail (SErrMutate e), Release)
      | None => (fs, s, AtValidate m.(mut_draft), Keep)
      end
  | AtValidate d =>
      match finish_draft io opts.(Actor) d with
      | Err e => (fs, s, fail (SErrValidate e), Release)
      | Ok d =>
          match Marshal d with
          | Err msg => (fs, s, fail (SErrMarshal msg), Release)
          | Ok data => (fs, s, AtTmp d data, Keep)
          end
      end
  | AtTmp d data =>
      match io.(si_write) with
      | WriteNotOpened msg => (fs, s, fail (SErrIO msg), Release)
      | _ => (<[path +:+ ".tmp" := EmptyString]> fs, s, AtWrite d data, Keep)
      end
  | AtWrite d data =>
      let '(fs, wErr) := WriteFile io.(si_write) (path +:+ ".tmp") data fs in
      match wErr with
      | Some msg => (fs, s, fail (SErrIO msg), Release)
      | None => (fs, s, AtRename d data, Keep)
      end
  | AtRename d data =>
      match io.(si_rename) with
      | Some msg => (fs, s, fail (SErrIO msg), Release)
      | None => (Rename (path +:+ ".tmp") path fs, s, AtSet d data, Keep)
      end
  | AtSet d data => (fs, setCurrent d (content_hash data) s, AtUnlock d, Keep)
  | AtUnlock d =>
      match io.(si_unlock) with
      | Some msg => (fs, s, fail (SErrUnlock msg), Release)
      | None => (fs, s, AtHooks d, Release)
      end
  | AtHooks d => (fs, s, fire_save d s, Keep)
  | InSave _ _ | InApply _ _ _ | Returned _ _ => (fs, s, ph, Keep)
  end.
Definition take_turn (t : Turn) (io : SaveIO) (opts : SaveOptions E) (taken : bool) (ph : Phase E) (fs : FS) (s : Store)
    : FS * Store * Phase E * LockOp :=
  match t with Runs _ => advance io opts taken ph fs s | HookEnds _ => (fs, s, hook_returns ph s, Keep) end.

(** the Save whose turn it is takes it *)
Definition sched (t : Turn) (w : World E) : World E :=
  let j := turn_of t in
  match w.(w_jobs) !! j with
  | None => w
  | Some b =>
      match w.(w_stores) !! b.(j_proc) with
      | None => w
      | Some s =>
          let '(fs, s, ph, op) :=
            take_turn t b.(j_io) b.(j_opts) (bool_decide (is_Some w.(w_lock))) b.(j_phase) w.(w_fs) s in
          {| w_fs := fs; w_stores := <[b.(j_proc) := s]> w.(w_stores); w_jobs := <[j := b <| j_phase := ph |>]> w.(w_jobs);
             w_lock := match op with Keep => w.(w_lock) | Acquire => Some j | Release => None end |}
      end
  end.
Definition schedule (ts : list Turn) (w : World E) : World E := foldl (fun w t => sched t w) w ts.

(** what a Save will return, from the moment it has let the lock go *)
Definition outcome (ph : Phase E) : option (result (SaveError E) File) :=
  match ph with AtHooks d | InSave d _ | InApply d _ _ => Some (Ok d) | Returned _ r => Some r | _ => None end.
Definition holds (ph : Phase E) : bool :=
  match ph with AtLock | AtHooks _ | InSave _ _ | InApply _ _ _ | Returned _ _ => false | _ => true end.
(** it is inside a hook *)
Definition in_hook (ph : Phase E) : bool := match ph with InSave _ _ | InApply _ _ _ => true | _ => false end.

(** nobody has started *)
Definition fresh (w : World E) : Prop :=
  w.(w_lock) = None
  /\ forall j b, w.(w_jobs) !! j = Some b -> b.(j_phase) = AtLock /\ is_Some (w.(w_stores) !! b.(j_proc)).

(** ** One Save after the other *)

Definition with_flock (o : FlockOutcome) (io : SaveIO) : SaveIO :=
  {| si_mkdir := io.(si_mkdir); si_open := io.(si_open); si_flock := o; si_write := io.(si_write); si_rename := io.(si_rename);
     si_unlock := io.(si_unlock); si_default_now := io.(si_default_now); si_now := io.(si_now); si_stamp_now := io.(si_stamp_now) |}.
(** the answer of [flock] to a Save that meets the lock free or taken *)
Definition flock_answer (taken : bool) (io : SaveIO) : FlockOutcome :=
  match io.(si_flock) with FlockFailed msg => FlockFailed msg | _ => if taken then FlockWouldBlock else FlockOk end.

(** [serial jobs c order c']: the whole Saves of [order], each with what it
    returns, lead from the files and memories [c] to [c'] *)
Inductive serial (jobs : gmap nat (Job E)) :
    FS * gmap nat Store -> list (nat * result (SaveError E) File) -> FS * gmap nat Store -> Prop :=
  | serial_nil c : serial jobs c [] c
  | serial_snoc c order fs stores j b taken s fs' s' hooks r :
      serial jobs c order (fs, stores) ->
      jobs !! j = Some b -> stores !! b.(j_proc) = Some s ->
      Save path (with_flock (flock_answer taken b.(j_io)) b.(j_io)) b.(j_opts) fs s = (fs', s', hooks, r) ->
      serial jobs c (order ++ [(j, r)]) (fs', <[b.(j_proc) := s']> stores).

(** ** Polls *)

(** Where a poll of a process stands: [ReloadIfChanged] reads the file without
    the lock, then compares with the hash in memory, then sets the memory. *)
Inductive PollPhase := PollIdle | PollCompare (data : string) | PollSet (f : File) (h : string).

Definition poll_advance (env : Env) (fault : option string) (ph : PollPhase) (fs : FS) (s : Store) : Store * PollPhase :=
  match ph with
  | PollIdle =>
      match ReadFile fault path fs with
      | RData data => (s, PollCompare data)
      | _ => (s, PollIdle)
      end
  | PollCompare data =>
      let h := content_hash data in
      if (h =? s.(hash))%string then (s, PollIdle)
      else match Unmarshal data with
           | Err _ => (s, PollIdle)
           | Ok f =>
               match Validate (SeedFromEnv env f) with
               | Err _ => (s, PollIdle)
               | Ok f => (s, PollSet f h)
               end
           end
  | PollSet f h => (setCurrent f h s, PollIdle)
  end.

(** Saves at any stage, the poll of each process, and outside edits of the file *)
Record Running := { rw_world : World E; rw_polls : gmap nat PollPhase }.
Inductive WorldEvent := EvSave (t : Turn) | EvPoll (p : nat) (fault : option string) | EvEdit (data : string).

Definition poll_of (p : nat) (r : Running) : PollPhase := default PollIdle (r.(rw_polls) !! p).
Definition happen (env : Env) (r : Running) (e : WorldEvent) : Running :=
  let w := r.(rw_world) in
  match e with
  | EvSave t => {| rw_world := sched t w; rw_polls := r.(rw_polls) |}
  | EvPoll p fault =>
      match w.(w_stores) !! p with
      | None => r
      | Some s =>
          let '(s, ph) := poll_advance env fault (poll_of p r) w.(w_fs) s in
          {| rw_world := {| w_fs := w.(w_fs); w_stores := <[p := s]> w.(w_stores); w_jobs := w.(w_jobs); w_lock := w.(w_lock) |};
             rw_polls := <[p := ph]> r.(rw_polls) |}
      end
  | EvEdit data =>
      {| rw_world := {| w_fs := <[path := data]> w.(w_fs); w_stores := w.(w_stores); w_jobs := w.(w_jobs); w_lock := w.(w_lock) |};
         rw_polls := r.(rw_polls) |}
  end.
Definition happens (env : Env) (es : list WorldEvent) (r : Running) : Running := foldl (happen env) r es.
End concurrent.
Arguments Running E : clear implicits.
