(* ===== verification/Generate.v ===== *)
(** The unbound configuration, internal/unbound/generate.go: [Generate] and its
    helpers.  Every [WriteString] and [Fprintf] of the source is one string of
    the list that [Generate] concatenates. *)
From S2P Require Import Prelude GoStrings GoTime Config Validate.

Definition DefaultListen : string := "127.0.0.1:15353".
Definition DefaultListenPort : Z := 15353.
Definition ProxyAddr : string := DefaultListen.

Definition ensureFQDN (name : string) : string :=
  if HasSuffix name "." then name else name +:+ ".".

Definition splitHostPort (s : string) (def : Z) : string * Z :=
  let s := TrimSpace s in
  if negb (Contains s ":") then (s, def)
  else
    let read_port rest := let p := Sscanf_d rest 0 in if p =? 0 then def else p in
    if HasPrefix s "[" then
      match Index s "]" with
      | None => (s, def)
      | Some end_ =>
          let host := str_take (S end_) s in
          let rest := str_drop (S end_) s in
          let rest := if HasPrefix rest ":" then str_drop 1 rest else rest in
          (host, read_port rest)
      end
    else
      match LastIndex s ":" with
      | None => (s, def) (* s contains a colon: LastIndex finds it *)
      | Some idx => (str_take idx s, read_port (str_drop (S idx) s))
      end.

(** [b.WriteString(text + "\n")] and the same with a tab in front *)
Definition ln (text : string) : string := text +:+ str1 NL.
Definition tln (text : string) : string := ln (str1 TAB +:+ text).
Definition dq (s : string) : string := str1 DQ +:+ s +:+ str1 DQ.

Definition server_lines (f : File) : list string :=
  let (host, port) := splitHostPort f.(f_Settings).(DNSListen) 53 in
  [ln "# Generated by AzureDNSForwarder - do not edit by hand.";
   ln "server:";
   tln "verbosity: 1";
   tln "interface-automatic: no";
   tln ("interface: " +:+ host);
   tln ("port: " +:+ fmt_d port);
   tln "do-ip4: yes";
   tln "do-ip6: yes";
   tln "do-udp: yes";
   tln "do-tcp: yes";
   tln "cache-min-ttl: 60";
   tln "cache-max-ttl: 86400";
   tln ("msg-cache-size: " +:+ fmt_d f.(f_Settings).(CacheSize));
   tln ("rrset-cache-size: " +:+ fmt_d f.(f_Settings).(CacheSize))]
  ++ (if f.(f_Settings).(DNSSEC)
      then [tln ("module-config: " +:+ dq "validator iterator"); tln "trust-anchor-signaling: yes"]
      else [tln ("module-config: " +:+ dq "iterator")])
  ++ (if f.(f_Settings).(LogQueries) then [tln "verbosity: 2"] else [])
  ++ [tln ("directory: " +:+ dq "/etc/unbound");
      tln ("username: " +:+ dq "dnsfwd");
      tln "use-syslog: no";
      tln ("logfile: " +:+ dq "/dev/stdout");
      tln "num-threads: 1";
      tln "access-control: 0.0.0.0/0 allow";
      tln "access-control: ::/0 allow";
      tln "unwanted-reply-threshold: 0";
      tln "private-address: 168.63.129.16";
      tln "private-address: 169.254.169.254";
      tln "do-not-query-localhost: no";
      ln ""].

(** the body of the loop over the static records *)
Definition record_lines (r : StaticRecord) : list string :=
  if r.(r_Deleted) then []
  else
    let name := ensureFQDN r.(r_Name) in
    let val := r.(r_Value) in
    let val := if (r.(r_Type) =? "CNAME")%string && negb (HasSuffix val ".") then ensureFQDN val else val in
    let data t := [ln ("local-data: " +:+ dq (name +:+ " " +:+ fmt_d r.(r_TTL) +:+ " IN " +:+ t +:+ " " +:+ val))] in
    let t := ToUpper r.(r_Type) in
    if (t =? "A")%string then data "A"
    else if (t =? "AAAA")%string then data "AAAA"
    else if (t =? "CNAME")%string then data "CNAME"
    else [].
Definition records_lines (rs : list StaticRecord) : list string :=
  match rs with
  | [] => []
  | _ => concat (map record_lines rs) ++ [ln ""]
  end.

Definition addr_lines (host : string) (port : Z) : list string :=
  tln ("forward-addr: " +:+ host)
  :: (if port =? 53 then [] else [tln ("forward-port: " +:+ fmt_d port)]).

Definition enabled_defaults (us : list UpstreamDefault) : list UpstreamDefault :=
  List.filter (fun u => negb (u.(u_Deleted) || negb u.(u_Enabled))) us.
Definition defaults_lines (us : list UpstreamDefault) : list string :=
  match enabled_defaults us with
  | [] => []
  | enabled =>
      [ln "forward-zone:"; tln ("name: " +:+ dq ".")]
      ++ concat (map (fun u => addr_lines u.(u_Address) u.(u_Port)) enabled)
      ++ [tln "forward-tls-upstream: no"; ln ""]
  end.

(** the body of the loop over the forward zones *)
Definition zone_lines (z : ForwardZone) : list string :=
  if z.(z_Deleted) then []
  else
    let name := TrimPrefix z.(z_Name) "*." in
    [ln "forward-zone:"; tln ("name: " +:+ dq name)]
    ++ (if z.(z_LeastLatency) then
          let (host, port) := splitHostPort DefaultListen DefaultListenPort in
          let host := if negb (port =? 53) then host +:+ "@" +:+ fmt_d port else host in
          [tln ("forward-addr: " +:+ host)]
        else concat (map (fun u => let (host, port) := splitHostPort u 53 in addr_lines host port) z.(z_Upstreams)))
    ++ [tln "forward-tls-upstream: no"; ln ""].

Definition generated (f : File) : list string :=
  server_lines f
  ++ records_lines f.(StaticRecords)
  ++ defaults_lines (elems f.(UpstreamDefaults))
  ++ concat (map zone_lines f.(ForwardZones))
  ++ [ln "remote-control:"; tln "control-enable: no"].

(** the error of the source's result is always nil *)
Definition Generate (f : File) : string := concat_str (generated f).
