(* ===== verification/NetIP.v ===== *)
(** Go's [net.ParseIP] and [net.SplitHostPort], which internal/unbound/proxy
    uses: the text of an address to its 16 bytes, IPv4 in its IPv6-mapped form. *)
From S2P Require Import Prelude GoStrings.

(** ** IPv4: four decimal fields up to 255, no leading zeros *)

Definition parse_octet (s : string) : option Z :=
  match s with
  | EmptyString => None
  | String c rest =>
      if negb (sforall isDigit s) then None
      else if (c =? "0")%char && negb (rest =? "")%string then None
      else let v := digits_val 0 s in if 255 <? v then None else Some v
  end.
Definition parseIPv4Fields (s : string) : option (list Z) :=
  match Split s "." with
  | [a; b; c; d] =>
      match parse_octet a, parse_octet b, parse_octet c, parse_octet d with
      | Some a, Some b, Some c, Some d => Some [a; b; c; d]
      | _, _, _, _ => None
      end
  | _ => None
  end.
Definition v4InV6 (l : list Z) : list Z := repeat 0 10 ++ [255; 255] ++ l.

(** ** IPv6 *)

Definition hex_val (c : ascii) : option Z :=
  if isDigit c then Some (code c - 48)
  else if between "a" "f" c then Some (code c - 87)
  else if between "A" "F" c then Some (code c - 55)
  else None.
(** the leading hexadecimal digits: their number, their value, the rest *)
Fixpoint span_hex (n : nat) (acc : Z) (s : string) : nat * Z * string :=
  match s with
  | String c s' =>
      match hex_val c with
      | Some v => span_hex (S n) (acc * 16 + v) s'
      | None => (n, acc, s)
      end
  | EmptyString => (n, acc, s)
  end.

(** [ip] holds the bytes read so far, [ell] the position of the double colon. *)
Definition expand (ip : list Z) (ell : option nat) : option (list Z) :=
  let n := length ip in
  if (n <? 16)%nat then
    match ell with
    | None => None
    | Some e => Some (take e ip ++ repeat 0 (16 - n) ++ drop e ip)
    end
  else match ell with Some _ => None | None => Some ip end.

(** The loop over the groups; each round adds at least two bytes, so eight
    rounds of fuel are enough. *)
Fixpoint parse_groups (fuel : nat) (s : string) (ip : list Z) (ell : option nat) : option (list Z) :=
  match fuel with
  | O => if (s =? "")%string then expand ip ell else None
  | S fuel =>
      if (16 <=? length ip)%nat then (if (s =? "")%string then expand ip ell else None)
      else
        let '(off, acc, rest) := span_hex 0 0 s in
        if (off =? 0)%nat || (4 <? off)%nat then None
        else if HasPrefix rest "." then
          if match ell with None => negb (length ip =? 12)%nat | Some _ => false end then None
          else if (16 <? length ip + 4)%nat then None
          else match parseIPv4Fields s with
               | Some v4 => expand (ip ++ v4) ell
               | None => None
               end
        else
          let ip := ip ++ [acc / 256; acc mod 256] in
          match rest with
          | EmptyString => expand ip ell
          | String c rest =>
              if negb (c =? ":")%char || (rest =? "")%string then None
              else if HasPrefix rest ":" then
                match ell with
                | Some _ => None
                | None =>
                    let rest := str_drop 1 rest in
                    if (rest =? "")%string then expand ip (Some (length ip))
                    else parse_groups fuel rest ip (Some (length ip))
                end
              else parse_groups fuel rest ip ell
          end
  end.
Definition parseIPv6 (s : string) : option (list Z) :=
  if HasPrefix s "::" then
    let rest := str_drop 2 s in
    if (rest =? "")%string then Some (repeat 0 16) else parse_groups 8 rest [] (Some O)
  else parse_groups 8 s [] None.

(** the first dot or colon tells the family; a zone is refused *)
Fixpoint first_sep (s : string) : option ascii :=
  match s with
  | EmptyString => None
  | String c s' => if existsb (Ascii.eqb c) ["."; ":"; "%"]%char then Some c else first_sep s'
  end.
Definition ParseIP (s : string) : option (list Z) :=
  match first_sep s with
  | Some c =>
      if (c =? ".")%char then v4InV6 <$> parseIPv4Fields s
      else if (c =? ":")%char then if Contains s "%" then None else parseIPv6 s
      else None
  | None => None
  end.
(** [ip.To4() != nil] *)
Definition is4 (ip : list Z) : bool := bool_decide (take 12 ip = repeat 0 10 ++ [255; 255]).

(** ** net.SplitHostPort *)

Definition SplitHostPort (s : string) : option (string * string) :=
  match LastIndex s ":" with
  | None => None
  | Some i =>
      let finish host j k :=
        if Contains (str_drop j s) "[" || Contains (str_drop k s) "]" then None
        else Some (host, str_drop (S i) s) in
      if HasPrefix s "[" then
        match Index s "]" with
        | None => None
        | Some e => if (S e =? i)%nat then finish (str_drop 1 (str_take e s)) 1%nat (S e) else None
        end
      else
        let host := str_take i s in
        if Contains host ":" then None else finish host O O
  end.

Example ParseIP_v4 : ParseIP "168.63.129.16" = Some (v4InV6 [168; 63; 129; 16]).
Proof. vm_compute. reflexivity. Qed.
Example ParseIP_v6 : ParseIP "2001:db8::1" = Some ([0x20; 0x01; 0x0d; 0xb8] ++ repeat 0 11 ++ [1]).
Proof. vm_compute. reflexivity. Qed.
Example ParseIP_mapped : ParseIP "::ffff:10.0.0.1" = Some (v4InV6 [10; 0; 0; 1]).
Proof. vm_compute. reflexivity. Qed.
Example ParseIP_bad : map ParseIP ["999.1.1.1"; "1.2.3"; "01.2.3.4"; "1:2:3"; "::1::"; "12345::"; ""] = repeat None 7.
Proof. vm_compute. reflexivity. Qed.
Example SplitHostPort_ex : map SplitHostPort ["10.0.0.4:53"; "[::1]:53"; "::1"; "10.0.0.4"] = [Some ("10.0.0.4", "53"); Some ("::1", "53"); None; None].
Proof. vm_compute. reflexivity. Qed.
