(* ===== verification/Resolve.v ===== *)
(** The test query of the GUI, internal/unbound/test.go. *)
From S2P Require Import Prelude GoStrings GoTime.

Record TestResult := {
  t_Question : string;
  t_Qtype : string;
  t_Upstream : string;
  t_RTT : Duration;
  t_Answers : list string;
  t_Authoritative : bool;
  t_Raw : string;
}.

(** github.com/miekg/dns, as far as the test query uses it *)
Class DNSLib := {
  Fqdn : string -> string;
  StringToType : string -> option Z;
  TypeToString : Z -> string;
}.
(** what the exchange returns: the answers in text, the flag, the whole reply in text *)
Record Reply := { rp_answers : list string; rp_authoritative : bool; rp_text : string; rp_rtt : Duration }.

Definition test_address (upstream : string) : string :=
  if negb (Contains upstream ":") then upstream +:+ ":53" else upstream.

(** [exchange name type address] *)
Definition TestResolve `{DNSLib} (exchange : string -> Z -> string -> result string Reply) (name qtype upstream : string)
    : result string TestResult :=
  let upstream := test_address upstream in
  match StringToType (ToUpper qtype) with
  | None => Err ("unknown qtype " +:+ fmt_q qtype)
  | Some qtypeUint =>
      let? resp := exchange (Fqdn name) qtypeUint upstream in
      Ok {| t_Question := Fqdn name; t_Qtype := TypeToString qtypeUint; t_Upstream := upstream; t_RTT := resp.(rp_rtt);
            t_Answers := resp.(rp_answers); t_Authoritative := resp.(rp_authoritative); t_Raw := resp.(rp_text) |}
  end.
