(* ===== verification/Ping.v ===== *)
(** ICMP latency measurement, internal/unbound/proxy/ping.go. *)
From S2P Require Import Prelude GoStrings GoTime NetIP.

Definition icmpPayload : string := "AzureDNSForwarder".
Definition icmpTimeout : Duration := 2 * Second.

(** [binary.BigEndian.PutUint16(b, uint16(v))] *)
Definition uint16Bytes (v : Z) : list Z := let w := v mod 2 ^ 16 in [w / 256; w mod 256].

(** the four random bytes, big-endian, or the clock when they cannot be read *)
Definition randInt (bytes : option Z) (unixNano : Z) (max : Z) : Z :=
  match bytes with
  | Some u32 => Z.rem u32 max
  | None => Z.rem unixNano max
  end.

(** the payload of the request: the text, the id, the sequence number *)
Definition echo_data (id seq : Z) : list Z :=
  map code (String.list_ascii_of_string icmpPayload) ++ uint16Bytes id ++ uint16Bytes seq.

(** ** One ping *)

(** What the socket delivers before its deadline: the address a packet came
    from, the time since the request, and the echo it parses to, if any. *)
Record Packet := {
  pk_peer : string;
  pk_rtt : Duration;
  pk_echo : option (Z * Z);
}.

(** the read loop; it ends with the packets, at the deadline *)
Fixpoint await_reply (addr : string) (id seq : Z) (packets : list Packet) : Duration :=
  match packets with
  | [] => 0
  | p :: packets =>
      if negb (p.(pk_peer) =? addr)%string then await_reply addr id seq packets
      else match p.(pk_echo) with
           | Some (i, q) =>
               if negb (i =? id) || negb (q =? seq) then await_reply addr id seq packets
               else p.(pk_rtt)
           | None => await_reply addr id seq packets
           end
  end.

(** [socket] tells for a family whether the socket opens and the request can be
    marshalled and sent, and what is then received. *)
Definition ping (socket : bool -> option (list Packet)) (id seq : Z) (addr : string) : Duration :=
  match ParseIP addr with
  | None => 0
  | Some ip =>
      match socket (is4 ip) with
      | None => 0
      | Some packets => await_reply addr id seq packets
      end
  end.

(** ** All pings of a zone *)

(** one goroutine's critical section: the map and the best time so far, -1 for none *)
Definition pinger_done (st : gmap string Duration * Duration) (done_ : string * Duration)
    : gmap string Duration * Duration :=
  let '(res, best) := st in
  let '(addr, rtt) := done_ in
  (<[addr := rtt]> res,
   if (0 <? rtt) && ((best <? 0) || (rtt <? best)) then rtt else best).

(** [completions] is the order in which the goroutines, one per address, get the lock. *)
Definition concurrentPinger (completions : list (string * Duration)) : gmap string Duration * Duration :=
  let '(res, best) := foldl pinger_done (∅, -1) completions in
  (res, if best <? 0 then 0 else best).

(** ** Small helpers *)

Fixpoint containsSubstr (s substr : string) : bool :=
  match s with
  | EmptyString => (substr =? "")%string
  | String _ s' => (str_take (String.length substr) s =? substr)%string || containsSubstr s' substr
  end.
Definition stringsContains (s substr : string) : bool :=
  (len substr <=? len s)
  && ((s =? substr)%string || ((0 <? len s) && containsSubstr s substr)).

(** host and port of an upstream; [None] is the error *)
Definition parseUpstream (s : string) : option (string * Z) :=
  match SplitHostPort s with
  | None => if stringsContains s ":" then None else Some (s, 53)
  | Some (host, portStr) =>
      let (port, ok) := Atoi portStr in if ok then Some (host, port) else None
  end.
