(* ===== verification/Proxy.v ===== *)
(** The least-latency proxy, internal/unbound/proxy/proxy.go.

    The zones of the server are pointers that a probe, running on its own, keeps
    and writes through after the map may have dropped them: the model has a heap
    of zone states and a map from names to locations. *)
From S2P Require Import Prelude GoStrings GoTime Config Generate NetIP Ping.

(** record types and response codes of the DNS protocol *)
Definition TypeA : Z := 1.
Definition TypeCNAME : Z := 5.
Definition TypeAAAA : Z := 28.
Definition RcodeSuccess : Z := 0.
Definition RcodeFormatError : Z := 1.
Definition RcodeServerFailure : Z := 2.
Definition RcodeNameError : Z := 3.

Record latencyRecord := {
  l_Target : string;
  l_Type : Z;
  l_Value : string;
  l_TTL : Z;
  l_RTT : Duration;
}.
#[export] Instance latency_settable : Settable latencyRecord := fun r =>
  {| l_Target := r.(l_Target); l_Type := r.(l_Type); l_Value := r.(l_Value);
     l_TTL := r.(l_TTL); l_RTT := r.(l_RTT) |}.

Record zoneState := {
  zs_Name : string;
  zs_Upstream : string;
  zs_Interval : Duration;
  zs_Records : list latencyRecord;
  zs_Updated : Time;
  zs_Err : string;
}.
#[export] Instance zonestate_settable : Settable zoneState := fun z =>
  {| zs_Name := z.(zs_Name); zs_Upstream := z.(zs_Upstream); zs_Interval := z.(zs_Interval);
     zs_Records := z.(zs_Records); zs_Updated := z.(zs_Updated); zs_Err := z.(zs_Err) |}.

Record Server := {
  heap : list zoneState;
  zones : gmap string nat;
  started : bool;
}.
#[export] Instance proxy_settable : Settable Server := fun s =>
  {| heap := s.(heap); zones := s.(zones); started := s.(started) |}.

Definition New : Server := {| heap := []; zones := ∅; started := false |}.

(** ** rebuildZones *)

Definition probe_interval (z : ForwardZone) : Duration :=
  let interval := times z.(z_LatencyTestFrequency) Minute in
  if interval <=? 0 then 5 * Minute else interval.
Definition probe_upstream (up : string) : string :=
  if negb (Contains up ":") then up +:+ ":53" else up.

Section proxy.
(** [dns.Fqdn] of the DNS library *)
Context (Fqdn : string -> string).

(** the loop body; [old] is the map of the server, [acc] the heap and [newZones] *)
Definition rebuild_zone (old : gmap string nat) (acc : list zoneState * gmap string nat) (z : ForwardZone)
    : list zoneState * gmap string nat :=
  let '(h, newZones) := acc in
  if z.(z_Deleted) || negb z.(z_LeastLatency) || z.(z_Wildcard) then acc
  else
    match z.(z_Upstreams) with
    | [] => acc
    | up :: _ =>
        let fqdn := Fqdn z.(z_Name) in
        let interval := probe_interval z in
        let upstream := probe_upstream up in
        let fresh :=
          (h ++ [{| zs_Name := fqdn; zs_Upstream := upstream; zs_Interval := interval;
                    zs_Records := []; zs_Updated := 0; zs_Err := "" |}],
           <[fqdn := length h]> newZones) in
        match old !! fqdn ≫= (fun l => pair l <$> h !! l) with
        | Some (l, o) =>
            if (o.(zs_Upstream) =? upstream)%string && (o.(zs_Interval) =? interval)
            then (h, <[fqdn := l]> newZones)
            else fresh
        | None => fresh
        end
    end.

Definition rebuildZones (cur : option File) (s : Server) : Server :=
  match cur with
  | None => s <| zones := ∅ |>
  | Some f =>
      let '(h, newZones) := foldl (rebuild_zone s.(zones)) (s.(heap), ∅) f.(ForwardZones) in
      s <| heap := h |> <| zones := newZones |>
  end.

Definition zoneSnapshot (s : Server) : list nat := (map_to_list s.(zones)).*2.

(** ** Starting, stopping and the probe pass *)

Definition Start (cur : option File) (s : Server) : Server :=
  if s.(started) then s else (rebuildZones cur s) <| started := true |>.
Definition Stop (s : Server) : Server :=
  if negb s.(started) then s else s <| started := false |>.

(** whether a pass at [now] probes a zone *)
Definition due (now : Time) (z : zoneState) : bool :=
  IsZero z.(zs_Updated) || negb (Sub now z.(zs_Updated) <? z.(zs_Interval)).
(** ** resolveTarget *)

Inductive RR :=
  | RR_A (ip : string) (ttl : Z)
  | RR_AAAA (ip : string) (ttl : Z)
  | RR_CNAME (target : string) (ttl : Z)
  | RR_other.
(** what the exchange of one question returns: an error, or a code and answers *)
Abbreviation Exchange := (option (Z * list RR)) (only parsing).

Definition record_of (name : string) (rr : RR) : list latencyRecord :=
  let mk t v ttl := [{| l_Target := name; l_Type := t; l_Value := v; l_TTL := ttl; l_RTT := 0 |}] in
  match rr with
  | RR_A ip ttl => mk TypeA ip ttl
  | RR_AAAA ip ttl => mk TypeAAAA ip ttl
  | RR_CNAME target ttl => mk TypeCNAME target ttl
  | RR_other => []
  end.
Definition answers_of (name : string) (resp : Exchange) : list latencyRecord :=
  match resp with
  | None => []
  | Some (rcode, answer) =>
      if negb (rcode =? RcodeSuccess) then [] else concat (map (record_of name) answer)
  end.

(** [out[i] < out[j]] of [sort.Slice] *)
Fixpoint string_ltb (s t : string) : bool :=
  match s, t with
  | _, EmptyString => false
  | EmptyString, String _ _ => true
  | String c s', String d t' => (code c <? code d) || ((code c =? code d) && string_ltb s' t')
  end.
Definition record_less (a b : latencyRecord) : bool :=
  if negb (a.(l_Type) =? b.(l_Type)) then a.(l_Type) <? b.(l_Type)
  else string_ltb a.(l_Value) b.(l_Value).
(** insertion sort, which is what [sort.Slice] runs on up to twelve elements *)
Fixpoint insert_record (x : latencyRecord) (l : list latencyRecord) : list latencyRecord :=
  match l with
  | [] => [x]
  | y :: l' => if record_less x y then x :: l else y :: insert_record x l'
  end.
Definition sort_records (l : list latencyRecord) : list latencyRecord :=
  foldl (fun acc x => insert_record x acc) [] l.

(** [None] is the error: no answers *)
Definition resolveTarget (name : string) (exch : Z -> Exchange) : option (list latencyRecord) :=
  let out := answers_of name (exch TypeA) ++ answers_of name (exch TypeAAAA) in
  match out with [] => None | _ => Some (sort_records out) end.

(** ** probeZone *)

Definition is_address (r : latencyRecord) : bool := (r.(l_Type) =? TypeA) || (r.(l_Type) =? TypeAAAA).
Definition probe_ips (records : list latencyRecord) : list string :=
  map l_Value (List.filter is_address records).
Definition set_rtt (rttMap : gmap string Duration) (r : latencyRecord) : latencyRecord :=
  if is_address r then match rttMap !! r.(l_Value) with Some v => r <| l_RTT := v |> | None => r end
  else r.
(** the records that are kept, given the order in which the pings end *)
Definition rank_records (records : list latencyRecord) (completions : list (string * Duration))
    : list latencyRecord :=
  let '(rttMap, bestRTT) := concurrentPinger completions in
  let records := map (set_rtt rttMap) records in
  let keepAll := bestRTT <=? 0 in
  if negb keepAll
  then List.filter (fun r => (r.(l_Type) =? TypeCNAME) || (r.(l_RTT) =? bestRTT)) records
  else records.

(** one probe of the zone at [l]: its resolution, its pings, and the clock; the
    result is written through the pointer *)
Definition probe_result (exch : Z -> Exchange) (completions : list (string * Duration)) (now : Time) (z : zoneState)
    : zoneState :=
  match resolveTarget z.(zs_Name) exch with
  | None => z <| zs_Err := "no A/AAAA/CNAME answers from " +:+ z.(zs_Upstream) |> <| zs_Updated := now |>
  | Some records =>
      z <| zs_Records := rank_records records completions |> <| zs_Err := "" |> <| zs_Updated := now |>
  end.
Definition probeZone (exch : Z -> Exchange) (completions : list (string * Duration)) (now : Time) (l : nat) (s : Server)
    : Server :=
  s <| heap := alter (probe_result exch completions now) l s.(heap) |>.

(** ** Probing many zones *)

(** what the probe of one zone meets *)
Record Probe := {
  pb_exchange : Z -> Exchange;
  pb_pings : list (string * Duration);
  pb_now : Time;
}.
(** One goroutine for each zone; they write different zones, so the order in
    which they end does not matter ([probeAll_order] in ProxyProps). *)
Definition probeAll (probes : nat -> Probe) (ls : list nat) (s : Server) : Server :=
  foldl (fun s l => probeZone (probes l).(pb_exchange) (probes l).(pb_pings) (probes l).(pb_now) l s) s ls.

Definition RefreshNow (cur : option File) (probes : nat -> Probe) (s : Server) : Server :=
  let s := rebuildZones cur s in probeAll probes (zoneSnapshot s) s.

(** the zones of the rebuilt server that a pass at [now] probes *)
Definition due_zones (now : Time) (s : Server) : list nat :=
  List.filter (fun l => match s.(heap) !! l with Some z => due now z | None => false end) (zoneSnapshot s).
Definition runProbePass (cur : option File) (now : Time) (probes : nat -> Probe) (s : Server) : Server :=
  let s := rebuildZones cur s in probeAll probes (due_zones now s) s.
(** [refreshLoop]: a pass at once, then one for each tick until the server is stopped *)
Fixpoint refreshLoop (passes : list (option File * Time * (nat -> Probe))) (s : Server) : Server :=
  match passes with
  | [] => s
  | (cur, now, probes) :: passes => refreshLoop passes (runProbePass cur now probes s)
  end.

(** ** handle *)

Record Question := { q_Name : string; q_Qtype : Z }.
Inductive Answer :=
  | AnsA (name : string) (ttl : Z) (ip : list Z)
  | AnsAAAA (name : string) (ttl : Z) (ip : list Z)
  | AnsCNAME (name : string) (ttl : Z) (target : string).
Record Msg := { Rcode : Z; m_Answer : list Answer }.

Definition answer_ttl (records : list latencyRecord) : Z :=
  foldl (fun ttl r => if (0 <? r.(l_TTL)) && (r.(l_TTL) <? ttl) then r.(l_TTL) else ttl) 60 records.
Definition answer_record (q : Question) (ttl : Z) (r : latencyRecord) : list Answer :=
  if r.(l_Type) =? TypeA then
    if negb (q.(q_Qtype) =? TypeA) then []
    else match ParseIP r.(l_Value) with Some ip => [AnsA q.(q_Name) ttl ip] | None => [] end
  else if r.(l_Type) =? TypeAAAA then
    if negb (q.(q_Qtype) =? TypeAAAA) then []
    else match ParseIP r.(l_Value) with Some ip => [AnsAAAA q.(q_Name) ttl ip] | None => [] end
  else if r.(l_Type) =? TypeCNAME then [AnsCNAME q.(q_Name) ttl r.(l_Value)]
  else [].

Definition lookup_zone (s : Server) (name : string) : option zoneState :=
  s.(zones) !! name ≫= (fun l => s.(heap) !! l).

Definition handle (s : Server) (questions : list Question) : Msg :=
  match questions with
  | [] => {| Rcode := RcodeFormatError; m_Answer := [] |}
  | q :: _ =>
      match lookup_zone s (ToLower q.(q_Name)) with
      | None => {| Rcode := RcodeServerFailure; m_Answer := [] |}
      | Some z =>
          match z.(zs_Records) with
          | [] => {| Rcode := RcodeServerFailure; m_Answer := [] |}
          | records =>
              let ttl := answer_ttl records in
              let answer := concat (map (answer_record q ttl) records) in
              {| Rcode := if Nat.eqb (length answer) 0 then RcodeNameError else RcodeSuccess;
                 m_Answer := answer |}
          end
      end
  end.

(** ** Health *)

Definition zone_healthy (z : zoneState) : bool :=
  negb (IsZero z.(zs_Updated) || Nat.eqb (length z.(zs_Records)) 0).
Definition Healthy (s : Server) : bool :=
  forallb (fun l => match s.(heap) !! l with Some z => zone_healthy z | None => true end) (zoneSnapshot s).
Definition ZoneCount (s : Server) : nat := size s.(zones).

(** the error's text, if there is an error *)
Definition isClosedErr (err : option string) : bool :=
  match err with
  | None => false
  | Some e => Contains e "closed" || Contains e "use of closed network connection"
  end.
End proxy.
