(* ===== verification/ProxyRun.v ===== *)
(** The goroutines of the proxy, internal/unbound/proxy/proxy.go: the loop of
    probe passes, the calls of RefreshNow, the probes they start and the queries,
    in the steps the others can see.  [Proxy] has the operations without the
    others in between. *)
From S2P Require Import Prelude GoStrings GoTime Config Generate NetIP Ping Proxy.

(** a time.Ticker: its channel has room for one tick, which Stop leaves there *)
Record Ticker := { tk_running : bool; tk_tick : bool }.

(** Where [refreshLoop] stands: before a pass; in a pass that began at [now],
    with the zones it has still to look at and the probes that have not ended;
    in the select, on the ticker it read there. *)
Inductive LoopPhase :=
  | LoopPass
  | LoopScan (now : Time) (rest running : list nat)
  | LoopSelect (t : nat)
  | LoopEnded.

(** where [handle] stands; each phase reads what the pointer [l] leads to anew; the
    reply repeats the question *)
Inductive QueryPhase :=
  | QueryLookup (questions : list Question)
  | QueryCheck (q : Question) (l : nat)
  | QueryTTL (q : Question) (l : nat)
  | QueryAnswer (q : Question) (l : nat) (ttl : Z)
  | QueryReplied (asked : option Question) (m : Msg).

Inductive Goroutine :=
  | Loop (ph : LoopPhase)
  | Refreshing (running : list nat)
  | Query (ph : QueryPhase).

(** a probe that has ended: what it asked, whom, and what it got *)
Record Probed := { pr_loc : nat; pr_Name : string; pr_Upstream : string; pr_Probe : Probe }.
Definition pr_records (p : Probed) : option (list latencyRecord) :=
  (fun records => rank_records records p.(pr_Probe).(pb_pings)) <$> resolveTarget p.(pr_Name) p.(pr_Probe).(pb_exchange).

(** the server with its channel [done] (closed or not), its tickers, the last of
    them in [s.ticker], and the goroutines; [lv_probed] is the history of the probes *)
Record Live := {
  lv_server : Server;
  lv_closed : bool;
  lv_tickers : list Ticker;
  lv_gos : list Goroutine;
  lv_panic : bool;
  lv_probed : list Probed;
}.
#[export] Instance live_settable : Settable Live := fun v =>
  {| lv_server := v.(lv_server); lv_closed := v.(lv_closed); lv_tickers := v.(lv_tickers);
     lv_gos := v.(lv_gos); lv_panic := v.(lv_panic); lv_probed := v.(lv_probed) |}.
Definition fresh : Live :=
  {| lv_server := New; lv_closed := false; lv_tickers := []; lv_gos := []; lv_panic := false; lv_probed := [] |}.

(** what a step of a goroutine meets: the configuration, the clock, whether one
    of its probes ends or a case of its select is ready, and what the probe got *)
Record GoIO := { go_cur : option File; go_now : Time; go_pick : option nat; go_probe : Probe }.

#[export] Instance goio_settable : Settable GoIO := fun io =>
  {| go_cur := io.(go_cur); go_now := io.(go_now); go_pick := io.(go_pick); go_probe := io.(go_probe) |}.

Inductive Move :=
  | MStart (cur : option File)
  | MStop
  | MTick (t : nat)
  | MRefresh (cur : option File)
  | MQuery (questions : list Question)
  | MGo (g : nat) (io : GoIO).

Section run.
Context (Fqdn : string -> string).

(** [Start] makes a new ticker, but not a new channel *)
Definition start (cur : option File) (v : Live) : Live :=
  if v.(lv_server).(started) then v
  else
    v <| lv_server := Proxy.Start Fqdn cur v.(lv_server) |>
      <| lv_tickers := v.(lv_tickers) ++ [{| tk_running := true; tk_tick := false |}] |>
      <| lv_gos := v.(lv_gos) ++ [Loop LoopPass] |>.

Definition stop_ticker (k : Ticker) : Ticker := {| tk_running := false; tk_tick := k.(tk_tick) |}.
(** closing a closed channel panics *)
Definition stop (v : Live) : Live :=
  if negb v.(lv_server).(started) then v
  else
    v <| lv_server := Proxy.Stop v.(lv_server) |>
      <| lv_tickers := alter stop_ticker (pred (length v.(lv_tickers))) v.(lv_tickers) |>
      <| lv_panic := v.(lv_closed) |> <| lv_closed := true |>.
(** what [Stop] returns, when [Shutdown] of the DNS server returns [shutdown] *)
Definition stop_error (s : Server) (shutdown : option string) : option string :=
  if negb s.(started) then None else shutdown.

(** the end of a probe of the zone at [l] *)
Definition probe_ends (l : nat) (p : Probe) (v : Live) : Live :=
  v <| lv_server := probeZone p.(pb_exchange) p.(pb_pings) p.(pb_now) l v.(lv_server) |>
    <| lv_probed := v.(lv_probed) ++
         match v.(lv_server).(heap) !! l with
         | Some z => [{| pr_loc := l; pr_Name := z.(zs_Name); pr_Upstream := z.(zs_Upstream); pr_Probe := p |}]
         | None => []
         end |>.

Definition loop_step (io : GoIO) (ph : LoopPhase) (v : Live) : option (LoopPhase * Live) :=
  match ph with
  | LoopPass =>
      let s := rebuildZones Fqdn io.(go_cur) v.(lv_server) in
      Some (LoopScan io.(go_now) (zoneSnapshot s) [], v <| lv_server := s |>)
  | LoopScan now rest running =>
      match io.(go_pick), rest with
      | Some k, _ => (fun l => (LoopScan now rest (delete k running), probe_ends l io.(go_probe) v)) <$> running !! k
      | None, l :: rest =>
          Some (LoopScan now rest
            (running ++ match v.(lv_server).(heap) !! l with Some z => if due now z then [l] else [] | None => [] end), v)
      | None, [] =>
          match running with
          | [] => Some (LoopSelect (pred (length v.(lv_tickers))), v)
          | _ => None
          end
      end
  | LoopSelect t =>
      match io.(go_pick), v.(lv_tickers) !! t with
      | None, _ => if v.(lv_closed) then Some (LoopEnded, v) else None
      | Some _, Some k =>
          if k.(tk_tick)
          then Some (LoopPass, v <| lv_tickers := <[t := {| tk_running := k.(tk_running); tk_tick := false |}]> v.(lv_tickers) |>)
          else None
      | Some _, None => None
      end
  | LoopEnded => None
  end.

Definition servfail : Msg := {| Rcode := RcodeServerFailure; m_Answer := [] |}.
Definition reply (q : Question) (ttl : Z) (records : list latencyRecord) : Msg :=
  let answer := concat (map (answer_record q ttl) records) in
  {| Rcode := if Nat.eqb (length answer) 0 then RcodeNameError else RcodeSuccess; m_Answer := answer |}.
Definition query_step (s : Server) (ph : QueryPhase) : option QueryPhase :=
  let records l := match s.(heap) !! l with Some z => z.(zs_Records) | None => [] end in
  match ph with
  | QueryLookup [] => Some (QueryReplied None {| Rcode := RcodeFormatError; m_Answer := [] |})
  | QueryLookup (q :: _) =>
      Some match s.(zones) !! ToLower q.(q_Name) with Some l => QueryCheck q l | None => QueryReplied (Some q) servfail end
  | QueryCheck q l => Some match records l with [] => QueryReplied (Some q) servfail | _ => QueryTTL q l end
  | QueryTTL q l => Some (QueryAnswer q l (answer_ttl (records l)))
  | QueryAnswer q l ttl => Some (QueryReplied (Some q) (reply q ttl (records l)))
  | QueryReplied _ _ => None
  end.

Definition go_step (io : GoIO) (go : Goroutine) (v : Live) : option (Goroutine * Live) :=
  match go with
  | Loop ph => (fun '(ph, v) => (Loop ph, v)) <$> loop_step io ph v
  | Refreshing running =>
      match io.(go_pick) with
      | Some k => (fun l => (Refreshing (delete k running), probe_ends l io.(go_probe) v)) <$> running !! k
      | None => None
      end
  | Query ph => (fun ph => (Query ph, v)) <$> query_step v.(lv_server) ph
  end.

(** one step of the process; [None] when it is not possible *)
Definition live_step (mv : Move) (v : Live) : option Live :=
  if v.(lv_panic) then None
  else
    match mv with
    | MStart cur => Some (start cur v)
    | MStop => Some (stop v)
    | MTick t =>
        (fun k => v <| lv_tickers := <[t := {| tk_running := k.(tk_running); tk_tick := k.(tk_running) || k.(tk_tick) |}]> v.(lv_tickers) |>)
        <$> v.(lv_tickers) !! t
    | MRefresh cur =>
        let s := rebuildZones Fqdn cur v.(lv_server) in
        Some (v <| lv_server := s |> <| lv_gos := v.(lv_gos) ++ [Refreshing (zoneSnapshot s)] |>)
    | MQuery questions => Some (v <| lv_gos := v.(lv_gos) ++ [Query (QueryLookup questions)] |>)
    | MGo g io =>
        go ← v.(lv_gos) !! g;
        '(go, v) ← go_step io go v;
        Some (v <| lv_gos := <[g := go]> v.(lv_gos) |>)
    end.
Fixpoint live_run (moves : list Move) (v : Live) : option Live :=
  match moves with
  | [] => Some v
  | mv :: moves => v ← live_step mv v; live_run moves v
  end.
End run.
