(* ===== verification/AuditLog.v ===== *)
(** The audit log, internal/audit/audit.go: one JSON object per line, appended
    by [Write] and read back by [Tail]. *)
From S2P Require Import Prelude GoStrings GoTime Store.

Record Entry := {
  en_Time : Time;
  en_Actor : string;
  en_Action : string;
  en_Details : string;
}.
#[export] Instance entry_settable : Settable Entry := fun e =>
  {| en_Time := e.(en_Time); en_Actor := e.(en_Actor); en_Action := e.(en_Action); en_Details := e.(en_Details) |}.

(** an entry as it can be written: its texts in UTF-8 *)
Definition utf8_entry (e : Entry) : Entry :=
  e <| en_Actor := ToUTF8 e.(en_Actor) |> <| en_Action := ToUTF8 e.(en_Action) |> <| en_Details := ToUTF8 e.(en_Details) |>.

(** encoding/json on an entry: what the log relies on is that an encoded entry
    has no newline in it, is not empty, and is read back, what is not UTF-8
    replaced. *)
Class EntryCodec := {
  MarshalEntry : Entry -> result string string;
  UnmarshalEntry : string -> option Entry;
}.
Class EntryCodecLaws (C : EntryCodec) := {
  marshal_one_line e s : MarshalEntry e = Ok s -> lacks NL s = true /\ s <> "";
  unmarshal_marshal e s : MarshalEntry e = Ok s -> UnmarshalEntry s = Some (utf8_entry e);
}.

(** the contents of the log file, [None] when there is none *)
Abbreviation LogFile := (option string) (only parsing).

(** the answers of the system to one [Write]; a failing write may leave the
    first bytes of the line in the file *)
Record LogIO := {
  lo_now : Time;
  lo_mkdir : option string;
  lo_open : option string;
  lo_write : option (nat * string);
}.

Section log.
Context `{C : EntryCodec}.

Definition fill_time (now : Time) (e : Entry) : Entry := if IsZero e.(en_Time) then e <| en_Time := now |> else e.

Definition Write (io : LogIO) (e : Entry) (f : LogFile) : LogFile * option string :=
  let e := fill_time io.(lo_now) e in
  match io.(lo_mkdir) with
  | Some msg => (f, Some msg)
  | None =>
      match io.(lo_open) with
      | Some msg => (f, Some msg)
      | None =>
          let content := default EmptyString f in
          match MarshalEntry e with
          | Err msg => (Some content, Some msg)
          | Ok data =>
              let line := data +:+ str1 NL in
              match io.(lo_write) with
              | Some (n, msg) => (Some (content +:+ str_take n line), Some msg)
              | None => (Some (content +:+ line), None)
              end
          end
      end
  end.

(** the loop over the bytes: [cur] is [s[start:i]] *)
Fixpoint split_loop (cur s : string) : list string :=
  match s with
  | EmptyString => if (cur =? "")%string then [] else [cur]
  | String c s => if (c =? NL)%char then cur :: split_loop EmptyString s else split_loop (cur +:+ str1 c) s
  end.
Definition splitLines (s : string) : list string := split_loop EmptyString s.

Definition decode_line (line : string) : list Entry :=
  if (line =? "")%string then []
  else match UnmarshalEntry line with Some e => [e] | None => [] end.

(** [lines[len(lines)-n:]] *)
Definition last_lines (n : Z) (lines : list string) : list string :=
  if (0 <? n) && (n <? Z.of_nat (length lines)) then drop (length lines - Z.to_nat n) lines else lines.

Definition Tail (n : Z) (read : option string) (f : LogFile) : result string (list Entry) :=
  match read with
  | Some msg => Err msg
  | None =>
      match f with
      | None => Ok []
      | Some data => Ok (concat (map decode_line (last_lines n (splitLines data))))
      end
  end.
End log.
