(* ===== verification/TLSPSK.v ===== *)
(** The certificates of the peer channel, internal/sync/tlspsk.go: the key that
    a preshared key determines, and the comparison the client pins it with. *)
From S2P Require Import Prelude GoStrings GoTime Sha256.

(** the order of the P-256 group *)
Definition P256_N : Z := 0xffffffff00000000ffffffffffffffffbce6faada7179e84f3b9cac2fc632551.

Inductive Curve := P256 | OtherCurve (name : string) (BitSize : Z).
#[export] Instance curve_eq : EqDecision Curve. Proof. solve_decision. Defined.

Record PublicKey := { k_Curve : Curve; k_X : Z; k_Y : Z }.
Record PrivateKey := { k_Public : PublicKey; k_D : Z }.
(** the [any] of a certificate's public key *)
Inductive AnyKey := ECDSA (k : PublicKey) | OtherKey (type : string).

(** [big.Int.SetBytes] *)
Definition SetBytes (l : list Z) : Z := foldl (fun acc b => acc * 256 + b) 0 l.

Inductive KeyError :=
  | KEmptyPSK
  | KHkdf (msg : string)
  | KSeedLength (n : nat)
  | KNoKey
  | KCreate (msg : string)
  | KParse (msg : string)
  | KMarshal (msg : string)
  | KLoadPair (msg : string).

Definition tlsPSKCommonName : string := "dnsforwarder-peer".
Definition tlsPSKOrg : string := "dnsforwarder".
Definition certValidityYears : Z := 10.
(** [certEpoch], the beginning of 2024: the days of the 2023 years before it *)
Definition certEpoch : Time := (2023 * 365 + 2023 / 4 - 2023 / 100 + 2023 / 400) * 24 * 60 * Minute.

Inductive ExtKeyUsage := ExtKeyUsageServerAuth | ExtKeyUsageClientAuth.
Definition KeyUsageDigitalSignature : Z := 1.
Definition KeyUsageKeyEncipherment : Z := 4.
(** the fields of x509.Certificate that the template sets *)
Record Template := {
  tm_SerialNumber : Z;
  tm_Organization : list string;
  tm_CommonName : string;
  tm_NotBefore : Time;
  tm_NotAfter : Time;
  tm_KeyUsage : Z;
  tm_ExtKeyUsage : list ExtKeyUsage;
  tm_BasicConstraintsValid : bool;
  tm_IsCA : bool;
}.
(** a block of a PEM file *)
Record Block := { b_Type : string; b_Bytes : string }.

Section tls.
(** crypto/elliptic's scalar multiplication of the base point, [None] for a nil X *)
Context (ScalarBaseMult : Z -> option (Z * Z)).

Definition valid_scalar (d : Z) : bool := (0 <? d) && (d <? P256_N).

(** SHA-256 of the seed followed by the counter, big-endian *)
Definition reseed (seed : list Z) (i : nat) : Z :=
  SetBytes (Sum256_bytes (seed ++ be_bytes 4 (Z.of_nat i))).

(** [n] rounds of the loop from counter [i] with candidate [d] *)
Fixpoint key_loop (seed : list Z) (n i : nat) (d : Z) : result KeyError PrivateKey :=
  match n with
  | O => Err KNoKey
  | S n =>
      match (if valid_scalar d then ScalarBaseMult d else None) with
      | Some (x, y) => Ok {| k_Public := {| k_Curve := P256; k_X := x; k_Y := y |}; k_D := d |}
      | None => key_loop seed n (S i) (reseed seed i)
      end
  end.

Definition max_tries : nat := Z.to_nat 10000.
Definition ecdsaKeyFromSeed (seed : list Z) : result KeyError PrivateKey :=
  if negb (length seed =? 32)%nat then Err (KSeedLength (length seed))
  else key_loop seed max_tries 0 (SetBytes seed).

(** ** Comparison *)

Inductive VerifyError :=
  | VNoCertificate
  | VParse (msg : string)
  | VPeerType (type : string)
  | VExpectedType (type : string)
  | VCurve
  | VCoordinates.

Definition publicKeysEqual (a b : AnyKey) : result VerifyError unit :=
  match a with
  | OtherKey t => Err (VPeerType t)
  | ECDSA ak =>
      match b with
      | OtherKey t => Err (VExpectedType t)
      | ECDSA bk =>
          if negb (bool_decide (ak.(k_Curve) = bk.(k_Curve))) then Err VCurve
          else if negb (ak.(k_X) =? bk.(k_X)) || negb (ak.(k_Y) =? bk.(k_Y)) then Err VCoordinates
          else Ok tt
      end
  end.

(** crypto/x509: a certificate is its DER encoding *)
Context (ParseCertificate : string -> result string AnyKey).
Definition verifyPeerPublicKey (rawCerts : list string) (expected : AnyKey) : result VerifyError unit :=
  match rawCerts with
  | [] => Err VNoCertificate
  | raw :: _ =>
      match ParseCertificate raw with
      | Err msg => Err (VParse msg)
      | Ok key => publicKeysEqual key expected
      end
  end.

(** ** The certificate of a preshared key *)

(** golang.org/x/crypto/hkdf: the first 32 bytes for a secret and a salt *)
Context (hkdf32 : string -> string -> result string (list Z)).
(** x509.CreateCertificate for a template that is its own parent, and the key
    whose public half it certifies and that signs it; it draws randomness *)
Context (CreateCertificate : Template -> PrivateKey -> result string string).
Context (MarshalECPrivateKey : PrivateKey -> result string string).
(** tls.X509KeyPair of the two PEM files: the chain of certificates *)
Context (X509KeyPair : Block -> Block -> result string (list string)).

Definition psk_salt : string := "dnsforwarder-peer-sync-v1".
Definition seedSha (seed : list Z) : list Z := Sum256_bytes seed.

(** tls.Certificate: the chain, the leaf's public key, the private key *)
Record Certificate := { c_Chain : list string; c_LeafKey : AnyKey; c_Private : PrivateKey }.

Definition cert_template (serial : Z) : Template :=
  {| tm_SerialNumber := serial;
     tm_Organization := [tlsPSKOrg];
     tm_CommonName := tlsPSKCommonName;
     tm_NotBefore := certEpoch;
     tm_NotAfter := certEpoch + certValidityYears * 365 * 24 * 60 * Minute;
     tm_KeyUsage := Z.lor KeyUsageDigitalSignature KeyUsageKeyEncipherment;
     tm_ExtKeyUsage := [ExtKeyUsageServerAuth; ExtKeyUsageClientAuth];
     tm_BasicConstraintsValid := true;
     tm_IsCA := false |}.

Definition certFromPSK (psk : string) : result KeyError Certificate :=
  if (psk =? "")%string then Err KEmptyPSK
  else
    match hkdf32 psk psk_salt with
    | Err msg => Err (KHkdf msg)
    | Ok seed =>
        let? priv := ecdsaKeyFromSeed seed in
        let serial := SetBytes (take 16 (seedSha seed)) in
        match CreateCertificate (cert_template serial) priv with
        | Err msg => Err (KCreate msg)
        | Ok der =>
            match ParseCertificate der with
            | Err msg => Err (KParse msg)
            | Ok key =>
                match MarshalECPrivateKey priv with
                | Err msg => Err (KMarshal msg)
                | Ok keyBytes =>
                    match X509KeyPair {| b_Type := "CERTIFICATE"; b_Bytes := der |}
                                      {| b_Type := "EC PRIVATE KEY"; b_Bytes := keyBytes |} with
                    | Err msg => Err (KLoadPair msg)
                    | Ok chain => Ok {| c_Chain := chain; c_LeafKey := key; c_Private := priv |}
                    end
                end
            end
        end
    end.

(** the fields of tls.Config that are set *)
Record Config := {
  MinVersion : Z;
  Certificates : list Certificate;
  RootCAs : option (list string);
  InsecureSkipVerify : bool;
  VerifyPeerCertificate : option (list string -> result VerifyError unit);
}.
Definition VersionTLS12 : Z := 0x0303.

Definition tlsConfigForServer (psk : string) : result KeyError Config :=
  let? cert := certFromPSK psk in
  Ok {| MinVersion := VersionTLS12; Certificates := [cert]; RootCAs := None; InsecureSkipVerify := false;
        VerifyPeerCertificate := None |}.
Definition tlsConfigForClient (psk : string) : result KeyError Config :=
  let? cert := certFromPSK psk in
  let expected := cert.(c_LeafKey) in
  Ok {| MinVersion := VersionTLS12; Certificates := []; RootCAs := Some []; InsecureSkipVerify := true;
        VerifyPeerCertificate := Some (fun rawCerts => verifyPeerPublicKey rawCerts expected) |}.
(** [TLSConfig] of sync.go, which nothing uses *)
Definition TLSConfig : Config :=
  {| MinVersion := VersionTLS12; Certificates := []; RootCAs := None; InsecureSkipVerify := true; VerifyPeerCertificate := None |}.

(** crypto/tls: the certificates a server presents, and whether a client goes on *)
Context (verifyChain : option (list string) -> list string -> bool).
Definition presents (server : Config) : list string :=
  match server.(Certificates) with cert :: _ => cert.(c_Chain) | [] => [] end.
Definition accepts (client : Config) (rawCerts : list string) : bool :=
  (client.(InsecureSkipVerify) || verifyChain client.(RootCAs) rawCerts)
  && match client.(VerifyPeerCertificate) with Some verify => is_Ok (verify rawCerts) | None => true end.
End tls.

(** ** Fingerprints *)

Definition hex_upper (n : Z) : ascii := upperc (hex_digit (Z.to_N n)).
(** two upper-case digits a byte, joined by colons *)
Fixpoint fingerprint_from (first : bool) (fp : list Z) : string :=
  match fp with
  | [] => EmptyString
  | b :: fp =>
      (if first then EmptyString else ":") +:+ String (hex_upper (b / 16)) (str1 (hex_upper (b mod 16)))
      +:+ fingerprint_from false fp
  end.
Definition fingerprintString (fp : list Z) : string := fingerprint_from true fp.

(** elliptic.Marshal, the uncompressed form *)
Definition byte_len (c : Curve) : nat := match c with P256 => 32 | OtherCurve _ bits => Z.to_nat ((bits + 7) / 8) end.
Definition elliptic_Marshal (k : PublicKey) : list Z :=
  4 :: be_bytes (byte_len k.(k_Curve)) k.(k_X) ++ be_bytes (byte_len k.(k_Curve)) k.(k_Y).
Definition publicKeyFingerprint (pub : PublicKey) : list Z := Sum256_bytes (elliptic_Marshal pub).

(** base64.RawURLEncoding *)
Definition base64_char (n : Z) : string :=
  str1 (if n <? 26 then ascii_of_N (Z.to_N (65 + n)) else if n <? 52 then ascii_of_N (Z.to_N (71 + n))
        else if n <? 62 then ascii_of_N (Z.to_N (n - 4)) else if n =? 62 then "-"%char else "_"%char).
Fixpoint fingerprintBase64 (fp : list Z) : string :=
  match fp with
  | a :: b :: c :: fp =>
      base64_char (a / 4) +:+ base64_char (a mod 4 * 16 + b / 16) +:+ base64_char (b mod 16 * 4 + c / 64)
      +:+ base64_char (c mod 64) +:+ fingerprintBase64 fp
  | [a; b] => base64_char (a / 4) +:+ base64_char (a mod 4 * 16 + b / 16) +:+ base64_char (b mod 16 * 4)
  | [a] => base64_char (a / 4) +:+ base64_char (a mod 4 * 16)
  | [] => EmptyString
  end.
Example fingerprintBase64_ex : map fingerprintBase64 [[102; 111; 111; 98]; [255; 254; 253]; [62; 3]] = ["Zm9vYg"; "__79"; "PgM"].
Proof. vm_compute. reflexivity. Qed.
