(* ===== verification/PeerListener.v ===== *)
(** The peer HTTP endpoint, internal/sync/listener.go, with the authentication
    and the error bodies of internal/sync/sync.go.

    The world [W] is whatever the callbacks of the configuration act on; the
    daemon instantiates it. *)
From S2P Require Import Prelude GoStrings GoPath GoTime Config Validate Sync Store AuditLog.

(** ** AuthOK *)

(** the accumulator of [subtle.ConstantTimeCompare] over two equally long texts *)
Fixpoint xor_acc (v : Z) (x y : string) : Z :=
  match x, y with
  | String c x, String d y => xor_acc (Z.lor v (Z.lxor (code c) (code d))) x y
  | _, _ => v
  end.
Definition ConstantTimeCompare (x y : string) : Z :=
  if negb (String.length x =? String.length y)%nat then 0 else if xor_acc 0 x y =? 0 then 1 else 0.

Definition AuthOK (token want : string) : bool :=
  if (want =? "")%string then false else ConstantTimeCompare token want =? 1.

(** ** Duration.String *)

Fixpoint trim_zeros (s : string) : string :=
  match s with
  | EmptyString => EmptyString
  | String c s' =>
      match trim_zeros s' with
      | EmptyString => if (c =? "0")%char then EmptyString else str1 c
      | t => String c t
      end
  end.
(** [n] decimal digits of [v], most significant first *)
Fixpoint digits_of (n : nat) (v : Z) (acc : string) : string :=
  match n with
  | O => acc
  | S n => digits_of n (v / 10) (String (ascii_of_N (Z.to_N (48 + v mod 10))) acc)
  end.
(** the fraction, without trailing zeros, its point included *)
Definition fmtFrac (v : Z) (prec : nat) : string :=
  match trim_zeros (digits_of prec v EmptyString) with EmptyString => EmptyString | t => String "." t end.

Definition Duration_String (d : Duration) : string :=
  let u := Z.abs d in
  let body :=
    if u =? 0 then "0s"
    else if u <? 1000 then fmt_d u +:+ "ns"
    else if u <? 1000000 then
      fmt_d (u / 1000) +:+ fmtFrac (u mod 1000) 3 +:+ String (ascii_of_nat 194) (String (ascii_of_nat 181) "s")
    else if u <? Second then fmt_d (u / 1000000) +:+ fmtFrac (u mod 1000000) 6 +:+ "ms"
    else
      let secs := u / Second in
      let text := fmt_d (secs mod 60) +:+ fmtFrac (u mod Second) 9 +:+ "s" in
      let mins := secs / 60 in
      if mins =? 0 then text
      else
        let text := fmt_d (mins mod 60) +:+ "m" +:+ text in
        let hours := mins / 60 in
        if hours =? 0 then text else fmt_d hours +:+ "h" +:+ text in
  if d <? 0 then String "-" body else body.

Example Duration_ex :
  map Duration_String [0; 5 * Minute; 1500 * Millisecond; - 61 * Minute; 1500]
  = ["0s"; "5m0s"; "1.5s"; "-1h1m0s"; "1.5" +:+ String (ascii_of_nat 194) (String (ascii_of_nat 181) "s")].
Proof. vm_compute. reflexivity. Qed.

(** ** Requests and responses *)

Inductive Method := GET | POST | OtherMethod (name : string).

(** A request as the handlers read it: [pr_body] is the decoded envelope or the
    error of the JSON decoder, [pr_since] the query parameter. *)
Record PeerRequest := {
  pr_path : string;
  pr_method : Method;
  pr_token : string;
  pr_since : string;
  pr_body : result string Envelope;
}.

Inductive PeerBody :=
  | BText (s : string)
  | BManifest (m : Manifest)
  | BEnvelope (e : Envelope)
  | BMerge (r : MergeResult)
  | BError (msg : string)
  | BRedirect (path : string).
Record PeerResponse := { ps_code : Z; ps_body : PeerBody }.

Definition StatusOK : Z := 200.
Definition StatusMovedPermanently : Z := 301.
Definition StatusBadRequest : Z := 400.
Definition StatusUnauthorized : Z := 401.
Definition StatusNotFound : Z := 404.
Definition StatusMethodNotAllowed : Z := 405.
Definition StatusInternalServerError : Z := 500.
Definition StatusNotImplemented : Z := 501.
Definition StatusBadGateway : Z := 502.
Definition StatusServiceUnavailable : Z := 503.

Definition writeJSONError (code : Z) (msg : string) : PeerResponse := {| ps_code := code; ps_body := BError msg |}.
Definition decodeEnvelope (r : PeerRequest) : result string Envelope :=
  match r.(pr_body) with Ok env => Ok env | Err msg => Err ("invalid json: " +:+ msg) end.

(** ** StringifyMerge *)

Definition merge_part (name : string) (n : nat) : list string :=
  if (0 <? n)%nat then [name +:+ "=" +:+ default EmptyString (itoa (Z.of_nat n))] else [].
Definition StringifyMerge (r : MergeResult) : string :=
  if (r.(Added) =? 0)%nat && (r.(MUpdated) =? 0)%nat && (r.(MDeleted) =? 0)%nat && (r.(Conflicts) =? 0)%nat
     && (r.(Skipped) =? 0)%nat && (r.(Rejected) =? 0)%nat
  then "noop"
  else Join (merge_part "added" r.(Added) ++ merge_part "updated" r.(MUpdated) ++ merge_part "deleted" r.(MDeleted)
             ++ merge_part "conflicts" r.(Conflicts) ++ merge_part "skipped" r.(Skipped)
             ++ merge_part "rejected" r.(Rejected)) " ".

(** ** The listener *)

Section listener.
Context {W : Type}.

Record ListenerConfig := {
  lc_Listen : string;
  lc_PSK : string;
  lc_Instance : string;
  lc_Skew : Duration;
  lc_PeerName : string;
  lc_Provider : W -> option File;
  lc_PushSink : option (Envelope -> string -> W -> W * result string MergeResult);
  lc_Audit : option (Entry -> W -> W);
}.

Definition peerName (cfg : ListenerConfig) : string :=
  if negb (cfg.(lc_PeerName) =? "")%string then cfg.(lc_PeerName) else "default".

(** the bare text of the response, or the refusal *)
Definition requireAuth (cfg : ListenerConfig) (r : PeerRequest) : option PeerResponse :=
  if negb (AuthOK r.(pr_token) cfg.(lc_PSK))
  then Some (writeJSONError StatusUnauthorized "missing or invalid X-Peer-Token")
  else None.

Definition ok (b : PeerBody) : PeerResponse := {| ps_code := StatusOK; ps_body := b |}.

Definition handleHealthz (cfg : ListenerConfig) (r : PeerRequest) (w : W) : W * PeerResponse :=
  match requireAuth cfg r with
  | Some resp => (w, resp)
  | None => (w, ok (BText "ok"))
  end.

Definition handleManifest (cfg : ListenerConfig) (now : Time) (r : PeerRequest) (w : W) : W * PeerResponse :=
  match requireAuth cfg r with
  | Some resp => (w, resp)
  | None =>
      match cfg.(lc_Provider) w with
      | None => (w, writeJSONError StatusServiceUnavailable "no config")
      | Some cur => (w, ok (BManifest (BuildManifest now cfg.(lc_Instance) 0 cur (peerName cfg))))
      end
  end.

Definition out_of_skew (skew : Duration) (now t : Time) : bool :=
  (0 <? skew) && negb (IsZero t) && outside skew (Since now t).

Definition handleItems (cfg : ListenerConfig) (now : Time) (r : PeerRequest) (w : W) : W * PeerResponse :=
  match requireAuth cfg r with
  | Some resp => (w, resp)
  | None =>
      match r.(pr_method) with
      | GET =>
          match cfg.(lc_Provider) w with
          | None => (w, writeJSONError StatusServiceUnavailable "no config")
          | Some cur =>
              let env := FilterForExport now cfg.(lc_Instance) 0 cur (peerName cfg) in
              let env :=
                if negb (r.(pr_since) =? "")%string then
                  match ParseUint r.(pr_since) with Some n => env <| e_FromSeq := n |> | None => env end
                else env in
              (w, ok (BEnvelope env))
          end
      | POST =>
          match decodeEnvelope r with
          | Err msg => (w, writeJSONError StatusBadRequest msg)
          | Ok env =>
              if out_of_skew cfg.(lc_Skew) now env.(e_ServerTime) then
                (w, writeJSONError StatusBadRequest
                      ("server_time out of window (skew " +:+ Duration_String cfg.(lc_Skew) +:+ ", got "
                       +:+ Duration_String (Since now env.(e_ServerTime)) +:+ ")"))
              else
                match cfg.(lc_PushSink) with
                | None => (w, writeJSONError StatusNotImplemented "push sink not configured")
                | Some sink =>
                    let '(w, res) := sink env (peerName cfg) w in
                    match res with
                    | Err msg => (w, writeJSONError StatusBadRequest msg)
                    | Ok res =>
                        let w :=
                          match cfg.(lc_Audit) with
                          | Some audit =>
                              audit {| en_Time := 0; en_Actor := "peer:" +:+ env.(e_InstanceID);
                                       en_Action := "peer-push-applied"; en_Details := StringifyMerge res |} w
                          | None => w
                          end in
                        (w, ok (BMerge res))
                    end
                end
          end
      | OtherMethod _ => (w, writeJSONError StatusMethodNotAllowed "use GET or POST")
      end
  end.

(** the routes of [NewListener]; the mux of net/http redirects a path that is
    not clean *)
Definition serve (cfg : ListenerConfig) (now : Time) (r : PeerRequest) (w : W) : W * PeerResponse :=
  if negb (cleanPath r.(pr_path) =? r.(pr_path))%string
  then (w, {| ps_code := StatusMovedPermanently; ps_body := BRedirect (cleanPath r.(pr_path)) |})
  else if (r.(pr_path) =? "/peer/v1/manifest")%string then handleManifest cfg now r w
  else if (r.(pr_path) =? "/peer/v1/items")%string then handleItems cfg now r w
  else if (r.(pr_path) =? "/peer/v1/healthz")%string then handleHealthz cfg r w
  else (w, {| ps_code := StatusNotFound; ps_body := BText "404 page not found" |}).

(** [StartTLS]: whether the listener starts, given whether the port can be bound *)
Definition StartTLS (cfg : ListenerConfig) (bind : option string) : option string :=
  if (cfg.(lc_PSK) =? "")%string
  then Some "refusing to start peer listener without a shared key (set peers.shared_key or PEER_SHARED_KEY)"
  else bind.
(** [Start], given the error of deriving the certificate *)
Definition Listener_Start (cfg : ListenerConfig) (tlsErr bind : option string) : option string :=
  match tlsErr with
  | Some err => Some ("derive peer TLS cert: " +:+ err)
  | None => StartTLS cfg bind
  end.
Definition Listener_Addr (cfg : ListenerConfig) : string := cfg.(lc_Listen).
End listener.
Arguments ListenerConfig W : clear implicits.
