(* ===== verification/PeerClient.v ===== *)
(** The peer client, internal/sync/client.go, and the in-memory peer status of
    internal/sync/status.go.

    What the client's callbacks and its shared state act on is a world [W], given
    by a record of operations; the network is given by its answers. *)
From S2P Require Import Prelude GoStrings GoTime Config Validate Sync Store AuditLog PeerListener.

(** ** status.go *)

Record PeerStatusUpdate := { su_LastError : string; su_LastAction : string; su_At : Time }.
Abbreviation StatusMap := (gmap string PeerStatusUpdate) (only parsing).
Definition noUpdate : PeerStatusUpdate := {| su_LastError := ""; su_LastAction := ""; su_At := 0 |}.
Definition SetPeerStatus (name : string) (u : PeerStatusUpdate) (st : StatusMap) : StatusMap := <[name := u]> st.
Definition GetPeerStatus (name : string) (st : StatusMap) : PeerStatusUpdate := default noUpdate (st !! name).
Definition StatusSnapshot (st : StatusMap) : StatusMap := st.

(** ** URLs *)

(** net/url, as far as [joinURL] uses it *)
Class URLs := {
  URL : Type;
  url_Parse : string -> result string URL;
  url_Path : URL -> string;
  url_setPath : string -> URL -> URL;
  url_String : URL -> string;
}.

Fixpoint trim_right_slash (s : string) : string :=
  match s with
  | EmptyString => EmptyString
  | String c s =>
      match trim_right_slash s with
      | EmptyString => if (c =? "/")%char then EmptyString else str1 c
      | t => String c t
      end
  end.
Definition stringsTrimRightSlash (s : string) : string :=
  let s := trim_right_slash s in if (s =? "")%string then "" else s +:+ "/".

Definition joinURL `{URLs} (base path : string) : result string string :=
  let? u := url_Parse base in
  Ok (url_String (url_setPath (stringsTrimRightSlash (url_Path u) +:+ path) u)).

(** ** State: the mark of the last envelope applied from a peer *)

Record Client := { lastAppliedFrom : string; lastAppliedAt : Time }.
Definition NewClient : Client := {| lastAppliedFrom := ""; lastAppliedAt := 0 |}.

Definition MarkAppliedFrom (now : Time) (instanceID : string) (c : Client) : Client :=
  {| lastAppliedFrom := instanceID; lastAppliedAt := now |}.

(** ** One push *)

(** a response: [hr_error] is the decoded error body, empty when there is none *)
Record HTTPResponse := {
  hr_code : Z;
  hr_status : string;
  hr_error : string;
  hr_merge : option MergeResult;
  hr_envelope : result string Envelope;
}.
(** the errors of encoding an envelope, of building the request for a URL and of
    the TLS configuration for a key; the exchange *)
Record Transport := {
  tp_marshal : Envelope -> option string;
  tp_request : string -> option string;
  tp_tls : string -> option string;
  tp_do : result string HTTPResponse;
}.

(** the error of [httpClient], which builds a client with that configuration *)
Definition httpClient (tp : Transport) (psk : string) : option string := (fun msg => "tls config: " +:+ msg) <$> tp.(tp_tls) psk.

(** what a push puts on the wire *)
Record Sent := { sent_url : string; sent_token : string; sent_envelope : Envelope }.

Definition error_body (r : HTTPResponse) : string :=
  if (r.(hr_error) =? "")%string then r.(hr_status) else r.(hr_error).

Section client.
Context `{URLs}.

(** the error, what was sent, and the entries for the audit log *)
Definition pushOnce (cur : option File) (instanceID : string) (now : Time) (tp : Transport) (peer : Peer)
    : option string * option Sent * list Entry :=
  match cur with
  | None => (Some "no config", None, [])
  | Some cur =>
      let key := cur.(f_Peers).(SharedKey) in
      if (key =? "")%string then (Some "no shared key configured", None, [])
      else if (peer.(p_URL) =? "")%string then (Some ("peer " +:+ peer.(p_Name) +:+ ": empty url"), None, [])
      else
        let env := FilterForExport now instanceID 0 cur peer.(p_Name) in
        match tp.(tp_marshal) env with
        | Some msg => (Some msg, None, [])
        | None =>
        match joinURL peer.(p_URL) "/peer/v1/items" with
        | Err msg => (Some msg, None, [])
        | Ok u =>
            match tp.(tp_request) u with
            | Some msg => (Some msg, None, [])
            | None =>
                match httpClient tp key with
                | Some msg => (Some msg, None, [])
                | None =>
                    let sent := Some {| sent_url := u; sent_token := key; sent_envelope := env |} in
                    match tp.(tp_do) with
                    | Err msg => (Some msg, sent, [])
                    | Ok resp =>
                        if negb (Z.quot resp.(hr_code) 100 =? 2) then
                          (Some ("push to " +:+ peer.(p_Name) +:+ ": " +:+ error_body resp), sent, [])
                        else
                          (None, sent,
                           match resp.(hr_merge) with
                           | Some mr => [{| en_Time := 0; en_Actor := "self"; en_Action := "peer-push-sent";
                                            en_Details := peer.(p_Name) +:+ " " +:+ StringifyMerge mr |}]
                           | None => []
                           end)
                    end
                end
            end
        end
        end
  end.

(** ** Push: up to five attempts while the peer is locked *)

Definition maxAttempts : nat := 5.

(** [once k] is the error of attempt [k]; [cancelled k] that of the context, when
    it is done before the wait after attempt [k] ends.  The result is the error
    returned, and the waits. *)
Fixpoint push_loop (once : nat -> option string) (cancelled : nat -> option string)
    (n k : nat) (backoff : Duration) (lastErr : option string) : option string * list Duration :=
  match n with
  | O => (lastErr, [])
  | S n =>
      match once k with
      | None => (None, [])
      | Some err =>
          if negb (Contains err "locked") then (Some err, [])
          else match cancelled k with
               | Some e => (Some e, [backoff])
               | None =>
                   let '(r, waits) := push_loop once cancelled n (S k) (wrap64 (backoff * 2)) (Some err) in
                   (r, backoff :: waits)
               end
      end
  end.
Definition Push (once : nat -> option string) (cancelled : nat -> option string) : option string * list Duration :=
  push_loop once cancelled maxAttempts 0 (100 * Millisecond) None.

(** ** PushAll *)

Definition recent (now : Time) (c : Client) : bool :=
  negb (IsZero c.(lastAppliedAt)) && (Sub now c.(lastAppliedAt) <? 2 * Second).

(** The peers that are pushed to ([None]: suppressed), and the errors collected
    from [push] in the order of the peers (the code collects them in the order
    in which the pushes end). *)
Definition PushAll (now : Time) (push : Peer -> option string) (peers : list Peer) (c : Client)
    : Client * option (list Peer) * list string :=
  let suppressed := recent now c in
  let c := NewClient in
  if suppressed then (c, None, [])
  else
    let enabled := List.filter p_Enabled peers in
    (c, Some enabled,
     concat (map (fun p => match push p with Some err => [p.(p_Name) +:+ ": " +:+ err] | None => [] end) enabled)).
End client.

(** ** pull *)

(** the operations of the world that a pull uses *)
Record ClientOps (W : Type) := {
  co_Provider : W -> option File;
  co_Apply : Envelope -> string -> W -> W * option string;
  co_Mark : string -> W -> W;
  co_SetStatus : string -> PeerStatusUpdate -> W -> W;
  co_Audit : Entry -> W -> W;
}.
Arguments co_Provider {W}. Arguments co_Apply {W}. Arguments co_Mark {W}.
Arguments co_SetStatus {W}. Arguments co_Audit {W}.

Section pull.
Context `{URLs} {W : Type} (ops : ClientOps W).

Definition recordErr (now : Time) (peer : Peer) (err : string) (w : W) : W :=
  ops.(co_SetStatus) peer.(p_Name) {| su_LastError := err; su_LastAction := "error"; su_At := now |} w.
Definition recordOK (now : Time) (peer : Peer) (w : W) : W :=
  ops.(co_SetStatus) peer.(p_Name) {| su_LastError := ""; su_LastAction := "ok"; su_At := now |} w.

Definition pull (now : Time) (tp : Transport) (peer : Peer) (w : W) : W :=
  match ops.(co_Provider) w with
  | None => w
  | Some cur =>
      let key := cur.(f_Peers).(SharedKey) in
      if (key =? "")%string then w
      else if (peer.(p_URL) =? "")%string then w
      else
        match joinURL peer.(p_URL) "/peer/v1/items" with
        | Err msg => recordErr now peer msg w
        | Ok u =>
            match tp.(tp_request) u with
            | Some msg => recordErr now peer msg w
            | None =>
                match httpClient tp key with
                | Some msg => recordErr now peer msg w
                | None =>
                    match tp.(tp_do) with
                    | Err msg => recordErr now peer msg w
                    | Ok resp =>
                        if negb (Z.quot resp.(hr_code) 100 =? 2) then
                          recordErr now peer ("pull from " +:+ peer.(p_Name) +:+ ": " +:+ error_body resp) w
                        else
                          match resp.(hr_envelope) with
                          | Err msg => recordErr now peer ("decode: " +:+ msg) w
                          | Ok env =>
                              let '(w, err) := ops.(co_Apply) env peer.(p_Name) w in
                              match err with
                              | Some err => recordErr now peer err w
                              | None =>
                                  let w := ops.(co_Mark) env.(e_InstanceID) w in
                                  let w := ops.(co_Audit)
                                    {| en_Time := 0; en_Actor := "peer:" +:+ env.(e_InstanceID);
                                       en_Action := "peer-pull-applied"; en_Details := peer.(p_Name) |} w in
                                  recordOK now peer w
                              end
                          end
                    end
                end
            end
        end
  end.

(** ** The pull loop of one peer *)

Definition pull_interval (settings : Peers) : Duration :=
  let interval := times settings.(SyncIntervalSeconds) Second in
  if interval <? 10 * Second then 10 * Second else interval.

(** one pull at once, then one for each tick before the context is done *)
Fixpoint runOne (pulls : list (Time * Transport)) (peer : Peer) (w : W) : W :=
  match pulls with
  | [] => w
  | (now, tp) :: pulls => runOne pulls peer (pull now tp peer w)
  end.

(** ** Run: one loop for each enabled peer, and their pulls in any order *)

Definition PSK (w : W) : string :=
  match ops.(co_Provider) w with None => "" | Some cur => cur.(f_Peers).(SharedKey) end.
(** whether [Run] warns that there are peers and no key *)
Definition run_warns (peers : list Peer) (w : W) : bool := (PSK w =? "")%string && negb (Nat.eqb (length peers) 0).
Definition loops (peers : list Peer) : list Peer := List.filter p_Enabled peers.
(** [pulls] says which loop comes next, when, and what its exchange meets *)
Definition Run (peers : list Peer) (pulls : list (nat * Time * Transport)) (w : W) : W :=
  foldl (fun w '(i, now, tp) => match loops peers !! i with Some p => pull now tp p w | None => w end) w pulls.
End pull.
