(* ===== verification/Watcher.v ===== *)
(** The watcher, internal/watcher/watcher.go: it turns the current configuration
    into the file unbound reads, and makes unbound reload it. *)
From S2P Require Import Prelude GoStrings GoPath GoTime Config Validate Sync Store Generate Resolve Proxy AuditLog.

(** ** Reload: signal the supervised unbound *)

(** what one attempt meets: the recorded pid, the errors of finding the process
    and of signalling it, and the context's error if it is done during the wait *)
Record ReloadTry := {
  rt_pid : Z;
  rt_find : option string;
  rt_signal : option string;
  rt_ctx : option string;
}.
Inductive ReloadOutcome := Signalled | ReloadCtx (err : string) | ReloadFailed (err : string).

Fixpoint reload_loop (tries : nat -> ReloadTry) (n k : nat) (lastErr : option string) : ReloadOutcome :=
  match n with
  | O => ReloadFailed ("signal unbound: " +:+ default "unbound pid stayed at 0 after retries" lastErr)
  | S n =>
      let t := tries k in
      let attempt := if 0 <? t.(rt_pid) then
                       match t.(rt_find) with
                       | Some err => Some (Some err)
                       | None => match t.(rt_signal) with Some err => Some (Some err) | None => None end
                       end
                     else Some lastErr in
      match attempt with
      | None => Signalled
      | Some lastErr =>
          match t.(rt_ctx) with
          | Some err => ReloadCtx err
          | None => reload_loop tries n (S k) lastErr
          end
      end
  end.
Definition Reload (tries : nat -> ReloadTry) : option string :=
  match reload_loop tries 20 0 None with
  | Signalled => None
  | ReloadCtx err => Some err
  | ReloadFailed err => Some err
  end.

(** ** The watcher *)

Record Watcher := {
  lastError : string;
  lastOK : Time;
  cycles : Z;
  proxy : option Proxy.Server;
}.
#[export] Instance watcher_settable : Settable Watcher := fun w =>
  {| lastError := w.(lastError); lastOK := w.(lastOK); cycles := w.(cycles); proxy := w.(proxy) |}.
Definition NewWatcher : Watcher := {| lastError := ""; lastOK := 0; cycles := 0; proxy := None |}.

Definition Status (w : Watcher) : Time * string := (w.(lastOK), w.(lastError)).
Definition setErr (s : string) (w : Watcher) : Watcher := w <| lastError := s |>.

(** the answers of the system to one [applyOnce]: what the proxy's probes meet,
    [ai_check] the error and the output of unbound-checkconf *)
Record ApplyIO := {
  ai_probes : nat -> Probe;
  ai_mkdir : option string;
  ai_write : WriteOutcome;
  ai_check : option (string * string);
  ai_rename : option string;
  ai_reload : nat -> ReloadTry;
  ai_now : Time;
}.

Inductive Reason := Initial | PollChange | APISave.
Definition reason_text (r : Reason) : string :=
  match r with Initial => "initial" | PollChange => "poll-change" | APISave => "api-save" end.
Definition is_initial (r : Reason) : bool := match r with Initial => true | _ => false end.

(** the proxy's view of the configuration is rebuilt and probed at once *)
Definition refresh_proxy `{DNSLib} (probes : nat -> Probe) (cur : option File) (w : Watcher) : Watcher :=
  w <| proxy := RefreshNow Fqdn cur probes <$> w.(proxy) |>.
Definition SetProxy `{DNSLib} (probes : nat -> Probe) (cur : option File) (p : option Proxy.Server) (w : Watcher) : Watcher :=
  refresh_proxy probes cur (w <| proxy := p |>).

Section watcher.
(** the directory, the file name and the instance the watcher was made with *)
Context `{D : DNSLib} (outDir confName instance : string).
Definition final : string := filepath_Join outDir confName.

(** what one application leaves: the files, the watcher and its proxy, the audit
    entries, and the error *)
Definition applyOnce (io : ApplyIO) (reason : Reason) (cur : option File) (fs : FS) (w : Watcher)
    : FS * Watcher * list Entry * option string :=
  match cur with
  | None => (fs, w, [], Some "no config")
  | Some cur =>
      let w := refresh_proxy io.(ai_probes) (Some cur) w in
      let gen := Generate cur in
      match io.(ai_mkdir) with
      | Some msg => (fs, setErr msg w, [], Some msg)
      | None =>
          let tmp := final +:+ ".tmp" in
          let '(fs, wErr) := WriteFile io.(ai_write) tmp gen fs in
          match wErr with
          | Some msg => (fs, setErr msg w, [], Some msg)
          | None =>
              match io.(ai_check) with
              | Some (err, checkOut) =>
                  let msg := TrimSpace checkOut in
                  let msg := if (msg =? "")%string then err else msg in
                  let msg := "unbound-checkconf failed: " +:+ msg in
                  (delete tmp fs, setErr msg w, [], Some msg)
              | None =>
                  match io.(ai_rename) with
                  | Some msg => (fs, setErr msg w, [], Some msg)
                  | None =>
                      let fs := Rename tmp final fs in
                      match (if negb (is_initial reason) then Reload io.(ai_reload) else None) with
                      | Some msg => (fs, setErr msg w, [], Some msg)
                      | None =>
                          (fs, w <| lastError := "" |> <| lastOK := io.(ai_now) |>,
                           [{| en_Time := 0; en_Actor := instance; en_Action := "config-applied";
                               en_Details := reason_text reason |}], None)
                      end
                  end
              end
          end
      end
  end.

Definition ApplyNow (io : ApplyIO) (cur : option File) (fs : FS) (w : Watcher) :=
  applyOnce io APISave cur fs w.

(** ** Run *)

Definition poll_interval (cur : File) : Duration :=
  let poll := times cur.(f_Settings).(PollSeconds) Second in
  if poll <=? 0 then 10 * Second else poll.

Definition LoadError_text (e : LoadError) : string :=
  match e with
  | LErrIO msg => msg
  | LErrParse msg => "parse: " +:+ msg
  | LErrValidate e => "validate: " +:+ ConfigError_Error e
  | LErrMarshal msg => msg
  end.

Context `{Yaml} (path : string) (env : Env).

(** one tick of the poll *)
Definition tick (fault : option string) (io : ApplyIO) (fs : FS) (s : Store) (w : Watcher)
    : FS * Store * Watcher * list Entry :=
  let w := w <| cycles := (w.(cycles) + 1) mod 2 ^ 64 |> in
  let '(s, (changed, err)) := ReloadIfChanged path env fault fs s in
  match err with
  | Some e => (fs, s, setErr (LoadError_text e) w, [])
  | None =>
      if negb changed then (fs, s, w, [])
      else let '(fs, w, log, _) := applyOnce io PollChange s.(current) fs w in (fs, s, w, log)
  end.

(** [None]: the loop never starts *)
Definition Run_start (io : ApplyIO) (fs : FS) (s : Store) (w : Watcher)
    : option (FS * Watcher * list Entry * Duration) :=
  match s.(current) with
  | None => None
  | Some cur =>
      let '(fs, w, log, _) := applyOnce io Initial s.(current) fs w in
      Some (fs, w, log, poll_interval cur)
  end.
End watcher.
