(* ===== verification/Daemon.v ===== *)
(** The wiring of the process, cmd/dnsforwarderd/main.go: the store with its two
    hooks, the peer client's [Apply] and the listener's [PushSink], and the
    supervisor of unbound. *)
From S2P Require Import Prelude GoStrings GoTime Config Validate Sync Store Generate Resolve Proxy AuditLog.
From S2P Require Import PeerListener PeerClient Watcher.

(** ** The error texts that cross the process boundary *)

Definition SaveError_text (e : SaveError string) : string :=
  match e with
  | SErrIO msg => msg
  | ErrLocked => "config is locked by another writer"
  | SErrMutate msg => msg
  | SErrValidate e => ConfigError_Error e
  | SErrMarshal msg => msg
  | SErrUnlock msg => msg
  end.

(** ** State *)

(** what the hooks did: a round of pushes to these peers ([None]: suppressed), or
    an application of the configuration *)
Inductive Event := EvPush (peers : option (list Peer)) | EvApply.

Record Node := {
  n_fs : gmap string string;
  n_store : Store;
  n_watcher : Watcher;
  n_client : Client;
  n_status : gmap string PeerStatusUpdate;
  n_audit : list Entry;
  n_events : list Event;
}.
#[export] Instance node_settable : Settable Node := fun n =>
  {| n_fs := n.(n_fs); n_store := n.(n_store); n_watcher := n.(n_watcher); n_client := n.(n_client); n_status := n.(n_status);
     n_audit := n.(n_audit); n_events := n.(n_events) |}.

Definition emit (e : Event) (n : Node) : Node := n <| n_events := n.(n_events) ++ [e] |>.

(** what the functions that one Save calls back meet: the clock in a callback that
    merges, the clock when the peers are pushed to, and the application *)
Record HookIO := { hk_merge : Time; hk_now : Time; hk_apply : ApplyIO }.

Section daemon.
(** the configuration file; the directory and name of unbound's; the instance *)
Context `{Y : Yaml} `{D : DNSLib} (path outDir confName instance : string).

(** ** The hooks *)

(** the hook that [SetOnSave] registers, run at [now] *)
Definition on_save (now : Time) (n : Node) : Node :=
  match n.(n_store).(current) with
  | None => n
  | Some cur =>
      let '(c, pushed, _) := PushAll now (fun _ => None) cur.(f_Peers).(List) n.(n_client) in
      emit (EvPush pushed) (n <| n_client := c |>)
  end.
(** [w.ApplyNow] from anywhere: the files, the watcher and the log it leaves *)
Definition apply_node (io : ApplyIO) (n : Node) : Node * option string :=
  let '(fs, w, log, err) := ApplyNow outDir confName instance io n.(n_store).(current) n.(n_fs) n.(n_watcher) in
  (n <| n_fs := fs |> <| n_watcher := w |> <| n_audit := n.(n_audit) ++ log |>, err).
(** the hook that [SetOnApply] registers; its error is only logged *)
Definition on_apply (io : ApplyIO) (n : Node) : Node := emit EvApply (apply_node io n).1.
Definition run_hook (io : HookIO) (n : Node) (h : Hook) : Node :=
  match h with OnSave => on_save io.(hk_now) n | OnApply => on_apply io.(hk_apply) n end.

(** one [store.Save], the hooks it runs at its end included *)
Definition save_node (io : SaveIO) (hook_io : HookIO) (opts : SaveOptions string) (n : Node)
    : Node * result (SaveError string) File :=
  let '(fs, s, hooks, r) := Save path io opts n.(n_fs) n.(n_store) in
  (foldl (run_hook hook_io) (n <| n_fs := fs |> <| n_store := s |>) hooks, r).

(** ** Saving with retries: up to twenty attempts while the store is locked *)

Definition saveAttempts : nat := 20.
Definition next_backoff (backoff : Duration) : Duration :=
  let backoff := wrap64 (backoff * 2) in if 500 * Millisecond <? backoff then 500 * Millisecond else backoff.

(** [ios k] is what attempt [k] meets, and [opts] are the options of a Save whose
    callback reads the clock; the result is the error of the last attempt ([None]
    for success), and the sleeps *)
Fixpoint save_loop (ios : nat -> SaveIO * HookIO) (opts : Time -> SaveOptions string) (fuel k : nat) (backoff : Duration)
    (last : option (SaveError string)) (n : Node) : Node * option (SaveError string) * list Duration :=
  match fuel with
  | O => (n, last, [])
  | S fuel =>
      let '(n, r) := save_node (ios k).1 (ios k).2 (opts (ios k).2.(hk_merge)) n in
      match r with
      | Ok _ => (n, None, [])
      | Err ErrLocked =>
          let '(n, e, sleeps) := save_loop ios opts fuel (S k) (next_backoff backoff) (Some ErrLocked) n in
          (n, e, backoff :: sleeps)
      | Err e => (n, Some e, [])
      end
  end.
Definition save_retry (ios : nat -> SaveIO * HookIO) (opts : Time -> SaveOptions string) (n : Node) :=
  save_loop ios opts saveAttempts 0 (50 * Millisecond) None n.

(** ** Applying an envelope *)

(** [peersync.Merge(f, env, skew)] as a callback: it does not touch the peers *)
Definition merge_options (actor : string) (now : Time) (env : Envelope) (skew : Duration) : SaveOptions string :=
  {| Actor := actor;
     Mutate := Some (fun f => {| mut_draft := (Merge now f env skew).1; mut_err := None;
                                 mut_shared := f.(f_Peers).(List) |}) |}.

(** the client's [Apply] *)
Definition Apply (ios : nat -> SaveIO * HookIO) (skew : Duration) (env : Envelope) (source : string) (n : Node)
    : Node * option string :=
  let '(n, e, _) := save_retry ios (fun now => merge_options ("peer:" +:+ source) now env skew) n in
  (n, SaveError_text <$> e).

(** the listener's [PushSink]; the clock is read for the preview, whose result is
    the answer, for the mark, and again in the merge of every attempt *)
Definition PushSink (ios : nat -> SaveIO * HookIO) (preview mark : Time) (skew : Duration) (env : Envelope) (peerName : string) (n : Node)
    : Node * result string MergeResult :=
  match n.(n_store).(current) with
  | None => (n, Err "no config")
  | Some before =>
      let res := (Merge preview (Clone before) env skew).2 in
      let n := n <| n_client := MarkAppliedFrom mark env.(e_InstanceID) n.(n_client) |> in
      let '(n, e, _) := save_retry ios (fun now => merge_options ("peer:" +:+ env.(e_InstanceID)) now env skew) n in
      match e with
      | None => (n, Ok res)
      | Some e => (n, Err (SaveError_text e))
      end
  end.

Definition audit_node (e : Entry) (n : Node) : Node := n <| n_audit := n.(n_audit) ++ [e] |>.

(** ** The listener and the client of [startPeerListenerAndClient] *)

Definition peer_skew (cur : File) : Duration := times cur.(f_Peers).(ClockSkewSeconds) Second.

Definition listener_config (cur : File) (ios : nat -> SaveIO * HookIO) (preview mark : Time) : ListenerConfig Node :=
  {| lc_Listen := cur.(f_Peers).(Listen);
     lc_PSK := cur.(f_Peers).(SharedKey);
     lc_Instance := instance;
     lc_Skew := peer_skew cur;
     lc_PeerName := instance;
     lc_Provider := fun n => n.(n_store).(current);
     lc_PushSink := Some (fun env name n => PushSink ios preview mark (peer_skew cur) env name n);
     lc_Audit := Some audit_node |}.

Definition client_ops (cur : File) (ios : nat -> SaveIO * HookIO) (mark : Time) : ClientOps Node :=
  {| co_Provider := fun n => n.(n_store).(current);
     co_Apply := Apply ios (peer_skew cur);
     co_Mark := fun id n => n <| n_client := MarkAppliedFrom mark id n.(n_client) |>;
     co_SetStatus := fun name u n => n <| n_status := SetPeerStatus name u n.(n_status) |>;
     co_Audit := audit_node |}.

(** whether peer sync starts, given whether the listener can; the hooks are set
    only when it does *)
Definition startPeerListenerAndClient (bind : option string) (n : Node) : Node * bool :=
  match n.(n_store).(current) with
  | None => (n, false)
  | Some cur =>
      if (cur.(f_Peers).(SharedKey) =? "")%string then (n, false)
      else match bind with
           | Some _ => (n, false)
           | None => (n <| n_store := SetOnApply true (SetOnSave true n.(n_store)) |>, true)
           end
  end.
End daemon.

(** ** The rest of main.go *)

(** [envOr]: [getenv] is empty for a variable that is not set *)
Definition envOr (getenv : string -> string) (k def : string) : string :=
  if negb (getenv k =? "")%string then getenv k else def.
(** [defaultInstance]: the host name, when there is one *)
Definition defaultInstance (hostname : result string string) : string :=
  let h := match hostname with Ok h => if (h =? "")%string then "unknown" else h | Err _ => "unknown" end in
  TrimSpace h.
Definition http_listen (cur : option File) : string :=
  match cur with
  | Some f => if negb (f.(f_Settings).(HTTPListen) =? "")%string then f.(f_Settings).(HTTPListen) else "0.0.0.0:80"
  | None => "0.0.0.0:80"
  end.

(** superviseUnbound as a machine: it waits for the file, then starts unbound and
    records its pid, waits for it to exit, clears the pid, pauses, and starts again *)
Inductive SupState :=
  | SupWaitFile
  | SupStart
  | SupStarted (pid : Z)
  | SupRunning (pid : option Z)
  | SupReaped
  | SupPause
  | SupDone.
Record Supervisor := { sup_state : SupState; sup_pid : Z }.
(** what happens next: the context is done, or it is not and the file exists (or
    not), the process starts with a pid (or fails to), the process exits *)
Record SupInput := { in_done : bool; in_file : bool; in_start : option Z }.

Definition sup_step (i : SupInput) (s : Supervisor) : Supervisor :=
  let go st := {| sup_state := st; sup_pid := s.(sup_pid) |} in
  match s.(sup_state) with
  | SupWaitFile => if i.(in_file) then go SupStart else if i.(in_done) then go SupDone else s
  | SupStart =>
      if i.(in_done) then go SupDone
      else go match i.(in_start) with Some pid => SupStarted pid | None => SupRunning None end
  | SupStarted pid => {| sup_state := SupRunning (Some pid); sup_pid := pid |}
  | SupRunning _ => go SupReaped
  | SupReaped => {| sup_state := SupPause; sup_pid := 0 |}
  | SupPause => go (if i.(in_done) then SupDone else SupStart)
  | SupDone => s
  end.
Definition sup_init : Supervisor := {| sup_state := SupWaitFile; sup_pid := 0 |}.
