(* ===== verification/Host.v ===== *)
(** Applying a configuration, seen from the machine: any number of [applyOnce] of
    internal/watcher/watcher.go at once (the poll, the API and the peers each call
    it, and no lock keeps them apart), the supervisor of cmd/dnsforwarderd/main.go,
    and the unbound processes it starts.  [Watcher] has one application alone, with
    the refresh of the proxy, the time of the last success and the audit entry, which are left out here. *)
From S2P Require Import Prelude GoStrings Config Generate Store Watcher Daemon.

(** ** The two files *)

(** unbound's file and its temporary file are names of inodes, which outlive them
    for those who hold them open *)
Record Disk := { dk_final : option nat; dk_tmp : option nat; dk_inodes : list string }.
Definition contents (d : Disk) (name : option nat) : option string := name ≫= (fun i => d.(dk_inodes) !! i).

(** [O_CREATE|O_TRUNC] *)
Definition open_tmp (d : Disk) : nat * Disk :=
  match d.(dk_tmp) with
  | Some i => (i, {| dk_final := d.(dk_final); dk_tmp := Some i; dk_inodes := <[i := EmptyString]> d.(dk_inodes) |})
  | None =>
      let i := length d.(dk_inodes) in
      (i, {| dk_final := d.(dk_final); dk_tmp := Some i; dk_inodes := d.(dk_inodes) ++ [EmptyString] |})
  end.
(** a write from the beginning of the file, over what is there *)
Definition write_at (i : nat) (data : string) (d : Disk) : Disk :=
  {| dk_final := d.(dk_final); dk_tmp := d.(dk_tmp);
     dk_inodes := alter (fun old => data +:+ str_drop (String.length data) old) i d.(dk_inodes) |}.
Definition remove_tmp (d : Disk) : Disk :=
  {| dk_final := d.(dk_final); dk_tmp := None; dk_inodes := d.(dk_inodes) |}.
Definition rename_tmp (d : Disk) : Disk :=
  match d.(dk_tmp) with
  | Some i => {| dk_final := Some i; dk_tmp := None; dk_inodes := d.(dk_inodes) |}
  | None => d
  end.

(** ** The host *)

(** Where an application stands; [v] is the version of the file it has left. *)
Inductive ApplyPhase :=
  | ApRead
  | ApOpen (cur : File)
  | ApWrite (cur : File) (i : nat)
  | ApCheck (cur : File)
  | ApRemove (msg : string)
  | ApRename (cur : File)
  | ApLoadPid (cur : File) (v k : nat) (lastErr : option string)
  | ApSignal (cur : File) (v k : nat) (pid : Z) (lastErr : option string)
  | ApWait (cur : File) (v k : nat) (lastErr : option string)
  | ApDone (cur : File) (v : nat)
  | ApFailed (msg : string).
Record Applying := { ap_reason : Reason; ap_phase : ApplyPhase }.
Definition finished (a : Applying) : bool :=
  match a.(ap_phase) with ApDone _ _ | ApFailed _ => true | _ => false end.

(** an unbound process: the version and the contents of the file it has read,
    whether it has been told to terminate, whether it has ended *)
Record Proc := { pc_loaded : option (nat * option string); pc_term : bool; pc_exited : bool }.

(** [h_version] counts the changes of unbound's file; [h_error] is the watcher's last error *)
Record Host := {
  h_disk : Disk;
  h_version : nat;
  h_current : option File;
  h_jobs : list Applying;
  h_sup : Supervisor;
  h_procs : gmap Z Proc;
  h_error : string;
}.
#[export] Instance host_settable : Settable Host := fun h =>
  {| h_disk := h.(h_disk); h_version := h.(h_version); h_current := h.(h_current); h_jobs := h.(h_jobs);
     h_sup := h.(h_sup); h_procs := h.(h_procs); h_error := h.(h_error) |}.

(** what a step of an application meets: which calls fail; a failed write has
    written some bytes *)
Record JobIO := {
  jb_mkdir : option string;
  jb_open : option string;
  jb_write : option (nat * string);
  jb_check : option (string * string);
  jb_rename : option string;
  jb_find : option string;
  jb_signal : option string;
  jb_ctx : option string;
}.

Inductive HostMove :=
  | HSave (f : File)
  | HApply (reason : Reason)
  | HJob (j : nat) (io : JobIO)
  | HSup (ctx_done : bool) (start : option Z)
  | HLoad (pid : Z)
  | HExit (pid : Z).

Section host.
(** unbound-checkconf on the contents of a file: an error and the output *)
Context (checkconf : option string -> option (string * string)).

Definition set_disk (d : Disk) (h : Host) : Host :=
  h <| h_disk := d |>
    <| h_version := if decide (contents d d.(dk_final) = contents h.(h_disk) h.(h_disk).(dk_final)) then h.(h_version) else S h.(h_version) |>.
Definition fail (msg : string) (h : Host) : ApplyPhase * Host := (ApFailed msg, h <| h_error := msg |>).

(** the twenty attempts of [Reload] *)
Definition reload_again (cur : File) (v k : nat) (lastErr : option string) (h : Host) : ApplyPhase * Host :=
  if decide (k < 20)%nat then (ApLoadPid cur v k lastErr, h)
  else fail ("signal unbound: " +:+ default "unbound pid stayed at 0 after retries" lastErr) h.
(** the status, and the end *)
Definition succeed (cur : File) (v : nat) (h : Host) : ApplyPhase * Host := (ApDone cur v, h <| h_error := EmptyString |>).

Definition terminate (p : Proc) : Proc := {| pc_loaded := p.(pc_loaded); pc_term := true; pc_exited := p.(pc_exited) |}.

Definition apply_step (io : JobIO) (reason : Reason) (ph : ApplyPhase) (h : Host) : option (ApplyPhase * Host) :=
  match ph with
  | ApRead => Some match h.(h_current) with None => (ApFailed "no config", h) | Some cur => (ApOpen cur, h) end
  | ApOpen cur =>
      Some match io.(jb_mkdir) with
           | Some msg => fail msg h
           | None =>
               match io.(jb_open) with
               | Some msg => fail msg h
               | None => let '(i, d) := open_tmp h.(h_disk) in (ApWrite cur i, set_disk d h)
               end
           end
  | ApWrite cur i =>
      Some match io.(jb_write) with
           | Some (n, msg) => fail msg (set_disk (write_at i (str_take n (Generate cur)) h.(h_disk)) h)
           | None => (ApCheck cur, set_disk (write_at i (Generate cur) h.(h_disk)) h)
           end
  | ApCheck cur =>
      Some match (match io.(jb_check) with Some e => Some e | None => checkconf (contents h.(h_disk) h.(h_disk).(dk_tmp)) end) with
           | Some (err, checkOut) =>
               let msg := TrimSpace checkOut in
               let msg := if (msg =? "")%string then err else msg in
               let msg := "unbound-checkconf failed: " +:+ msg in
               (ApRemove msg, h <| h_error := msg |>)
           | None => (ApRename cur, h)
           end
  | ApRemove msg => Some (ApFailed msg, set_disk (remove_tmp h.(h_disk)) h)
  | ApRename cur =>
      Some match io.(jb_rename), h.(h_disk).(dk_tmp) with
           | Some msg, _ => fail msg h
           | None, None => fail "no such file or directory" h
           | None, Some _ =>
               let h := set_disk (rename_tmp h.(h_disk)) h in
               if negb (is_initial reason) then reload_again cur h.(h_version) 0 None h else succeed cur h.(h_version) h
           end
  | ApLoadPid cur v k lastErr =>
      let pid := h.(h_sup).(sup_pid) in
      Some (if 0 <? pid then ApSignal cur v k pid lastErr else ApWait cur v k lastErr, h)
  | ApSignal cur v k pid lastErr =>
      Some match io.(jb_find) with
           | Some err => (ApWait cur v k (Some err), h)
           | None =>
               match io.(jb_signal), h.(h_procs) !! pid with
               | Some err, _ => (ApWait cur v k (Some err), h)
               | None, None => (ApWait cur v k (Some "os: process already finished"), h)
               | None, Some p => succeed cur v (h <| h_procs := <[pid := terminate p]> h.(h_procs) |>)
               end
           end
  | ApWait cur v k lastErr =>
      Some match io.(jb_ctx) with Some err => fail err h | None => reload_again cur v (S k) lastErr h end
  | ApDone _ _ | ApFailed _ => None
  end.

Definition new_proc : Proc := {| pc_loaded := None; pc_term := false; pc_exited := false |}.
(** one step of the supervisor: a process gets a pid that no process has; waiting
    for it goes on until it has ended *)
Definition sup_move (ctx_done : bool) (start : option Z) (h : Host) : option Host :=
  let next := sup_step {| in_done := ctx_done; in_file := bool_decide (is_Some h.(h_disk).(dk_final)); in_start := start |} h.(h_sup) in
  match h.(h_sup).(sup_state), next.(sup_state) with
  | SupStart, SupStarted pid =>
      if (0 <? pid) && bool_decide (h.(h_procs) !! pid = None)
      then Some (h <| h_sup := next |> <| h_procs := <[pid := new_proc]> h.(h_procs) |>) else None
  | SupRunning (Some pid), _ =>
      match h.(h_procs) !! pid with
      | Some p => if p.(pc_exited) then Some (h <| h_sup := next |> <| h_procs := delete pid h.(h_procs) |>) else None
      | None => None
      end
  | _, _ => Some (h <| h_sup := next |>)
  end.

(** unbound reads its file, once; it ends, because it was told to or by itself *)
Definition load (h : Host) (p : Proc) : Proc :=
  {| pc_loaded := Some (h.(h_version), contents h.(h_disk) h.(h_disk).(dk_final)); pc_term := p.(pc_term); pc_exited := p.(pc_exited) |}.
Definition ended (p : Proc) : Proc := {| pc_loaded := p.(pc_loaded); pc_term := p.(pc_term); pc_exited := true |}.

Definition host_step (mv : HostMove) (h : Host) : option Host :=
  match mv with
  | HSave f => Some (h <| h_current := Some f |>)
  | HApply reason => Some (h <| h_jobs := h.(h_jobs) ++ [{| ap_reason := reason; ap_phase := ApRead |}] |>)
  | HJob j io =>
      a ← h.(h_jobs) !! j;
      '(ph, h) ← apply_step io a.(ap_reason) a.(ap_phase) h;
      Some (h <| h_jobs := <[j := {| ap_reason := a.(ap_reason); ap_phase := ph |}]> h.(h_jobs) |>)
  | HSup ctx_done start => sup_move ctx_done start h
  | HLoad pid =>
      p ← h.(h_procs) !! pid;
      if p.(pc_exited) || bool_decide (is_Some p.(pc_loaded)) then None else Some (h <| h_procs := <[pid := load h p]> h.(h_procs) |>)
  | HExit pid =>
      p ← h.(h_procs) !! pid;
      Some (h <| h_procs := <[pid := ended p]> h.(h_procs) |>)
  end.

(** a run in which every move is one that [allowed] admits *)
Fixpoint host_run (allowed : HostMove -> Host -> bool) (moves : list HostMove) (h : Host) : option Host :=
  match moves with
  | [] => Some h
  | mv :: moves =>
      if allowed mv h then h ← host_step mv h; host_run allowed moves h else None
  end.
Definition any_move (mv : HostMove) (h : Host) : bool := true.
(** one application after the other *)
Definition serial (mv : HostMove) (h : Host) : bool :=
  match mv with HApply _ => forallb finished h.(h_jobs) | _ => true end.

(** the machine before anything has started, with the file that was left there *)
Definition boot (old : option string) (cur : option File) : Host :=
  {| h_disk := {| dk_final := (fun _ => 0%nat) <$> old; dk_tmp := None; dk_inodes := match old with Some s => [s] | None => [] end |};
     h_version := 0; h_current := cur; h_jobs := []; h_sup := sup_init; h_procs := ∅; h_error := EmptyString |}.
End host.
