(* ===== verification/Flags.v ===== *)
(** The command line of cmd/dnsforwarderd/main.go: its flags with their defaults
    from the environment, as flag.Parse reads them, and the paths made of them. *)
From S2P Require Import Prelude GoStrings GoPath Daemon.

Definition DefaultPath : string := "/config/dnsforwarder.yaml".

Record Flags := {
  cfgPath : string;
  outDir : string;
  confName : string;
  unboundBin : string;
  fl_instance : string;
  supervise : bool;
}.
#[export] Instance flags_settable : Settable Flags := fun f =>
  {| cfgPath := f.(cfgPath); outDir := f.(outDir); confName := f.(confName); unboundBin := f.(unboundBin);
     fl_instance := f.(fl_instance); supervise := f.(supervise) |}.

Definition flag_defaults (getenv : string -> string) (hostname : result string string) : Flags :=
  {| cfgPath := envOr getenv "DNSFWD_CONFIG" DefaultPath;
     outDir := envOr getenv "DNSFWD_OUT" "/etc/unbound";
     confName := envOr getenv "DNSFWD_CONF_NAME" "unbound.conf";
     unboundBin := envOr getenv "DNSFWD_UNBOUND_BIN" "unbound";
     fl_instance := envOr getenv "DNSFWD_INSTANCE" (defaultInstance hostname);
     supervise := true |}.

(** ** flag.Parse *)

Inductive FlagError := BadSyntax (s : string) | NotDefined (name : string) | NeedsArgument (name : string) | BadBool (value name : string) | HelpRequested.

(** [strconv.ParseBool] *)
Definition ParseBool (s : string) : option bool :=
  if existsb (String.eqb s) ["1"; "t"; "T"; "TRUE"; "true"; "True"] then Some true
  else if existsb (String.eqb s) ["0"; "f"; "F"; "FALSE"; "false"; "False"] then Some false
  else None.

(** how a flag takes a value: a text, or a truth value *)
Inductive Setter := SetText (set : string -> Flags -> Flags) | SetBool (set : bool -> Flags -> Flags).
Definition setter (name : string) : option Setter :=
  snd <$> List.find (fun p => (p.1 =? name)%string)
    [("config", SetText (fun v f => f <| cfgPath := v |>));
     ("out", SetText (fun v f => f <| outDir := v |>));
     ("conf-name", SetText (fun v f => f <| confName := v |>));
     ("unbound-bin", SetText (fun v f => f <| unboundBin := v |>));
     ("instance", SetText (fun v f => f <| fl_instance := v |>));
     ("supervise-unbound", SetBool (fun v f => f <| supervise := v |>))].

(** an argument: not a flag, or the end of the flags, or a name with its value *)
Definition split_arg (s : string) : option (result FlagError (string * option string)) :=
  if negb (HasPrefix s "-") || (s =? "-")%string || (s =? "--")%string then None
  else
    let name := if HasPrefix s "--" then str_drop 2 s else str_drop 1 s in
    Some (if HasPrefix name "-" || HasPrefix name "=" then Err (BadSyntax s)
          else match Index (str_drop 1 name) "=" with
               | Some i => Ok (str_take (S i) name, Some (str_drop (S (S i)) name))
               | None => Ok (name, None)
               end).

(** [ExitOnError]: after an error the process has ended *)
Fixpoint parse (args : list string) (f : Flags) : result FlagError Flags :=
  match args with
  | [] => Ok f
  | s :: args =>
      match split_arg s with
      | None => Ok f
      | Some (Err e) => Err e
      | Some (Ok (name, value)) =>
          match setter name with
          | None => Err (if (name =? "help")%string || (name =? "h")%string then HelpRequested else NotDefined name)
          | Some (SetBool set) =>
              match value with
              | None => parse args (set true f)
              | Some v => match ParseBool v with Some b => parse args (set b f) | None => Err (BadBool v name) end
              end
          | Some (SetText set) =>
              match value, args with
              | Some v, _ => parse args (set v f)
              | None, v :: args => parse args (set v f)
              | None, [] => Err (NeedsArgument name)
              end
          end
      end
  end.
Definition read_flags (getenv : string -> string) (hostname : result string string) (args : list string) : result FlagError Flags :=
  parse args (flag_defaults getenv hostname).

(** ** What main makes of them *)

Definition auditPath (f : Flags) : string := filepath_Join (Dir f.(cfgPath)) "audit.log".
Definition unboundConf (f : Flags) : string := filepath_Join f.(outDir) f.(confName).

Example flags_ex :
  let env k := if (k =? "DNSFWD_OUT")%string then "/env" else if (k =? "DNSFWD_CONFIG")%string then "/env/c.yaml" else "" in
  (fun f => (f, auditPath f, unboundConf f)) <$> match read_flags env (Ok "host") ["-out=/run/"; "--instance"; "n1"; "-supervise-unbound=false"; "rest"] with Ok f => Some f | Err _ => None end
  = Some ({| cfgPath := "/env/c.yaml"; outDir := "/run/"; confName := "unbound.conf"; unboundBin := "unbound"; fl_instance := "n1"; supervise := false |},
          "/env/audit.log", "/run/unbound.conf").
Proof. vm_compute. reflexivity. Qed.
Example flags_errors :
  let read := read_flags (fun _ => "") (Err "no host name") in
  map read [["-out"]; ["-x"]; ["---out"]; ["-supervise-unbound=maybe"]]
  = [Err (NeedsArgument "out"); Err (NotDefined "x"); Err (BadSyntax "---out"); Err (BadBool "maybe" "supervise-unbound")].
Proof. vm_compute. reflexivity. Qed.

(** The command line wins over the environment, and the environment over the
    default; an empty variable counts as unset, an empty argument does not. *)
Theorem flags_precedence getenv hostname (v : string) (args : list string) :
  read_flags getenv hostname [] = Ok (flag_defaults getenv hostname)
  /\ (flag_defaults getenv hostname).(cfgPath) = (if (getenv "DNSFWD_CONFIG" =? "")%string then DefaultPath else getenv "DNSFWD_CONFIG")
  /\ read_flags getenv hostname ("-config" :: v :: args) = parse args ((flag_defaults getenv hostname) <| cfgPath := v |>).
Proof.
  split_and!; [done| |done]. unfold flag_defaults, envOr. simpl. by destruct (String.eqb _ _).
Qed.
