(* ===== verification/Server.v ===== *)
(** The HTTP API, internal/server/server.go: every handler under /api as a
    function on the process (its store and hooks, its watcher, its audit log),
    from a decoded request to a response: a request is its path parameters, its
    [X-Actor] header and its decoded body.  The routes and the pages are in
    Router. *)
From S2P Require Import Prelude GoStrings GoTime Config Validate Sync Sha256 Store.
From S2P Require Import Generate NetIP AuditLog PeerListener PeerClient Watcher Daemon Resolve.

(** ** Responses *)

Inductive Body :=
  | BErr (msg : string)
  | BOk (reason : string)
  | BOkName (name : string)
  | BOkOnly
  | BPlain (s : string)
  | BConfig (f : File)
  | BZones (zs : list ForwardZone)
  | BDefaults (us : list UpstreamDefault)
  | BRecords (rs : list StaticRecord)
  | BSettings (s : Settings)
  | BPeers (p : Peers)
  | BStatus (instance hash : string) (last_ok : Time) (last_error : string) (version : Z) (updated : Time) (updated_by : string)
  | BMessage (msg : string)
  | BPeersStatus (instance listen : string) (sync_seconds : Z) (rows : list (Peer * bool * Z))
  | BAuditLog (es : list Entry)
  | BTest (t : TestResult)
  | BExport (comment : string) (f : File).
Record Response := { rs_code : Z; rs_body : Body }.
Definition http_error (code : Z) (msg : string) : Response := {| rs_code := code; rs_body := BErr msg |}.
Definition json (b : Body) : Response := {| rs_code := StatusOK; rs_body := b |}.

(** ** State and inputs *)

Definition cur_of (a : Node) : option File := a.(n_store).(current).

(** what a request meets: its Saves in order with their hooks, the application after it, the
    clock, and eight random bytes *)
Record ApiIO := {
  api_saves : nat -> SaveIO * HookIO;
  api_apply : ApplyIO;
  api_now : Time;
  api_random : list Z;
}.

(** ** Small helpers *)

Definition actorOf (header fallback : string) : string := if negb (header =? "")%string then header else fallback.
Definition newID (random : list Z) : string := EncodeToString random.

(** the loop over the names, with the set of those seen in lower case *)
Fixpoint normalize_loop (seen : gset string) (peers : list string) : list string :=
  match peers with
  | [] => []
  | p :: peers =>
      let p := TrimSpace p in
      if (p =? "")%string then normalize_loop seen peers
      else if bool_decide (ToLower p ∈ seen) then normalize_loop seen peers
      else p :: normalize_loop ({[ToLower p]} ∪ seen) peers
  end.
Definition normalizePeerList (peers : list string) : list string := normalize_loop ∅ peers.

Definition normalizePeer (name url : string) : result string (string * string) :=
  let name := TrimSpace name in
  let url := TrimSpace url in
  ensure negb (url =? "")%string else "url is required";;
  ensure HasPrefix url "https://" else "peer url must use https://";;
  Ok (if (name =? "")%string then peerNameFromURL url else name, url).

(** the loops that find the first item and change or remove it *)
Fixpoint update_first {A} (p : A -> bool) (f : A -> A) (l : list A) : option (list A) :=
  match l with
  | [] => None
  | x :: l => if p x then Some (f x :: l) else cons x <$> update_first p f l
  end.
Fixpoint remove_first {A} (p : A -> bool) (l : list A) : option (list A) :=
  match l with
  | [] => None
  | x :: l => if p x then Some l else cons x <$> remove_first p l
  end.

(** a callback that leaves the shared peer list alone *)
Definition on_draft (actor : string) (m : File -> result string File) : SaveOptions string :=
  {| Actor := actor;
     Mutate := Some (fun f =>
       match m f with
       | Ok f' => {| mut_draft := f'; mut_err := None; mut_shared := f.(f_Peers).(List) |}
       | Err e => {| mut_draft := f; mut_err := Some e; mut_shared := f.(f_Peers).(List) |}
       end) |}.

(** ** Request bodies *)

Record forwarderBody := {
  fb_Name : string; fb_Wildcard : bool; fb_Upstreams : list string; fb_LeastLatency : bool;
  fb_LatencyTestFrequency : Z; fb_DoNotSync : bool; fb_SyncPeers : list string;
}.
Record defaultBody := {
  db_Address : string; db_Port : Z; db_Enabled : option bool; db_Note : string;
  db_DoNotSync : bool; db_SyncPeers : list string;
}.
Record recordBody := {
  rb_Name : string; rb_Type : string; rb_Value : string; rb_TTL : Z; rb_DoNotSync : bool; rb_SyncPeers : list string;
}.
Record peerBody := { pb_Name : string; pb_URL : string; pb_Enabled : option bool }.
Record testBody := { tb_Name : string; tb_Qtype : string; tb_Upstream : string }.

(** ** What the callbacks do to the draft *)

Definition replace_config (body f : File) : File :=
  f <| f_Settings := Settings_WithDefaults body.(f_Settings) |>
    <| UpstreamDefaults := body.(UpstreamDefaults) |>
    <| ForwardZones := body.(ForwardZones) |>
    <| StaticRecords := body.(StaticRecords) |>.

Definition new_zone (id : string) (b : forwarderBody) : ForwardZone :=
  {| z_ID := id; z_Name := b.(fb_Name); z_Wildcard := b.(fb_Wildcard); z_Upstreams := b.(fb_Upstreams);
     z_LeastLatency := b.(fb_LeastLatency); z_LatencyTestFrequency := b.(fb_LatencyTestFrequency);
     z_DoNotSync := b.(fb_DoNotSync); z_SyncPeers := normalizePeerList b.(fb_SyncPeers);
     z_UpdatedAt := 0; z_UpdatedBy := ""; z_Deleted := false |}.
Definition edit_zone (now : Time) (actor : string) (b : forwarderBody) (z : ForwardZone) : ForwardZone :=
  z <| z_Name := b.(fb_Name) |> <| z_Wildcard := b.(fb_Wildcard) |> <| z_Upstreams := b.(fb_Upstreams) |>
    <| z_LeastLatency := b.(fb_LeastLatency) |> <| z_LatencyTestFrequency := b.(fb_LatencyTestFrequency) |>
    <| z_DoNotSync := b.(fb_DoNotSync) |>
    <| z_SyncPeers := if b.(fb_DoNotSync) then [] else normalizePeerList b.(fb_SyncPeers) |>
    <| z_UpdatedAt := now |> <| z_UpdatedBy := actor |>.
Definition bury_zone (now : Time) (actor : string) (z : ForwardZone) : ForwardZone :=
  z <| z_Deleted := true |> <| z_UpdatedAt := now |> <| z_UpdatedBy := actor |>.

Definition with_zones (e : string) (o : option (list ForwardZone)) (f : File) : result string File :=
  match o with Some zs => Ok (f <| ForwardZones := zs |>) | None => Err e end.
Definition with_records (e : string) (o : option (list StaticRecord)) (f : File) : result string File :=
  match o with Some rs => Ok (f <| StaticRecords := rs |>) | None => Err e end.
Definition with_defaults (e : string) (o : option (list UpstreamDefault)) (f : File) : result string File :=
  match o with Some us => Ok (f <| UpstreamDefaults := Some us |>) | None => Err e end.

Definition has_zone_id (id : string) (z : ForwardZone) : bool := (z.(z_ID) =? id)%string.
Definition has_record_id (id : string) (r : StaticRecord) : bool := (r.(r_ID) =? id)%string.
Definition is_default (addr : string) (port : Z) (u : UpstreamDefault) : bool :=
  (u.(u_Address) =? addr)%string && (u.(u_Port) =? port).
Definition default_name (addr : string) (port : Z) : string := addr +:+ ":" +:+ fmt_d port.

Definition new_default (b : defaultBody) : UpstreamDefault :=
  {| u_Address := b.(db_Address); u_Port := b.(db_Port); u_Enabled := default true b.(db_Enabled); u_Note := b.(db_Note);
     u_DoNotSync := b.(db_DoNotSync); u_SyncPeers := normalizePeerList b.(db_SyncPeers);
     u_UpdatedAt := 0; u_UpdatedBy := ""; u_Deleted := false |}.
Definition add_default (u : UpstreamDefault) (f : File) : result string File :=
  if existsb (is_default u.(u_Address) u.(u_Port)) (elems f.(UpstreamDefaults))
  then Err ("upstream " +:+ default_name u.(u_Address) u.(u_Port) +:+ " already exists")
  else Ok (f <| UpstreamDefaults := Some (elems f.(UpstreamDefaults) ++ [u]) |>).
Definition edit_default (now : Time) (actor : string) (b : defaultBody) (u : UpstreamDefault) : UpstreamDefault :=
  u <| u_Enabled := default u.(u_Enabled) b.(db_Enabled) |>
    <| u_Note := if negb (b.(db_Note) =? "")%string then b.(db_Note) else u.(u_Note) |>
    <| u_Address := if negb (b.(db_Address) =? "")%string then b.(db_Address) else u.(u_Address) |>
    <| u_Port := if negb (b.(db_Port) =? 0) then b.(db_Port) else u.(u_Port) |>
    <| u_DoNotSync := b.(db_DoNotSync) |>
    <| u_SyncPeers := if b.(db_DoNotSync) then [] else normalizePeerList b.(db_SyncPeers) |>
    <| u_UpdatedAt := now |> <| u_UpdatedBy := actor |>.
(** every match is edited *)
Definition edit_defaults (now : Time) (actor addr : string) (port : Z) (b : defaultBody) (f : File) : result string File :=
  let us := elems f.(UpstreamDefaults) in
  if existsb (is_default addr port) us
  then Ok (f <| UpstreamDefaults := Some (map (fun u => if is_default addr port u then edit_default now actor b u else u) us) |>)
  else Err ("upstream " +:+ default_name addr port +:+ " not found").
Definition bury_default (now : Time) (actor : string) (u : UpstreamDefault) : UpstreamDefault :=
  u <| u_Deleted := true |> <| u_Enabled := false |> <| u_UpdatedAt := now |> <| u_UpdatedBy := actor |>.

Definition new_record (id : string) (b : recordBody) : StaticRecord :=
  {| r_ID := id; r_Name := b.(rb_Name); r_Type := ToUpper b.(rb_Type); r_Value := b.(rb_Value); r_TTL := b.(rb_TTL);
     r_DoNotSync := b.(rb_DoNotSync); r_SyncPeers := normalizePeerList b.(rb_SyncPeers);
     r_UpdatedAt := 0; r_UpdatedBy := ""; r_Deleted := false |}.
Definition edit_record (now : Time) (actor : string) (b : recordBody) (r : StaticRecord) : StaticRecord :=
  r <| r_Name := b.(rb_Name) |> <| r_Type := ToUpper b.(rb_Type) |> <| r_Value := b.(rb_Value) |> <| r_TTL := b.(rb_TTL) |>
    <| r_DoNotSync := b.(rb_DoNotSync) |>
    <| r_SyncPeers := if b.(rb_DoNotSync) then [] else normalizePeerList b.(rb_SyncPeers) |>
    <| r_UpdatedAt := now |> <| r_UpdatedBy := actor |>.
Definition bury_record (now : Time) (actor : string) (r : StaticRecord) : StaticRecord :=
  r <| r_Deleted := true |> <| r_UpdatedAt := now |> <| r_UpdatedBy := actor |>.

(** the peers are written in place: [mut_shared] is what the current configuration sees *)
Definition set_list (l : list Peer) (f : File) : File := f <| f_Peers := f.(f_Peers) <| List := l |> |>.
Definition is_peer (name : string) (p : Peer) : bool := (p.(p_Name) =? name)%string.

Definition add_peer (name url : string) (enabled : bool) (f : File) : result string File :=
  let l := f.(f_Peers).(List) in
  if existsb (is_peer name) l then Err ("peer " +:+ fmt_q name +:+ " already exists")
  else Ok (set_list (l ++ [{| p_Name := name; p_URL := url; p_Enabled := enabled; p_Status := noStatus |}]) f).

Definition edit_peer (b : peerBody) (p : Peer) : Peer :=
  p <| p_URL := if negb (b.(pb_URL) =? "")%string then b.(pb_URL) else p.(p_URL) |>
    <| p_Enabled := default p.(p_Enabled) b.(pb_Enabled) |>.
Definition mutate_update_peer (name : string) (b : peerBody) (f : File) : Mutated string :=
  let l := f.(f_Peers).(List) in
  let fail e := {| mut_draft := f; mut_err := Some e; mut_shared := l |} in
  match update_first (is_peer name) (edit_peer b) l with
  | None => fail ("peer " +:+ fmt_q name +:+ " not found")
  | Some l' =>
      let done_ := {| mut_draft := set_list l' f; mut_err := None; mut_shared := l' |} in
      if negb (b.(pb_URL) =? "")%string then
        match normalizePeer name b.(pb_URL) with Err e => fail e | Ok _ => done_ end
      else done_
  end.
(** [append(l[:i], l[i+1:]...)] moves the later peers down in the array; seen
    with its old length, its last element stays *)
Definition mutate_delete_peer (name : string) (f : File) : Mutated string :=
  let l := f.(f_Peers).(List) in
  match remove_first (is_peer name) l with
  | None => {| mut_draft := f; mut_err := Some ("peer " +:+ fmt_q name +:+ " not found"); mut_shared := l |}
  | Some l' => {| mut_draft := set_list l' f; mut_err := None; mut_shared := l' ++ drop (length l') l |}
  end.

(** ** The handlers *)

Section server.
Context `{Y : Yaml} `{D : DNSLib} (path outDir confName instance : string).
(** [audit.String]: the JSON of the settings, and of the name and URL of a peer *)
Context (json_settings : Settings -> string) (json_peer : string -> string -> string).

Definition save_app (io : ApiIO) (k : nat) (opts : SaveOptions string) (a : Node) : Node * result (SaveError string) File :=
  save_node path outDir confName instance (io.(api_saves) k).1 (io.(api_saves) k).2 opts a.

Definition audit_app (actor action details : string) (a : Node) : Node :=
  audit_node {| en_Time := 0; en_Actor := actor; en_Action := action; en_Details := details |} a.

Definition afterSave (io : ApiIO) (reason : string) (a : Node) : Node * Response :=
  let '(a, err) := apply_node outDir confName instance io.(api_apply) a in
  match err with
  | Some e => (a, http_error StatusInternalServerError ("saved but reload failed: " +:+ e))
  | None => (a, json (BOk reason))
  end.

(** what the saving handlers share: one Save, then an audit entry and the application *)
Definition save_and_apply (io : ApiIO) (opts : SaveOptions string) (action details reason : string) (a : Node) : Node * Response :=
  let '(a, r) := save_app io 0 opts a in
  match r with
  | Err e => (a, http_error StatusBadRequest (SaveError_text e))
  | Ok _ => afterSave io reason (audit_app opts.(Actor) action details a)
  end.

(** what the deleting handlers share: the tombstone is saved, then removed in a
    second Save whose failure is only logged *)
Definition delete_item (io : ApiIO) (actor : string) (bury remove : File -> result string File) (action details : string) (a : Node)
    : Node * Response :=
  let '(a, r) := save_app io 0 (on_draft actor bury) a in
  match r with
  | Err e => (a, http_error StatusBadRequest (SaveError_text e))
  | Ok _ =>
      let '(a, _) := save_app io 1 (on_draft actor remove) a in
      (audit_app actor action details a, json (BOk action))
  end.

Definition with_body {B} (prefix : string) (body : result string B) (a : Node) (k : B -> Node * Response) : Node * Response :=
  match body with Err msg => (a, http_error StatusBadRequest (prefix +:+ msg)) | Ok b => k b end.

Definition apiPutConfig (io : ApiIO) (hdr : string) (body : result string File) (a : Node) : Node * Response :=
  with_body "invalid json: " body a (fun body =>
    save_and_apply io (on_draft (actorOf hdr "api") (fun f => Ok (replace_config body f))) "config-replace" "" "config-replace" a).

Definition apiImport (io : ApiIO) (hdr : string) (form : result string string) (a : Node) : Node * Response :=
  with_body "" form a (fun data =>
    with_body "yaml parse: " (Unmarshal data) a (fun body =>
      save_and_apply io (on_draft (actorOf hdr "import") (fun f => Ok (replace_config body f))) "config-import" "" "import" a)).

Definition apiAddForwarder (io : ApiIO) (hdr : string) (body : result string forwarderBody) (a : Node) : Node * Response :=
  with_body "" body a (fun b =>
    let z := new_zone (newID io.(api_random)) b in
    save_and_apply io (on_draft (actorOf hdr "api") (fun f => Ok (f <| ForwardZones := f.(ForwardZones) ++ [z] |>)))
      "forwarder-add" z.(z_Name) "forwarder-add" a).

Definition apiUpdateForwarder (io : ApiIO) (hdr id : string) (body : result string forwarderBody) (a : Node) : Node * Response :=
  with_body "" body a (fun b =>
    let actor := actorOf hdr "api" in
    save_and_apply io
      (on_draft actor (fun f => with_zones ("forwarder " +:+ id +:+ " not found")
         (update_first (has_zone_id id) (edit_zone io.(api_now) actor b) f.(ForwardZones)) f))
      "forwarder-update" id "forwarder-update" a).

Definition apiDeleteForwarder (io : ApiIO) (hdr id : string) (a : Node) : Node * Response :=
  let actor := actorOf hdr "api" in
  delete_item io actor
    (fun f => with_zones ("forwarder " +:+ id +:+ " not found")
       (update_first (has_zone_id id) (bury_zone io.(api_now) actor) f.(ForwardZones)) f)
    (fun f => Ok (f <| ForwardZones := default f.(ForwardZones) (remove_first (has_zone_id id) f.(ForwardZones)) |>))
    "forwarder-delete" id a.

Definition apiAddDefault (io : ApiIO) (hdr : string) (body : result string defaultBody) (a : Node) : Node * Response :=
  with_body "" body a (fun b =>
    let u := new_default b in
    save_and_apply io (on_draft (actorOf hdr "api") (add_default u)) "default-add" (UpstreamDefault_String u) "default-add" a).

(** the verb [%v] on a list of strings *)
Definition fmt_v (l : list string) : string := "[" +:+ Join l " " +:+ "]".

Definition apiUpdateDefault (io : ApiIO) (hdr addr portStr : string) (body : result string defaultBody) (a : Node) : Node * Response :=
  let port := (Atoi portStr).1 in
  with_body "" body a (fun b =>
    let actor := actorOf hdr "api" in
    save_and_apply io (on_draft actor (edit_defaults io.(api_now) actor addr port b))
      "default-update" (default_name addr port +:+ " peers=" +:+ fmt_v b.(db_SyncPeers)) "default-update" a).

Definition apiDeleteDefault (io : ApiIO) (hdr addr portStr : string) (a : Node) : Node * Response :=
  let port := (Atoi portStr).1 in
  let actor := actorOf hdr "api" in
  delete_item io actor
    (fun f => with_defaults ("upstream " +:+ default_name addr port +:+ " not found")
       (update_first (is_default addr port) (bury_default io.(api_now) actor) (elems f.(UpstreamDefaults))) f)
    (fun f => Ok (match remove_first (is_default addr port) (elems f.(UpstreamDefaults)) with
                  | Some us => f <| UpstreamDefaults := Some us |>
                  | None => f
                  end))
    "default-delete" (default_name addr port) a.

Definition apiAddRecord (io : ApiIO) (hdr : string) (body : result string recordBody) (a : Node) : Node * Response :=
  with_body "" body a (fun b =>
    let r := new_record (newID io.(api_random)) b in
    save_and_apply io (on_draft (actorOf hdr "api") (fun f => Ok (f <| StaticRecords := f.(StaticRecords) ++ [r] |>)))
      "record-add" (r.(r_Name) +:+ " " +:+ r.(r_Type)) "record-add" a).

Definition apiUpdateRecord (io : ApiIO) (hdr id : string) (body : result string recordBody) (a : Node) : Node * Response :=
  with_body "" body a (fun b =>
    let actor := actorOf hdr "api" in
    save_and_apply io
      (on_draft actor (fun f => with_records ("record " +:+ id +:+ " not found")
         (update_first (has_record_id id) (edit_record io.(api_now) actor b) f.(StaticRecords)) f))
      "record-update" id "record-update" a).

Definition apiDeleteRecord (io : ApiIO) (hdr id : string) (a : Node) : Node * Response :=
  let actor := actorOf hdr "api" in
  delete_item io actor
    (fun f => with_records ("record " +:+ id +:+ " not found")
       (update_first (has_record_id id) (bury_record io.(api_now) actor) f.(StaticRecords)) f)
    (fun f => Ok (f <| StaticRecords := default f.(StaticRecords) (remove_first (has_record_id id) f.(StaticRecords)) |>))
    "record-delete" id a.

Definition apiPutSettings (io : ApiIO) (hdr : string) (body : result string Settings) (a : Node) : Node * Response :=
  with_body "" body a (fun b =>
    save_and_apply io (on_draft (actorOf hdr "api") (fun f => Ok (f <| f_Settings := Settings_WithDefaults b |>)))
      "settings-update" (json_settings b) "settings-update" a).

(** ** The sync partners *)

(** the three handlers save without applying *)
Definition save_only (io : ApiIO) (opts : SaveOptions string) (action details : string) (body : Body) (a : Node) : Node * Response :=
  let '(a, r) := save_app io 0 opts a in
  match r with
  | Err e => (a, http_error StatusBadRequest (SaveError_text e))
  | Ok _ => (audit_app opts.(Actor) action details a, json body)
  end.

Definition apiAddPeer (io : ApiIO) (hdr : string) (body : result string peerBody) (a : Node) : Node * Response :=
  with_body "invalid json: " body a (fun b =>
    match normalizePeer b.(pb_Name) b.(pb_URL) with
    | Err e => (a, http_error StatusBadRequest e)
    | Ok (name, url) =>
        save_only io (on_draft (actorOf hdr "api") (add_peer name url (default true b.(pb_Enabled))))
          "peer-add" (json_peer name url) (BOkName name) a
    end).

Definition apiUpdatePeer (io : ApiIO) (hdr name : string) (body : result string peerBody) (a : Node) : Node * Response :=
  with_body "invalid json: " body a (fun b =>
    save_only io {| Actor := actorOf hdr "api"; Mutate := Some (mutate_update_peer name b) |} "peer-update" name BOkOnly a).

Definition apiDeletePeer (io : ApiIO) (hdr name : string) (a : Node) : Node * Response :=
  save_only io {| Actor := actorOf hdr "api"; Mutate := Some (mutate_delete_peer name) |} "peer-delete" name BOkOnly a.

Definition apiSyncPeer (hdr name : string) (a : Node) : Node * Response :=
  match cur_of a with
  | None => (a, http_error StatusServiceUnavailable "no config")
  | Some cur =>
      if existsb (is_peer name) cur.(f_Peers).(List)
      then (audit_app (actorOf hdr "api") "peer-sync-request" name a,
            json (BMessage "sync engine not yet enabled in this build (peer CRUD is wired up; networking will follow)"))
      else (a, http_error StatusNotFound "peer not found")
  end.

(** the row of a peer: its live status, whether there is a key, and its length *)
Definition status_row (cur : File) (st : gmap string PeerStatusUpdate) (p : Peer) : Peer * bool * Z :=
  let u := GetPeerStatus p.(p_Name) st in
  let ps := p.(p_Status) in
  let ps := if negb (IsZero u.(su_At))
            then ps <| LastContact := u.(su_At) |> <| LastError := u.(su_LastError) |> <| LastAction := u.(su_LastAction) |>
            else ps in
  let psk := cur.(f_Peers).(SharedKey) in
  (p <| p_Status := ps |>, negb (psk =? "")%string, len psk).
Definition apiPeersStatus (a : Node) : Response :=
  match cur_of a with
  | None => http_error StatusServiceUnavailable "no config"
  | Some cur => json (BPeersStatus instance cur.(f_Peers).(Listen) cur.(f_Peers).(SyncIntervalSeconds)
                        (map (status_row cur a.(n_status)) cur.(f_Peers).(List)))
  end.

(** ** Reading *)

Definition reading (a : Node) (msg : string) (k : File -> Body) : Response :=
  match cur_of a with
  | None => http_error StatusServiceUnavailable msg
  | Some cur => json (k cur)
  end.

Definition apiGetConfig (a : Node) : Response := reading a "no config loaded" (fun cur => BConfig (Snapshot cur)).
Definition apiListForwarders (a : Node) : Response :=
  reading a "no config" (fun cur => BZones (List.filter (fun z => negb z.(z_Deleted)) (Snapshot cur).(ForwardZones))).
Definition apiListDefaults (a : Node) : Response :=
  reading a "no config" (fun cur => BDefaults (List.filter (fun u => negb u.(u_Deleted)) (elems (Snapshot cur).(UpstreamDefaults)))).
Definition apiListRecords (a : Node) : Response :=
  reading a "no config" (fun cur => BRecords (List.filter (fun r => negb r.(r_Deleted)) (Snapshot cur).(StaticRecords))).
Definition apiGetSettings (a : Node) : Response := reading a "no config" (fun cur => BSettings (Snapshot cur).(f_Settings)).
Definition apiListPeers (a : Node) : Response :=
  reading a "no config" (fun cur => BPeers ((Snapshot cur).(f_Peers) <| SharedKey := "" |>)).

Definition apiStatus (a : Node) : Response :=
  let '(lastOK, lastErr) := Status a.(n_watcher) in
  let h := a.(n_store).(hash) in
  json match cur_of a with
       | Some cur => BStatus instance h lastOK lastErr cur.(Version) cur.(Updated) cur.(UpdatedBy)
       | None => BStatus instance h lastOK lastErr 0 0 ""
       end.
Definition apiHealthz (a : Node) : Response :=
  match cur_of a with
  | None => http_error StatusServiceUnavailable "no config"
  | Some _ =>
      let lastErr := (Status a.(n_watcher)).2 in
      if negb (lastErr =? "")%string then http_error StatusServiceUnavailable ("config error: " +:+ lastErr)
      else json (BPlain "ok")
  end.
(** the newest two hundred entries of the log file *)
Definition apiAudit `{EntryCodec} (read : option string) (log : option string) : Response :=
  match Tail 200 read log with Err msg => http_error StatusInternalServerError msg | Ok es => json (BAuditLog es) end.

Definition secrets_comment : string :=
  concat_str (map (fun l => l +:+ str1 NL)
    ["# WARNING: This export contains the peer preshared key and other sensitive data.";
     "# Treat the file as confidential. Do NOT commit to source control."]).
Definition redacted_comment : string :=
  concat_str (map (fun l => l +:+ str1 NL)
    ["# NOTE: Sensitive values (peer preshared key) have been redacted.";
     "# Re-importing this file on another instance will require that you set";
     "# peers.shared_key (or PEER_SHARED_KEY / PEER_SHARED_KEY_FILE) there.";
     "# To export with secrets included, append ?secrets=1 to the request."]).
Definition apiExport (secrets : string) (a : Node) : Response :=
  reading a "no config" (fun cur =>
    let snap := Snapshot cur in
    if (secrets =? "1")%string then BExport secrets_comment snap
    else BExport redacted_comment (snap <| f_Peers := snap.(f_Peers) <| SharedKey := "" |> |>)).

(** ** The test query *)

(** the address of our own unbound *)
Definition own_address (cur : File) : string :=
  let '(host, port) :=
    match SplitHostPort cur.(f_Settings).(DNSListen) with
    | Some (h, p) => (h, Sscanf_d p 53)
    | None => ("127.0.0.1", 53)
    end in
  let host := if (host =? "")%string || (host =? "0.0.0.0")%string || (host =? "::")%string then "127.0.0.1" else host in
  host +:+ ":" +:+ fmt_d port.

Definition apiTest (exchange : string -> Z -> string -> result string Reply) (body : result string testBody) (a : Node)
    : Response :=
  match body with
  | Err msg => http_error StatusBadRequest msg
  | Ok b =>
      if (b.(tb_Name) =? "")%string then http_error StatusBadRequest "name is required"
      else
        let qtype := if (b.(tb_Qtype) =? "")%string then "A" else b.(tb_Qtype) in
        match cur_of a with
        | None => http_error StatusServiceUnavailable "no config"
        | Some cur =>
            let upstream := if (b.(tb_Upstream) =? "")%string then own_address cur else b.(tb_Upstream) in
            match TestResolve exchange b.(tb_Name) qtype upstream with
            | Err msg => http_error StatusBadGateway msg
            | Ok t => json (BTest t)
            end
        end
  end.
End server.

(** ** The calls that change the configuration, as the router dispatches them *)

Inductive ApiCall :=
  | PutConfig (body : result string File)
  | Import (form : result string string)
  | AddForwarder (body : result string forwarderBody)
  | UpdateForwarder (id : string) (body : result string forwarderBody)
  | DeleteForwarder (id : string)
  | AddDefault (body : result string defaultBody)
  | UpdateDefault (addr port : string) (body : result string defaultBody)
  | DeleteDefault (addr port : string)
  | AddRecord (body : result string recordBody)
  | UpdateRecord (id : string) (body : result string recordBody)
  | DeleteRecord (id : string)
  | PutSettings (body : result string Settings)
  | AddPeer (body : result string peerBody)
  | UpdatePeer (name : string) (body : result string peerBody)
  | DeletePeer (name : string)
  | SyncPeer (name : string).

Section router.
Context `{Y : Yaml} `{D : DNSLib} (path outDir confName instance : string).
Context (json_settings : Settings -> string) (json_peer : string -> string -> string).

(** one request with its [X-Actor] header *)
Definition run_call (io : ApiIO) (hdr : string) (c : ApiCall) (a : Node) : Node * Response :=
  match c with
  | PutConfig body => apiPutConfig path outDir confName instance io hdr body a
  | Import form => apiImport path outDir confName instance io hdr form a
  | AddForwarder body => apiAddForwarder path outDir confName instance io hdr body a
  | UpdateForwarder id body => apiUpdateForwarder path outDir confName instance io hdr id body a
  | DeleteForwarder id => apiDeleteForwarder path outDir confName instance io hdr id a
  | AddDefault body => apiAddDefault path outDir confName instance io hdr body a
  | UpdateDefault addr port body => apiUpdateDefault path outDir confName instance io hdr addr port body a
  | DeleteDefault addr port => apiDeleteDefault path outDir confName instance io hdr addr port a
  | AddRecord body => apiAddRecord path outDir confName instance io hdr body a
  | UpdateRecord id body => apiUpdateRecord path outDir confName instance io hdr id body a
  | DeleteRecord id => apiDeleteRecord path outDir confName instance io hdr id a
  | PutSettings body => apiPutSettings path outDir confName instance json_settings io hdr body a
  | AddPeer body => apiAddPeer path outDir confName instance json_peer io hdr body a
  | UpdatePeer name body => apiUpdatePeer path outDir confName instance io hdr name body a
  | DeletePeer name => apiDeletePeer path outDir confName instance io hdr name a
  | SyncPeer name => apiSyncPeer hdr name a
  end.
End router.
