(* ===== verification/Router.v ===== *)
(** The HTTP front of internal/server/server.go: the table of [Router], the
    dispatch of a request to its handler, and the pages with the data their
    templates get.  chi's matching, JSON decoding and the templates' text are
    parameters. *)
From S2P Require Import Prelude GoStrings GoTime Config Validate Sync Store Generate Resolve AuditLog.
From S2P Require Import PeerListener PeerClient Watcher Daemon Server.

(** ** The pages *)

Record statusView := { sv_LastOK : Time; sv_LastErr : string; sv_Hash : string; sv_Version : Z }.
Definition noStatusView : statusView := {| sv_LastOK := 0; sv_LastErr := ""; sv_Hash := ""; sv_Version := 0 |}.
Record pageData := {
  pd_Title : string;
  pd_Instance : string;
  pd_Config : option File;
  pd_Status : statusView;
  pd_Active : string;
}.
#[export] Instance page_settable : Settable pageData := fun p =>
  {| pd_Title := p.(pd_Title); pd_Instance := p.(pd_Instance); pd_Config := p.(pd_Config);
     pd_Status := p.(pd_Status); pd_Active := p.(pd_Active) |}.

(** [Server.statusView] *)
Definition status_view (n : Node) : statusView :=
  let '(lastOK, lastErr) := Status n.(n_watcher) in
  {| sv_LastOK := lastOK; sv_LastErr := lastErr; sv_Hash := n.(n_store).(hash);
     sv_Version := match cur_of n with Some cur => cur.(Version) | None => 0 end |}.

(** the template sets that [New] parses *)
Definition pages : list (string * list string) :=
  map (fun name => (name, ["base.html"; name]))
    ["dashboard.html"; "forwarders.html"; "records.html"; "settings.html"; "sync_partners.html";
     "import_export.html"; "audit.html"].

(** [New]: the error of the first directory that is not in the assets, or of a page
    that does not parse (the source goes through the pages in any order) *)
Definition New (sub : string -> option string) (parseFS : list string -> option string) : option string :=
  match sub "web/static" with
  | Some err => Some err
  | None =>
      match sub "web/templates" with
      | Some err => Some err
      | None => foldr (fun p err => match parseFS p.2 with Some e => Some e | None => err end) None pages
      end
  end.

(** a page: the template that is executed and its data, or the error *)
Inductive Page := Rendered (template : string) (files : list string) (pd : pageData) | NoTemplate (msg : string).

Definition render (instance name : string) (pd : pageData) (n : Node) : Page :=
  let pd := if (pd.(pd_Instance) =? "")%string then pd <| pd_Instance := instance |> else pd in
  let pd := if (pd.(pd_Status).(sv_Hash) =? "")%string && negb (n.(n_store).(hash) =? "")%string
            then pd <| pd_Status := status_view n |> else pd in
  let pd := match pd.(pd_Config) with
            | None => match cur_of n with Some cur => pd <| pd_Config := Some (Snapshot cur) |> | None => pd end
            | Some _ => pd
            end in
  match List.find (fun p => (p.1 =? name)%string) pages with
  | None => NoTemplate ("no template for " +:+ name)
  | Some (t, files) => Rendered t files pd
  end.

Inductive PageHandler :=
  | handleDashboard | handleForwardersPage | handleRecordsPage | handleSettingsPage
  | handleImportExportPage | handleAuditPage | handleSyncPartnersPage.
(** the template, the title and the active entry that each handler passes *)
Definition page_args (h : PageHandler) : string * string * string :=
  match h with
  | handleDashboard => ("dashboard.html", "Dashboard", "dashboard")
  | handleForwardersPage => ("forwarders.html", "Forwarders", "forwarders")
  | handleRecordsPage => ("records.html", "Static Records", "records")
  | handleSettingsPage => ("settings.html", "Settings", "settings")
  | handleImportExportPage => ("import_export.html", "Import / Export", "import")
  | handleAuditPage => ("audit.html", "Audit", "audit")
  | handleSyncPartnersPage => ("sync_partners.html", "Sync Partners", "sync")
  end.
Definition handle_page (instance : string) (h : PageHandler) (n : Node) : Page :=
  let '(name, title, active) := page_args h in
  render instance name
    {| pd_Title := title; pd_Instance := ""; pd_Config := None; pd_Status := noStatusView; pd_Active := active |} n.

(** ** The routes *)

Inductive Verb := VGet | VPost | VPut | VPatch | VDelete.
#[export] Instance verb_eq : EqDecision Verb. Proof. solve_decision. Defined.

Inductive Handler :=
  | HStatic
  | HPage (h : PageHandler)
  | HStatus | HGetConfig | HPutConfig
  | HListForwarders | HAddForwarder | HUpdateForwarder | HDeleteForwarder
  | HListDefaults | HAddDefault | HUpdateDefault | HDeleteDefault
  | HListRecords | HAddRecord | HUpdateRecord | HDeleteRecord
  | HGetSettings | HPutSettings
  | HListPeers | HAddPeer | HUpdatePeer | HDeletePeer | HSyncPeer | HPeersStatus
  | HExport | HImport | HAudit | HTest | HHealthz.

(** [r.Handle] takes every method: [None] *)
Definition routes : list (option Verb * string * Handler) := [
  (None, "/static/*", HStatic);
  (Some VGet, "/", HPage handleDashboard);
  (Some VGet, "/forwarders", HPage handleForwardersPage);
  (Some VGet, "/records", HPage handleRecordsPage);
  (Some VGet, "/settings", HPage handleSettingsPage);
  (Some VGet, "/sync-partners", HPage handleSyncPartnersPage);
  (Some VGet, "/import-export", HPage handleImportExportPage);
  (Some VGet, "/audit", HPage handleAuditPage);
  (Some VGet, "/api/status", HStatus);
  (Some VGet, "/api/config", HGetConfig);
  (Some VPut, "/api/config", HPutConfig);
  (Some VGet, "/api/forwarders", HListForwarders);
  (Some VPost, "/api/forwarders", HAddForwarder);
  (Some VPut, "/api/forwarders/{id}", HUpdateForwarder);
  (Some VDelete, "/api/forwarders/{id}", HDeleteForwarder);
  (Some VGet, "/api/defaults", HListDefaults);
  (Some VPost, "/api/defaults", HAddDefault);
  (Some VPatch, "/api/defaults/{addr}/{port}", HUpdateDefault);
  (Some VDelete, "/api/defaults/{addr}/{port}", HDeleteDefault);
  (Some VGet, "/api/records", HListRecords);
  (Some VPost, "/api/records", HAddRecord);
  (Some VPut, "/api/records/{id}", HUpdateRecord);
  (Some VDelete, "/api/records/{id}", HDeleteRecord);
  (Some VGet, "/api/settings", HGetSettings);
  (Some VPut, "/api/settings", HPutSettings);
  (Some VGet, "/api/peers", HListPeers);
  (Some VPost, "/api/peers", HAddPeer);
  (Some VPut, "/api/peers/{name}", HUpdatePeer);
  (Some VDelete, "/api/peers/{name}", HDeletePeer);
  (Some VPost, "/api/peers/{name}/sync", HSyncPeer);
  (Some VGet, "/api/peers/status", HPeersStatus);
  (Some VGet, "/api/export", HExport);
  (Some VPost, "/api/import", HImport);
  (Some VGet, "/api/audit", HAudit);
  (Some VPost, "/api/test", HTest);
  (Some VGet, "/api/healthz", HHealthz)].

(** ** Dispatch *)

(** chi: the route a request takes, by its position in the table, with the
    values of the parameters in its pattern *)
Class Chi := {
  chi_route : list (option Verb * string) -> Verb -> string -> option (nat * (string -> string));
}.
(** a request only takes a route that is registered for its method *)
Class ChiLaws (C : Chi) := {
  chi_route_method rs v p i ps :
    chi_route rs v p = Some (i, ps) -> exists m pat, rs !! i = Some (m, pat) /\ (m = None \/ m = Some v);
}.

(** encoding/json on the request bodies *)
Class JSONBodies := {
  json_file : string -> result string File;
  json_forwarder : string -> result string forwarderBody;
  json_default : string -> result string defaultBody;
  json_record : string -> result string recordBody;
  json_settings_body : string -> result string Settings;
  json_peer_body : string -> result string peerBody;
  json_test : string -> result string testBody;
}.

(** a request: method, path, [X-Actor] header, the [secrets] parameter, the body
    and the uploaded file *)
Record HttpRequest := {
  rq_verb : Verb;
  rq_path : string;
  rq_actor : string;
  rq_secrets : string;
  rq_body : string;
  rq_form : result string string;
}.
Inductive HttpResponse := RApi (r : Response) | RPage (p : Page) | RStatic (path : string) | RNoRoute.

Section dispatch.
Context `{Y : Yaml} `{D : DNSLib} `{C : Chi} `{J : JSONBodies} `{EC : EntryCodec}.
Context (path outDir confName instance : string).
Context (json_settings : Settings -> string) (json_peer : string -> string -> string).
(** what the read of the log file and the exchange of a test query meet *)
Context (log_fault log : option string) (exchange : string -> Z -> string -> result string Reply).

(** the state-changing call of a handler *)
Definition call_of (h : Handler) (rq : HttpRequest) (param : string -> string) : option ApiCall :=
  match h with
  | HPutConfig => Some (PutConfig (json_file rq.(rq_body)))
  | HImport => Some (Import rq.(rq_form))
  | HAddForwarder => Some (AddForwarder (json_forwarder rq.(rq_body)))
  | HUpdateForwarder => Some (UpdateForwarder (param "id") (json_forwarder rq.(rq_body)))
  | HDeleteForwarder => Some (DeleteForwarder (param "id"))
  | HAddDefault => Some (AddDefault (json_default rq.(rq_body)))
  | HUpdateDefault => Some (UpdateDefault (param "addr") (param "port") (json_default rq.(rq_body)))
  | HDeleteDefault => Some (DeleteDefault (param "addr") (param "port"))
  | HAddRecord => Some (AddRecord (json_record rq.(rq_body)))
  | HUpdateRecord => Some (UpdateRecord (param "id") (json_record rq.(rq_body)))
  | HDeleteRecord => Some (DeleteRecord (param "id"))
  | HPutSettings => Some (PutSettings (json_settings_body rq.(rq_body)))
  | HAddPeer => Some (AddPeer (json_peer_body rq.(rq_body)))
  | HUpdatePeer => Some (UpdatePeer (param "name") (json_peer_body rq.(rq_body)))
  | HDeletePeer => Some (DeletePeer (param "name"))
  | HSyncPeer => Some (SyncPeer (param "name"))
  | _ => None
  end.

(** the response of a handler that only reads *)
Definition read_of (h : Handler) (rq : HttpRequest) (n : Node) : HttpResponse :=
  match h with
  | HPage p => RPage (handle_page instance p n)
  | HStatic => RStatic (TrimPrefix rq.(rq_path) "/static/")
  | HStatus => RApi (apiStatus instance n)
  | HGetConfig => RApi (apiGetConfig n)
  | HListForwarders => RApi (apiListForwarders n)
  | HListDefaults => RApi (apiListDefaults n)
  | HListRecords => RApi (apiListRecords n)
  | HGetSettings => RApi (apiGetSettings n)
  | HListPeers => RApi (apiListPeers n)
  | HPeersStatus => RApi (apiPeersStatus instance n)
  | HExport => RApi (apiExport rq.(rq_secrets) n)
  | HAudit => RApi (apiAudit log_fault log)
  | HTest => RApi (apiTest exchange (json_test rq.(rq_body)) n)
  | HHealthz => RApi (apiHealthz n)
  | _ => RNoRoute
  end.

Definition dispatch (io : ApiIO) (rq : HttpRequest) (n : Node) : Node * HttpResponse :=
  match chi_route (map fst routes) rq.(rq_verb) rq.(rq_path) with
  | None => (n, RNoRoute)
  | Some (i, param) =>
      match routes !! i with
      | None => (n, RNoRoute)
      | Some (_, _, h) =>
          match call_of h rq param with
          | Some c =>
              let '(n, r) := run_call path outDir confName instance json_settings json_peer io rq.(rq_actor) c n in
              (n, RApi r)
          | None => (n, read_of h rq n)
          end
      end
  end.
End dispatch.
