(* ===== verification/System.v ===== *)
(** The whole process: [main] of cmd/dnsforwarderd/main.go up to the point where
    everything runs, and then the steps of its goroutines, in any order: the
    HTTP API, the watcher, the peer listener, the pull loops, the proxy, and
    whoever else writes the configuration file. *)
From S2P Require Import Prelude GoStrings GoTime Config Validate Sync Store Generate Resolve Ping Proxy AuditLog.
From S2P Require Import PeerListener PeerClient Watcher Daemon Server.

Section system.
Context `{Y : Yaml} `{D : DNSLib} (path outDir confName instance : string) (env : Env).

(** ** Starting *)

Record BootIO := {
  bo_load : LoadIO;
  bo_probes : nat -> Probe;
  bo_bind : option string;
}.

(** the process when [main] has started everything, and whether peer sync is up;
    a failed [Load] is only logged *)
Definition main (io : BootIO) (fs : FS) : Node * bool :=
  let '(fs, (s, _)) := Load path env io.(bo_load) fs NewStore in
  let px := Start Fqdn s.(current) New in
  let w := SetProxy io.(bo_probes) s.(current) (Some px) NewWatcher in
  startPeerListenerAndClient io.(bo_bind)
    {| n_fs := fs; n_store := s; n_watcher := w; n_client := NewClient; n_status := ∅; n_audit := []; n_events := [] |}.

(** ** Running *)

(** the watcher's goroutine: its first application, [None] when it gives up *)
Definition watcher_run (io : ApplyIO) (n : Node) : option Node :=
  match Run_start outDir confName instance io n.(n_fs) n.(n_store) n.(n_watcher) with
  | None => None
  | Some (fs, w, log, _) => Some (n <| n_fs := fs |> <| n_watcher := w |> <| n_audit := n.(n_audit) ++ log |>)
  end.
(** one tick of its poll *)
Definition watcher_tick (fault : option string) (io : ApplyIO) (n : Node) : Node :=
  let '(fs, s, w, log) := tick outDir confName instance path env fault io n.(n_fs) n.(n_store) n.(n_watcher) in
  n <| n_fs := fs |> <| n_store := s |> <| n_watcher := w |> <| n_audit := n.(n_audit) ++ log |>.

(** one pass of the proxy's own loop *)
Definition proxy_pass (now : Time) (probes : nat -> Probe) (n : Node) : Node :=
  n <| n_watcher := n.(n_watcher) <| proxy := runProbePass Fqdn n.(n_store).(current) now probes <$> n.(n_watcher).(proxy) |> |>.

(** another process, or an editor, writes the configuration file *)
Definition edit (data : string) (n : Node) : Node := n <| n_fs := <[path := data]> n.(n_fs) |>.

Context `{U : URLs} (json_settings : Settings -> string) (json_peer : string -> string -> string).

(** The goroutines' work in whole steps (a call with its Saves and their hooks, a
    push with its retries, a pull), and what shows when two of them overlap.
    No lock keeps two applications apart, nor a poll from a Save: between two steps
    an application that is still running may have done anything to unbound's two
    files, to the watcher and to the log ([sys_overlap]; [Host] has its steps), and
    a poll that has read the file earlier, whatever it then had, may put what it
    has read in memory ([sys_late_poll]; [Concurrent] has its steps and those of
    a Save). *)
Inductive sys_step : Node -> Node -> Prop :=
  | sys_call io hdr c n :
      sys_step n (run_call path outDir confName instance json_settings json_peer io hdr c n).1
  | sys_run io n n' : watcher_run io n = Some n' -> sys_step n n'
  | sys_tick fault io n : sys_step n (watcher_tick fault io n)
  | sys_request cur ios preview mark now r n :
      sys_step n (serve (listener_config path outDir confName instance cur ios preview mark) now r n).1
  | sys_pull cur ios mark now tp peer n :
      sys_step n (pull (client_ops path outDir confName instance cur ios mark) now tp peer n)
  | sys_pushed entries n : sys_step n (foldl (fun n e => audit_node e n) n entries)
  | sys_proxy now probes n : sys_step n (proxy_pass now probes n)
  | sys_edit data n : sys_step n (edit data n)
  | sys_overlap fs w log n :
      (forall p, p <> final outDir confName -> p <> final outDir confName +:+ ".tmp" -> fs !! p = n.(n_fs) !! p) ->
      sys_step n (n <| n_fs := fs |> <| n_watcher := w |> <| n_audit := n.(n_audit) ++ log |>)
  | sys_late_poll data g f n :
      Unmarshal data = Ok g -> Validate (SeedFromEnv env g) = Ok f ->
      sys_step n (n <| n_store := setCurrent f (content_hash data) n.(n_store) |>).

Definition running (fs0 : FS) (n : Node) : Prop := exists io, rtc sys_step (main io fs0).1 n.
End system.
