(* ===== verification/Samples.v ===== *)
(** Concrete configurations on which the witnesses evaluate the model. *)
From S2P Require Import Prelude GoStrings GoTime Config Validate Sync Store Resolve.

Definition ex_default (addr : string) (port : Z) (t : Time) : UpstreamDefault :=
  {| u_Address := addr; u_Port := port; u_Enabled := true; u_Note := "";
     u_DoNotSync := false; u_SyncPeers := []; u_UpdatedAt := t; u_UpdatedBy := "api"; u_Deleted := false |}.
Definition ex_zone (id name : string) (t : Time) : ForwardZone :=
  {| z_ID := id; z_Name := name; z_Wildcard := false; z_Upstreams := ["10.0.0.4"];
     z_LeastLatency := false; z_LatencyTestFrequency := 0; z_DoNotSync := false; z_SyncPeers := [];
     z_UpdatedAt := t; z_UpdatedBy := "api"; z_Deleted := false |}.
Definition ex_record (id name value : string) (t : Time) : StaticRecord :=
  {| r_ID := id; r_Name := name; r_Type := "A"; r_Value := value; r_TTL := 300;
     r_DoNotSync := false; r_SyncPeers := []; r_UpdatedAt := t; r_UpdatedBy := "api"; r_Deleted := false |}.

Definition ex_settings : Settings :=
  {| CacheSize := 1000; DNSSEC := false; LogQueries := false; HTTPListen := "0.0.0.0:80";
     DNSListen := "0.0.0.0:53"; PollSeconds := 10 |}.
Definition ex_peer (name : string) : Peer :=
  {| p_Name := name; p_URL := "https://" +:+ name +:+ ":8443"; p_Enabled := true;
     p_Status := {| LastContact := 0; LastSeq := 0; LastError := ""; LastAction := "" |} |}.
Definition ex_peers (l : list Peer) : Peers :=
  {| Listen := "0.0.0.0:8443"; SharedKey := "secret"; SyncIntervalSeconds := 300;
     ClockSkewSeconds := 300; List := l |}.

Definition ex_file (us : option (list UpstreamDefault)) (zs : list ForwardZone) (rs : list StaticRecord) : File :=
  {| Version := 1; Updated := 100; UpdatedBy := "api"; f_Settings := ex_settings;
     f_Peers := ex_peers []; UpstreamDefaults := us; ForwardZones := zs; StaticRecords := rs;
     DoNotSyncSettings := false |}.
Definition ex_envelope (us : list UpstreamDefault) (zs : list ForwardZone) (rs : list StaticRecord) : Envelope :=
  {| e_InstanceID := "peer-a"; e_FromSeq := 0; e_ServerTime := 50; e_UpstreamDefaults := us;
     e_ForwardZones := zs; e_StaticRecords := rs; e_Settings := None |}.

(** ** A yaml library for finitely many files *)

#[export] Instance settings_eq : EqDecision Settings. Proof. solve_decision. Defined.
#[export] Instance peerstatus_eq : EqDecision PeerStatus. Proof. solve_decision. Defined.
#[export] Instance peer_eq : EqDecision Peer. Proof. solve_decision. Defined.
#[export] Instance peers_eq : EqDecision Peers. Proof. solve_decision. Defined.
#[export] Instance upstream_eq : EqDecision UpstreamDefault. Proof. solve_decision. Defined.
#[export] Instance zone_eq : EqDecision ForwardZone. Proof. solve_decision. Defined.
#[export] Instance record_eq : EqDecision StaticRecord. Proof. solve_decision. Defined.
#[export] Instance file_eq : EqDecision File. Proof. solve_decision. Defined.

(** the [i]-th file of the table is written as [i] letters *)
Fixpoint unary (n : nat) : string := match n with O => EmptyString | S n => String "x" (unary n) end.
Fixpoint position {A} `{EqDecision A} (f : A) (l : list A) : option nat :=
  match l with
  | [] => None
  | g :: l => if decide (f = g) then Some O else S <$> position f l
  end.
Definition table_yaml (l : list File) : Yaml := {|
  Marshal f := match position f l with Some i => Ok (unary i) | None => Err "not in the table" end;
  Unmarshal d := match l !! String.length d with Some f => Ok (persisted f) | None => Err "not in the table" end;
|}.

Lemma unary_length n : String.length (unary n) = n.
Proof. induction n; simpl; congruence. Qed.
Lemma position_lookup {A} `{EqDecision A} (f : A) l : forall i, position f l = Some i -> l !! i = Some f.
Proof.
  induction l as [|g l IH]; intros i; simpl; [done|]. destruct (decide (f = g)) as [->|]; [by intros [= <-]|].
  destruct (position f l) as [j|]; [|done]. simpl. intros [= <-]. by apply IH.
Qed.
#[export] Instance table_yaml_laws l : YamlLaws (table_yaml l).
Proof.
  constructor. intros f data _. simpl. destruct (position f l) as [i|] eqn:Hi; [|done].
  intros [= <-]. by rewrite unary_length, (position_lookup _ _ _ Hi).
Qed.

(** a DNS library that knows two types *)
#[export] Instance ex_dns : DNSLib := {|
  Fqdn n := if HasSuffix n "." then n else n +:+ ".";
  StringToType t := if (t =? "A")%string then Some 1 else if (t =? "AAAA")%string then Some 28 else None;
  TypeToString t := if t =? 1 then "A" else "AAAA";
|}.

(** a system where every call succeeds *)
Definition fine_load (t : Time) : LoadIO :=
  {| li_read := None; li_mkdir := None; li_write := Written; li_default_now := t; li_now := t |}.
Definition fine_save (t : Time) : SaveIO :=
  {| si_mkdir := None; si_open := None; si_flock := FlockOk; si_write := Written; si_rename := None;
     si_unlock := None; si_default_now := t; si_now := t; si_stamp_now := t |}.
Definition no_env : Env := {| LookupEnv := fun _ => None; readKeyFile := fun _ => None |}.

(** a callback that only changes the draft *)
Definition mutate_by (actor : string) (m : File -> File) : SaveOptions string :=
  {| Actor := actor;
     Mutate := Some (fun f => {| mut_draft := m f; mut_err := None; mut_shared := f.(f_Peers).(List) |}) |}.
