(* ===== verification/ConfigProps.v ===== *)
(** The properties of internal/config/config.go: what Validate accepts and
    returns, the bounds it establishes, the grammar of names, and the places
    where its checks are weaker than its comments. *)
From S2P Require Import Prelude GoStrings Regex GoTime Config Validate Names ValidateSpec Sync Samples.

(** ** Properties *)

(** C4. Validate accepts exactly the files of the specification [ValidFile]
    (every check of its three loops, duplicates and the route rule included)
    and returns the file with its defaults filled in, everything else as it was. *)
Theorem Validate_exact f f' : Validate f = Ok f' <-> ValidFile f /\ f' = normalise f.
Proof. apply Validate_iff. Qed.

(** Validating a validated file accepts it and changes nothing more. *)
Theorem Validate_stable f f' : Validate f = Ok f' -> Validate f' = Ok f'.
Proof.
  rewrite !Validate_iff. intros [Hv ->]. split; [by apply ValidFile_normalise|].
  by rewrite normalise_idem.
Qed.

Definition ex_valid : File :=
  ex_file (Some [(ex_default "168.63.129.16" 0 5)])
          [(ex_zone "z1" "*.corp.local" 7) <| z_Wildcard := true |>; ex_zone "z2" "a.rtmp.youtube.com" 8]
          [ex_record "r1" "db" "10.1.2.3" 9].

Lemma Validate_stable_witness :
  is_Ok (Validate ex_valid) = true /\
  forall f', Validate ex_valid = Ok f' -> Validate f' = Ok f'.
Proof. split; [vm_compute; reflexivity | intros f' H; exact (Validate_stable _ _ H)]. Defined.

(** C39. What the rest of the program may rely on in a validated file: live
    defaults have a port in 1..65535, the pull interval is at least ten
    seconds, and no listen address, cache size, poll interval or clock skew is
    left at its zero value. *)
Theorem Validate_bounds f f' :
  Validate f = Ok f' ->
  (forall u, In u (elems f'.(UpstreamDefaults)) -> u.(u_Deleted) = false -> 1 <= u.(u_Port) <= 65535)
  /\ 10 <= f'.(f_Peers).(SyncIntervalSeconds)
  /\ f'.(f_Peers).(ClockSkewSeconds) <> 0 /\ f'.(f_Peers).(Listen) <> ""
  /\ f'.(f_Settings).(PollSeconds) <> 0 /\ f'.(f_Settings).(CacheSize) <> 0
  /\ f'.(f_Settings).(DNSListen) <> "" /\ f'.(f_Settings).(HTTPListen) <> ""
  /\ f'.(Version) <> 0.
Proof.
  intros [[_ Hd _ _ _ _ _] ->]%Validate_iff. split.
  - intros u. rewrite elems_normalise, in_map_iff. intros (v & <- & Hv) Hdel.
    rewrite Forall_forall in Hd. specialize (Hd v ltac:(by apply list_elem_of_In)).
    destruct (Upstream_defaults_same v) as (_ & _ & Ed). rewrite Ed in Hdel.
    destruct (Hd Hdel) as [_ Hp%Upstream_defaults_port]. apply port_ok_iff in Hp. lia.
  - unfold normalise. cbn -[Settings_WithDefaults Peers_WithDefaults].
    rewrite Settings_WithDefaults_eq, Peers_WithDefaults_eq. cbn -[interval_floor or_default].
    split; [unfold interval_floor; lia|]. unfold or_default, noZ, noS, CurrentVersion.
    split_and!; case_match; rewrite ?Z.eqb_neq, ?String.eqb_neq in *; done.
Qed.

Lemma Validate_bounds_witness :
  exists f', Validate ex_valid = Ok f'
  /\ (forall u, In u (elems f'.(UpstreamDefaults)) -> u.(u_Deleted) = false -> 1 <= u.(u_Port) <= 65535)
  /\ 10 <= f'.(f_Peers).(SyncIntervalSeconds)
  /\ f'.(f_Peers).(ClockSkewSeconds) <> 0 /\ f'.(f_Peers).(Listen) <> ""
  /\ f'.(f_Settings).(PollSeconds) <> 0 /\ f'.(f_Settings).(CacheSize) <> 0
  /\ f'.(f_Settings).(DNSListen) <> "" /\ f'.(f_Settings).(HTTPListen) <> ""
  /\ f'.(Version) <> 0.
Proof.
  eexists. split; [vm_compute; reflexivity|].
  eapply (Validate_bounds ex_valid). vm_compute. reflexivity.
Defined.

(** The pattern of static record names accepts exactly the names made of
    an optional leading star label and one or more labels joined by dots, each
    of 1 to 63 letters, digits and inner dashes. *)
Theorem record_name_grammar (s : string) :
  re_match dnsNameRe s = true <->
  exists (w : bool) (ls : list (list ascii)) (v : list ascii),
    String.list_ascii_of_string s = (if w then ["*"; "."]%char else [])
      ++ concat (map (fun l => l ++ ["."%char]) ls) ++ v
    /\ Forall valid_label ls /\ valid_label v.
Proof. rewrite re_match_lang. apply dnsNameRe_iff. Qed.

(** The IPv4 pattern accepts exactly four groups of one to three digits
    joined by dots; nothing bounds a group by 255. *)
Theorem ipv4_pattern_grammar (s : string) :
  re_match ipv4Re s = true <->
  exists a b c d,
    String.list_ascii_of_string s = a ++ ["."%char] ++ b ++ ["."%char] ++ c ++ ["."%char] ++ d
    /\ octet_text a /\ octet_text b /\ octet_text c /\ octet_text d.
Proof. rewrite re_match_lang. apply ipv4Re_iff. Qed.

(** ** Where Validate is weaker than what is said of it *)

(** an address with groups over 255, a lone colon and a bare hexadecimal word
    all pass as IP addresses *)
Example accepts_non_addresses :
  map valid_ip ["999.999.999.999"; ":"; "dead"] = [true; true; true].
Proof. vm_compute. reflexivity. Qed.

(** The frequency that the zone loop sets to 5 stays 0 in the returned file. *)
Example frequency_not_stored :
  let z := (ex_zone "z" "a.example.com" 1) <| z_LeastLatency := true |> in
  exists f', Validate (ex_file (Some []) [z] []) = Ok f'
             /\ map z_LatencyTestFrequency f'.(ForwardZones) = [0]
             /\ (zone_copy z).(z_LatencyTestFrequency) = 5.
Proof. eexists. split; [vm_compute; reflexivity|]. split; reflexivity. Qed.

(** A file whose only zone is a tombstone and whose only default is disabled
    passes the rule that some route must exist. *)
Example tombstone_counts_as_route :
  let f := ex_file (Some [(ex_default "8.8.8.8" 53 1) <| u_Enabled := false |>])
                   [(ex_zone "z" "a.example.com" 1) <| z_Deleted := true |>] [] in
  is_Ok (Validate f) = true
  /\ List.filter (fun z => negb z.(z_Deleted)) f.(ForwardZones) = []
  /\ existsb routes (elems f.(UpstreamDefaults)) = false.
Proof. vm_compute. auto. Qed.

(** Zone names that differ in case only are not seen as duplicates. *)
Example case_duplicates_pass :
  is_Ok (Validate (ex_file (Some []) [ex_zone "a" "corp.example.com" 1; ex_zone "b" "Corp.example.com" 1] [])) = true.
Proof. vm_compute. reflexivity. Qed.
