(* ===== verification/LWW.v ===== *)
(** The abstract last-writer-wins register map that [Sync.merge_items]
    implements: the specification, the refinement proof, and what follows from
    it for one merge and for an exchange between two peers. *)
From S2P Require Import Prelude GoStrings GoTime Config Validate Sync.

Section lww.
Context {A : Type} `{SyncItem A}.
Implicit Types (l ins : list A) (x y cur inc : A) (m : gmap string A).

(** ** The abstract state: the current copy of every key *)

Definition to_map l : gmap string A := foldl (fun m x => <[it_key x := x]> m) ∅ l.

(** [inc] replaces [cur]: it is newer, or a tombstone of the same moment, or
    (for kinds with a comparison of values) a different value of the same stamp *)
Definition beats inc cur : bool :=
  (it_UpdatedAt cur <? it_UpdatedAt inc)
  || (it_UpdatedAt cur =? it_UpdatedAt inc)
     && ((it_Deleted inc && negb (it_Deleted cur))
         || Bool.eqb (it_Deleted cur) (it_Deleted inc) && negb (it_same cur inc)).
Definition newer cur inc : A := if beats inc cur then inc else cur.

Definition acceptable (now : Time) (skew : Duration) x : bool :=
  negb (it_DoNotSync x) && negb (out_of_window now skew x).

(** what one accepted incoming item does to the copy of its key *)
Definition merge1 (cur : option A) (inc : option A) : option A :=
  match cur, inc with
  | _, None => cur
  | None, Some inc => if it_Deleted inc then None else Some inc
  | Some cur, Some inc => Some (newer cur inc)
  end.

Definition abs_step (now : Time) (skew : Duration) m inc : gmap string A :=
  if acceptable now skew inc
  then partial_alter (fun old => merge1 old (Some inc)) (it_key inc) m
  else m.

(** ** The concrete step computes the same copy *)

Lemma resolve_newer cur inc r : fst (resolve cur inc r) = newer cur inc.
Proof.
  unfold resolve, newer, beats, After, Equal.
  destruct (it_Deleted inc), (it_Deleted cur), (it_same cur inc);
    destruct (Z.ltb_spec (it_UpdatedAt inc) (it_UpdatedAt cur));
    destruct (Z.ltb_spec (it_UpdatedAt cur) (it_UpdatedAt inc));
    destruct (Z.eqb_spec (it_UpdatedAt cur) (it_UpdatedAt inc)); simpl; try done; lia.
Qed.

Lemma newer_key cur inc : it_key cur = it_key inc -> it_key (newer cur inc) = it_key cur.
Proof. unfold newer. by destruct (beats inc cur). Qed.

(** ** The index *)

Lemma to_map_snoc l x : to_map (l ++ [x]) = <[it_key x := x]> (to_map l).
Proof. unfold to_map. by rewrite foldl_app. Qed.

Lemma build_index_snoc l x : forall i idx,
  build_index i (l ++ [x]) idx = <[it_key x := (i + length l)%nat]> (build_index i l idx).
Proof.
  induction l as [|y l IH]; intros i idx; simpl; [by rewrite Nat.add_0_r|].
  rewrite IH. f_equal. lia.
Qed.

Lemma build_index_keys l l' : forall i idx,
  map it_key l = map it_key l' -> build_index i l idx = build_index i l' idx.
Proof.
  revert l'. induction l as [|x l IH]; intros [|y l'] i idx E; try done.
  injection E as Ek El. simpl. by rewrite (IH l' _ _ El), Ek.
Qed.

Definition index l : gmap string nat := build_index 0 l ∅.

Lemma index_snoc l x : index (l ++ [x]) = <[it_key x := length l]> (index l).
Proof. apply build_index_snoc. Qed.

Lemma index_sound l k i : index l !! k = Some i -> exists x, l !! i = Some x /\ it_key x = k.
Proof.
  induction l as [|x l IH] using rev_ind; [done|].
  rewrite index_snoc, lookup_insert_Some. intros [(<- & <-)|(Hk & Hi)].
  - exists x. by rewrite list_lookup_middle.
  - destruct (IH Hi) as (y & Hy & <-). exists y. by rewrite (lookup_app_l_Some _ _ _ _ Hy).
Qed.

Lemma to_map_index l k : to_map l !! k = index l !! k ≫= fun i => l !! i.
Proof.
  induction l as [|x l IH] using rev_ind; [done|].
  rewrite to_map_snoc, index_snoc. destruct (decide (it_key x = k)) as [<-|Hk].
  - rewrite !lookup_insert_eq. simpl. by rewrite list_lookup_middle.
  - rewrite !lookup_insert_ne, IH by done. destruct (index l !! k) as [i|] eqn:E; [|done].
    simpl. apply index_sound in E as (y & Hy & _).
    by rewrite Hy, (lookup_app_l_Some _ _ _ _ Hy).
Qed.

Lemma keys_insert l i x y :
  l !! i = Some x -> it_key y = it_key x -> map it_key (<[i := y]> l) = map it_key l.
Proof.
  intros Hi Hk. revert i Hi. induction l as [|z l IH]; intros [|i] Hi; simplify_eq/=.
  - by rewrite Hk.
  - by rewrite (IH i).
Qed.

Lemma index_insert l i x y :
  l !! i = Some x -> it_key y = it_key x -> index (<[i := y]> l) = index l.
Proof. intros Hi Hk. apply build_index_keys. by eapply keys_insert. Qed.

Lemma to_map_insert l i x y :
  index l !! it_key x = Some i -> l !! i = Some x -> it_key y = it_key x ->
  to_map (<[i := y]> l) = <[it_key x := y]> (to_map l).
Proof.
  intros Hidx Hi Hk. apply map_eq. intros k.
  rewrite to_map_index, (index_insert l i x y) by done.
  destruct (decide (it_key x = k)) as [<-|Hne].
  - rewrite lookup_insert_eq, Hidx. simpl.
    rewrite list_lookup_insert_eq by (by apply lookup_lt_Some in Hi). done.
  - rewrite lookup_insert_ne, to_map_index by done.
    destruct (index l !! k) as [j|] eqn:E; [|done]. simpl.
    rewrite list_lookup_insert_ne; [done|]. intros ->.
    apply index_sound in E as (z & ? & <-). congruence.
Qed.

(** ** One step *)

Definition total (r : MergeResult) : nat :=
  (Added r + MUpdated r + MDeleted r + Skipped r + Conflicts r + Rejected r)%nat.

(** a state of the loop whose index is the index of its slice *)
Definition consistent (s : mstate A) : Prop := ms_idx s = index (ms_items s).

Lemma total_resolve cur inc r : total (snd (resolve cur inc r)) = S (total r).
Proof. unfold resolve, total. repeat case_match; simpl; lia. Qed.

Lemma added_resolve cur inc r : Added (snd (resolve cur inc r)) = Added r.
Proof. unfold resolve. by repeat case_match. Qed.

(** The cases of a step from a consistent state: nothing changes in the
    slice, the item is appended, or the indexed copy is replaced. *)
Lemma merge_step_cases now skew s inc :
  consistent s ->
  let s' := merge_step now skew s inc in
  (ms_items s' = ms_items s /\ ms_idx s' = ms_idx s /\ Added (ms_res s') = Added (ms_res s)
   /\ (acceptable now skew inc = false
       \/ to_map (ms_items s) !! it_key inc = None /\ it_Deleted inc = true))
  \/ (ms_items s' = ms_items s ++ [inc] /\ ms_idx s' = <[it_key inc := length (ms_items s)]> (ms_idx s)
      /\ Added (ms_res s') = S (Added (ms_res s))
      /\ acceptable now skew inc = true /\ to_map (ms_items s) !! it_key inc = None
      /\ it_Deleted inc = false)
  \/ (exists i cur, ms_items s' = <[i := newer cur inc]> (ms_items s) /\ ms_idx s' = ms_idx s
      /\ Added (ms_res s') = Added (ms_res s) /\ acceptable now skew inc = true
      /\ index (ms_items s) !! it_key inc = Some i /\ ms_items s !! i = Some cur
      /\ it_key cur = it_key inc).
Proof.
  destruct s as [items idx r]. unfold consistent, merge_step, acceptable. simpl. intros ->.
  destruct (it_DoNotSync inc); simpl; [left; auto|].
  destruct (out_of_window now skew inc); simpl; [left; auto|].
  rewrite to_map_index. destruct (index items !! it_key inc) as [i|] eqn:E; simpl.
  - right; right. apply index_sound in E as Hs. destruct Hs as (cur & Hcur & Hk).
    rewrite Hcur. pose proof (resolve_newer cur inc r). pose proof (added_resolve cur inc r).
    destruct (resolve cur inc r) as [kept r']; simplify_eq/=. eauto 10.
  - destruct (it_Deleted inc) eqn:Ed; simpl; [left; by auto 10 | right; left; by auto 10].
Qed.

Lemma merge_step_consistent now skew s inc :
  consistent s -> consistent (merge_step now skew s inc).
Proof.
  intros Hs. unfold consistent.
  destruct (merge_step_cases now skew s inc Hs)
    as [(-> & -> & _)|[(-> & -> & _)|(i & cur & -> & -> & _ & _ & Hi & Hl & Hk)]].
  - done.
  - by rewrite index_snoc, Hs.
  - rewrite Hs. symmetry. apply (index_insert _ i cur); [done|]. by apply newer_key.
Qed.

(** The step implements the abstract one. *)
Lemma merge_step_refines now skew s inc :
  consistent s ->
  to_map (ms_items (merge_step now skew s inc)) = abs_step now skew (to_map (ms_items s)) inc.
Proof.
  intros Hs. unfold abs_step.
  destruct (merge_step_cases now skew s inc Hs)
    as [(-> & _ & _ & [->|[Hn Hd]])|[(-> & _ & _ & -> & Hn & Hd)|(i & cur & -> & _ & _ & -> & Hi & Hl & Hk)]].
  - done.
  - case_match; [|done]. symmetry. apply map_eq. intros k.
    destruct (decide (it_key inc = k)) as [<-|]; [|by rewrite lookup_partial_alter_ne].
    rewrite lookup_partial_alter_eq, Hn. simpl. by rewrite Hd.
  - rewrite to_map_snoc. apply map_eq. intros k.
    destruct (decide (it_key inc = k)) as [<-|];
      [|by rewrite lookup_partial_alter_ne, lookup_insert_ne].
    rewrite lookup_partial_alter_eq, Hn, lookup_insert_eq. simpl. by rewrite Hd.
  - rewrite <- Hk in Hi |- *. rewrite (to_map_insert _ i cur); [|done|done|by apply newer_key].
    apply map_eq. intros k. destruct (decide (it_key cur = k)) as [<-|];
      [|by rewrite lookup_partial_alter_ne, lookup_insert_ne].
    by rewrite lookup_partial_alter_eq, lookup_insert_eq, to_map_index, Hi; simpl; rewrite Hl.
Qed.

Lemma merge_step_total now skew s inc :
  consistent s -> total (ms_res (merge_step now skew s inc)) = S (total (ms_res s)).
Proof.
  destruct s as [items idx r]. unfold consistent, merge_step. simpl. intros ->.
  repeat case_match; simpl; unfold total; simpl; try lia.
  - pose proof (total_resolve a inc r) as Ht. rewrite H4 in Ht. done.
  - apply index_sound in H2 as (? & ? & _). congruence.
Qed.

(** ** The loop *)

Definition start l r : mstate A := MState l (build_index 0 l ∅) r.

Lemma start_consistent l r : consistent (start l r).
Proof. done. Qed.

(** rule of invariants for the loop *)
Lemma merge_loop_ind (P : mstate A -> list A -> Prop) now skew s0 :
  consistent s0 -> P s0 [] ->
  (forall s done inc, consistent s -> P s done -> P (merge_step now skew s inc) (done ++ [inc])) ->
  forall ins, consistent (foldl (merge_step now skew) s0 ins)
              /\ P (foldl (merge_step now skew) s0 ins) ins.
Proof.
  intros H0 HP Hstep ins. induction ins as [|inc ins [IHc IHp]] using rev_ind; [done|].
  rewrite !foldl_app. simpl. split; [by apply merge_step_consistent | by apply Hstep].
Qed.

Lemma merge_items_refines now skew l ins r :
  to_map (fst (merge_items now skew l ins r)) = foldl (abs_step now skew) (to_map l) ins.
Proof.
  unfold merge_items. fold (start l r).
  apply (merge_loop_ind (fun s done =>
    to_map (ms_items s) = foldl (abs_step now skew) (to_map l) done) now skew (start l r)); try done.
  intros s done inc Hs IH. by rewrite foldl_app, merge_step_refines, IH.
Qed.

(** the counters have no part in what is merged *)
Lemma merge_items_any now skew l ins r r' : fst (merge_items now skew l ins r) = fst (merge_items now skew l ins r').
Proof.
  unfold merge_items. fold (start l r) (start l r'). simpl.
  enough (Hs : forall s s', ms_items s = ms_items s' -> ms_idx s = ms_idx s' ->
    ms_items (foldl (merge_step now skew) s ins) = ms_items (foldl (merge_step now skew) s' ins)) by (by apply Hs).
  induction ins as [|inc ins IH]; intros s s' Hi Hx; simpl; [done|]. apply IH; destruct s, s'; simpl in *; subst;
    repeat case_match; simplify_eq/=; try done.
  all: match goal with E1 : resolve ?c ?i ?r1 = _, E2 : resolve ?c ?i ?r2 = _ |- _ =>
    pose proof (resolve_newer c i r1) as R1; pose proof (resolve_newer c i r2) as R2; rewrite E1 in R1; rewrite E2 in R2 end.
  all: simpl in *; by subst.
Qed.

(** Every incoming item is counted exactly once, and the slice grows by the
    items counted as added. *)
Lemma merge_items_counts now skew l ins r :
  let (l', r') := merge_items now skew l ins r in
  total r' = (total r + length ins)%nat
  /\ (length l' + Added r = length l + Added r')%nat.
Proof.
  unfold merge_items. fold (start l r).
  apply (merge_loop_ind (fun s done =>
    total (ms_res s) = (total r + length done)%nat
    /\ (length (ms_items s) + Added r = length l + Added (ms_res s))%nat) now skew (start l r));
    [done | simpl; lia |].
  intros s done inc Hs [IHt IHl]. split.
  - rewrite merge_step_total, length_app by done. simpl. lia.
  - destruct (merge_step_cases now skew s inc Hs)
      as [(-> & _ & -> & _)|[(-> & _ & -> & _)|(i & cur & -> & _ & -> & _)]];
      rewrite ?length_app, ?length_insert; simpl; lia.
Qed.
End lww.
