(* ===== verification/Convergence.v ===== *)
(** Consequences of the refinement of [LWW]: what one merge of an envelope
    without repeated keys does to each key, that merging it again changes
    nothing, that timestamps never go back, and that two peers that exchange
    their items end with the same live items. *)
From S2P Require Import Prelude GoStrings GoTime Config Validate Sync LWW.

(** ** The order of copies *)

Class SyncItemLaws (A : Type) `{SyncItem A} : Prop :=
  it_same_refl : forall x : A, it_same x x = true.

#[export] Instance upstream_item_laws : SyncItemLaws UpstreamDefault.
Proof. intros u. simpl. by rewrite Bool.eqb_reflx, String.eqb_refl. Qed.
#[export] Instance zone_item_laws : SyncItemLaws ForwardZone.
Proof. done. Qed.
#[export] Instance record_item_laws : SyncItemLaws StaticRecord.
Proof. done. Qed.

Section convergence.
Context {A : Type} `{SyncItemLaws A}.
Implicit Types (l ins : list A) (x y cur inc : A) (m : gmap string A).

(** the order by timestamp, then live before deleted *)
Definition stamp_le x y : Prop :=
  it_UpdatedAt x < it_UpdatedAt y
  \/ it_UpdatedAt x = it_UpdatedAt y /\ (it_Deleted x = true -> it_Deleted y = true).
Definition same_stamp x y : Prop :=
  it_UpdatedAt x = it_UpdatedAt y /\ it_Deleted x = it_Deleted y.

#[export] Instance stamp_le_preorder : PreOrder stamp_le.
Proof.
  split; [intros x; right; auto | intros x y z].
  unfold stamp_le. intros [?|[E1 ?]] [?|[E2 ?]]; [left; lia | left; lia | left; lia | right].
  split; [by etrans | auto].
Qed.

Lemma beats_stamp inc cur : beats inc cur = true -> stamp_le cur inc.
Proof.
  unfold beats, stamp_le. rewrite orb_true_iff, andb_true_iff, orb_true_iff, !andb_true_iff.
  rewrite Z.ltb_lt, Z.eqb_eq, eqb_true_iff. intros [?|[? [[? ?]|[-> ?]]]]; auto.
Qed.

Lemma not_beats_stamp inc cur :
  beats inc cur = false -> stamp_le inc cur.
Proof.
  unfold beats, stamp_le.
  destruct (Z.ltb_spec (it_UpdatedAt cur) (it_UpdatedAt inc)); simpl; [done|].
  destruct (Z.eqb_spec (it_UpdatedAt cur) (it_UpdatedAt inc)); simpl; [|left; lia].
  destruct (it_Deleted inc), (it_Deleted cur); simpl; try done; auto.
Qed.

Lemma stamp_le_antisym x y : stamp_le x y -> stamp_le y x -> same_stamp x y.
Proof.
  unfold stamp_le, same_stamp. intros [?|[? Hx]] [?|[? Hy]]; try lia.
  split; [done|]. destruct (it_Deleted x), (it_Deleted y); try done; [by rewrite Hx|by rewrite Hy].
Qed.

Lemma beats_irrefl x : beats x x = false.
Proof.
  unfold beats. rewrite Z.ltb_irrefl, Z.eqb_refl, Bool.eqb_reflx, it_same_refl. simpl.
  by destruct (it_Deleted x).
Qed.

Lemma newer_idem x : newer x x = x.
Proof. unfold newer. by rewrite beats_irrefl. Qed.

Lemma newer_ub cur inc : stamp_le cur (newer cur inc) /\ stamp_le inc (newer cur inc).
Proof.
  unfold newer. destruct (beats inc cur) eqn:E; split; try reflexivity.
  - by apply beats_stamp.
  - by apply not_beats_stamp.
Qed.

Lemma newer_newer cur inc : newer (newer cur inc) inc = newer cur inc.
Proof. unfold newer. destruct (beats inc cur) eqn:E; by rewrite ?beats_irrefl, ?E. Qed.

Lemma merge1_idem (old : option A) inc :
  merge1 (merge1 old (Some inc)) (Some inc) = merge1 old (Some inc).
Proof.
  destruct old as [cur|]; simpl; [by rewrite newer_newer|].
  destruct (it_Deleted inc) eqn:E; simpl; [by rewrite E | by rewrite newer_idem].
Qed.

(** ** One merge, key by key *)

Definition accepted now skew ins : list A := List.filter (acceptable now skew) ins.

Lemma to_map_None l k : ~ In k (map it_key l) -> to_map l !! k = None.
Proof.
  induction l as [|x l IH] using rev_ind; [done|].
  rewrite map_app, in_app_iff, to_map_snoc. simpl. intros Hk.
  rewrite lookup_insert_ne by naive_solver. apply IH. naive_solver.
Qed.

Lemma in_accepted_key now skew ins k :
  In k (map it_key (accepted now skew ins)) -> In k (map it_key ins).
Proof. rewrite !in_map_iff. intros (x & <- & [? _]%filter_In). eauto. Qed.

Lemma abs_merge_lookup now skew ins m k :
  NoDup (map it_key ins) ->
  foldl (abs_step now skew) m ins !! k = merge1 (m !! k) (to_map (accepted now skew ins) !! k).
Proof.
  intros Hnd. induction ins as [|inc ins IH] using rev_ind.
  { simpl. change (to_map _) with (∅ : gmap string A). rewrite lookup_empty. by destruct (m !! k). }
  rewrite map_app in Hnd. apply NoDup_app in Hnd as (Hnd & Hdis & _).
  rewrite foldl_app. unfold accepted. rewrite List.filter_app. simpl.
  fold (accepted now skew ins). unfold abs_step at 1.
  destruct (acceptable now skew inc); [|by rewrite app_nil_r, IH].
  rewrite to_map_snoc. destruct (decide (it_key inc = k)) as [<-|Hk].
  - rewrite lookup_partial_alter_eq, lookup_insert_eq, IH by done.
    rewrite to_map_None; [by destruct (m !! it_key inc)|].
    intros Hin%in_accepted_key. apply (Hdis (it_key inc)); [by apply list_elem_of_In | by apply list_elem_of_singleton].
  - by rewrite lookup_partial_alter_ne, lookup_insert_ne, IH.
Qed.

Lemma merge_items_lookup now skew l ins r k :
  NoDup (map it_key ins) ->
  to_map (fst (merge_items now skew l ins r)) !! k
  = merge1 (to_map l !! k) (to_map (accepted now skew ins) !! k).
Proof. intros Hnd. by rewrite merge_items_refines, abs_merge_lookup. Qed.

(** timestamps never go back *)
Lemma merge1_le cur (o : option A) : exists y, merge1 (Some cur) o = Some y /\ stamp_le cur y.
Proof.
  destruct o as [inc|]; simpl; eexists; (split; [done|]); [apply newer_ub | reflexivity].
Qed.

Lemma abs_step_le now skew m inc k cur :
  m !! k = Some cur -> exists y, abs_step now skew m inc !! k = Some y /\ stamp_le cur y.
Proof.
  intros Hk. unfold abs_step. destruct (acceptable _ _ _); [|by exists cur].
  destruct (decide (it_key inc = k)) as [<-|].
  - rewrite lookup_partial_alter_eq, Hk. apply merge1_le.
  - rewrite lookup_partial_alter_ne by done. by exists cur.
Qed.

Lemma abs_merge_le now skew ins : forall m k cur,
  m !! k = Some cur -> exists y, foldl (abs_step now skew) m ins !! k = Some y /\ stamp_le cur y.
Proof.
  induction ins as [|inc ins IH]; intros m k cur Hk; simpl; [by exists cur|].
  destruct (abs_step_le now skew m inc k cur Hk) as (y & Hy & ?).
  destruct (IH _ _ _ Hy) as (z & ? & ?). exists z. split; [done|]. by etrans.
Qed.

(** ** Keys stay unique *)

Lemma index_None l k : index l !! k = None <-> ~ In k (map it_key l).
Proof.
  induction l as [|x l IH] using rev_ind; [by split; [intros _ []|]|].
  rewrite index_snoc, map_app, in_app_iff, lookup_insert_None, IH. simpl. naive_solver.
Qed.

Lemma merge_items_NoDup now skew l ins r :
  NoDup (map it_key l) -> NoDup (map it_key (fst (merge_items now skew l ins r))).
Proof.
  intros Hl. unfold merge_items. fold (start l r).
  apply (merge_loop_ind (fun s _ => NoDup (map it_key (ms_items s))) now skew (start l r)); try done.
  intros s _ inc Hs IH.
  destruct (merge_step_cases now skew s inc Hs)
    as [(-> & _)|[(-> & _ & _ & _ & Hn & _)|(i & cur & -> & _ & _ & _ & _ & Hi & Hk)]].
  - done.
  - rewrite map_app. apply NoDup_app. split; [done|]. split; [|apply NoDup_singleton].
    intros k Hin Hk. apply list_elem_of_singleton in Hk as ->.
    apply list_elem_of_In, in_map_iff in Hin as (x & Hx & Hxl).
    rewrite to_map_index in Hn. destruct (index (ms_items s) !! it_key inc) as [i|] eqn:E.
    + apply index_sound in E as (z & Hz & _). simpl in Hn. congruence.
    + apply index_None in E. apply E. rewrite <- Hx. by apply in_map.
  - rewrite (keys_insert _ i cur); [done|done|by apply newer_key].
Qed.

(** ** Merging the same items again *)

(** a step whose item changes nothing in the abstract state changes nothing
    in the slice, and adds, updates and deletes nothing *)
Definition changes (r : MergeResult) : nat := (Added r + MUpdated r + MDeleted r)%nat.

Lemma resolve_keeps cur inc r :
  newer cur inc = cur -> changes (snd (resolve cur inc r)) = changes r \/ cur = inc.
Proof.
  intros E. pose proof (resolve_newer cur inc r) as Hr. rewrite E in Hr. revert Hr.
  unfold resolve. repeat case_match; simpl; auto.
Qed.

Lemma resolve_self x r : changes (snd (resolve x x r)) = changes r.
Proof.
  unfold resolve, After, Equal. rewrite Z.ltb_irrefl, Z.eqb_refl, it_same_refl. simpl.
  by destruct (it_Deleted x).
Qed.

Lemma merge_step_stable now skew s inc :
  consistent s ->
  (acceptable now skew inc = true ->
   merge1 (to_map (ms_items s) !! it_key inc) (Some inc) = to_map (ms_items s) !! it_key inc) ->
  ms_items (merge_step now skew s inc) = ms_items s
  /\ changes (ms_res (merge_step now skew s inc)) = changes (ms_res s).
Proof.
  destruct s as [items idx r]. unfold consistent, merge_step, acceptable. simpl. intros -> Hst.
  destruct (it_DoNotSync inc); simpl in *; [done|].
  destruct (out_of_window now skew inc); simpl in *; [done|].
  specialize (Hst eq_refl). rewrite to_map_index in Hst. fold (index items).
  destruct (index items !! it_key inc) as [i|] eqn:E; simpl in *.
  - apply index_sound in E as (cur & Hcur & Hk). rewrite Hcur in Hst |- *. simpl in Hst.
    injection Hst as Hst. pose proof (resolve_newer cur inc r) as Hr.
    pose proof (resolve_keeps cur inc r Hst) as Hc. rewrite Hst in Hr.
    assert (Hch : changes (snd (resolve cur inc r)) = changes r)
      by (destruct Hc as [?| ->]; [done | apply resolve_self]).
    destruct (resolve cur inc r) as [kept r']; simplify_eq/=.
    by rewrite list_insert_id.
  - by destruct (it_Deleted inc).
Qed.

Lemma merge_items_stable now skew l ins r :
  (forall inc, In inc ins -> acceptable now skew inc = true ->
     merge1 (to_map l !! it_key inc) (Some inc) = to_map l !! it_key inc) ->
  fst (merge_items now skew l ins r) = l
  /\ changes (snd (merge_items now skew l ins r)) = changes r.
Proof.
  intros Hst. unfold merge_items. fold (start l r). simpl.
  assert (Hgen : forall ins', (forall inc, In inc ins' -> In inc ins) ->
    let s := foldl (merge_step now skew) (start l r) ins' in
    consistent s /\ ms_items s = l /\ changes (ms_res s) = changes r).
  { induction ins' as [|inc ins' IH] using rev_ind; [done|]. intros Hin.
    destruct IH as (Hc & Hl & Hr); [intros; apply Hin, in_app_iff; auto|].
    rewrite foldl_app. simpl. split; [by apply merge_step_consistent|].
    destruct (merge_step_stable now skew (foldl (merge_step now skew) (start l r) ins') inc)
      as [-> ->]; [done | | done].
    rewrite Hl. apply Hst, Hin, in_app_iff. simpl. auto. }
  by destruct (Hgen ins) as (_ & ? & ?).
Qed.

Lemma to_map_NoDup l x : NoDup (map it_key l) -> In x l -> to_map l !! it_key x = Some x.
Proof.
  intros Hnd Hx. induction l as [|y l IH] using rev_ind; [done|].
  rewrite map_app in Hnd. apply NoDup_app in Hnd as (Hnd & Hdis & _).
  rewrite to_map_snoc. apply in_app_iff in Hx as [Hx|[->|[]]]; [|apply lookup_insert_eq].
  rewrite lookup_insert_ne; [by apply IH|]. intros Hk.
  apply (Hdis (it_key x)); [by apply list_elem_of_In, in_map | by apply list_elem_of_singleton].
Qed.

Lemma accepted_NoDup now skew ins :
  NoDup (map it_key ins) -> NoDup (map it_key (accepted now skew ins)).
Proof.
  unfold accepted. induction ins as [|x ins IH]; simpl; [done|]. rewrite NoDup_cons.
  intros [Hx Hnd]. destruct (acceptable now skew x); simpl; [|by apply IH].
  rewrite NoDup_cons. split; [|by apply IH].
  intros Hin. apply Hx. apply list_elem_of_In. apply list_elem_of_In in Hin.
  by eapply in_accepted_key.
Qed.

Lemma merge_items_again now skew l l' ins r r2 :
  NoDup (map it_key ins) ->
  l' = fst (merge_items now skew l ins r) ->
  fst (merge_items now skew l' ins r2) = l'
  /\ changes (snd (merge_items now skew l' ins r2)) = changes r2.
Proof.
  intros Hnd ->. apply merge_items_stable. intros inc Hin Hacc.
  rewrite merge_items_lookup, (to_map_NoDup (accepted now skew ins) inc); [apply merge1_idem | by apply accepted_NoDup | | done].
  by apply filter_In.
Qed.

(** ** Two peers exchange their items *)

Definition live (o : option A) : option A :=
  match o with Some x => if it_Deleted x then None else Some x | None => None end.

(** The exchange of one key: the second peer takes the first one's copy, then
    the first takes back what the second has. *)
Lemma merge1_exchange (a b : option A) :
  (forall x y, a = Some x -> b = Some y -> same_stamp x y -> x = y) ->
  live (merge1 a (merge1 b a)) = live (merge1 b a).
Proof.
  intros Huniq. destruct a as [x|], b as [y|]; simpl; try done.
  - unfold newer. destruct (beats x y) eqn:E; [by rewrite beats_irrefl|].
    destruct (beats y x) eqn:E'; [done|].
    replace y with x; [done|]. apply Huniq; [done..|].
    apply stamp_le_antisym; by apply not_beats_stamp.
  - destruct (it_Deleted x) eqn:E; simpl; [by rewrite E | by rewrite newer_idem].
  - destruct (it_Deleted y) eqn:E; simpl; by rewrite ?E.
Qed.
End convergence.
