(* ===== verification/SyncProps.v ===== *)
(** The properties of internal/sync/sync.go, with their witnesses: itoa and
    upstreamKey, the export filter and the manifest, and Merge. *)
From S2P Require Import Prelude GoStrings GoTime Config Validate Sync Samples LWW Convergence.

(** ** itoa *)

Lemma itoa_digit n : 0 < n -> ascii_of_N (Z.to_N (48 + n mod 10)) = pretty_N_char (Z.to_N n mod 10).
Proof.
  intros Hn. pose proof (Z.mod_pos_bound n 10 ltac:(lia)).
  assert (E : (Z.to_N n mod 10 = Z.to_N (n mod 10))%N) by (by rewrite Z2N.inj_mod by lia). rewrite E.
  set (m := n mod 10) in *. clearbody m.
  assert (Hd : exists d, (d < 10)%nat /\ m = Z.of_nat d) by (exists (Z.to_nat m); lia).
  destruct Hd as (d & Hd & ->). do 10 (destruct d as [|d]; [done|]). lia.
Qed.

(** Room for [i] digits is enough for a number below [10^i]; what is left is
    the room not used. *)
Lemma itoa_loop_spec j : forall i n acc,
  (j <= i)%nat -> 0 <= n < 10 ^ Z.of_nat j ->
  exists i', itoa_loop i n acc = Some (i', pretty_N_go (Z.to_N n) acc) /\ (i - j <= i')%nat.
Proof.
  induction j as [|j IH]; intros i n acc Hi Hn.
  - exists i. replace n with 0 by lia. destruct i; simpl; (split; [done | lia]).
  - destruct (Z.ltb_spec 0 n) as [Hpos|Hz].
    + destruct i as [|i]; [lia|]. simpl. destruct (Z.ltb_spec 0 n); [|lia].
      destruct (IH i (n / 10) (String (ascii_of_N (Z.to_N (48 + n mod 10))) acc)) as (i' & Hl & Hi').
      { lia. }
      { split; [apply Z.div_pos; lia|]. apply Z.div_lt_upper_bound; [lia|].
        rewrite Nat2Z.inj_succ, Z.pow_succ_r in Hn; lia. }
      exists i'. split; [|lia]. rewrite Hl, itoa_digit by done.
      rewrite (pretty_N_go_step (Z.to_N n)) by lia. do 3 f_equal. by rewrite Z2N.inj_div by lia.
    + exists i. replace n with 0 by lia. destruct i; simpl; (split; [done | lia]).
Qed.


Lemma itoa_decimal n : in64 n -> n <> - 2 ^ 63 -> itoa n = Some (fmt_d n).
Proof.
  unfold in64, itoa, fmt_d. intros Hr Hmin. destruct (Z.eqb_spec n 0) as [->|Hz]; [done|].
  destruct (Z.ltb_spec n 0) as [Hneg|Hpos].
  - rewrite wrap64_id by (unfold in64; lia).
    destruct (itoa_loop_spec 19 20 (- n) "") as (i' & -> & Hi'); [lia | lia |].
    destruct i' as [|i']; [lia|]. by rewrite pretty_Z_neg.
  - destruct (itoa_loop_spec 19 20 n "") as (i' & -> & Hi'); [lia | lia |].
    rewrite pretty_Z_pos by lia. done.
Qed.

Definition not_colon : ascii -> bool := fun d => negb (d =? ":")%char.

Lemma itoa_loop_lacks i : forall n acc i' s,
  lacks ":" acc = true -> itoa_loop i n acc = Some (i', s) -> lacks ":" s = true.
Proof.
  induction i as [|i IH]; intros n acc i' s Hacc; simpl; destruct (Z.ltb_spec 0 n); intros E;
    simplify_eq; try done.
  eapply IH, E. unfold lacks. simpl. rewrite itoa_digit by done. apply andb_true_iff. split; [|done].
  pose proof (N.mod_lt (Z.to_N n) 10 ltac:(done)) as Hd. revert Hd.
  generalize (Z.to_N n mod 10)%N as d. intros d Hd.
  assert (Hk : exists k, (k < 10)%nat /\ d = N.of_nat k) by (exists (N.to_nat d); lia).
  destruct Hk as (k & Hk & ->). do 10 (destruct k as [|k]; [done|]). lia.
Qed.

Lemma itoa_lacks n s : itoa n = Some s -> lacks ":" s = true.
Proof.
  unfold itoa. destruct (n =? 0); [by intros [= <-]|].
  destruct (itoa_loop _ _ _) as [[i t]|] eqn:E; [|done].
  apply itoa_loop_lacks in E; [|done].
  destruct (n <? 0); [destruct i; [done|]|]; intros [= <-]; done.
Qed.

Lemma itoa_total n : in64 n -> is_Some (itoa n).
Proof.
  intros Hn. destruct (Z.eq_dec n (- 2 ^ 63)) as [->|Hm]; [by eexists | rewrite itoa_decimal; eauto].
Qed.


(** The least int64, which negation maps to itself, prints as a bare sign. *)
Lemma fmt_d_not_sign m : fmt_d m <> "-".
Proof.
  unfold fmt_d. destruct (Z.lt_trichotomy m 0) as [Hm|[->|Hm]]; [|done|].
  - rewrite pretty_Z_neg by done. intros [= E]. revert E.
    rewrite pretty_N_go_step by lia. by apply pretty_N_go_nonempty.
  - rewrite pretty_Z_pos by done. by apply (pretty_N_go_ne_dash _ "" "").
Qed.

Lemma itoa_inj n m : in64 n -> in64 m -> itoa n = itoa m -> n = m.
Proof.
  intros Hn Hm.
  destruct (Z.eq_dec n (- 2 ^ 63)) as [->|Hn'], (Z.eq_dec m (- 2 ^ 63)) as [->|Hm'].
  - done.
  - rewrite (itoa_decimal m) by done. change (itoa (- 2 ^ 63)) with (Some "-").
    intros [= E]. by destruct (fmt_d_not_sign m).
  - rewrite (itoa_decimal n) by done. change (itoa (- 2 ^ 63)) with (Some "-").
    intros [= E]. by destruct (fmt_d_not_sign n).
  - rewrite !itoa_decimal by done. unfold fmt_d. intros [= E]. by apply (inj pretty).
Qed.

Lemma upstreamKey_inj a b p q :
  in64 p -> in64 q ->
  upstreamKey a p = upstreamKey b q -> ToLower a = ToLower b /\ p = q.
Proof.
  intros Hp Hq. unfold upstreamKey.
  destruct (itoa_total p Hp) as [sp Ep], (itoa_total q Hq) as [sq Eq]. rewrite Ep, Eq. simpl.
  intros E. apply last_sep_inj in E as [? ->];
    [|by eapply itoa_lacks|by eapply itoa_lacks].
  split; [done|]. apply itoa_inj; congruence.
Qed.

(** ** Export *)

Section export.
Context {A : Type} `{SyncItem A}.

Lemma export_items_filter peer (l : list A) : export_items peer l = List.filter (syncs_to peer) l.
Proof.
  enough (Hacc : forall acc, foldl (fun acc x => if negb (syncs_to peer x) then acc else acc ++ [x])
                               acc l = acc ++ List.filter (syncs_to peer) l) by apply Hacc.
  induction l as [|x l IH]; intros acc; simpl; [by rewrite app_nil_r|].
  rewrite IH. destruct (syncs_to peer x); simpl; [by rewrite <- app_assoc | done].
Qed.

Lemma count_items_filter peer (l : list A) :
  count_items peer l = length (List.filter (fun x => negb (it_Deleted x)) (export_items peer l)).
Proof.
  rewrite export_items_filter. unfold count_items.
  enough (Hn : forall n, foldl (fun n x => if negb (it_Deleted x) && syncs_to peer x then S n else n) n l
    = (n + length (List.filter (fun x => negb (it_Deleted x)) (List.filter (syncs_to peer) l)))%nat)
    by apply Hn.
  induction l as [|x l IH]; intros n; simpl; [lia|].
  rewrite IH. destruct (syncs_to peer x); simpl; destruct (it_Deleted x); simpl; lia.
Qed.

Lemma export_items_all peer (l : list A) :
  (forall x, In x l -> syncs_to peer x = true) -> export_items peer l = l.
Proof.
  rewrite export_items_filter. induction l as [|x l IH]; intros Hl; simpl; [done|].
  rewrite Hl, IH; simpl; auto. intros; apply Hl; simpl; auto.
Qed.
End export.

(** what SyncPeers says: no list, or the peer's name in it up to case and outer blanks *)
Definition names_peer (syncPeers : list string) (peerName : string) : Prop :=
  syncPeers = [] \/ exists p, In p syncPeers /\ ToLower (TrimSpace p) = ToLower (TrimSpace peerName).

Lemma SyncsToPeer_iff d ps name :
  SyncsToPeer d ps name = true <-> d = false /\ names_peer ps name.
Proof.
  unfold SyncsToPeer, names_peer. destruct d; [naive_solver|].
  destruct ps as [|p ps]; [naive_solver|]. rewrite existsb_exists. setoid_rewrite String.eqb_eq.
  split; [intros (?&?&?); split; eauto | intros [_ [?|(?&?&?)]]; [done | eauto]].
Qed.

(** ** Merge at the level of files *)

(** the three loops of Merge, each with the counters the one before left *)
Lemma Merge_parts now f env skew :
  exists r1 r2,
    let f' := fst (Merge now f env skew) in
    let m1 := merge_items now skew (elems f.(UpstreamDefaults)) env.(e_UpstreamDefaults) noResult in
    let m2 := merge_items now skew f.(ForwardZones) env.(e_ForwardZones) r1 in
    let m3 := merge_items now skew f.(StaticRecords) env.(e_StaticRecords) r2 in
    r1 = snd m1 /\ r2 = snd m2
    /\ elems f'.(UpstreamDefaults) = fst m1
    /\ f'.(UpstreamDefaults) = (match f.(UpstreamDefaults), fst m1 with None, [] => None | _, us => Some us end)
    /\ f'.(ForwardZones) = fst m2 /\ f'.(StaticRecords) = fst m3
    /\ f'.(f_Settings) = (match env.(e_Settings) with
                          | Some s => if negb f.(DoNotSyncSettings) && Before f.(Updated) env.(e_ServerTime)
                                      then s else f.(f_Settings)
                          | None => f.(f_Settings)
                          end)
    /\ snd (Merge now f env skew) = snd m3
    /\ f'.(Version) = f.(Version) /\ f'.(Updated) = f.(Updated) /\ f'.(UpdatedBy) = f.(UpdatedBy)
    /\ f'.(f_Peers) = f.(f_Peers) /\ f'.(DoNotSyncSettings) = f.(DoNotSyncSettings).
Proof.
  unfold Merge.
  destruct (merge_items now skew (elems (UpstreamDefaults f)) _ _) as [us r1] eqn:E1.
  destruct (merge_items now skew (ForwardZones f) _ r1) as [zs r2] eqn:E2.
  destruct (merge_items now skew (StaticRecords f) _ r2) as [rs r3] eqn:E3.
  exists r1, r2. cbv zeta. rewrite E2, E3. simpl.
  destruct (UpstreamDefaults f), us; simpl;
    (destruct (e_Settings env); simpl; [|done]);
    destruct (DoNotSyncSettings f) eqn:Ed; simpl; rewrite ?Ed; try done;
    destruct (Before _ _); simpl; rewrite ?Ed; done.
Qed.

(** ** Properties *)

(** C2. Merge's loop over a slice with its position index implements the
    abstract last-writer-wins map: the current copy of every key after the
    loop is what the abstract steps compute from the copies before it. *)
Theorem merge_implements_lww {A : Type} `{SyncItem A} now skew (l ins : list A) r :
  to_map (fst (merge_items now skew l ins r)) = foldl (abs_step now skew) (to_map l) ins.
Proof. apply merge_items_refines. Qed.

Lemma in_merge_items {A : Type} `{SyncItem A} now skew (l ins : list A) r x :
  In x (fst (merge_items now skew l ins r)) -> In x l \/ In x ins.
Proof.
  unfold merge_items. fold (start l r).
  refine (proj2 (merge_loop_ind (fun s seen => In x (ms_items s) -> In x l \/ In x seen)
    now skew (start l r) _ _ _ ins)); [done | simpl; auto |].
  intros s seen inc Hs IH. rewrite in_app_iff.
  destruct (merge_step_cases now skew s inc Hs)
    as [(-> & _)|[(-> & _)|(i & cur & -> & _ & _ & _ & _ & Hi & _)]].
  - naive_solver.
  - rewrite in_app_iff. naive_solver.
  - intros Hin. apply list_elem_of_In, list_elem_of_lookup in Hin as [j Hj].
    assert (Hin : forall i y, ms_items s !! i = Some y -> In y (ms_items s))
      by (intros ???; by eapply list_elem_of_In, list_elem_of_lookup_2).
    apply list_lookup_insert_Some in Hj as [(_ & E & _)|(_ & Hj%Hin)]; [|destruct (IH Hj); auto].
    apply Hin in Hi. revert E. unfold newer. destruct (beats inc cur); intros <-; simpl; [auto|].
    destruct (IH Hi); auto.
Qed.

Lemma to_map_Some_in {A : Type} `{SyncItem A} (l : list A) k x :
  to_map l !! k = Some x -> In x l /\ it_key x = k.
Proof.
  rewrite to_map_index. destruct (index l !! k) as [i|] eqn:E; [|done]. simpl. intros Hx.
  apply index_sound in E as (y & Hy & <-). rewrite Hx in Hy. simplify_eq.
  split; [|done]. by eapply list_elem_of_In, list_elem_of_lookup_2.
Qed.

Lemma accepted_all {A : Type} `{SyncItem A} now skew (l : list A) :
  (forall x, In x l -> acceptable now skew x = true) -> accepted now skew l = l.
Proof.
  unfold accepted. induction l as [|x l IH]; intros Hl; simpl; [done|].
  rewrite Hl, IH; simpl; auto. intros; apply Hl; simpl; auto.
Qed.

Lemma exchange_live {A : Type} `{SyncItemLaws A}
    now1 now2 skew1 skew2 (peerA peerB : string) (la lb : list A) ra rb :
  NoDup (map it_key la) -> NoDup (map it_key lb) ->
  (forall x, In x la \/ In x lb ->
     syncs_to peerA x = true /\ syncs_to peerB x = true
     /\ acceptable now1 skew1 x = true /\ acceptable now2 skew2 x = true) ->
  (forall x y, In x la -> In y lb -> it_key x = it_key y -> same_stamp x y -> x = y) ->
  let lb' := fst (merge_items now1 skew1 lb (export_items peerB la) rb) in
  let la' := fst (merge_items now2 skew2 la (export_items peerA lb') ra) in
  forall k, live (to_map la' !! k) = live (to_map lb' !! k).
Proof.
  intros Hla Hlb Hok Huniq lb' la' k. subst la'.
  assert (Hlb' : forall x, In x lb' -> In x la \/ In x lb).
  { intros x Hx. subst lb'. apply in_merge_items in Hx.
    rewrite export_items_all in Hx by naive_solver. naive_solver. }
  rewrite (export_items_all peerA) by naive_solver.
  rewrite merge_items_lookup by (subst lb'; by apply merge_items_NoDup).
  rewrite accepted_all by naive_solver. subst lb'.
  rewrite (export_items_all peerB) by naive_solver.
  rewrite merge_items_lookup, accepted_all by naive_solver.
  apply merge1_exchange. intros x y [Hx <-]%to_map_Some_in [Hy Hk]%to_map_Some_in Hs.
  by apply Huniq.
Qed.

(** Two peers that exchange their whole lists (one push, one pull back)
    end with the same live items, provided keys are unique on each side, every
    item may be sent and is inside the skew window, and two different copies
    of one key never carry the same timestamp and deletion flag. *)
Theorem exchange_converges {A : Type} `{SyncItemLaws A}
    now1 now2 skew (peerA peerB : string) (la lb : list A) ra rb :
  NoDup (map it_key la) -> NoDup (map it_key lb) ->
  (forall x, In x la \/ In x lb ->
     syncs_to peerA x = true /\ syncs_to peerB x = true
     /\ acceptable now1 skew x = true /\ acceptable now2 skew x = true) ->
  (forall x y, In x la -> In y lb -> it_key x = it_key y -> same_stamp x y -> x = y) ->
  let lb' := fst (merge_items now1 skew lb (export_items peerB la) rb) in
  let la' := fst (merge_items now2 skew la (export_items peerA lb') ra) in
  forall k, live (to_map la' !! k) = live (to_map lb' !! k).
Proof. apply exchange_live. Qed.

Lemma exchange_converges_witness :
  let la := [ex_zone "a" "a.example.com" 10; ex_zone "b" "b.example.com" 20] in
  let lb := [(ex_zone "b" "b2.example.com" 30) <| z_Deleted := true |>; ex_zone "c" "c.example.com" 5] in
  let lb' := fst (merge_items 40 300 lb (export_items "B" la) noResult) in
  let la' := fst (merge_items 41 300 la (export_items "A" lb') noResult) in
  live (to_map la' !! "b") = None /\ live (to_map la' !! "b") = live (to_map lb' !! "b").
Proof.
  intros la lb lb' la'. split; [vm_compute; reflexivity|].
  refine (exchange_converges 40 41 300 "A" "B" la lb noResult noResult _ _ _ _ "b").
  - apply (bool_decide_unpack _). vm_compute. exact I.
  - apply (bool_decide_unpack _). vm_compute. exact I.
  - intros x [Hx|Hx]; simpl in Hx; destruct Hx as [<-|[<-|[]]]; vm_compute; auto.
  - intros x y Hx Hy; simpl in Hx, Hy; destruct Hx as [<-|[<-|[]]], Hy as [<-|[<-|[]]];
      simpl; intros E [E1 _]; simpl in E1; try discriminate E; discriminate E1.
Defined.

(** A key that is present stays present, and the stamp of its current copy
    (timestamp, then deletion flag) never goes back, whatever the envelope holds. *)
Theorem merge_never_goes_back {A : Type} `{SyncItemLaws A} now skew (l ins : list A) r k x :
  to_map l !! k = Some x ->
  exists y, to_map (fst (merge_items now skew l ins r)) !! k = Some y /\ stamp_le x y.
Proof. intros Hk. rewrite merge_items_refines. by apply abs_merge_le. Qed.

Lemma merge_never_goes_back_witness :
  let l := [ex_zone "a" "a.example.com" 10] in
  let ins := [ex_zone "a" "old.example.com" 3; (ex_zone "a" "a.example.com" 10) <| z_Deleted := true |>] in
  exists y, to_map (fst (merge_items 40 300 l ins noResult)) !! "a" = Some y
            /\ stamp_le (ex_zone "a" "a.example.com" 10) y.
Proof. intros l ins. apply merge_never_goes_back. reflexivity. Defined.

(** C29. Applying one envelope twice is the same as applying it once, and the
    second pass adds, updates and deletes nothing, when no key occurs twice in
    a list of the envelope. *)
Theorem Merge_idempotent now f env skew :
  NoDup (map it_key env.(e_UpstreamDefaults)) ->
  NoDup (map it_key env.(e_ForwardZones)) ->
  NoDup (map it_key env.(e_StaticRecords)) ->
  let f' := fst (Merge now f env skew) in
  fst (Merge now f' env skew) = f' /\ changes (snd (Merge now f' env skew)) = 0%nat.
Proof.
  intros Hu Hz Hr f'.
  destruct (Merge_parts now f env skew) as (r1 & r2 & _ & _ & Hus & _ & Hzs & Hrs & Hset & _ & _ & Hupd & _ & _ & Hd).
  destruct (Merge_parts now f' env skew)
    as (q1 & q2 & -> & -> & _ & Gus & Gzs & Grs & Gset & -> & Gv & Gupd & Gby & Gp & Gd).
  fold f' in Hus, Hzs, Hrs, Hset, Hupd, Hd.
  pose proof (fun q => merge_items_again now skew _ _ _ _ q Hu Hus) as Iu.
  pose proof (fun q => merge_items_again now skew _ _ _ _ q Hz Hzs) as Iz.
  pose proof (fun q => merge_items_again now skew _ _ _ _ q Hr Hrs) as Ir.
  rewrite (proj1 (Iu _)) in Gus. rewrite (proj1 (Iz _)) in Gzs. rewrite (proj1 (Ir _)) in Grs.
  split; [|by rewrite (proj2 (Ir _)), (proj2 (Iz _)), (proj2 (Iu _))].
  assert (Gus' : UpstreamDefaults (fst (Merge now f' env skew)) = UpstreamDefaults f')
    by (rewrite Gus; by destruct (UpstreamDefaults f')).
  assert (Gset' : f_Settings (fst (Merge now f' env skew)) = f_Settings f')
    by (rewrite Gset, Hset, Hupd, Hd; destruct (e_Settings env); [by destruct (negb _ && _)|done]).
  clearbody f'. clear -Gus' Gset' Gzs Grs Gv Gupd Gby Gp Gd.
  destruct (fst (Merge now f' env skew)), f'; simpl in *; by subst.
Qed.

Lemma Merge_idempotent_witness :
  let env := ex_envelope [ex_default "8.8.8.8" 53 20] [ex_zone "a" "b.example.com" 30] [] in
  let f := ex_file (Some []) [ex_zone "a" "a.example.com" 10] [] in
  let f' := fst (Merge 40 f env 300) in
  f'.(ForwardZones) = [ex_zone "a" "b.example.com" 30]
  /\ fst (Merge 40 f' env 300) = f' /\ changes (snd (Merge 40 f' env 300)) = 0%nat.
Proof.
  intros env f f'. split; [vm_compute; reflexivity|].
  apply Merge_idempotent; apply (bool_decide_unpack _); vm_compute; exact I.
Defined.

(** Every item of the envelope is counted in exactly one counter of the
    result, and the lists grow by exactly the items counted as added. *)
Theorem Merge_accounts now f env skew :
  let (f', r) := Merge now f env skew in
  total r = (length env.(e_UpstreamDefaults) + length env.(e_ForwardZones) + length env.(e_StaticRecords))%nat
  /\ (length (elems f'.(UpstreamDefaults)) + length f'.(ForwardZones) + length f'.(StaticRecords)
      = length (elems f.(UpstreamDefaults)) + length f.(ForwardZones) + length f.(StaticRecords) + Added r)%nat.
Proof.
  destruct (Merge_parts now f env skew) as (r1 & r2 & -> & -> & Hu & _ & Hz & Hr & _ & Hres & _).
  destruct (Merge now f env skew) as [f' r]. cbn [fst snd] in *. rewrite Hu, Hz, Hr, Hres. clear.
  pose proof (merge_items_counts now skew (elems (UpstreamDefaults f)) (e_UpstreamDefaults env) noResult) as C1.
  destruct (merge_items now skew (elems (UpstreamDefaults f)) _ _) as [us r1].
  pose proof (merge_items_counts now skew (ForwardZones f) (e_ForwardZones env) r1) as C2. cbn [fst snd].
  destruct (merge_items now skew (ForwardZones f) _ _) as [zs r2].
  pose proof (merge_items_counts now skew (StaticRecords f) (e_StaticRecords env) r2) as C3. cbn [fst snd].
  destruct (merge_items now skew (StaticRecords f) _ _) as [rs r3].
  unfold total in *. simpl in *. lia.
Qed.

(** an item whose timestamp is set and further than [skew] from [now] *)
Definition stale {A} `{SyncItem A} (now : Time) (skew : Duration) (x : A) : Prop :=
  it_UpdatedAt x <> 0 /\ skew < Z.abs (now - it_UpdatedAt x).

Lemma stale_out_of_window {A} `{SyncItem A} now skew (x : A) :
  0 < skew < maxDuration -> stale now skew x -> out_of_window now skew x = true.
Proof.
  intros Hs [Hz Hd]. unfold out_of_window, IsZero. rewrite outside_Sub by done.
  destruct (Z.eqb_spec (it_UpdatedAt x) 0); [done|].
  rewrite (proj2 (Z.ltb_lt 0 skew)), (proj2 (Z.ltb_lt skew _)) by lia. done.
Qed.

Lemma merge_items_stale {A} `{SyncItem A} now skew (l ins : list A) r :
  0 < skew < maxDuration -> Forall (stale now skew) ins ->
  fst (merge_items now skew l ins r) = l.
Proof.
  intros Hs Hall. rewrite Forall_forall in Hall.
  assert (Hrej : forall inc, In inc ins -> acceptable now skew inc = false).
  { intros inc Hin%list_elem_of_In. unfold acceptable.
    rewrite (stale_out_of_window now skew inc Hs) by auto. apply andb_false_r. }
  unfold merge_items. fold (start l r). simpl. clear Hall.
  assert (Hgen : forall ins', incl ins' ins ->
    consistent (foldl (merge_step now skew) (start l r) ins')
    /\ ms_items (foldl (merge_step now skew) (start l r) ins') = l); [|apply Hgen, incl_refl].
  induction ins' as [|inc ins' IH] using rev_ind; [done|]. intros [Hi Hin]%incl_app_inv.
  destruct (IH Hi) as [Hc Hl]. rewrite foldl_app. simpl. split; [by apply merge_step_consistent|].
  destruct (merge_step_cases now skew _ inc Hc)
    as [(-> & _)|[(_ & _ & _ & Hacc & _)|(i & cur & _ & _ & _ & Hacc & _)]]; [done|..];
    (rewrite Hrej in Hacc by (apply Hin; by left)); done.
Qed.

(** With a positive skew, an envelope whose items were all last changed
    further than the skew from the present leaves the three lists untouched:
    the window is applied to each item's own timestamp, so a peer that joins
    later never receives what was configured earlier. *)
Theorem Merge_ignores_stale now f env skew :
  0 < skew < maxDuration ->
  Forall (stale now skew) env.(e_UpstreamDefaults) ->
  Forall (stale now skew) env.(e_ForwardZones) ->
  Forall (stale now skew) env.(e_StaticRecords) ->
  let f' := fst (Merge now f env skew) in
  elems f'.(UpstreamDefaults) = elems f.(UpstreamDefaults)
  /\ f'.(ForwardZones) = f.(ForwardZones) /\ f'.(StaticRecords) = f.(StaticRecords).
Proof.
  intros Hs Hu Hz Hr f'.
  destruct (Merge_parts now f env skew) as (r1 & r2 & _ & _ & Eu & _ & Ez & Er & _).
  subst f'. rewrite Eu, Ez, Er. by rewrite !merge_items_stale.
Qed.

(** A new peer pulls a configuration that was last edited ten minutes ago,
    with the default skew of five minutes. *)
Lemma Merge_ignores_stale_witness :
  let now := 1000 * Minute in
  let env := ex_envelope [ex_default "8.8.8.8" 53 (990 * Minute)] [ex_zone "a" "a.example.com" (990 * Minute)]
                         [ex_record "r" "db" "10.0.0.1" (990 * Minute)] in
  let f' := fst (Merge now (ex_file (Some []) [] []) env (times 300 Second)) in
  elems f'.(UpstreamDefaults) = [] /\ f'.(ForwardZones) = [] /\ f'.(StaticRecords) = [].
Proof.
  intros now env f'. subst f'. apply (Merge_ignores_stale now (ex_file (Some []) [] []) env).
  - by vm_compute.
  - repeat constructor; by vm_compute.
  - repeat constructor; by vm_compute.
  - repeat constructor; by vm_compute.
Defined.

(** What Merge does outside the three lists: the settings block is taken
    exactly when the envelope has one, the local file does not opt out and was
    saved before the envelope was built; nothing else changes.  The time
    compared is the moment of the export, not the peer's last settings edit. *)
Theorem Merge_settings now f env skew :
  let f' := fst (Merge now f env skew) in
  f'.(f_Settings) = (match env.(e_Settings) with
                     | Some s => if negb f.(DoNotSyncSettings) && (f.(Updated) <? env.(e_ServerTime))
                                 then s else f.(f_Settings)
                     | None => f.(f_Settings)
                     end)
  /\ f'.(f_Peers) = f.(f_Peers) /\ f'.(DoNotSyncSettings) = f.(DoNotSyncSettings)
  /\ f'.(Version) = f.(Version) /\ f'.(Updated) = f.(Updated) /\ f'.(UpdatedBy) = f.(UpdatedBy).
Proof.
  destruct (Merge_parts now f env skew)
    as (r1 & r2 & _ & _ & _ & _ & _ & _ & Hs & _ & Hv & Hu & Hb & Hp & Hd). done.
Qed.

(** If no two forward zones, records or defaults of the local file share a
    key, none do after a merge, whatever the envelope repeats. *)
Theorem Merge_keeps_keys_unique now f env skew :
  NoDup (map it_key (elems f.(UpstreamDefaults))) ->
  NoDup (map it_key f.(ForwardZones)) ->
  NoDup (map it_key f.(StaticRecords)) ->
  let f' := fst (Merge now f env skew) in
  NoDup (map it_key (elems f'.(UpstreamDefaults)))
  /\ NoDup (map it_key f'.(ForwardZones)) /\ NoDup (map it_key f'.(StaticRecords)).
Proof.
  intros Hu Hz Hr f'.
  destruct (Merge_parts now f env skew) as (r1 & r2 & _ & _ & Eu & _ & Ez & Er & _).
  subst f'. rewrite Eu, Ez, Er. split_and!; by apply merge_items_NoDup.
Qed.

Lemma Merge_keeps_keys_unique_witness :
  let f := ex_file (Some [ex_default "1.1.1.1" 53 5]) [ex_zone "a" "a.example.com" 10] [] in
  let env := ex_envelope [ex_default "1.1.1.1" 53 7]
               [ex_zone "b" "b.example.com" 9; ex_zone "b" "c.example.com" 9] [] in
  let f' := fst (Merge 40 f env 0) in
  map it_key f'.(ForwardZones) = ["a"; "b"]
  /\ NoDup (map it_key (elems f'.(UpstreamDefaults)))
  /\ NoDup (map it_key f'.(ForwardZones)) /\ NoDup (map it_key f'.(StaticRecords)).
Proof.
  intros f env f'. split; [vm_compute; reflexivity|].
  apply Merge_keeps_keys_unique; apply (bool_decide_unpack _); vm_compute; exact I.
Defined.

(** An item leaves the instance in an envelope for a peer exactly when it
    is configured here, is not marked do-not-sync, and its peer list is empty
    or names that peer (up to case and outer blanks). *)
Theorem export_exactly_eligible now id seq f peer :
  let env := FilterForExport now id seq f peer in
  (forall u, In u env.(e_UpstreamDefaults) <->
     In u (elems f.(UpstreamDefaults)) /\ u.(u_DoNotSync) = false /\ names_peer u.(u_SyncPeers) peer)
  /\ (forall z, In z env.(e_ForwardZones) <->
     In z f.(ForwardZones) /\ z.(z_DoNotSync) = false /\ names_peer z.(z_SyncPeers) peer)
  /\ (forall r, In r env.(e_StaticRecords) <->
     In r f.(StaticRecords) /\ r.(r_DoNotSync) = false /\ names_peer r.(r_SyncPeers) peer)
  /\ env.(e_Settings) = (if f.(DoNotSyncSettings) then None else Some f.(f_Settings)).
Proof.
  simpl. split_and!; [intros x | intros x | intros x | by destruct (DoNotSyncSettings f)];
    rewrite export_items_filter, filter_In; unfold syncs_to; by rewrite SyncsToPeer_iff.
Qed.

(** The manifest counts what the envelope for the same peer would hold,
    tombstones apart. *)
Theorem manifest_counts_export now id seq f peer :
  let env := FilterForExport now id seq f peer in
  let m := BuildManifest now id seq f peer in
  m.(m_Counts) =
    {| c_UpstreamDefaults := length (List.filter (fun u => negb u.(u_Deleted)) env.(e_UpstreamDefaults));
       c_ForwardZones := length (List.filter (fun z => negb z.(z_Deleted)) env.(e_ForwardZones));
       c_StaticRecords := length (List.filter (fun r => negb r.(r_Deleted)) env.(e_StaticRecords)) |}
  /\ m.(m_ServerTime) = env.(e_ServerTime) /\ m.(m_InstanceID) = env.(e_InstanceID).
Proof. simpl. by rewrite !count_items_filter. Qed.

(** itoa never runs out of its 20 bytes on an int64 and prints what the
    verb %d prints, except for the least int64, which it prints as a bare sign. *)
Theorem itoa_prints_decimal n :
  in64 n -> itoa n = Some (if n =? - 2 ^ 63 then "-" else fmt_d n).
Proof.
  intros Hn. destruct (Z.eqb_spec n (- 2 ^ 63)) as [->|Hm]; [done | by apply itoa_decimal].
Qed.

Lemma itoa_prints_decimal_witness :
  itoa (- 65535) = Some "-65535" /\ itoa (- 2 ^ 63) = Some (if - 2 ^ 63 =? - 2 ^ 63 then "-" else fmt_d (- 2 ^ 63)).
Proof. split; [vm_compute; reflexivity | apply itoa_prints_decimal; by vm_compute]. Defined.

(** Two upstream defaults have the same key exactly when their addresses
    agree up to case and their ports are equal; colons in IPv6 addresses do
    not confuse it. *)
Theorem upstreamKey_exact a b p q :
  in64 p -> in64 q ->
  upstreamKey a p = upstreamKey b q <-> ToLower a = ToLower b /\ p = q.
Proof.
  intros Hp Hq. split; [by apply upstreamKey_inj|]. unfold upstreamKey. by intros [-> ->].
Qed.

Lemma upstreamKey_exact_witness :
  upstreamKey "2001:db8::1" 53 <> upstreamKey "2001:db8::1:53" 5
  /\ (upstreamKey "FE80::1" 53 = upstreamKey "fe80::1" 53 <-> ToLower "FE80::1" = ToLower "fe80::1" /\ 53 = 53).
Proof. split; [by vm_compute | apply upstreamKey_exact; by vm_compute]. Defined.
