(* ===== verification/Cluster.v ===== *)
(** Any number of peers that hold items of one kind: what one envelope that
    arrives does to the lists of all of them, what the newest copy of a key is,
    and why rounds of deliveries bring everyone to it.  The lists are those of
    [Sync]; [ClusterProps] shows that processes that push to and pull from each
    other make exactly these steps. *)
From S2P Require Import Prelude GoStrings GoTime Config Validate Sync LWW Convergence SyncProps.

(** ** Deliveries *)

(** an envelope built for the name [d_name] by the peer [d_from], merged by the
    peer [d_to] at its time [d_now] *)
Record Delivery := { d_from : nat; d_to : nat; d_name : string; d_now : Time; d_skew : Duration }.

(** a round of deliveries, in any order, that has one between any two of [n] peers *)
Definition complete (n : nat) (round : list Delivery) : Prop :=
  forall i j, (i < n)%nat -> (j < n)%nat -> i <> j -> exists d, d ∈ round /\ d.(d_from) = i /\ d.(d_to) = j.

Section deliver.
Context {A : Type} `{SyncItem A}.

Definition deliver (ls : list (list A)) (d : Delivery) : list (list A) :=
  match ls !! d.(d_from), ls !! d.(d_to) with
  | Some src, Some dst =>
      <[d.(d_to) := fst (merge_items d.(d_now) d.(d_skew) dst (export_items d.(d_name) src) noResult)]> ls
  | _, _ => ls
  end.

(** the copy of a key that is newer than all the others *)
Definition newest (k : string) (l : list A) : option A :=
  foldl (fun o x => if (it_key x =? k)%string then Some (match o with Some y => newer y x | None => x end) else o) None l.

(** an item that a delivery takes along: meant for the name the envelope is
    built for, and inside the receiver's skew window *)
Definition carried (d : Delivery) (x : A) : Prop :=
  syncs_to d.(d_name) x = true /\ acceptable d.(d_now) d.(d_skew) x = true.
End deliver.

(** ** One key: the copies of all peers *)

Section key.
Context {A : Type} `{SyncItemLaws A}.
Implicit Types (vs : list (option A)) (x y : A) (e : nat * nat).

Definition kstep vs e : list (option A) :=
  match vs !! e.1, vs !! e.2 with
  | Some src, Some dst => <[e.2 := merge1 dst src]> vs
  | _, _ => vs
  end.

Definition has (o : option A) : nat := match o with Some _ => 1 | None => 0 end.
Definition count vs : nat := foldr (fun o n => (has o + n)%nat) 0%nat vs.

Lemma count_insert vs : forall j a b, vs !! j = Some a -> (count (<[j := b]> vs) + has a = count vs + has b)%nat.
Proof.
  induction vs as [|o vs IH]; intros [|j] a b Hj; simpl in *; simplify_eq; [lia|].
  specialize (IH j a b Hj). lia.
Qed.
Lemma count_le vs : (count vs <= length vs)%nat.
Proof. induction vs as [|[] vs IH]; simpl; lia. Qed.
Lemma count_one vs : forall i x, vs !! i = Some (Some x) -> (1 <= count vs)%nat.
Proof.
  induction vs as [|o vs IH]; intros [|i] x Hi; simpl in *; simplify_eq; simpl; [lia|]. specialize (IH i x Hi). lia.
Qed.
Lemma count_two vs i j x y : i <> j -> vs !! i = Some (Some x) -> vs !! j = Some (Some y) -> (2 <= count vs)%nat.
Proof.
  intros Hij Hi Hj. pose proof (count_insert vs j _ None Hj). simpl in *.
  assert (1 <= count (<[j := None]> vs))%nat; [|lia].
  apply (count_one _ i x). by rewrite list_lookup_insert_ne.
Qed.

Lemma has_merge1 (dst src : option A) : (has dst <= has (merge1 dst src))%nat.
Proof. destruct dst, src; simpl; lia. Qed.

Lemma kstep_length vs e : length (kstep vs e) = length vs.
Proof. unfold kstep. repeat case_match; rewrite ?length_insert; done. Qed.
Lemma ksteps_length es : forall vs, length (foldl kstep vs es) = length vs.
Proof. induction es as [|e es IH]; intros vs; simpl; [done|]. by rewrite IH, kstep_length. Qed.

(** the copy of peer [j] after a step *)
Lemma kstep_lookup vs e j v' :
  kstep vs e !! j = Some v' ->
  vs !! j = Some v'
  \/ j = e.2 /\ exists src dst, vs !! e.1 = Some src /\ vs !! e.2 = Some dst /\ v' = merge1 dst src.
Proof.
  unfold kstep. destruct (vs !! e.1) as [src|] eqn:Es; [|by left]. destruct (vs !! e.2) as [dst|] eqn:Ed; [|by left].
  intros [(-> & <- & _)|(_ & Hj)]%list_lookup_insert_Some; [right; by eauto 8 | by left].
Qed.

Lemma kstep_count vs e : (count vs <= count (kstep vs e))%nat.
Proof.
  unfold kstep. destruct (vs !! e.1) as [src|]; [|done]. destruct (vs !! e.2) as [dst|] eqn:Ed; [|done].
  pose proof (count_insert vs e.2 dst (merge1 dst src) Ed). pose proof (has_merge1 dst src). lia.
Qed.
Lemma ksteps_count es : forall vs, (count vs <= count (foldl kstep vs es))%nat.
Proof. induction es as [|e es IH]; intros vs; simpl; [done|]. specialize (IH (kstep vs e)). pose proof (kstep_count vs e). lia. Qed.

(** Peer [i0] has the newest copy [x]: every other copy has an older stamp or
    is the same. *)
Context (i0 : nat) (x : A).

Definition below y : Prop := stamp_le y x /\ (stamp_le x y -> y = x).
Definition topped vs : Prop :=
  vs !! i0 = Some (Some x) /\ forall j y, vs !! j = Some (Some y) -> below y.

Lemma newer_top y : below y -> newer y x = x.
Proof. intros [_ Hy]. unfold newer. destruct (beats x y) eqn:E; [done|]. by apply Hy, not_beats_stamp. Qed.
Lemma top_newer y : below y -> newer x y = x.
Proof. intros [_ Hy]. unfold newer. destruct (beats y x) eqn:E; [|done]. by apply Hy, beats_stamp. Qed.
Lemma below_top : below x.
Proof. by split. Qed.

Lemma merge1_below (a b : option A) y :
  (forall z, a = Some z -> below z) -> (forall z, b = Some z -> below z) -> merge1 a b = Some y -> below y.
Proof.
  intros Ha Hb. destruct a as [a|], b as [b|]; simpl; intros E; simplify_eq; auto.
  - unfold newer. destruct (beats b a); auto.
  - destruct (it_Deleted b); simplify_eq; auto.
Qed.

Lemma kstep_topped vs e : topped vs -> topped (kstep vs e).
Proof.
  intros [Hi Hb]. split.
  - destruct (kstep vs e !! i0) as [v|] eqn:Ek.
    + apply kstep_lookup in Ek as [?|(-> & src & dst & Hs & Hd & ->)]; [congruence|].
      rewrite Hi in Hd. injection Hd as <-. destruct src as [y|]; [|done]. simpl. do 2 f_equal. by eapply top_newer, Hb.
    + apply lookup_ge_None in Ek. rewrite kstep_length in Ek. apply lookup_lt_Some in Hi. lia.
  - intros j y [Hj|(-> & src & dst & Hs & Hd & E)]%kstep_lookup; [by eapply Hb|].
    eapply merge1_below; [..|by rewrite <- E]; intros z ->; by eapply Hb.
Qed.
Lemma ksteps_topped es : forall vs, topped vs -> topped (foldl kstep vs es).
Proof. induction es as [|e es IH]; intros vs Ht; simpl; [done|]. by apply IH, kstep_topped. Qed.

(** what a peer that has converged holds: the newest copy, or nothing when that
    is a tombstone *)
Definition settled (v : option A) : Prop := v = Some x \/ v = None /\ it_Deleted x = true.
Definition stable vs : Prop := forall j v, vs !! j = Some v -> settled v.

Lemma merge1_settled (a b : option A) : settled a -> settled b -> settled (merge1 a b).
Proof.
  intros [->|[-> Hd]] [->|[-> Hd']]; simpl; try (by left); try (by right).
  - left. by rewrite newer_idem.
  - right. by rewrite Hd.
Qed.
Lemma kstep_stable vs e : stable vs -> stable (kstep vs e).
Proof.
  intros Hs j v [Hj|(-> & src & dst & H1 & H2 & ->)]%kstep_lookup; [by eapply Hs|].
  apply merge1_settled; by eapply Hs.
Qed.
Lemma ksteps_stable es : forall vs, stable vs -> stable (foldl kstep vs es).
Proof. induction es as [|e es IH]; intros vs Ht; simpl; [done|]. by apply IH, kstep_stable. Qed.

(** a step settles its target when it comes from [i0], and unsettles nobody,
    unless it gives the key to a peer that did not have it although the newest
    copy is a tombstone *)
Definition quiet vs vs' : Prop := it_Deleted x = false \/ count vs' = count vs.
Definition settled_at j vs : Prop := forall v, vs !! j = Some v -> settled v.

Lemma merge1_keeps_settled (dst src : option A) :
  (forall y, src = Some y -> below y) -> settled dst ->
  it_Deleted x = false \/ has (merge1 dst src) = has dst -> settled (merge1 dst src).
Proof.
  intros Hb Hd Hq. destruct Hd as [->|[-> Hd]].
  - left. destruct src as [y|]; [|done]. simpl. f_equal. by apply top_newer, Hb.
  - right. split; [|done]. destruct Hq as [?|Hq]; [congruence|]. by destruct (merge1 None src).
Qed.
Lemma merge1_settles (dst : option A) :
  (forall y, dst = Some y -> below y) -> settled (merge1 dst (Some x)).
Proof.
  intros Hb. destruct dst as [y|]; simpl.
  - left. f_equal. by apply newer_top, Hb.
  - destruct (it_Deleted x) eqn:E; [by right | by left].
Qed.

Lemma kstep_at vs e src dst :
  vs !! e.1 = Some src -> vs !! e.2 = Some dst -> kstep vs e = <[e.2 := merge1 dst src]> vs.
Proof. unfold kstep. by intros -> ->. Qed.

Lemma kstep_settles vs e j :
  topped vs -> quiet vs (kstep vs e) -> (e = (i0, j) \/ settled_at j vs) -> settled_at j (kstep vs e).
Proof.
  intros [Hi Hb] Hq Hj v Hv. destruct (decide (e = (i0, j))) as [->|Hne].
  - destruct (vs !! j) as [dst|] eqn:Hd.
    + rewrite (kstep_at _ _ (Some x) dst) in Hv by done.
      rewrite list_lookup_insert_eq in Hv by (by apply lookup_lt_Some in Hd). injection Hv as <-.
      apply merge1_settles. intros y ->. by eapply Hb.
    + apply lookup_ge_None in Hd. apply lookup_lt_Some in Hv. rewrite kstep_length in Hv. lia.
  - destruct Hj as [?|Hj]; [done|]. apply kstep_lookup in Hv as [Hv|(-> & src & dst & Hs & Hd & ->)]; [by apply Hj|].
    apply merge1_keeps_settled; [intros y ->; by eapply Hb | by apply Hj|]. destruct Hq as [?|Hq]; [by left|right].
    rewrite (kstep_at _ _ src dst) in Hq by done. pose proof (count_insert vs e.2 dst (merge1 dst src) Hd). lia.
Qed.

Lemma ksteps_settle es : forall vs j,
  topped vs -> quiet vs (foldl kstep vs es) -> ((i0, j) ∈ es \/ settled_at j vs) -> settled_at j (foldl kstep vs es).
Proof.
  induction es as [|e es IH]; intros vs j Ht Hq Hj; simpl in *.
  { destruct Hj as [Hj|?]; [by apply not_elem_of_nil in Hj | done]. }
  assert (Hq2 : quiet vs (kstep vs e) /\ quiet (kstep vs e) (foldl kstep (kstep vs e) es)).
  { destruct Hq as [?|Hq]; [by split; left|]. pose proof (kstep_count vs e). pose proof (ksteps_count es (kstep vs e)).
    split; right; lia. }
  destruct Hq2 as [Hq1 Hq2]. apply IH; [by apply kstep_topped | done|].
  destruct (decide ((i0, j) ∈ es)) as [?|Hn]; [by left|right]. apply kstep_settles; [done..|].
  destruct Hj as [[->|?]%elem_of_cons|?]; [by left | done | by right].
Qed.

(** ** Rounds *)

Definition kcomplete (n : nat) (es : list (nat * nat)) : Prop :=
  forall i j, (i < n)%nat -> (j < n)%nat -> i <> j -> (i, j) ∈ es.

Lemma round_stable vs es :
  topped vs -> kcomplete (length vs) es -> quiet vs (foldl kstep vs es) -> stable (foldl kstep vs es).
Proof.
  intros Ht Hc Hq j v Hv. destruct (decide (j = i0)) as [->|Hj].
  - pose proof (ksteps_topped es vs Ht) as [Hi _]. left. congruence.
  - refine (ksteps_settle es vs j Ht Hq _ v Hv). left. apply Hc; [| |done].
    + destruct Ht as [Hi _]. by apply lookup_lt_Some in Hi.
    + apply lookup_lt_Some in Hv. by rewrite ksteps_length in Hv.
Qed.

(** a peer that is not settled has an older copy *)
Lemma unstable_two vs : topped vs -> it_Deleted x = true -> stable vs \/ (2 <= count vs)%nat.
Proof.
  intros [Hi _] Hd. destruct (decide (count vs <= 1)%nat) as [Hc|Hc]; [left|right; lia].
  intros j [y|] Hj; [|by right]. left. destruct (decide (j = i0)) as [->|Hne]; [congruence|].
  pose proof (count_two vs i0 j x y (not_eq_sym Hne) Hi Hj). lia.
Qed.

Lemma rounds_stable rounds : forall vs,
  topped vs -> Forall (kcomplete (length vs)) rounds -> (length vs <= S (length rounds))%nat ->
  stable (foldl kstep vs (concat rounds)).
Proof.
  assert (Hgen : forall rounds vs, topped vs -> Forall (kcomplete (length vs)) rounds ->
    stable (foldl kstep vs (concat rounds))
    \/ it_Deleted x = true /\ (2 + length rounds <= count (foldl kstep vs (concat rounds)))%nat
    \/ rounds = [] /\ it_Deleted x = false).
  { clear rounds. induction rounds as [|es rounds IH] using rev_ind; intros vs Ht Hall.
    - simpl. destruct (it_Deleted x) eqn:Hd; [|by auto]. destruct (unstable_two vs Ht Hd); auto.
    - apply Forall_app in Hall as [Hall Hes]. rewrite Forall_singleton in Hes.
      rewrite concat_app, foldl_app, length_app. simpl. rewrite app_nil_r.
      set (vs1 := foldl kstep vs (concat rounds)).
      assert (Ht1 : topped vs1) by by apply ksteps_topped.
      assert (Hes1 : kcomplete (length vs1) es) by (unfold vs1; by rewrite ksteps_length).
      destruct (it_Deleted x) eqn:Hd; [|left; apply round_stable; [done..|by left]].
      destruct (decide (count (foldl kstep vs1 es) = count vs1)) as [Hq|Hq]; [left; apply round_stable; [done..|by right]|].
      destruct (IH vs Ht Hall) as [?|[(_ & Hc)|(_ & ?)]]; [left; by apply ksteps_stable| |congruence].
      right; left. split; [done|]. pose proof (ksteps_count es vs1). fold vs1 in Hc. lia. }
  intros vs Ht Hall Hlen. destruct (Hgen rounds vs Ht Hall) as [?|[(_ & Hc)|(-> & _)]]; [done|..].
  - pose proof (count_le (foldl kstep vs (concat rounds))) as Hl. rewrite ksteps_length in Hl. lia.
  - simpl in *. destruct Ht as [Hi _]. pose proof (lookup_lt_Some _ _ _ Hi).
    intros j v Hj. pose proof (lookup_lt_Some _ _ _ Hj). left. replace j with i0 in Hj by lia. congruence.
Qed.
End key.

(** ** All keys *)

Section cluster.
Context {A : Type} `{SyncItemLaws A}.
Implicit Types (ls : list (list A)) (x y : A).

Definition views (k : string) ls : list (option A) := map (fun l => to_map l !! k) ls.
Definition edge (d : Delivery) : nat * nat := (d.(d_from), d.(d_to)).

(** lists without repeated keys whose items are all among those of [u], which
    every delivery of [ds] carries *)
Definition within (u : list A) ls : Prop := Forall (fun l => NoDup (map it_key l) /\ forall x, x ∈ l -> x ∈ u) ls.

Lemma export_carried d l : (forall x, x ∈ l -> carried d x) -> export_items d.(d_name) l = l.
Proof. intros Hl. apply export_items_all. intros x Hx%list_elem_of_In. by apply Hl. Qed.
Lemma accepted_carried d l : (forall x, x ∈ l -> carried d x) -> accepted d.(d_now) d.(d_skew) l = l.
Proof. intros Hl. apply accepted_all. intros x Hx%list_elem_of_In. by apply Hl. Qed.

Lemma deliver_within u ls d : within u ls -> (forall x, x ∈ u -> carried d x) -> within u (deliver ls d).
Proof.
  unfold within, deliver. intros Hall Hd. destruct (ls !! d.(d_from)) as [src|] eqn:Es; [|done].
  destruct (ls !! d.(d_to)) as [dst|] eqn:Ed; [|done]. pose proof (proj1 (Forall_lookup _ _) Hall) as Hl.
  apply Forall_insert; [done|]. destruct (Hl _ _ Es) as [_ Hs]. destruct (Hl _ _ Ed) as [Hn Hu]. split; [by apply merge_items_NoDup|].
  intros x Hx%list_elem_of_In. apply in_merge_items in Hx as [Hx|Hx]; apply list_elem_of_In in Hx; [by apply Hu|].
  rewrite export_carried in Hx; auto.
Qed.

Lemma deliver_views u ls d k :
  within u ls -> (forall x, x ∈ u -> carried d x) -> views k (deliver ls d) = kstep (views k ls) (edge d).
Proof.
  unfold within, deliver, kstep, views. intros Hall Hd. pose proof (proj1 (Forall_lookup _ _) Hall) as Hl.
  cbn [edge fst snd]. rewrite !lookup_map_list. destruct (ls !! d.(d_from)) as [src|] eqn:Es; [|done].
  destruct (ls !! d.(d_to)) as [dst|] eqn:Ed; [|done]. cbn [fmap option_fmap option_map].
  destruct (Hl _ _ Es) as [Hn Hs].
  rewrite export_carried by auto. rewrite map_insert_list.
  rewrite merge_items_lookup, accepted_carried by auto. done.
Qed.

Lemma delivers_within u ds : forall ls,
  within u ls -> (forall d x, d ∈ ds -> x ∈ u -> carried d x) -> within u (foldl deliver ls ds).
Proof.
  induction ds as [|d ds IH]; intros ls Hw Hd; simpl; [done|].
  apply IH; [apply deliver_within; [done|]|]; intros; apply Hd; rewrite ?elem_of_cons; auto.
Qed.
Lemma delivers_views u ds k : forall ls,
  within u ls -> (forall d x, d ∈ ds -> x ∈ u -> carried d x) ->
  views k (foldl deliver ls ds) = foldl kstep (views k ls) (map edge ds).
Proof.
  induction ds as [|d ds IH]; intros ls Hw Hd; simpl; [done|].
  rewrite IH, (deliver_views u); [done | done | | apply deliver_within; [done|] |];
    intros; apply Hd; rewrite ?elem_of_cons; auto.
Qed.

Lemma newest_spec k (l : list A) :
  match newest k l with
  | Some x => x ∈ l /\ it_key x = k /\ forall y, y ∈ l -> it_key y = k -> stamp_le y x
  | None => forall y, y ∈ l -> it_key y <> k
  end.
Proof.
  induction l as [|z l IH] using rev_ind; [by intros y ?%not_elem_of_nil|].
  unfold newest in *. rewrite foldl_app. simpl. set (o := foldl _ None l) in *. clearbody o.
  assert (Hsplit : forall y, y ∈ l ++ [z] <-> y ∈ l \/ y = z)
    by (intros y; by rewrite elem_of_app, list_elem_of_singleton).
  destruct (String.eqb_spec (it_key z) k) as [Hz|Hz]; destruct o as [x|].
  - destruct IH as (Hx & Hk & Hle). pose proof (newer_ub x z) as [H1 H2]. split_and!.
    + rewrite Hsplit. unfold newer. destruct (beats z x); auto.
    + unfold newer. by destruct (beats z x).
    + intros y [Hy| ->]%Hsplit Hyk; [|done]. etrans; [by apply Hle | done].
  - split_and!; [rewrite Hsplit; auto | done|]. intros y [Hy| ->]%Hsplit Hyk; [|done]. by destruct (IH y Hy).
  - destruct IH as (Hx & Hk & Hle). split_and!; [rewrite Hsplit; auto | done|].
    intros y [Hy| ->]%Hsplit Hyk; [by apply Hle | done].
  - intros y [Hy| ->]%Hsplit; [by apply IH | done].
Qed.

Lemma views_topped ls k x :
  Forall (fun l => NoDup (map it_key l)) ls ->
  (forall y z, y ∈ concat ls -> z ∈ concat ls -> it_key y = it_key z -> same_stamp y z -> y = z) ->
  newest k (concat ls) = Some x -> exists i, topped i x (views k ls).
Proof.
  intros Hnd Hu Hx. pose proof (newest_spec k (concat ls)) as Hs. rewrite Hx in Hs. destruct Hs as (Hin & <- & Hle).
  pose proof Hin as Hl. apply elem_of_concat in Hl as (l & Hl%list_elem_of_lookup & Hxl).
  destruct Hl as [i Hl]. exists i. unfold topped, views. split.
  - rewrite lookup_map_list, Hl. simpl. f_equal. apply to_map_NoDup; [|by apply list_elem_of_In].
    by apply (proj1 (Forall_lookup _ _) Hnd i).
  - intros j y. rewrite lookup_map_list. destruct (ls !! j) as [l'|] eqn:Hl'; [|done]. simpl.
    intros [= [Hy Hk]%to_map_Some_in].
    assert (Hyc : y ∈ concat ls) by (eapply elem_of_concat_lookup; [done | by apply list_elem_of_In]).
    split; [by apply Hle|]. intros Hxy. apply Hu; [done..|]. apply stamp_le_antisym; [by apply Hle | done].
Qed.

(** After as many rounds as there are other peers, everyone has the newest copy
    of every key that anyone had, or no live copy when that is a tombstone. *)
Lemma rounds_newest ls rounds :
  Forall (fun l => NoDup (map it_key l)) ls ->
  (forall y z, y ∈ concat ls -> z ∈ concat ls -> it_key y = it_key z -> same_stamp y z -> y = z) ->
  (forall d x, d ∈ concat rounds -> x ∈ concat ls -> carried d x) ->
  Forall (complete (length ls)) rounds -> (length ls <= S (length rounds))%nat ->
  forall i l, foldl deliver ls (concat rounds) !! i = Some l ->
  forall k, live (to_map l !! k) = live (newest k (concat ls)).
Proof.
  intros Hnd Hu Hok Hc Hlen i l Hl k.
  assert (Hw : within (concat ls) ls).
  { apply Forall_lookup. intros j l' Hj. split; [by apply (proj1 (Forall_lookup _ _) Hnd j)|].
    intros x. by eapply elem_of_concat_lookup. }
  destruct (newest k (concat ls)) as [x|] eqn:Hx.
  - destruct (views_topped ls k x Hnd Hu Hx) as [i0 Ht].
    assert (Hst : stable x (foldl kstep (views k ls) (concat (map (map edge) rounds)))).
    { apply (rounds_stable i0); [done| |by unfold views; rewrite !length_map].
      apply Forall_map. eapply Forall_impl; [exact Hc|]. intros round Hr i' j'. unfold views. rewrite length_map. intros ? ? ?.
      destruct (Hr i' j') as (d & Hd & <- & <-); [done..|]. by apply (list_elem_of_fmap_2 edge). }
    rewrite <- concat_map, <- (delivers_views (concat ls)) in Hst by done.
    destruct (Hst i (to_map l !! k)) as [->|[-> Hd]]; [|done|].
    + unfold views. by rewrite lookup_map_list, Hl.
    + simpl. by rewrite Hd.
  - pose proof (newest_spec k (concat ls)) as Hn. rewrite Hx in Hn.
    destruct (to_map l !! k) as [y|] eqn:Ey; [|done]. apply to_map_Some_in in Ey as [Hy%list_elem_of_In Hk].
    pose proof (delivers_within _ _ ls Hw Hok) as Hw'.
    destruct (proj1 (Forall_lookup _ _) Hw' i l Hl) as [_ Hin]. by destruct (Hn y (Hin y Hy)).
Qed.
End cluster.
