(* ===== verification/StoreProps.v ===== *)
(** The properties of internal/config/store.go: a Save replaces the file
    completely or not at all, what is in memory is always a validated
    configuration that the recorded hash describes, a restart recovers what was
    saved, the environment never overwrites the file, and stamping. *)
From S2P Require Import Prelude GoStrings GoTime Config Validate ValidateSpec Sync Sha256 Store Samples.

(** ** Paths *)

Lemma append_neq s t : t <> "" -> s +:+ t <> s.
Proof.
  intros Ht E. apply (f_equal String.length) in E. rewrite append_length in E.
  destruct t; [done | simpl in E; lia].
Qed.

(** ** Parts of a file that Validate does not look at *)

Lemma ValidFile_checked f : Validate f = Ok f <-> ValidFile f /\ normalise f = f.
Proof. rewrite Validate_iff. naive_solver. Qed.

Lemma checked_of_Validate f f' : Validate f = Ok f' -> Validate f' = Ok f'.
Proof.
  rewrite !Validate_iff. intros [Hv ->]. split; [by apply ValidFile_normalise|].
  by rewrite normalise_idem.
Qed.

Lemma ValidFile_peers f p : ValidFile f -> ValidFile (f <| f_Peers := p |>).
Proof. by intros []. Qed.

Lemma checked_peers f p :
  Validate f = Ok f -> Peers_WithDefaults p = p -> Validate (f <| f_Peers := p |>) = Ok (f <| f_Peers := p |>).
Proof.
  rewrite !ValidFile_checked. intros [Hv Hn] Hp. split; [by apply ValidFile_peers|].
  pose proof (f_equal Version Hn) as H1. pose proof (f_equal f_Settings Hn) as H2.
  pose proof (f_equal UpstreamDefaults Hn) as H3.
  unfold normalise in *. destruct f. simpl in *. by rewrite H1, H2, H3, Hp.
Qed.

Lemma checked_stamp f t a :
  Validate f = Ok f -> Validate (f <| Updated := t |> <| UpdatedBy := a |>) = Ok (f <| Updated := t |> <| UpdatedBy := a |>).
Proof.
  rewrite !ValidFile_checked. intros [Hv Hn]. split; [by destruct Hv|].
  pose proof (f_equal Version Hn) as H1. pose proof (f_equal f_Settings Hn) as H2.
  pose proof (f_equal UpstreamDefaults Hn) as H3. pose proof (f_equal f_Peers Hn) as H4.
  unfold normalise in *. destruct f. simpl in *. by rewrite H1, H2, H3, H4.
Qed.

Lemma checked_peers_fixed f : Validate f = Ok f -> Peers_WithDefaults f.(f_Peers) = f.(f_Peers).
Proof. rewrite ValidFile_checked. intros [_ Hn]. by apply (f_equal f_Peers) in Hn. Qed.

(** the fields of [Peers] with defaults do not include the key and the list *)
Lemma Peers_WithDefaults_fixed p k l :
  Peers_WithDefaults p = p ->
  Peers_WithDefaults (p <| SharedKey := k |> <| List := l |>) = p <| SharedKey := k |> <| List := l |>.
Proof. rewrite !Peers_WithDefaults_eq. intros H.
  pose proof (f_equal Listen H) as H1. pose proof (f_equal SyncIntervalSeconds H) as H2.
  pose proof (f_equal ClockSkewSeconds H) as H3. destruct p. cbn -[interval_floor] in *. by rewrite H1, H2, H3.
Qed.

Lemma share_peers_checked l (s : Store) f :
  (forall g, s.(current) = Some g -> Validate g = Ok g) ->
  (share_peers l s).(current) = Some f -> Validate f = Ok f.
Proof.
  intros Hs. unfold share_peers. simpl. destruct (current s) as [g|]; [|done]. simpl. intros [= <-].
  specialize (Hs g eq_refl). apply checked_peers; [done|]. apply checked_peers_fixed in Hs.
  apply (Peers_WithDefaults_fixed _ (SharedKey (f_Peers g)) l) in Hs. by destruct g as [? ? ? ? [] ? ? ? ?].
Qed.

(** ** The environment *)

Lemma seed_fixed e p :
  p.(Listen) <> "" -> exists k l, seed_list e (seed_key e (seed_listen e p)) = p <| SharedKey := k |> <| List := l |>.
Proof.
  intros Hl. assert (seed_listen e p = p) as ->.
  { unfold seed_listen. destruct (env_nonempty _ _); [|done]. by apply String.eqb_neq in Hl as ->. }
  assert (exists k, seed_key e p = p <| SharedKey := k |>) as [k ->].
  { unfold seed_key. assert (p = p <| SharedKey := SharedKey p |>) as Hp by by destruct p.
    repeat case_match; eauto. }
  exists k. unfold seed_list. repeat case_match; simpl; eauto.
Qed.

Lemma seed_checked e f :
  Validate f = Ok f -> Validate (SeedFromEnv e f) = Ok (SeedFromEnv e f).
Proof.
  intros Hf. unfold SeedFromEnv. pose proof (checked_peers_fixed f Hf) as Hp.
  destruct (seed_fixed e f.(f_Peers)) as (k & l & ->).
  - intros E. rewrite Peers_WithDefaults_eq in Hp. apply (f_equal Listen) in Hp. by rewrite E in Hp.
  - apply checked_peers; [done|]. by apply Peers_WithDefaults_fixed.
Qed.

Lemma persisted_checked f : Validate f = Ok f -> Validate (persisted f) = Ok (persisted f).
Proof.
  intros Hf. apply checked_peers; [done|]. apply checked_peers_fixed in Hf.
  apply (Peers_WithDefaults_fixed _ (SharedKey (f_Peers f)) (f_Peers (persisted f)).(List)) in Hf.
  by destruct f as [? ? ? ? [] ? ? ? ?].
Qed.

(** ** Save *)

Section save.
Context `{Y : Yaml} (path : string) (env : Env) {E : Type}.
Implicit Types (opts : SaveOptions E) (fs : FS).

(** [draft] is what a Save by [opts] from [s] at the times of [io] writes *)
Definition drafted (io : SaveIO) opts (s : Store) (draft : File) : Prop :=
  exists m, run_mutate opts (Clone (default (DefaultConfig io.(si_default_now)) s.(current))) = m
            /\ m.(mut_err) = None
            /\ finish_draft io opts.(Actor) m.(mut_draft) = Ok draft.

(** the store and the disk after [draft] was written *)
Definition committed (draft : File) (fs' : FS) (s' : Store) : Prop :=
  exists data, Marshal draft = Ok data /\ fs' !! path = Some data
               /\ s'.(current) = Some draft /\ s'.(hash) = content_hash data.

(** the store and the disk after a Save that gave up *)
Definition untouched fs (s : Store) (fs' : FS) (s' : Store) : Prop :=
  fs' !! path = fs !! path /\ s'.(hash) = s.(hash) /\ s'.(loadErr) = s.(loadErr)
  /\ (s' = s \/ exists l, s' = share_peers l s).

Lemma tmp_neq : path +:+ ".tmp" <> path.
Proof. by apply append_neq. Qed.
Lemma lock_neq : path +:+ ".lock" <> path.
Proof. by apply append_neq. Qed.

Lemma lookup_lock fs :
  (match fs !! (path +:+ ".lock") with Some _ => fs | None => <[path +:+ ".lock" := EmptyString]> fs end) !! path
  = fs !! path.
Proof. case_match; [done|]. by rewrite lookup_insert_ne by apply lock_neq. Qed.

Lemma WriteFile_other o p data fs fs' err q :
  WriteFile o p data fs = (fs', err) -> p <> q -> fs' !! q = fs !! q.
Proof. destruct o; simpl; intros [= <- <-] Hp; by rewrite ?lookup_insert_ne. Qed.

Lemma WriteFile_done o p data fs fs' :
  WriteFile o p data fs = (fs', None) -> fs' = <[p := data]> fs.
Proof. by destruct o; simpl; intros [=]. Qed.

Lemma Rename_lookup src dst data fs : Rename src dst (<[src := data]> fs) !! dst = Some data.
Proof. unfold Rename. by rewrite !lookup_insert_eq. Qed.

Lemma untouched_refl fs fs' (s : Store) : fs' !! path = fs !! path -> untouched fs s fs' s.
Proof. unfold untouched. auto. Qed.

Lemma untouched_shared fs fs' (s : Store) l :
  fs' !! path = fs !! path -> untouched fs s fs' (share_peers l s).
Proof. unfold untouched. intros. split_and!; eauto. Qed.

Lemma Save_cases (io : SaveIO) opts fs s fs' s' hooks r :
  Save path io opts fs s = (fs', s', hooks, r) ->
  match r with
  | Ok f => drafted io opts s f /\ committed f fs' s' /\ hooks = fireOnSave s ++ fireOnApply s
  | Err (SErrUnlock _) => (exists f, drafted io opts s f /\ committed f fs' s') /\ hooks = []
  | Err _ => untouched fs s fs' s' /\ hooks = []
  end.
Proof.
  unfold Save. pose proof (lookup_lock fs) as Hl. set (fs1 := match fs !! _ with Some _ => fs | None => _ end) in *.
  clearbody fs1.
  destruct (si_mkdir io); [intros [= <- <- <- <-]; split; [by apply untouched_refl|done]|].
  destruct (si_open io); [intros [= <- <- <- <-]; split; [by apply untouched_refl|done]|].
  destruct (si_flock io); [| intros [= <- <- <- <-]; split; [by apply untouched_refl|done]..].
  set (m := run_mutate _ _).
  destruct (mut_err m) eqn:Hm; [intros [= <- <- <- <-]; split; [by apply untouched_shared|done]|].
  destruct (finish_draft _ _ _) as [d|] eqn:Hd; [|intros [= <- <- <- <-]; split; [by apply untouched_shared|done]].
  destruct (Marshal d) as [data|] eqn:Hdata; [|intros [= <- <- <- <-]; split; [by apply untouched_shared|done]].
  destruct (WriteFile _ _ _ _) as [fs2 wErr] eqn:Hw.
  pose proof (WriteFile_other _ _ _ _ _ _ _ Hw tmp_neq) as Hp. rewrite Hl in Hp.
  destruct wErr; [intros [= <- <- <- <-]; split; [by apply untouched_shared|done]|].
  apply WriteFile_done in Hw as ->.
  destruct (si_rename io); [intros [= <- <- <- <-]; split; [by apply untouched_shared|done]|].
  assert (Hdr : drafted io opts s d) by (exists m; done).
  pose proof (Rename_lookup (path +:+ ".tmp") path data fs1) as Hr.
  destruct (si_unlock io); intros [= <- <- <- <-]; unfold committed; eauto 10.
Qed.

Lemma Save_either (io : SaveIO) opts fs s fs' s' hooks r :
  Save path io opts fs s = (fs', s', hooks, r) ->
  (exists f, committed f fs' s') \/ untouched fs s fs' s'.
Proof. intros H%Save_cases. destruct r as [f|[]]; naive_solver. Qed.

(** C5. A Save replaces the configuration file completely or leaves it exactly
    as it was, whatever call of the system fails and however little of the new
    text a failing write leaves behind.  When it returns a file, that file is
    validated, is the content of the disk and of memory, its hash is recorded
    and both hooks have fired, OnSave first; the one error after the file was
    replaced is the error of the unlock; every other error leaves the file, the
    hash and (the peer list that [Clone] shares apart) the current
    configuration as they were, and fires no hook. *)
Theorem Save_atomic (io : SaveIO) opts fs s fs' s' hooks r :
  Save path io opts fs s = (fs', s', hooks, r) ->
  match r with
  | Ok f => drafted io opts s f /\ committed f fs' s' /\ hooks = fireOnSave s ++ fireOnApply s
  | Err (SErrUnlock _) => (exists f, drafted io opts s f /\ committed f fs' s') /\ hooks = []
  | Err _ => untouched fs s fs' s' /\ hooks = []
  end.
Proof. apply Save_cases. Qed.

Lemma drafted_checked io opts s f : drafted io opts s f -> Validate f = Ok f.
Proof. intros (m & _ & _ & H). by apply checked_of_Validate in H. Qed.

(** Only the configuration, its lock and its temporary file are touched, and no
    temporary file is left after a success. *)
Lemma Save_footprint (io : SaveIO) opts fs s fs' s' hooks r p :
  Save path io opts fs s = (fs', s', hooks, r) ->
  p <> path -> p <> path +:+ ".lock" -> p <> path +:+ ".tmp" -> fs' !! p = fs !! p.
Proof.
  unfold Save. intros H Hp Hlk Ht.
  assert (Hl : (match fs !! (path +:+ ".lock") with Some _ => fs
                | None => <[path +:+ ".lock" := EmptyString]> fs end) !! p = fs !! p).
  { destruct (fs !! _); [done|]. by rewrite lookup_insert_ne. }
  repeat (case_match; simplify_eq; try done).
  all: match goal with W : WriteFile _ _ _ _ = _ |- _ =>
         pose proof (WriteFile_other _ _ _ _ _ _ p W (not_eq_sym Ht)) end.
  all: unfold Rename; repeat case_match; rewrite ?lookup_insert_ne, ?lookup_delete_ne by congruence; congruence.
Qed.

(** ** What is in memory *)

(** the operations of the store and of everybody else who writes files; [P]
    restricts the callbacks *)
Inductive store_step (P : SaveOptions E -> Prop) : FS * Store -> FS * Store -> Prop :=
  | step_load io fs s fs' s' err : Load path env io fs s = (fs', (s', err)) -> store_step P (fs, s) (fs', s')
  | step_reload fault fs s s' res : ReloadIfChanged path env fault fs s = (s', res) -> store_step P (fs, s) (fs, s')
  | step_save io opts fs s fs' s' hooks r :
      P opts -> Save path io opts fs s = (fs', s', hooks, r) -> store_step P (fs, s) (fs', s')
  | step_hooks fs s a b : store_step P (fs, s) (fs, SetOnApply a (SetOnSave b s))
  | step_edit fs fs' s : store_step P (fs, s) (fs', s).

Definition reachable (P : SaveOptions E -> Prop) (c : FS * Store) : Prop :=
  exists fs0, rtc (store_step P) (fs0, NewStore) c.

Definition current_checked (s : Store) : Prop := forall f, s.(current) = Some f -> Validate f = Ok f.

Lemma bootstrap_checked io : Validate (bootstrap io env) = Ok (bootstrap io env).
Proof.
  unfold bootstrap. set (d := DefaultConfig _).
  assert (Hd : Validate d = Ok d) by (vm_compute; reflexivity).
  by apply checked_stamp, seed_checked.
Qed.

Lemma Load_checked io fs s fs' s' err :
  Load path env io fs s = (fs', (s', err)) -> current_checked s -> current_checked s'.
Proof.
  unfold Load, fail_load, current_checked. intros H Hs.
  repeat (case_match; simplify_eq/=; try done); intros g Hg; simplify_eq/=.
  - by eapply checked_of_Validate.
  - apply bootstrap_checked.
Qed.

Lemma Reload_checked fault fs s s' res :
  ReloadIfChanged path env fault fs s = (s', res) -> current_checked s -> current_checked s'.
Proof.
  unfold ReloadIfChanged, current_checked. intros H Hs.
  repeat (case_match; simplify_eq/=; try done); intros g Hg; simplify_eq/=. by eapply checked_of_Validate.
Qed.

Lemma Save_checked io opts fs s fs' s' hooks r :
  Save path io opts fs s = (fs', s', hooks, r) -> current_checked s -> current_checked s'.
Proof.
  intros H%Save_cases Hs f.
  assert (Hok : (exists g, drafted io opts s g /\ committed g fs' s') -> s'.(current) = Some f -> Validate f = Ok f).
  { intros (g & Hg & (? & ? & ? & -> & ?)) [= <-]. by eapply drafted_checked. }
  assert (Hno : untouched fs s fs' s' -> s'.(current) = Some f -> Validate f = Ok f).
  { intros (_ & _ & _ & [-> | [l ->]]); [apply Hs | by apply share_peers_checked]. }
  destruct r as [g|[]]; destruct H; eauto. destruct H0. eauto.
Qed.

(** Whatever sequence of loads, reloads, saves (with any callback, even one
    that fails or writes the shared peer list) and outside edits of the file a
    process goes through, the configuration in memory is one that Validate
    accepts and leaves as it is. *)
Theorem current_always_valid fs s f :
  reachable (fun _ => True) (fs, s) -> s.(current) = Some f -> Validate f = Ok f.
Proof.
  intros [fs0 H]. revert f. change (current_checked s). remember (fs0, NewStore) as c0. remember (fs, s) as c.
  assert (Hgen : current_checked c0.2 -> current_checked c.2).
  { clear -H. induction H as [|x y z Hxy _ IH]; [done|]. intros Hx. apply IH.
    destruct Hxy; simpl in *; eauto using Load_checked, Reload_checked, Save_checked. }
  subst. by apply Hgen.
Qed.

(** ** The recorded hash *)

(** [d] is a text of the configuration [f]: the store wrote [f] as [d], or read
    [d], seeded and validated it, and obtained [f] *)
Definition text_of (d : string) (f : File) : Prop :=
  Marshal f = Ok d \/ exists g, Unmarshal d = Ok g /\ Validate (SeedFromEnv env g) = Ok f.

Definition described (s : Store) : Prop :=
  forall f, s.(current) = Some f -> exists d, text_of d f /\ s.(hash) = content_hash d.

(** a callback that leaves the array behind [Peers.List] alone *)
Definition respects_peers opts : Prop :=
  forall f, (run_mutate opts f).(mut_shared) = f.(f_Peers).(List).

Lemma share_peers_same (s : Store) f :
  share_peers (default f s.(current)).(f_Peers).(List) s = s.
Proof. destruct s as [[[? ? ? ? [] ? ? ? ?]|] ? ? ? ?]; done. Qed.

Lemma Save_untouched io opts fs s fs' s' hooks e :
  respects_peers opts -> Save path io opts fs s = (fs', s', hooks, Err e) ->
  (forall msg, e <> SErrUnlock msg) -> s' = s.
Proof.
  intros Hr H He. unfold Save in H. set (cur := default _ _) in H.
  assert (Hs : share_peers (run_mutate opts (Clone cur)).(mut_shared) s = s).
  { rewrite Hr. apply share_peers_same. }
  rewrite Hs in H. repeat (case_match; simplify_eq; try done). all: by edestruct He.
Qed.

Lemma step_described c c' : store_step respects_peers c c' -> described c.2 -> described c'.2.
Proof.
  unfold described, text_of. intros [] Hd; simpl in *; auto.
  - unfold Load, fail_load in H. repeat (case_match; simplify_eq/=; auto); intros g Hg; simplify_eq/=; eauto 10.
  - unfold ReloadIfChanged in H. repeat (case_match; simplify_eq/=; auto); intros g Hg; simplify_eq/=; eauto 10.
  - pose proof (Save_cases _ _ _ _ _ _ _ _ H0) as HA.
    assert (Hc : (exists f, drafted io opts s f /\ committed f fs' s') ->
      forall f, s'.(current) = Some f -> exists d,
       (Marshal f = Ok d \/ exists g, Unmarshal d = Ok g /\ Validate (SeedFromEnv env g) = Ok f)
       /\ s'.(hash) = content_hash d).
    { intros (f & _ & data & ? & _ & -> & ?) g [= <-]. eauto. }
    destruct r as [g|err]; [apply Hc; destruct HA as (? & ? & _); by eauto|].
    assert (Hs : (forall msg, err <> SErrUnlock msg) -> s' = s) by (intros; by eapply Save_untouched).
    destruct err; try (apply Hc; by destruct HA); by rewrite Hs.
Qed.

(** As long as the callbacks leave the shared peer list alone, the hash the
    store compares the file with is the hash of a text of the configuration in
    memory, in every reachable state. *)
Theorem hash_describes_current fs s f :
  reachable respects_peers (fs, s) -> s.(current) = Some f ->
  exists d, text_of d f /\ s.(hash) = content_hash d.
Proof.
  intros [fs0 H]. revert f. change (described s). remember (fs0, NewStore) as c0. remember (fs, s) as c.
  assert (Hgen : described c0.2 -> described c.2).
  { clear -H. induction H; eauto using step_described. }
  subst. by apply Hgen.
Qed.

(** A poll right after a Save sees no change and does nothing: the store's
    own writes do not come back to it as outside edits. *)
Theorem Save_then_reload io opts fs s fs' s' hooks f :
  Save path io opts fs s = (fs', s', hooks, Ok f) ->
  ReloadIfChanged path env None fs' s' = (s', (false, None)).
Proof.
  intros [_ [(data & _ & Hp & _ & Hh) _]]%Save_cases. unfold ReloadIfChanged, ReadFile.
  by rewrite Hp, Hh, String.eqb_refl.
Qed.

(** What an outside edit of the file does at the next poll: a text that
    parses and validates becomes the current configuration; any other leaves
    the store as it was, hash included, so that the error is reported again at
    every poll until the file changes. *)
Theorem reload_takes_valid_edits fs s data s' res :
  fs !! path = Some data -> content_hash data <> s.(hash) ->
  ReloadIfChanged path env None fs s = (s', res) ->
  match Unmarshal data with
  | Ok g =>
      match Validate (SeedFromEnv env g) with
      | Ok f => s'.(current) = Some f /\ s'.(hash) = content_hash data /\ res = (true, None)
      | Err e => s' = s /\ res = (true, Some (LErrValidate e))
      end
  | Err msg => s' = s /\ res = (true, Some (LErrParse msg))
  end.
Proof.
  unfold ReloadIfChanged, ReadFile. intros -> Hh%String.eqb_neq. rewrite Hh.
  repeat case_match; intros [= <- <-]; done.
Qed.

(** ** Restart *)

(** C31. A process that starts on the disk a Save left has that configuration
    again, with the peers' status cleared and what the environment adds. *)
Theorem restart_recovers `{!YamlLaws Y} io opts fs s fs' s' hooks f lio :
  Save path io opts fs s = (fs', s', hooks, Ok f) -> lio.(li_read) = None ->
  exists s'', Load path env lio fs' NewStore = (fs', (s'', None))
              /\ s''.(current) = Some (SeedFromEnv env (persisted f)) /\ s''.(hash) = s'.(hash).
Proof.
  intros [Hd [(data & Hm & Hp & _ & Hh) _]]%Save_cases Hr. apply drafted_checked in Hd.
  assert (Hu : Unmarshal data = Ok (persisted f)).
  { apply Unmarshal_Marshal; [|done]. apply ValidFile_checked in Hd as [[] _]. done. }
  unfold Load, ReadFile. rewrite Hr, Hp, Hu, (seed_checked env (persisted f)) by by apply persisted_checked. eexists. split; [done|]. by rewrite Hh.
Qed.

(** ** An empty list of defaults *)

(** a callback that does not make a nil list of defaults non-nil *)
Definition keeps_nil opts : Prop :=
  forall f, f.(UpstreamDefaults) = None -> (run_mutate opts f).(mut_draft).(UpstreamDefaults) = None.

Lemma Save_wedged io opts fs s f fs' s' hooks r :
  s.(current) = Some f -> f.(UpstreamDefaults) = Some [] -> keeps_nil opts ->
  Save path io opts fs s = (fs', s', hooks, r) -> is_Ok r = false.
Proof.
  intros Hc Hu Hk. unfold Save. rewrite Hc. cbn [default from_option id].
  assert (Hn : (run_mutate opts (Clone f)).(mut_draft).(UpstreamDefaults) = None).
  { apply Hk. unfold Clone, Snapshot. simpl. by rewrite Hu. }
  destruct (run_mutate opts (Clone f)) as [d err sh]. simpl in *.
  assert (He : finish_draft io opts.(Actor) d = Err EUpstreamsRequired).
  { unfold finish_draft, Validate, stampItems. simpl. by rewrite Hn. }
  rewrite He. repeat case_match; intros [= <- <- <- <-]; done.
Qed.

(** [Clone] turns the empty list of upstream defaults, which Validate and
    Load accept, into a nil one, which Validate refuses: once the current
    configuration has it, every Save whose callback leaves the defaults alone
    fails, whatever else it changes. *)
Theorem empty_defaults_block_saves io opts fs s f fs' s' hooks r :
  s.(current) = Some f -> f.(UpstreamDefaults) = Some [] -> keeps_nil opts ->
  Save path io opts fs s = (fs', s', hooks, r) -> is_Ok r = false.
Proof. apply Save_wedged. Qed.

(** ** Stamps *)

Definition stamped {A} `{SyncItem A} (by_ : A -> string) (x : A) : Prop := it_UpdatedAt x <> 0 /\ by_ x <> "".

(** Every item of a saved configuration has a timestamp and an author: its
    own where the callback left one, else the time and the actor of the Save;
    nothing else of it is changed (the default port apart). *)
Theorem Save_stamps io opts fs s fs' s' hooks f :
  Save path io opts fs s = (fs', s', hooks, Ok f) -> 0 < io.(si_stamp_now) -> opts.(Actor) <> "" ->
  Forall (stamped u_UpdatedBy) (elems f.(UpstreamDefaults)) /\
  Forall (stamped z_UpdatedBy) f.(ForwardZones) /\ Forall (stamped r_UpdatedBy) f.(StaticRecords)
  /\ f.(UpdatedBy) = opts.(Actor) /\ f.(Updated) = io.(si_now)
  /\ exists m : File,
       (forall x, In x f.(ForwardZones) ->
          exists y, In y m.(ForwardZones) /\ x = stamp_zone io.(si_stamp_now) opts.(Actor) y
                    /\ (stamped z_UpdatedBy y -> x = y))
       /\ (forall x, In x f.(StaticRecords) ->
          exists y, In y m.(StaticRecords) /\ x = stamp_record io.(si_stamp_now) opts.(Actor) y
                    /\ (stamped r_UpdatedBy y -> x = y))
       /\ m = (run_mutate opts (Clone (default (DefaultConfig io.(si_default_now)) s.(current)))).(mut_draft).
Proof.
  intros [(m & Hm & _ & Hd) _]%Save_cases Ht Ha. apply Validate_iff in Hd as [_ ->].
  assert (Hat : forall t, stamp_at (si_stamp_now io) t <> 0).
  { intros t. unfold stamp_at, IsZero. destruct (Z.eqb_spec t 0); lia. }
  assert (Hby : forall a, stamp_by (Actor opts) a <> "").
  { intros a. unfold stamp_by. destruct (String.eqb_spec a ""); done. }
  unfold stamped. simpl. rewrite Hm.
  split_and!; try done.
  - destruct (UpstreamDefaults (mut_draft m)) as [us|]; simpl; [|done].
    rewrite !Forall_map. apply Forall_true. intros u. simpl. unfold Upstream_defaults. destruct (_ =? 0); simpl; auto.
  - rewrite Forall_map. apply Forall_true. simpl. auto.
  - rewrite Forall_map. apply Forall_true. simpl. auto.
  - exists (mut_draft m). split_and!; [..|done].
    + intros x (y & <- & ?)%in_map_iff. exists y. split_and!; [done..|].
      intros [H1%Z.eqb_neq H2%String.eqb_neq]. unfold stamp_zone, stamp_at, stamp_by, IsZero. simpl in *.
      rewrite H1, H2. by destruct y.
    + intros x (y & <- & ?)%in_map_iff. exists y. split_and!; [done..|].
      intros [H1%Z.eqb_neq H2%String.eqb_neq]. unfold stamp_record, stamp_at, stamp_by, IsZero. simpl in *.
      rewrite H1, H2. by destruct y.
Qed.
End save.
#[export] Hint Resolve checked_of_Validate drafted_checked seed_checked bootstrap_checked : checked.
#[export] Hint Resolve Load_checked Reload_checked Save_checked : checked.

(** ** The environment only fills what the file leaves empty *)

(** what each variable makes of one field *)
Definition listen_of (e : Env) (v : string) : string := (seed_listen e {| Listen := v; SharedKey := ""; SyncIntervalSeconds := 0; ClockSkewSeconds := 0; List := [] |}).(Listen).
Definition key_of (e : Env) (v : string) : string := (seed_key e {| Listen := ""; SharedKey := v; SyncIntervalSeconds := 0; ClockSkewSeconds := 0; List := [] |}).(SharedKey).
Definition list_of (e : Env) (v : list Peer) : list Peer := (seed_list e {| Listen := ""; SharedKey := ""; SyncIntervalSeconds := 0; ClockSkewSeconds := 0; List := v |}).(List).

Lemma seed_peers_eq e p :
  seed_list e (seed_key e (seed_listen e p)) =
  {| Listen := listen_of e p.(Listen); SharedKey := key_of e p.(SharedKey);
     SyncIntervalSeconds := p.(SyncIntervalSeconds); ClockSkewSeconds := p.(ClockSkewSeconds);
     List := list_of e p.(List) |}.
Proof.
  assert (H1 : seed_listen e p = p <| Listen := listen_of e p.(Listen) |>).
  { unfold listen_of, seed_listen. simpl. destruct p. by repeat case_match. }
  assert (H2 : forall p, seed_key e p = p <| SharedKey := key_of e p.(SharedKey) |>).
  { intros [l k i c ps]. unfold key_of, seed_key. simpl. by repeat case_match. }
  assert (H3 : forall p, seed_list e p = p <| List := list_of e p.(List) |>).
  { intros [l k i c ps]. unfold list_of, seed_list. simpl. by repeat case_match. }
  by rewrite H1, H2, H3.
Qed.

Lemma listen_of_keep e v : v <> "" -> listen_of e v = v.
Proof. intros H%String.eqb_neq. unfold listen_of, seed_listen. simpl. rewrite H. by case_match. Qed.
Lemma key_of_keep e v : v <> "" -> key_of e v = v.
Proof. intros H%String.eqb_neq. unfold key_of, seed_key. simpl. by rewrite H. Qed.
Lemma list_of_keep e v : v <> [] -> list_of e v = v.
Proof. unfold list_of, seed_list. simpl. by destruct v; [done|]; case_match. Qed.

(** a function that keeps every value but [zero] is idempotent *)
Lemma keep_idem {A} (zero : A) (f : A -> A) (v : A) `{!Decision (f v = zero)} `{!Decision (v = zero)} :
  (forall x, x <> zero -> f x = x) -> f (f v) = f v.
Proof.
  intros H. destruct (decide (f v = zero)) as [E|E]; [|by apply H].
  destruct (decide (v = zero)) as [->|]; [by rewrite E|]. by rewrite !H by (rewrite ?H; done).
Qed.

(** The environment is a bootstrap: a listen address, a key or a peer list
    that the file has is never overwritten, nothing else of the file changes,
    and seeding twice is seeding once. *)
Theorem seeding_never_overwrites (e : Env) (f : File) :
  SeedFromEnv e f = f <| f_Peers := (SeedFromEnv e f).(f_Peers) |>
  /\ (f.(f_Peers).(Listen) <> "" -> (SeedFromEnv e f).(f_Peers).(Listen) = f.(f_Peers).(Listen))
  /\ (f.(f_Peers).(SharedKey) <> "" -> (SeedFromEnv e f).(f_Peers).(SharedKey) = f.(f_Peers).(SharedKey))
  /\ (f.(f_Peers).(List) <> [] -> (SeedFromEnv e f).(f_Peers).(List) = f.(f_Peers).(List))
  /\ SeedFromEnv e (SeedFromEnv e f) = SeedFromEnv e f.
Proof.
  unfold SeedFromEnv. simpl. rewrite !seed_peers_eq. simpl. split_and!.
  - done.
  - apply listen_of_keep.
  - apply key_of_keep.
  - apply list_of_keep.
  - do 2 f_equal.
    + apply keep_idem with ""; [apply _..|apply listen_of_keep].
    + apply keep_idem with ""; [apply _..|apply key_of_keep].
    + apply keep_idem with []; [apply _..|apply list_of_keep].
Qed.

(** On a first start, the listen address of the environment is not used:
    [DefaultConfig] has filled in its own before [SeedFromEnv] looks. *)
Theorem bootstrap_ignores_PEER_LISTEN io (e : Env) :
  (bootstrap io e).(f_Peers).(Listen) = "0.0.0.0:8443"
  /\ (forall l k ps, e.(LookupEnv) "PEER_SHARED_KEY" = Some k -> k <> "" ->
        e.(LookupEnv) "PEERS_INITIAL" = Some l -> ps = initial_peers (Split l ",") [] -> l <> "" ->
        (bootstrap io e).(f_Peers).(SharedKey) = k /\ (bootstrap io e).(f_Peers).(List) = ps).
Proof.
  unfold bootstrap, SeedFromEnv. simpl. rewrite seed_peers_eq. simpl. split.
  - by apply listen_of_keep.
  - intros l k ps Hk Hk0%String.eqb_neq Hl -> Hl0%String.eqb_neq.
    unfold key_of, list_of, seed_key, seed_list, env_nonempty. simpl. by rewrite Hk, Hk0, Hl, Hl0.
Qed.

Lemma take_before_index c s i :
  Index s (str1 c) = Some i -> lacks c (str_take i s) = true.
Proof.
  unfold lacks, str1. revert i. induction s as [|d s IH]; intros i; simpl; [by intros [=]|].
  replace (HasPrefix s "") with true by (by destruct s). rewrite andb_true_r. destruct (d =? c)%char eqn:E.
  - intros [= <-]. done.
  - destruct (Index s (String c "")) as [j|]; simpl; [|done]. intros [= <-]. simpl. rewrite E. by apply IH.
Qed.

Lemma index_none_lacks c s : Index s (str1 c) = None -> lacks c s = true.
Proof.
  unfold lacks, str1. induction s as [|d s IH]; simpl; [done|].
  replace (HasPrefix s "") with true by (by destruct s). rewrite andb_true_r. destruct (d =? c)%char eqn:E; [done|].
  destruct (Index s (String c "")); simpl; [done|]. intros _. by apply IH.
Qed.

Lemma ReplaceAll_lacks c old new s :
  (c = old \/ lacks c s = true) -> c <> new -> lacks c (ReplaceAll s old new) = true.
Proof.
  unfold lacks, ReplaceAll. intros H Hn. induction s as [|d s IH]; simpl in *; [done|].
  assert (Hs : c = old \/ sforall (fun d => negb (d =? c)%char) s = true).
  { destruct H as [|H]; [by left|]. right. by apply andb_true_iff in H as [_ ?]. }
  rewrite (IH Hs), andb_true_r. apply negb_true_iff, Ascii.eqb_neq.
  destruct (Ascii.eqb_spec d old) as [->|]; [done|]. destruct H as [->|H]; [done|].
  apply andb_true_iff in H as [H _]. by apply negb_true_iff, Ascii.eqb_neq in H.
Qed.

(** The name a peer gets from its URL is never empty and is a single label:
    no dot, no colon and no slash is left in it. *)
Theorem peerNameFromURL_label (u : string) :
  peerNameFromURL u <> "" /\ lacks "." (peerNameFromURL u) = true
  /\ lacks ":" (peerNameFromURL u) = true /\ lacks "/" (peerNameFromURL u) = true.
Proof.
  unfold peerNameFromURL. set (t := TrimPrefix _ "http://").
  set (s := match Index t "/" with Some i => _ | None => _ end).
  assert (Hs : lacks "/" s = true).
  { unfold s. destruct (Index t "/") eqn:E; [by apply take_before_index in E | by apply index_none_lacks in E]. }
  set (r := ReplaceAll _ "." "-"). destruct (String.eqb_spec r ""); [done|].
  split_and!; [done|..].
  - apply ReplaceAll_lacks; [by left|done].
  - apply ReplaceAll_lacks; [|done]. right. apply ReplaceAll_lacks; [by left|done].
  - apply ReplaceAll_lacks; [|done]. right. apply ReplaceAll_lacks; [by right|done].
Qed.

(** ** Witnesses *)

Definition ex_path : string := "/config/dnsforwarder.yaml".
Definition ex_old : File := ex_file (Some [ex_default "168.63.129.16" 53 5]) [] [].
Definition ex_note (n : string) : SaveOptions string :=
  mutate_by "gui" (fun f => f <| ForwardZones := f.(ForwardZones) ++ [ex_zone n "corp.example.com" 0] |>).
(** what a Save of [ex_note] makes of [ex_old] at time 7 *)
Definition ex_new : File :=
  (ex_file (Some [ex_default "168.63.129.16" 53 5])
    [(ex_zone "z1" "corp.example.com" 7)] []) <| Updated := 7 |> <| UpdatedBy := "gui" |>.
(** what a Save of nothing makes of [ex_old] at time 8 *)
Definition ex_lost : File := ex_old <| Updated := 8 |> <| UpdatedBy := "gui" |>.
#[local] Instance ex_yaml : Yaml := table_yaml [ex_old; ex_new; ex_lost].
Definition ex_store : Store :=
  {| current := Some ex_old; hash := content_hash ""; loadErr := None; onSave := true; onApply := true |}.
Definition ex_disk : FS := {[ex_path := ""]}.
Definition ex_disk' : FS := {[ex_path := "x"; ex_path +:+ ".lock" := ""]}.
Definition ex_store' : Store :=
  {| current := Some ex_new; hash := content_hash "x"; loadErr := None; onSave := true; onApply := true |}.

Lemma ex_save_eq :
  Save ex_path (fine_save 7) (ex_note "z1") ex_disk ex_store = (ex_disk', ex_store', [OnSave; OnApply], Ok ex_new).
Proof. vm_compute. reflexivity. Qed.

Lemma Save_atomic_witness : committed ex_path ex_new ex_disk' ex_store' /\ drafted (fine_save 7) (ex_note "z1") ex_store ex_new.
Proof.
  destruct (Save_atomic ex_path (fine_save 7) (ex_note "z1") ex_disk ex_store _ _ _ _ ex_save_eq) as (? & ? & _).
  split; assumption.
Defined.

Lemma ex_load_eq :
  Load ex_path no_env (fine_load 3) ex_disk NewStore
  = (ex_disk, (ex_store <| onSave := false |> <| onApply := false |>, None)).
Proof. vm_compute. reflexivity. Qed.

(** a process that loads, sets its hooks and saves *)
Lemma ex_reachable (P : SaveOptions string -> Prop) :
  P (ex_note "z1") -> reachable ex_path no_env P (ex_disk', ex_store').
Proof.
  intros HP. exists ex_disk. eapply rtc_l; [eapply step_load, ex_load_eq|].
  eapply rtc_l; [apply (step_hooks _ _ _ _ _ true true)|].
  eapply rtc_l; [eapply step_save; [exact HP | exact ex_save_eq]|]. apply rtc_refl.
Qed.

Lemma current_always_valid_witness : Validate ex_new = Ok ex_new.
Proof.
  apply (current_always_valid ex_path no_env (E := string) ex_disk' ex_store'); [|reflexivity].
  by apply ex_reachable.
Defined.

Lemma hash_describes_current_witness : exists d, text_of no_env d ex_new /\ content_hash "x" = content_hash d.
Proof.
  apply (hash_describes_current ex_path no_env (E := string) ex_disk' ex_store'); [|reflexivity].
  apply ex_reachable. intros f. reflexivity.
Defined.

Lemma Save_then_reload_witness :
  ReloadIfChanged ex_path no_env None ex_disk' ex_store' = (ex_store', (false, None)).
Proof. exact (Save_then_reload _ _ _ _ _ _ _ _ _ _ ex_save_eq). Defined.

Lemma ex_hash_new : content_hash "x" <> content_hash "".
Proof. vm_compute. discriminate. Qed.

Lemma reload_takes_valid_edits_witness :
  (ReloadIfChanged ex_path no_env None ex_disk' ex_store).1.(current) = Some ex_new.
Proof.
  destruct (ReloadIfChanged ex_path no_env None ex_disk' ex_store) as [s' res] eqn:H.
  assert (Hd : ex_disk' !! ex_path = Some "x") by (vm_compute; reflexivity).
  assert (Hv : Unmarshal "x" = Ok ex_new) by (vm_compute; reflexivity).
  assert (Hw : Validate (SeedFromEnv no_env ex_new) = Ok ex_new) by (vm_compute; reflexivity).
  pose proof (reload_takes_valid_edits ex_path no_env ex_disk' ex_store "x" s' res Hd ex_hash_new H) as R.
  rewrite Hv, Hw in R. exact (proj1 R).
Defined.

Lemma restart_recovers_witness :
  exists s, Load ex_path no_env (fine_load 9) ex_disk' NewStore = (ex_disk', (s, None))
            /\ s.(current) = Some (SeedFromEnv no_env (persisted ex_new)) /\ s.(hash) = content_hash "x".
Proof. exact (restart_recovers ex_path no_env _ _ _ _ _ _ _ _ (fine_load 9) ex_save_eq eq_refl). Defined.

(** a store whose last default was deleted while a forward zone was left *)
Definition ex_wedged : Store := ex_store <| current := Some (ex_new <| UpstreamDefaults := Some [] |>) |>.
Lemma empty_defaults_block_saves_witness :
  Validate (ex_new <| UpstreamDefaults := Some [] |>) = Ok (ex_new <| UpstreamDefaults := Some [] |>)
  /\ is_Ok (Save ex_path (fine_save 9) (ex_note "z2") ex_disk ex_wedged).2 = false.
Proof.
  split; [vm_compute; reflexivity|].
  destruct (Save ex_path (fine_save 9) (ex_note "z2") ex_disk ex_wedged) as [[[fs' s'] hooks] r] eqn:H.
  refine (empty_defaults_block_saves ex_path (fine_save 9) (ex_note "z2") ex_disk ex_wedged _ fs' s' hooks r eq_refl eq_refl _ H).
  intros f Hf. exact Hf.
Defined.

Lemma Save_stamps_witness : Forall (stamped z_UpdatedBy) ex_new.(ForwardZones).
Proof.
  assert (Ht : 0 < (fine_save 7).(si_stamp_now)) by reflexivity.
  assert (Ha : (ex_note "z1").(Actor) <> "") by discriminate.
  exact (proj1 (proj2 (Save_stamps _ _ _ _ _ _ _ _ _ ex_save_eq Ht Ha))).
Defined.

Definition ex_env : Env :=
  {| LookupEnv := fun n => if (n =? "PEER_LISTEN")%string then Some "10.99.0.1:8443"
                           else if (n =? "PEER_SHARED_KEY")%string then Some "secret"
                           else if (n =? "PEERS_INITIAL")%string then Some "https://10.99.0.2:8443" else None;
     readKeyFile := fun _ => None |}.
Lemma bootstrap_ignores_PEER_LISTEN_witness :
  (bootstrap (fine_load 3) ex_env).(f_Peers).(Listen) = "0.0.0.0:8443"
  /\ (bootstrap (fine_load 3) ex_env).(f_Peers).(SharedKey) = "secret".
Proof.
  destruct (bootstrap_ignores_PEER_LISTEN (fine_load 3) ex_env) as [H1 H2]. split; [exact H1|].
  refine (proj1 (H2 "https://10.99.0.2:8443" "secret" _ eq_refl _ eq_refl eq_refl _)); discriminate.
Defined.

(** ** Two writers *)

(** A second process that loaded the file before the Save, and has not polled
    since, saves from its own memory: the zone of the first Save is gone from
    the file. *)
Definition ex_other : SaveOptions string := mutate_by "gui" (fun f => f).
Example lost_update :
  (Save ex_path (fine_save 8) ex_other ex_disk' ex_store).1.1.1 !! ex_path = Some "xx"
  /\ Unmarshal "xx" = Ok ex_lost
  /\ ex_lost.(ForwardZones) = [] /\ ex_new.(ForwardZones) <> [].
Proof. split_and!; [vm_compute; reflexivity | vm_compute; reflexivity | reflexivity | discriminate]. Qed.
