(* ===== verification/GenerateProps.v ===== *)
(** The properties of internal/unbound/generate.go: no validated value can
    start a line or close a quote of its own, the clauses of the output and
    their order, and what [splitHostPort] makes of an upstream. *)
From S2P Require Import Prelude GoStrings Regex GoTime Config Validate Names ValidateSpec Sync Generate Samples.

(** ** Lines *)

Fixpoint count_char (c : ascii) (s : string) : nat :=
  match s with
  | EmptyString => O
  | String d s => if (d =? c)%char then S (count_char c s) else count_char c s
  end.

Lemma count_char_app c s t : count_char c (s +:+ t) = (count_char c s + count_char c t)%nat.
Proof.
  induction s as [|d s IH]; [done|]. rewrite append_cons. simpl. rewrite IH. by destruct (d =? c)%char.
Qed.

(** no newline and no quote: what a value written into the file must satisfy *)
Definition inert (s : string) : bool := sforall (fun c => negb (c =? NL)%char && negb (c =? DQ)%char) s.

Lemma inert_quotes s : inert s = true -> count_char DQ s = 0%nat.
Proof.
  unfold inert. induction s as [|c s IH]; simpl; [done|]. intros [[_ Hc%negb_true_iff]%andb_true_iff Hs]%andb_true_iff.
  by rewrite Hc, IH.
Qed.
Lemma inert_lacks s : inert s = true -> lacks NL s = true.
Proof. apply sforall_impl. intros c [? _]%andb_true_iff. done. Qed.
Lemma inert_app s t : inert (s +:+ t) = inert s && inert t.
Proof. apply sforall_app. Qed.
Lemma plain_inert s : sforall plain s = true -> inert s = true.
Proof.
  apply sforall_impl. intros c. 
  assert (H : forall c, negb (plain c) || (negb (c =? NL)%char && negb (c =? DQ)%char) = true)
    by (apply ascii_check; vm_compute; reflexivity).
  intros Hc. specialize (H c). by rewrite Hc in H.
Qed.
Lemma fmt_d_inert z : inert (fmt_d z) = true.
Proof. apply fmt_d_all. vm_compute. reflexivity. Qed.

(** what one write of the generator is: one line, its quotes in one pair *)
Definition one_line (l : string) : Prop :=
  lacks NL l = true /\ (count_char DQ l = 0 \/ count_char DQ l = 2)%nat.
Definition written (w : string) : Prop := exists l, w = ln l /\ one_line l.

Lemma written_ln l : inert l = true -> written (ln l).
Proof. intros H. exists l. split; [done|]. split; [by apply inert_lacks | left; by apply inert_quotes]. Qed.
Lemma written_tln l : inert l = true -> written (tln l).
Proof. intros H. apply written_ln. by rewrite inert_app, H. Qed.

Lemma one_line_quoted pre s : inert pre = true -> inert s = true -> one_line (pre +:+ dq s).
Proof.
  intros Hp Hs. unfold one_line, dq. split.
  - unfold lacks. rewrite !sforall_app. fold (lacks NL pre) (lacks NL s).
    by rewrite (inert_lacks _ Hp), (inert_lacks _ Hs).
  - right. rewrite !count_char_app, (inert_quotes _ Hp), (inert_quotes _ Hs). done.
Qed.
Lemma written_ln_dq pre s : inert pre = true -> inert s = true -> written (ln (pre +:+ dq s)).
Proof. intros. eexists. split; [done|]. by apply one_line_quoted. Qed.
Lemma written_tln_dq pre s : inert pre = true -> inert s = true -> written (tln (pre +:+ dq s)).
Proof.
  intros. unfold tln. rewrite <- append_assoc. apply written_ln_dq; [|done]. by rewrite inert_app, H.
Qed.

Ltac inert_tac :=
  lazymatch goal with
  | |- inert (_ +:+ _) = true => rewrite inert_app; apply andb_true_iff; split; inert_tac
  | |- inert (fmt_d _) = true => apply fmt_d_inert
  | |- _ => first [assumption | vm_compute; reflexivity]
  end.
Ltac written_tac :=
  lazymatch goal with
  | |- written (ln (_ +:+ dq _)) => apply written_ln_dq; inert_tac
  | |- written (tln (_ +:+ dq _)) => apply written_tln_dq; inert_tac
  | |- written (ln _) => apply written_ln; inert_tac
  | |- written (tln _) => apply written_tln; inert_tac
  end.
(** a list of writes, one by one *)
Ltac lines := repeat (apply Forall_cons; split; [written_tac|]); apply Forall_nil; exact I.

Lemma Split_written ws : Forall written ws -> exists ls, ws = map ln ls /\ Forall one_line ls
  /\ Split (concat_str ws) NL = ls ++ [""].
Proof.
  induction 1 as [|w ws (l & -> & Hl) _ (ls & -> & Hls & IH)]; [by exists []|].
  exists (l :: ls). split_and!; [done | by constructor|].
  change (concat_str (ln l :: map ln ls)) with (ln l +:+ concat_str (map ln ls)).
  unfold ln at 1, str1. rewrite append_assoc, append_cons, append_nil_l, Split_cons by apply Hl. by rewrite IH.
Qed.

(** ** splitHostPort *)

Lemma splitHostPort_host p s def : sforall p s = true -> sforall p (splitHostPort s def).1 = true.
Proof.
  intros H. apply sforall_trim in H. unfold splitHostPort.
  repeat case_match; cbn [fst]; try done; by apply sforall_take.
Qed.

Lemma inert_host s def host port :
  inert s = true -> splitHostPort s def = (host, port) -> inert host = true.
Proof. intros H E. change host with (host, port).1. rewrite <- E. by apply splitHostPort_host. Qed.

(** ** The parts of the file *)

Lemma valid_ip_inert s : valid_ip s = true -> inert s = true.
Proof. intros [H|H]%orb_true_iff; apply plain_inert; [by apply plain_ipv4 | by apply plain_ipv6]. Qed.
Lemma valid_upstream_inert s : valid_upstream s = true -> inert s = true.
Proof. intros [H|H]%orb_true_iff; [by apply valid_ip_inert | by apply plain_inert, plain_hostname]. Qed.

Lemma server_written f : inert f.(f_Settings).(DNSListen) = true -> Forall written (server_lines f).
Proof.
  intros H. unfold server_lines. destruct (splitHostPort _ _) as [host port] eqn:E.
  pose proof (inert_host _ _ _ _ H E) as Hh. rewrite !Forall_app. split_and!; [lines|..].
  - destruct (DNSSEC _); lines.
  - destruct (LogQueries _); lines.
  - lines.
Qed.

Lemma record_written r : record_ok r -> Forall written (record_lines r).
Proof.
  intros [_ Hn Hv]. unfold record_lines. destruct (r_Deleted r); [by apply Forall_nil|].
  assert (Hnm : inert (ensureFQDN (r_Name r)) = true).
  { apply plain_inert. apply plain_dnsName in Hn. unfold ensureFQDN.
    case_match; [done|]. by rewrite sforall_app, Hn. }
  assert (Hval : inert (r_Value r) = true).
  { apply plain_inert. destruct Hv as [[_ H]|[[_ H]|[_ H]]];
      [by apply plain_ipv4 | by apply plain_ipv6 | by apply plain_hostname]. }
  set (val := if _ && _ then _ else _).
  assert (Hval' : inert val = true).
  { unfold val, ensureFQDN. repeat case_match; try done. by rewrite inert_app, Hval. }
  repeat case_match; lines.
Qed.

Lemma records_written rs : Forall record_ok rs -> Forall written (records_lines rs).
Proof.
  intros H. assert (Hc : Forall written (concat (map record_lines rs) ++ [ln ""])).
  { apply Forall_app. split; [|lines]. apply Forall_concat, Forall_map. eapply Forall_impl; [exact H|].
    intros r. apply record_written. }
  destruct rs; [by apply Forall_nil | done].
Qed.

Lemma addr_written host port : inert host = true -> Forall written (addr_lines host port).
Proof. intros. unfold addr_lines. case_match; lines. Qed.

Lemma enabled_in u us : In u (enabled_defaults us) -> In u us /\ u.(u_Deleted) = false /\ u.(u_Enabled) = true.
Proof.
  unfold enabled_defaults. rewrite filter_In, negb_true_iff, orb_false_iff, negb_false_iff. tauto.
Qed.

Lemma defaults_written us : Forall default_ok us -> Forall written (defaults_lines us).
Proof.
  intros H. unfold defaults_lines.
  assert (He : Forall (fun u => inert u.(u_Address) = true) (enabled_defaults us)).
  { apply Forall_forall. intros u Hu%list_elem_of_In. apply enabled_in in Hu as (Hu & Hd & _).
    rewrite Forall_forall in H. apply valid_ip_inert, H; [by apply list_elem_of_In|done]. }
  destruct (enabled_defaults us) as [|u0 l] eqn:E; [by apply Forall_nil|]. rewrite <- E in *. clear E u0 l.
  rewrite !Forall_app. split_and!; [lines| |lines]. apply Forall_concat, Forall_map.
  eapply Forall_impl; [exact He|]. intros u. apply addr_written.
Qed.

Lemma zone_name_inert z : zone_ok z -> inert (TrimPrefix z.(z_Name) "*.") = true.
Proof.
  intros [_ Hn _ _ _ _]. apply plain_inert, sforall_TrimPrefix.
  apply orb_true_iff in Hn as [H|H]; [by apply plain_domain | by apply plain_label].
Qed.

Lemma zone_written z : zone_ok z -> Forall written (zone_lines z).
Proof.
  intros Hz. pose proof (zone_name_inert z Hz) as Hn. destruct Hz as [_ _ _ _ _ Hu].
  unfold zone_lines. destruct (z_Deleted z); [by apply Forall_nil|].
  rewrite !Forall_app. split_and!; [lines| |lines].
  destruct (z_LeastLatency z); [vm_compute splitHostPort; cbv iota beta; case_match; lines|].
  apply Forall_concat, Forall_map. eapply Forall_impl; [exact Hu|]. intros u H%valid_upstream_inert. simpl.
  destruct (splitHostPort u 53) as [host port] eqn:E. by eapply addr_written, inert_host.
Qed.

Lemma generated_written f :
  ValidFile f -> inert f.(f_Settings).(DNSListen) = true -> Forall written (generated f).
Proof.
  intros [_ Hd _ Hz _ Hr _] Hl. unfold generated. rewrite !Forall_app. split_and!.
  - by apply server_written.
  - by apply records_written.
  - by apply defaults_written.
  - apply Forall_concat, Forall_map. eapply Forall_impl; [exact Hz|]. apply zone_written.
  - lines.
Qed.

(** ** Properties *)

(** C17. No value of a validated configuration can add a line to the generated
    file or break out of its quotes: the text splits into exactly the lines the
    generator writes one by one, each with no quote or one pair of quotes.  The
    one setting that needs a condition is [DNSListen], which Validate does not
    look at. *)
Theorem Generate_no_injection (f : File) :
  Validate f = Ok f -> inert f.(f_Settings).(DNSListen) = true ->
  exists lines, generated f = map ln lines /\ Forall one_line lines
                /\ Split (Generate f) NL = lines ++ [""].
Proof.
  intros [Hv _]%Validate_iff Hl. by apply Split_written, generated_written.
Qed.

(** ** Clauses *)

Definition is_forward_zone (l : string) : bool := (l =? "forward-zone:")%string.
Definition is_local_data (l : string) : bool := HasPrefix l "local-data:".

Lemma HasPrefix_ln p l : lacks NL p = true -> HasPrefix (ln l) p = HasPrefix l p.
Proof.
  unfold lacks, ln, str1. revert l. induction p as [|c p IH]; intros [|d l]; try done; cbn [sforall].
  - intros [Hc%negb_true_iff _]%andb_true_iff. rewrite append_nil_l. cbn [HasPrefix]. by rewrite Ascii.eqb_sym, Hc.
  - intros [_ Hp]%andb_true_iff. rewrite append_cons. cbn [HasPrefix]. by rewrite IH.
Qed.

Lemma ln_inj l l' : ln l = ln l' -> l = l'.
Proof.
  unfold ln, str1. revert l'. induction l as [|c l IH]; intros [|d l']; rewrite ?append_cons, ?append_nil_l; try done.
  - intros [= -> E]. by destruct l'.
  - intros [= -> E]. by destruct l.
  - intros [= -> E]. by rewrite (IH l').
Qed.

(** the number of writes that start a forward zone *)
Definition starts (ws : list string) : nat := length (List.filter (fun w => (w =? ln "forward-zone:")%string) ws).

Lemma starts_app ws vs : starts (ws ++ vs) = (starts ws + starts vs)%nat.
Proof. unfold starts. by rewrite List.filter_app, length_app. Qed.
Lemma starts_concat {A} (f : A -> list string) (n : A -> nat) l :
  (forall x, starts (f x) = n x) -> starts (concat (map f l)) = sum_list (map n l).
Proof. intros H. induction l as [|x l IH]; [done|]. simpl. by rewrite starts_app, H, IH. Qed.
Lemma starts_lines ls : starts (map ln ls) = length (List.filter is_forward_zone ls).
Proof.
  unfold starts, is_forward_zone. induction ls as [|l ls IH]; simpl; [done|].
  destruct (String.eqb_spec (ln l) (ln "forward-zone:")) as [E%ln_inj|E].
  - subst. simpl. by rewrite IH.
  - destruct (String.eqb_spec l "forward-zone:") as [->|]; [done|]. done.
Qed.

Lemma starts_server f : starts (server_lines f) = 0%nat.
Proof.
  unfold server_lines. destruct (splitHostPort _ _). rewrite !starts_app.
  by destruct (DNSSEC _), (LogQueries _).
Qed.
Lemma starts_record r : starts (record_lines r) = 0%nat.
Proof. unfold record_lines. by repeat case_match. Qed.
Lemma sum_zeros {A} (l : list A) : sum_list (map (fun _ => 0%nat) l) = 0%nat.
Proof. by induction l. Qed.
Lemma starts_records rs : starts (records_lines rs) = 0%nat.
Proof.
  assert (H : starts (concat (map record_lines rs) ++ [ln ""]) = 0%nat).
  { by rewrite starts_app, (starts_concat _ (fun _ => 0%nat)), sum_zeros by apply starts_record. }
  by destruct rs.
Qed.
Lemma starts_addr h p : starts (addr_lines h p) = 0%nat.
Proof. unfold addr_lines. by case_match. Qed.
Lemma starts_defaults us :
  starts (defaults_lines us) = if existsb routes us then 1%nat else 0%nat.
Proof.
  unfold defaults_lines. destruct (enabled_defaults us) as [|u0 l] eqn:E.
  - replace (existsb routes us) with false; [done|]. symmetry. apply not_true_iff_false.
    intros (u & Hu & [Hd He]%andb_true_iff)%existsb_exists.
    assert (In u (enabled_defaults us)) as Hin; [|by rewrite E in Hin].
    unfold enabled_defaults. apply filter_In. split; [done|].
    apply negb_true_iff in Hd. by rewrite Hd, He.
  - replace (existsb routes us) with true.
    + rewrite !starts_app, (starts_concat _ (fun _ => 0%nat)), sum_zeros by (intros; apply starts_addr). done.
    + symmetry. apply existsb_exists. exists u0.
      destruct (enabled_in u0 us) as (? & Hd & He); [rewrite E; by left|].
      split; [done|]. unfold routes. by rewrite Hd, He.
Qed.
Lemma starts_zone z : starts (zone_lines z) = if z.(z_Deleted) then 0%nat else 1%nat.
Proof.
  unfold zone_lines. destruct (z_Deleted z); [done|]. rewrite !starts_app.
  destruct (z_LeastLatency z); [done|].
  rewrite (starts_concat _ (fun _ => 0%nat)), sum_zeros; [done|]. intros u. destruct (splitHostPort u 53). apply starts_addr.
Qed.

Lemma sum_live zs :
  sum_list (map (fun z => if z.(z_Deleted) then 0%nat else 1%nat) zs) = length (List.filter (fun z => negb z.(z_Deleted)) zs).
Proof. induction zs as [|z zs IH]; simpl; [done|]. rewrite IH. by destruct (z_Deleted z). Qed.

(** no write of the list is local data *)
Definition no_local (ws : list string) : Prop := Forall (fun w => is_local_data w = false) ws.
Lemma no_local_defaults us : no_local (defaults_lines us).
Proof.
  unfold defaults_lines. destruct (enabled_defaults us) as [|u0 l]; [by apply Forall_nil|]. set (us' := u0 :: l).
  unfold no_local. rewrite !Forall_app. split_and!; [by repeat constructor| |by repeat constructor].
  apply Forall_concat, Forall_map, Forall_true. intros u. unfold addr_lines. case_match; by repeat constructor.
Qed.
Lemma no_local_zone z : no_local (zone_lines z).
Proof.
  unfold zone_lines, no_local. destruct (z_Deleted z); [by apply Forall_nil|].
  rewrite !Forall_app. split_and!; [by repeat constructor| |by repeat constructor].
  destruct (z_LeastLatency z); [case_match; by repeat constructor|].
  apply Forall_concat, Forall_map, Forall_true. intros u. simpl. destruct (splitHostPort u 53).
  unfold addr_lines. case_match; by repeat constructor.
Qed.

(** C18. The generated file of a validated configuration whose DNSListen, which
    nothing validates, has no line break and no double quote: it has exactly one
    [forward-zone:] line per live forward zone, and one more, for the root, when
    some upstream default is live and enabled; and every [local-data] line comes
    before the first of them, as unbound's parser needs. *)
Theorem Generate_clauses (f : File) :
  Validate f = Ok f -> inert f.(f_Settings).(DNSListen) = true ->
  length (List.filter is_forward_zone (Split (Generate f) NL)) =
    ((if existsb routes (elems f.(UpstreamDefaults)) then 1 else 0)
     + length (List.filter (fun z => negb z.(z_Deleted)) f.(ForwardZones)))%nat
  /\ exists before after, Split (Generate f) NL = before ++ after
       /\ Forall (fun l => is_forward_zone l = false) before
       /\ Forall (fun l => is_local_data l = false) after.
Proof.
  intros [Hv _]%Validate_iff Hl. destruct (Split_written _ (generated_written f Hv Hl)) as (ls & Hg & _ & Hs).
  assert (Hn : starts (map ln ls) = ((if existsb routes (elems f.(UpstreamDefaults)) then 1 else 0)
     + length (List.filter (fun z => negb z.(z_Deleted)) f.(ForwardZones)))%nat).
  { rewrite <- Hg. unfold generated.
    rewrite !starts_app, starts_server, starts_records, starts_defaults, (starts_concat _ _ _ starts_zone), sum_live.
    change (starts [ln "remote-control:"; tln "control-enable: no"]) with 0%nat. lia. }
  unfold Generate. rewrite Hs. split.
  { rewrite List.filter_app, length_app, <- starts_lines, Hn. simpl. lia. }
  unfold generated in Hg. rewrite app_assoc in Hg. symmetry in Hg. apply map_eq_app in Hg as (A & B & -> & HA & HB).
  exists A, (B ++ [""]). split; [by rewrite app_assoc|]. split.
  - assert (H0 : length (List.filter is_forward_zone A) = 0%nat).
    { by rewrite <- starts_lines, HA, starts_app, starts_server, starts_records. }
    apply Forall_forall. intros l Hin%list_elem_of_In. apply not_true_iff_false. intros E.
    assert (In l (List.filter is_forward_zone A)) as Hf by (by apply filter_In).
    destruct (List.filter is_forward_zone A); done.
  - apply Forall_app. split; [|by repeat constructor].
    assert (HB' : no_local (map ln B)).
    { rewrite HB. unfold no_local. rewrite !Forall_app. split_and!; [apply no_local_defaults| |by repeat constructor].
      apply Forall_concat, Forall_map, Forall_true. intros z. apply no_local_zone. }
    unfold no_local in HB'. rewrite Forall_map in HB'. eapply Forall_impl; [exact HB'|].
    intros l. simpl. unfold is_local_data. by rewrite HasPrefix_ln.
Qed.

(** ** Addresses *)

Lemma HasPrefix_str1 s c : HasPrefix s (str1 c) = match s with String d _ => (d =? c)%char | EmptyString => false end.
Proof. destruct s as [|d s]; [done|]. unfold str1. cbn [HasPrefix]. destruct s; apply andb_true_r. Qed.

Lemma Contains_lacks c s : Contains s (str1 c) = negb (lacks c s).
Proof.
  unfold Contains, lacks. induction s as [|d s IH]; [done|]. cbn [Index]. rewrite HasPrefix_str1. cbn [sforall].
  destruct (d =? c)%char; [done|]. simpl. rewrite <- IH. by destruct (Index s (str1 c)).
Qed.

Lemma LastIndex_split c s :
  match LastIndex s (str1 c) with
  | Some i => s = str_take i s +:+ String c (str_drop (S i) s) /\ lacks c (str_drop (S i) s) = true
  | None => lacks c s = true
  end.
Proof.
  unfold lacks. induction s as [|d s IH]; [done|]. cbn [LastIndex]. rewrite HasPrefix_str1.
  destruct (LastIndex s (str1 c)) as [i|].
  - destruct IH as [E Hl]. change (str_drop (S (S i)) (String d s)) with (str_drop (S i) s). split; [|done].
    change (str_take (S i) (String d s)) with (String d (str_take i s)). by rewrite append_cons, <- E.
  - destruct (Ascii.eqb_spec d c) as [->|Hd]; cbn [sforall str_take str_drop].
    + split; [by destruct s | by destruct s].
    + rewrite IH, andb_true_r. by apply negb_true_iff, Ascii.eqb_neq.
Qed.

(** neither white space nor a bracket: bare host names and addresses *)
Definition bare (s : string) : bool :=
  sforall (fun c => negb (isSpace c)) s && negb (HasPrefix s "[").

(** What [splitHostPort] does with a string that holds a colon: it cuts at the last one. *)
Lemma splitHostPort_colon s def :
  bare s = true -> lacks ":" s = false ->
  exists host rest, s = host +:+ String ":" rest /\ lacks ":" rest = true
    /\ splitHostPort s def = (host, if Sscanf_d rest 0 =? 0 then def else Sscanf_d rest 0).
Proof.
  unfold bare. intros [Hsp Hb%negb_true_iff]%andb_true_iff Hc. unfold splitHostPort.
  rewrite (TrimSpace_none _ Hsp), (Contains_lacks ":"), Hc, Hb. cbn [negb]. cbv zeta.
  pose proof (LastIndex_split ":" s) as H. change (str1 ":") with ":" in H. destruct (LastIndex s ":") as [i|]; [|congruence].
  destruct H as [E Hl]. by exists (str_take i s), (str_drop (S i) s).
Qed.

(** [splitHostPort] reads back what a colon and a port number were appended
    to, and gives an address without a colon its default port. *)
Theorem splitHostPort_roundtrip (h : string) (n def : Z) :
  bare h = true -> lacks ":" h = true -> 0 < n < 2 ^ 63 ->
  splitHostPort (h +:+ ":" +:+ fmt_d n) def = (h, n) /\ splitHostPort h def = (h, def).
Proof.
  intros Hb Hc Hn. split.
  - assert (Hd : lacks ":" (fmt_d n) = true) by (apply fmt_d_all; vm_compute; reflexivity).
    change (":" +:+ fmt_d n) with (String ":" (fmt_d n)).
    destruct (splitHostPort_colon (h +:+ String ":" (fmt_d n)) def) as (host & rest & E & Hr & ->).
    + unfold bare in *. apply andb_true_iff in Hb as [Hsp Hp]. apply andb_true_iff. split.
      * rewrite sforall_app, Hsp. cbn [sforall]. rewrite (fmt_d_all (fun c => negb (isSpace c))); vm_compute; reflexivity.
      * revert Hp. change "[" with (str1 "["). rewrite !HasPrefix_str1. by destruct h.
    + unfold lacks. rewrite sforall_app. cbn. apply andb_false_r.
    + apply last_sep_inj in E as [<- <-]; [|done..]. rewrite Sscanf_fmt by lia.
      by destruct (Z.eqb_spec n 0); [lia|].
  - apply andb_true_iff in Hb as [Hsp _]. unfold splitHostPort.
    by rewrite (TrimSpace_none _ Hsp), (Contains_lacks ":"), Hc.
Qed.

(** A bare IPv6 address, which Validate accepts as an upstream, does not come
    through: its last group is taken for a port, and the address that is written
    is a proper prefix of the one configured. *)
Theorem splitHostPort_cuts_ipv6 (s : string) (def : Z) :
  re_match ipv6Re s = true -> lacks ":" s = false ->
  valid_upstream s = true /\
  exists host rest, splitHostPort s def = (host, if Sscanf_d rest 0 =? 0 then def else Sscanf_d rest 0)
                    /\ s = host +:+ ":" +:+ rest /\ host <> s.
Proof.
  intros Hm Hc. split; [unfold valid_upstream; by rewrite Hm, orb_true_r|].
  apply plain_ipv6 in Hm.
  assert (H : forall c, (negb (plain c) || negb (isSpace c) && negb (c =? "[")%char) = true)
    by (apply ascii_check; vm_compute; reflexivity).
  destruct (splitHostPort_colon s def) as (host & rest & E & Hr & Heq); [|done|].
  - unfold bare. apply andb_true_iff. split.
    + revert Hm. apply sforall_impl. intros c Hp. specialize (H c). rewrite Hp in H. by apply andb_true_iff in H as [? _].
    + change "[" with (str1 "["). rewrite HasPrefix_str1. destruct s as [|c s]; [done|].
      apply andb_true_iff in Hm as [Hp _]. specialize (H c). rewrite Hp in H. by apply andb_true_iff in H as [_ ?].
  - exists host, rest. split_and!; [done..|]. intros ->. apply (f_equal String.length) in E.
    rewrite append_length in E. simpl in E. lia.
Qed.

(** ** Witnesses *)

Definition ex_conf : File :=
  ex_file (Some [ex_default "168.63.129.16" 53 5])
    [ex_zone "z1" "corp.example.com" 5; (ex_zone "z2" "old.example.com" 5) <| z_Deleted := true |>]
    [ex_record "r1" "www.corp.example.com" "10.0.0.9" 5].
Lemma ex_conf_valid : Validate ex_conf = Ok ex_conf.
Proof. vm_compute. reflexivity. Qed.
Lemma ex_conf_inert : inert ex_conf.(f_Settings).(DNSListen) = true.
Proof. vm_compute. reflexivity. Qed.

Lemma Generate_no_injection_witness :
  exists lines, generated ex_conf = map ln lines /\ Forall one_line lines
                /\ Split (Generate ex_conf) NL = lines ++ [""].
Proof. exact (Generate_no_injection ex_conf ex_conf_valid ex_conf_inert). Defined.

Lemma Generate_clauses_witness :
  length (List.filter is_forward_zone (Split (Generate ex_conf) NL)) = 2%nat.
Proof. exact (proj1 (Generate_clauses ex_conf ex_conf_valid ex_conf_inert)). Defined.

Lemma splitHostPort_roundtrip_witness : splitHostPort "10.0.0.4:5353" 53 = ("10.0.0.4", 5353).
Proof.
  refine (proj1 (splitHostPort_roundtrip "10.0.0.4" 5353 53 eq_refl eq_refl _)). split; reflexivity.
Defined.

Lemma splitHostPort_cuts_ipv6_witness :
  exists host rest, splitHostPort "2001:db8::53" 53 = (host, if Sscanf_d rest 0 =? 0 then 53 else Sscanf_d rest 0)
                    /\ "2001:db8::53" = host +:+ ":" +:+ rest /\ host <> "2001:db8::53".
Proof. exact (proj2 (splitHostPort_cuts_ipv6 "2001:db8::53" 53 eq_refl eq_refl)). Defined.

Example ipv6_upstream_port : splitHostPort "2001:db8::53" 53 = ("2001:db8:", 53).
Proof. vm_compute. reflexivity. Qed.

(** The listen address is written as it is: with a newline in it, a validated
    configuration puts a line of its own into the file. *)
Definition ex_bad_listen : File :=
  ex_conf <| f_Settings := ex_settings <| DNSListen := "0.0.0.0" +:+ str1 NL +:+ "include: /tmp/x:53" |> |>.
Example DNSListen_injects :
  Validate ex_bad_listen = Ok ex_bad_listen
  /\ In "include: /tmp/x" (Split (Generate ex_bad_listen) NL).
Proof. split; [vm_compute; reflexivity|]. vm_compute. tauto. Qed.
