(* ===== verification/ProxyProps.v ===== *)
(** The properties of the least-latency proxy: the measurement does not depend
    on the order the pings end in, only the fastest targets are kept, the map of
    zones follows the configuration, what a query is answered, and the zones
    that no query can reach. *)
From Stdlib Require Import Sorting.Sorted.
From S2P Require Import Prelude GoStrings GoTime Config Validate Sync Generate NetIP Ping Proxy Samples.

(** ** The pings *)

Definition best_step (best rtt : Z) : Z := if (0 <? rtt) && ((best <? 0) || (rtt <? best)) then rtt else best.

Lemma best_step_comm b x y : (b = -1 \/ 0 < b) -> best_step (best_step b x) y = best_step (best_step b y) x.
Proof.
  unfold best_step. intros Hb.
  destruct (Z.ltb_spec 0 x), (Z.ltb_spec 0 y), (Z.ltb_spec b 0); simpl; try done;
    repeat (case_match; simpl; rewrite ?andb_true_iff, ?orb_true_iff, ?andb_false_iff, ?orb_false_iff, ?Z.ltb_lt, ?Z.ltb_ge in *); lia.
Qed.
Lemma best_step_range b x : (b = -1 \/ 0 < b) -> best_step b x = -1 \/ 0 < best_step b x.
Proof. unfold best_step. intros Hb. destruct (Z.ltb_spec 0 x); simpl; [|lia]. case_match; lia. Qed.

Definition best_fold (l : list Z) (b : Z) : Z := foldl best_step b l.

Lemma best_fold_perm l l' b : l ≡ₚ l' -> (b = -1 \/ 0 < b) -> best_fold l b = best_fold l' b.
Proof.
  intros H. revert b. induction H; intros b Hb; unfold best_fold in *; simpl; [done| | |].
  - apply IHPermutation. by apply best_step_range.
  - by rewrite best_step_comm.
  - rewrite IHPermutation1 by done. by apply IHPermutation2.
Qed.

Lemma pinger_fold l m b :
  foldl pinger_done (m, b) l = (list_to_map (rev l) ∪ m, best_fold (l.*2) b).
Proof.
  revert m b. induction l as [|[a t] l IH]; intros m b; simpl.
  - by rewrite (left_id_L ∅ (∪)).
  - rewrite IH. f_equal. rewrite list_to_map_app. simpl. rewrite insert_union_singleton_l.
    by rewrite insert_empty, (assoc_L (∪)).
Qed.

Lemma concurrentPinger_eq l :
  concurrentPinger l = (list_to_map (rev l), let b := best_fold (l.*2) (-1) in if b <? 0 then 0 else b).
Proof. unfold concurrentPinger. by rewrite pinger_fold, (right_id_L ∅ (∪)). Qed.

(** The goroutines of the pings may finish in any order: for distinct
    addresses the measured times and the best time are the same. *)
Theorem concurrentPinger_order (l l' : list (string * Duration)) :
  l ≡ₚ l' -> NoDup l.*1 -> concurrentPinger l = concurrentPinger l'.
Proof.
  intros Hp Hn. rewrite !concurrentPinger_eq. f_equal.
  - apply list_to_map_proper.
    + rewrite <- (Permutation_rev l). done.
    + by rewrite <- !Permutation_rev.
  - by rewrite (best_fold_perm l.*2 l'.*2) by (by rewrite ?Hp; auto || auto).
Qed.

Lemma best_fold_spec l b :
  (b = -1 \/ 0 < b) ->
  let r := best_fold l b in
  (r = -1 \/ 0 < r) /\ (r = -1 <-> b = -1 /\ Forall (fun t => t <= 0) l)
  /\ (0 < r -> r = b \/ In r l) /\ (forall t, In t l -> 0 < t -> 0 < r <= t) /\ (0 < b -> 0 < r <= b).
Proof.
  revert b. induction l as [|x l IH]; intros b Hb; cbv zeta; unfold best_fold; simpl.
  - split_and!; [done| |tauto|done|lia]. split; [by split; [|apply Forall_nil] | tauto].
  - destruct (IH (best_step b x) (best_step_range b x Hb)) as (H1 & H2 & H3 & H4 & H5). unfold best_fold in *.
    set (r := foldl best_step (best_step b x) l) in *. clearbody r.
    assert (Hs : (best_step b x = b /\ (x <= 0 \/ 0 < b <= x)) \/ (best_step b x = x /\ 0 < x /\ (b = -1 \/ x < b))).
    { unfold best_step. destruct (Z.ltb_spec 0 x), (Z.ltb_spec b 0), (Z.ltb_spec x b); simpl; lia. }
    rewrite Forall_cons. split_and!.
    + done.
    + destruct Hs as [[E ?]|[E ?]]; rewrite E in *; rewrite H2; intuition lia.
    + intros Hr. destruct (H3 Hr) as [->|]; [|tauto]. destruct Hs as [[E ?]|[E ?]]; rewrite E; tauto.
    + intros t [<-|Hin] Ht; [|by apply H4]. destruct Hs as [[E ?]|[E ?]]; rewrite E in *; lia.
    + intros Hb'. destruct Hs as [[E ?]|[E ?]]; rewrite E in *; lia.
Qed.

Lemma pinger_best (l : list (string * Duration)) :
  let best := (concurrentPinger l).2 in
  (best = 0 <-> Forall (fun p => p.2 <= 0) l)
  /\ (best <> 0 -> 0 < best /\ exists a, In (a, best) l)
  /\ (forall a t, In (a, t) l -> 0 < t -> 0 < best <= t).
Proof.
  rewrite concurrentPinger_eq. cbn [snd].
  destruct (best_fold_spec (l.*2) (-1) (or_introl eq_refl)) as (H1 & H2 & H3 & H4 & _).
  set (b := best_fold (l.*2) (-1)) in *. clearbody b. rewrite Forall_fmap in H2.
  assert (Hin : forall t, In t l.*2 <-> exists a, In (a, t) l).
  { intros t. rewrite <- list_elem_of_In, list_elem_of_fmap. setoid_rewrite list_elem_of_In.
    split; [intros ([a t'] & -> & ?); eauto | intros (a & ?); by exists (a, t)]. }
  split_and!.
  - split; intros H; destruct (Z.ltb_spec b 0); try lia.
    + apply H2. lia.
    + assert (b = -1) by (apply H2; split; [done|exact H]). lia.
  - destruct (Z.ltb_spec b 0); [done|]. intros Hb. split; [lia|]. apply Hin.
    destruct (H3 ltac:(lia)) as [->|]; [lia|done].
  - intros a t Ha Ht. assert (0 < b <= t) by (apply H4; [apply Hin; eauto | done]).
    destruct (Z.ltb_spec b 0); lia.
Qed.

(** The best time is the least positive one; it is 0 when every ping failed. *)
Theorem concurrentPinger_best (l : list (string * Duration)) :
  let best := (concurrentPinger l).2 in
  (best = 0 <-> Forall (fun p => p.2 <= 0) l)
  /\ (best <> 0 -> 0 < best /\ exists a, In (a, best) l)
  /\ (forall a t, In (a, t) l -> 0 < t -> 0 < best <= t).
Proof. apply pinger_best. Qed.

(** ** What a probe keeps *)

Lemma pinger_lookup l a t : NoDup l.*1 -> In (a, t) l -> (concurrentPinger l).1 !! a = Some t.
Proof.
  intros Hn Hin. rewrite concurrentPinger_eq. cbn [fst]. apply elem_of_list_to_map_1.
  - by rewrite <- (Permutation_rev l).
  - apply list_elem_of_In. by apply in_rev; rewrite rev_involutive.
Qed.

(** the address answered, and no address answered faster *)
Definition fastest (completions : list (string * Duration)) (a : string) : Prop :=
  exists t, In (a, t) completions /\ 0 < t /\ forall a' t', In (a', t') completions -> 0 < t' -> t <= t'.

Lemma best_fastest l a t :
  NoDup l.*1 -> In (a, t) l -> 0 < (concurrentPinger l).2 ->
  (t = (concurrentPinger l).2 <-> fastest l a).
Proof.
  intros Hn Ha Hb. destruct (pinger_best l) as (_ & H2 & H3). set (b := (concurrentPinger l).2) in *.
  split.
  - intros ->. exists b. split_and!; [done..|]. intros a' t' H' Ht'. by destruct (H3 a' t' H' Ht').
  - intros (t1 & Ht1 & Hp & Hmin).
    assert (t = t1) as ->.
    { pose proof (pinger_lookup l a t Hn Ha). pose proof (pinger_lookup l a t1 Hn Ht1). congruence. }
    destruct (H2 ltac:(lia)) as (_ & a0 & Ha0). pose proof (Hmin _ _ Ha0 Hb). destruct (H3 _ _ Ha Hp). lia.
Qed.

Lemma set_rtt_same m r : (set_rtt m r).(l_Type) = r.(l_Type) /\ (set_rtt m r).(l_Value) = r.(l_Value)
  /\ is_address (set_rtt m r) = is_address r.
Proof. unfold set_rtt, is_address. repeat case_match; simpl; by split_and!. Qed.

Lemma address_not_cname r : is_address r = true -> (r.(l_Type) =? TypeCNAME) = false.
Proof.
  unfold is_address, TypeA, TypeAAAA, TypeCNAME. rewrite orb_true_iff, !Z.eqb_eq, Z.eqb_neq. lia.
Qed.

Lemma probe_ips_in r records : In r records -> is_address r = true -> In r.(l_Value) (probe_ips records).
Proof. intros Hr Ha. apply in_map_iff. exists r. split; [done|]. by apply filter_In. Qed.

(** C35. After a probe of an answer whose records are not measured yet and whose
    addresses are all different, each pinged once: when some ping was answered, the zone holds exactly the CNAMEs of the
    answer and the addresses that tie at the lowest latency, and at least one
    address; when no ping was answered it holds the whole answer.  (An address that
    comes twice is another matter: see [duplicate_address_drops_all].) *)
Theorem probe_keeps_fastest (records : list latencyRecord) (completions : list (string * Duration)) :
  NoDup (probe_ips records) -> completions.*1 ≡ₚ probe_ips records ->
  Forall (fun r => r.(l_RTT) = 0) records ->
  let m := (concurrentPinger completions).1 in
  let kept := rank_records records completions in
  (Forall (fun p => p.2 <= 0) completions -> kept = map (set_rtt m) records)
  /\ (~ Forall (fun p => p.2 <= 0) completions ->
      (forall r, In r kept <-> exists r0, In r0 records /\ r = set_rtt m r0
          /\ (r0.(l_Type) = TypeCNAME \/ is_address r0 = true /\ fastest completions r0.(l_Value)))
      /\ exists r, In r kept /\ is_address r = true).
Proof.
  intros Hn Hp H0 m kept. pose proof (pinger_best completions) as (Hb0 & Hb1 & Hb2).
  assert (Hn' : NoDup completions.*1) by (by rewrite Hp). unfold kept, rank_records.
  destruct (concurrentPinger completions) as [m' best] eqn:E. cbn [fst snd] in *. subst m. split.
  { intros Hall. apply Hb0 in Hall as ->. done. }
  intros Hsome. assert (Hbest : 0 < best).
  { destruct (Z.eq_dec best 0) as [Hz|Hz]; [by apply Hb0 in Hz|]. by apply Hb1. }
  destruct (Z.leb_spec best 0); [lia|]. simpl negb. cbv iota.
  assert (Haddr : forall r0, In r0 records -> is_address r0 = true ->
     ((set_rtt m' r0).(l_RTT) = best <-> fastest completions r0.(l_Value))).
  { intros r0 Hr Ha. pose proof (probe_ips_in r0 records Hr Ha) as Hip.
    rewrite <- list_elem_of_In, <- Hp, list_elem_of_fmap in Hip. destruct Hip as ([a t] & Hv & Hin%list_elem_of_In).
    simpl in Hv. pose proof (pinger_lookup completions a t Hn' Hin) as Hl. rewrite E in Hl. cbn [fst] in Hl.
    unfold set_rtt. rewrite Ha, Hv, Hl. simpl.
    pose proof (best_fastest completions a t Hn' Hin) as Hf. rewrite E in Hf. cbn [snd] in Hf. by apply Hf. }
  assert (Hchar : forall r, In r (List.filter (fun r => (l_Type r =? TypeCNAME) || (l_RTT r =? best)) (map (set_rtt m') records))
    <-> exists r0, In r0 records /\ r = set_rtt m' r0
          /\ (r0.(l_Type) = TypeCNAME \/ is_address r0 = true /\ fastest completions r0.(l_Value))).
  { intros r. rewrite filter_In, in_map_iff, orb_true_iff, !Z.eqb_eq. split.
    - intros [(r0 & <- & Hr) Hc]. exists r0. split_and!; [done..|].
      destruct (set_rtt_same m' r0) as (Ht & _ & _). rewrite Ht in Hc. destruct Hc as [|Hc]; [by left|].
      destruct (is_address r0) eqn:Ha; [right; split; [done|by apply Haddr]|].
      exfalso. unfold set_rtt in Hc. rewrite Ha in Hc. rewrite Forall_forall in H0.
      apply list_elem_of_In in Hr. specialize (H0 r0 Hr). simpl in H0. lia.
    - intros (r0 & Hr & -> & Hc). split; [eauto|]. destruct (set_rtt_same m' r0) as (-> & _ & _).
      destruct Hc as [|[Ha Hf]]; [by left|]. right. by apply Haddr. }
  split; [exact Hchar|].
  destruct (Hb1 ltac:(lia)) as (_ & a & Hin).
  assert (Hip : In a (probe_ips records)).
  { rewrite <- list_elem_of_In, <- Hp, list_elem_of_fmap. exists (a, best). split; [done|by apply list_elem_of_In]. }
  apply in_map_iff in Hip as (r0 & <- & [Hr Ha]%filter_In). exists (set_rtt m' r0). split.
  - apply Hchar. exists r0. split_and!; [done..|]. right. split; [done|].
    exists best. split_and!; [done..|]. intros a' t' H' Ht'. by destruct (Hb2 _ _ H' Ht').
  - by destruct (set_rtt_same m' r0) as (_ & _ & ->).
Qed.

(** ** resolveTarget *)

Lemma string_ltb_asym s : forall t, string_ltb s t = true -> string_ltb t s = false.
Proof.
  induction s as [|c s IH]; intros [|d t]; simpl; try done.
  rewrite orb_true_iff, andb_true_iff, orb_false_iff, andb_false_iff, !Z.ltb_lt, !Z.eqb_eq, Z.ltb_ge, Z.eqb_neq.
  intros [H|[H Ht]]; [lia|]. split; [lia|]. right. by apply IH.
Qed.

Lemma record_less_asym a b : record_less a b = true -> record_less b a = false.
Proof.
  unfold record_less. rewrite (Z.eqb_sym (l_Type b)). destruct (Z.eqb_spec (l_Type a) (l_Type b)); simpl;
    [apply string_ltb_asym | rewrite Z.ltb_lt, Z.ltb_ge; lia].
Qed.

(** neighbours are not in the wrong order *)
Abbreviation in_order := (Sorted (fun a b => record_less b a = false)).

Lemma insert_record_sorted x l : in_order l -> in_order (insert_record x l).
Proof.
  induction l as [|y l IH]; simpl; intros H; [by repeat constructor|].
  destruct (record_less x y) eqn:E.
  - constructor; [done|]. constructor. by apply record_less_asym.
  - apply Sorted_inv in H as [Hl Hy]. constructor; [by apply IH|]. clear IH.
    destruct l as [|z l]; simpl; [by constructor|]. apply HdRel_inv in Hy.
    destruct (record_less x z); by constructor.
Qed.
Lemma insert_record_perm x l : insert_record x l ≡ₚ x :: l.
Proof.
  induction l as [|y l IH]; simpl; [done|]. destruct (record_less x y); [done|]. rewrite IH. apply Permutation_swap.
Qed.

Lemma sort_records_spec l : in_order (sort_records l) /\ sort_records l ≡ₚ l.
Proof.
  unfold sort_records. enough (H : forall acc, in_order acc ->
    let r := foldl (fun acc x => insert_record x acc) acc l in in_order r /\ r ≡ₚ l ++ acc).
  { destruct (H [] ltac:(constructor)) as [? Hp]. by rewrite app_nil_r in Hp. }
  induction l as [|x l IH]; intros acc Ha; simpl; [done|].
  destruct (IH (insert_record x acc) (insert_record_sorted _ _ Ha)) as [? Hp]. split; [done|].
  rewrite Hp, insert_record_perm. apply Permutation_sym, Permutation_middle.
Qed.

(** A resolution succeeds exactly when one of its two questions brought an
    A, AAAA or CNAME record, a failed or refused question counting as empty; it
    returns all of them, unmeasured, by type and then by value. *)
Theorem resolveTarget_complete (name : string) (exch : Z -> option (Z * list RR)) :
  let out := answers_of name (exch TypeA) ++ answers_of name (exch TypeAAAA) in
  (resolveTarget name exch = None <-> out = [])
  /\ (forall rs, resolveTarget name exch = Some rs ->
        rs ≡ₚ out /\ in_order rs /\ Forall (fun r => r.(l_RTT) = 0 /\ r.(l_Target) = name) rs).
Proof.
  cbv zeta. unfold resolveTarget. set (out := _ ++ _).
  assert (Hout : Forall (fun r => r.(l_RTT) = 0 /\ r.(l_Target) = name) out).
  { unfold out. apply Forall_app. enough (forall r, Forall (fun r => r.(l_RTT) = 0 /\ r.(l_Target) = name) (answers_of name r)) by done.
    intros [[rc ans]|]; simpl; [|by apply Forall_nil]. case_match; [by apply Forall_nil|].
    apply Forall_concat, Forall_map, Forall_true. intros [] ; simpl; by repeat constructor. }
  clearbody out. split; [by destruct out|]. intros rs. destruct out as [|r out]; [done|]. intros [= <-].
  destruct (sort_records_spec (r :: out)) as [Hs Hp]. split_and!; [done..|]. by rewrite Hp.
Qed.

(** ** The map of zones *)

Section zones.
Context (Fqdn : string -> string).

Definition eligible (z : ForwardZone) : Prop :=
  z.(z_Deleted) = false /\ z.(z_LeastLatency) = true /\ z.(z_Wildcard) = false /\ z.(z_Upstreams) <> [].

(** the zone state carries the settings of the forward zone *)
Definition follows (z : ForwardZone) (o : zoneState) : Prop :=
  o.(zs_Name) = Fqdn z.(z_Name) /\ o.(zs_Interval) = probe_interval z
  /\ exists up ups, z.(z_Upstreams) = up :: ups /\ o.(zs_Upstream) = probe_upstream up.

(** every name of the map has a state of that name *)
Definition named (h : list zoneState) (m : gmap string nat) : Prop :=
  forall n l, m !! n = Some l -> exists o, h !! l = Some o /\ o.(zs_Name) = n.

(** what the loop has built from the zones [zs] it has seen *)
Definition built (h0 : list zoneState) (zs : list ForwardZone) (acc : list zoneState * gmap string nat) : Prop :=
  h0 `prefix_of` acc.1
  /\ (forall n l, acc.2 !! n = Some l ->
        exists z o, In z zs /\ eligible z /\ acc.1 !! l = Some o /\ o.(zs_Name) = n /\ follows z o)
  /\ (forall z, In z zs -> eligible z -> is_Some (acc.2 !! Fqdn z.(z_Name))).

Lemma built_named h0 zs acc : built h0 zs acc -> named acc.1 acc.2.
Proof. intros (_ & H & _) n l Hl. destruct (H n l Hl) as (z & o & ? & ? & ? & ? & _). eauto. Qed.

Lemma built_insert h0 zs h m z l o h' :
  built h0 zs (h, m) -> h `prefix_of` h' -> eligible z -> h' !! l = Some o -> follows z o ->
  built h0 (zs ++ [z]) (h', <[Fqdn z.(z_Name) := l]> m).
Proof.
  intros (Hp & Hm & Hd) Hh Hz Hl Ho. split_and!; simpl in *.
  - by etrans.
  - intros n k. destruct (decide (n = Fqdn z.(z_Name))) as [->|Hn].
    + rewrite lookup_insert_eq. intros [= <-]. exists z, o. split_and!; try done; [|by destruct Ho].
      apply in_or_app. right. by left.
    + rewrite lookup_insert_ne by done. intros Hk. destruct (Hm n k Hk) as (z' & o' & ? & ? & Hk' & ? & ?).
      exists z', o'. split_and!; try done; [apply in_or_app; by left | by eapply prefix_lookup_Some].
  - intros z' [Hin|[<-|[]]]%in_app_or He; [|rewrite lookup_insert_eq; eauto].
    destruct (decide (Fqdn (z_Name z') = Fqdn (z_Name z))) as [->|]; [rewrite lookup_insert_eq; eauto|].
    rewrite lookup_insert_ne by done. by apply Hd.
Qed.

Lemma built_skip h0 zs h m z : ~ eligible z -> built h0 zs (h, m) -> built h0 (zs ++ [z]) (h, m).
Proof.
  intros Hz (Hp & Hm & Hd). split_and!; simpl in *; [done| |].
  - intros n l Hl. destruct (Hm n l Hl) as (z' & o' & ? & Hr). exists z', o'. split; [apply in_or_app; by left|done].
  - intros z' [Hin|[<-|[]]]%in_app_or He; [by apply Hd | done].
Qed.

Lemma built_step old h0 zs acc z :
  named h0 old -> built h0 zs acc -> built h0 (zs ++ [z]) (rebuild_zone Fqdn old acc z).
Proof.
  destruct acc as [h m]. intros Ho Hb. unfold rebuild_zone.
  destruct (_ || _ || _) eqn:E.
  { apply built_skip; [|done]. intros (Hd & Hl & Hw & _). by rewrite Hd, Hl, Hw in E. }
  destruct (z_Upstreams z) as [|up ups] eqn:Hu; [apply built_skip; [|done]; by intros (_ & _ & _ & ?)|].
  go_bools. assert (Hel : eligible z).
  { unfold eligible. rewrite Hu. by split_and!. }
  set (o := {| zs_Name := _; zs_Upstream := _; zs_Interval := _; zs_Records := _; zs_Updated := _; zs_Err := _ |}).
  assert (Hfresh : built h0 (zs ++ [z]) (h ++ [o], <[Fqdn (z_Name z) := length h]> m)).
  { apply (built_insert _ _ _ _ _ _ o _ Hb); [by eexists | done | by rewrite lookup_app_r, Nat.sub_diag by lia |].
    repeat split; eauto. }
  destruct (old !! Fqdn (z_Name z)) as [l|] eqn:Hl; [|done]. simpl.
  destruct (Ho _ _ Hl) as (o' & Hl' & Hn). destruct Hb as (Hp & Hm & Hd). simpl in Hp.
  assert (Hk : h !! l = Some o') by (by eapply prefix_lookup_Some). rewrite Hk. simpl.
  destruct (_ && _) eqn:E2; [|done]. apply andb_true_iff in E2 as [E2%String.eqb_eq E3%Z.eqb_eq].
  apply (built_insert _ _ h _ _ _ o'); try done. repeat split; eauto.
Qed.

Lemma built_all old h0 zs : forall done_ acc,
  named h0 old -> built h0 done_ acc -> built h0 (done_ ++ zs) (foldl (rebuild_zone Fqdn old) acc zs).
Proof.
  induction zs as [|z zs IH]; intros d acc Ho Hb; simpl; [by rewrite app_nil_r|].
  replace (d ++ z :: zs) with ((d ++ [z]) ++ zs) by (by rewrite <- app_assoc).
  apply IH; [done|]. by apply built_step.
Qed.

(** ** Probing many zones *)

Lemma probeZone_comm exch1 c1 t1 exch2 c2 t2 l1 l2 s :
  l1 <> l2 -> probeZone exch1 c1 t1 l1 (probeZone exch2 c2 t2 l2 s) = probeZone exch2 c2 t2 l2 (probeZone exch1 c1 t1 l1 s).
Proof. intros H. unfold probeZone. simpl. by rewrite list_alter_alter_ne. Qed.

(** The probes of a pass run at the same time, one goroutine for a zone; what
    they leave does not depend on the order in which they end. *)
Theorem probeAll_order (probes : nat -> Probe) (ls ls' : list nat) (s : Server) :
  ls ≡ₚ ls' -> probeAll probes ls s = probeAll probes ls' s.
Proof.
  unfold probeAll. intros H. revert s. induction H as [|l ls ls' _ IH|l k ls|ls1 ls2 ls3 _ IH1 _ IH2]; intros s; simpl.
  - done.
  - apply IH.
  - destruct (decide (k = l)) as [->|Hne]; [done|]. by rewrite probeZone_comm.
  - by rewrite IH1.
Qed.

Lemma probeAll_same probes ls : forall s, (probeAll probes ls s).(zones) = s.(zones) /\ (probeAll probes ls s).(started) = s.(started).
Proof. unfold probeAll. induction ls as [|l ls IH]; intros s; simpl; [done|]. by destruct (IH (probeZone (probes l).(pb_exchange) (probes l).(pb_pings) (probes l).(pb_now) l s)) as [-> ->]. Qed.

(** ** Reachable servers *)

Inductive proxy_step : Server -> Server -> Prop :=
  | px_start cur s : proxy_step s (Start Fqdn cur s)
  | px_stop s : proxy_step s (Stop s)
  | px_rebuild cur s : proxy_step s (rebuildZones Fqdn cur s)
  | px_probe exch completions now l s : proxy_step s (probeZone exch completions now l s).
Definition proxy_reachable (s : Server) : Prop := rtc proxy_step New s.

Lemma rebuild_built f s :
  named s.(heap) s.(zones) ->
  built s.(heap) f.(ForwardZones) ((rebuildZones Fqdn (Some f) s).(heap), (rebuildZones Fqdn (Some f) s).(zones)).
Proof.
  intros Hn. pose proof (built_all s.(zones) s.(heap) f.(ForwardZones) [] (s.(heap), ∅) Hn) as H. simpl in H.
  unfold rebuildZones. destruct (foldl _ _ _) as [h m]. simpl. apply H.
  split_and!; simpl; [done| |]; intros; set_solver.
Qed.

Lemma named_rebuild cur s : named s.(heap) s.(zones) -> named (rebuildZones Fqdn cur s).(heap) (rebuildZones Fqdn cur s).(zones).
Proof.
  destruct cur as [f|]; [|intros _ n l; simpl; by rewrite lookup_empty].
  intros Hn. exact (built_named _ _ _ (rebuild_built f s Hn)).
Qed.

Lemma probe_result_same exch c now z : (probe_result exch c now z).(zs_Name) = z.(zs_Name)
  /\ (probe_result exch c now z).(zs_Upstream) = z.(zs_Upstream) /\ (probe_result exch c now z).(zs_Interval) = z.(zs_Interval).
Proof. unfold probe_result. by case_match. Qed.

Lemma reachable_named s : proxy_reachable s -> named s.(heap) s.(zones).
Proof.
  unfold proxy_reachable. intros H. remember New as s0 eqn:E.
  assert (H0 : named s0.(heap) s0.(zones)) by (subst; intros n l; simpl; by rewrite lookup_empty).
  clear E. induction H as [|x y z Hxy _ IH]; [done|]. apply IH. clear IH. destruct Hxy.
  - unfold Start. case_match; [done|]. by apply named_rebuild.
  - unfold Stop. by case_match.
  - by apply named_rebuild.
  - intros n k Hk. destruct (H0 n k Hk) as (o & Ho & Hn). simpl.
    destruct (decide (k = l)) as [->|]; [|exists o; by rewrite list_lookup_alter_ne].
    eexists. rewrite list_lookup_alter_eq, Ho. split; [done|].
    by destruct (probe_result_same exch completions now o) as (-> & _).
Qed.

(** the operations made of these steps *)
Lemma probeAll_steps probes ls : forall s, rtc proxy_step s (probeAll probes ls s).
Proof. unfold probeAll. induction ls as [|l ls IH]; intros s; simpl; [apply rtc_refl|]. eapply rtc_l; [apply px_probe | apply IH]. Qed.
Lemma RefreshNow_steps cur probes s : rtc proxy_step s (RefreshNow Fqdn cur probes s).
Proof. eapply rtc_l; [apply px_rebuild | apply probeAll_steps]. Qed.
Lemma refreshLoop_steps passes : forall s, rtc proxy_step s (refreshLoop Fqdn passes s).
Proof.
  induction passes as [|[[cur now] probes] passes IH]; intros s; simpl; [apply rtc_refl|].
  etrans; [|apply IH]. eapply rtc_l; [apply px_rebuild | apply probeAll_steps].
Qed.

Lemma lookup_rebuilt (s : Server) (f : File) (n : string) :
  proxy_reachable s ->
  let s' := rebuildZones Fqdn (Some f) s in
  (is_Some (lookup_zone s' n) <-> exists z, In z f.(ForwardZones) /\ eligible z /\ Fqdn z.(z_Name) = n)
  /\ forall o, lookup_zone s' n = Some o -> exists z, In z f.(ForwardZones) /\ eligible z /\ o.(zs_Name) = n /\ follows z o.
Proof.
  intros Hs%reachable_named s'. destruct (rebuild_built f s Hs) as (_ & Hm & Hd). fold s' in Hm, Hd. simpl in *.
  unfold lookup_zone. assert (H2 : forall o, zones s' !! n ≫= (fun l => heap s' !! l) = Some o ->
     exists z, In z f.(ForwardZones) /\ eligible z /\ o.(zs_Name) = n /\ follows z o).
  { intros o. destruct (zones s' !! n) as [l|] eqn:Hl; [|done]. simpl. intros Ho.
    destruct (Hm n l Hl) as (z & o' & ? & ? & Ho' & ? & ?). rewrite Ho in Ho'. injection Ho' as ->. eauto. }
  split; [|exact H2]. split.
  - intros [o Ho]. destruct (H2 o Ho) as (z & ? & ? & Hn & Hf & _). exists z. by rewrite <- Hn.
  - intros (z & Hin & He & <-). destruct (Hd z Hin He) as [l Hl]. rewrite Hl. simpl.
    destruct (Hm _ _ Hl) as (? & o & _ & _ & Ho & _). eauto.
Qed.
(** the reused states: what the loop does to the name of a state whose zones did not change *)
Lemma keep_step old h0 zs h m z n l o :
  named h0 old -> built h0 zs (h, m) -> old !! n = Some l -> h0 !! l = Some o ->
  (eligible z -> Fqdn z.(z_Name) = n -> follows z o) ->
  (m !! n = None \/ m !! n = Some l) ->
  let m' := (rebuild_zone Fqdn old (h, m) z).2 in m' !! n = None \/ m' !! n = Some l.
Proof.
  intros Ho (Hp & _) Hl Hh Hz Hm. simpl in Hp. unfold rebuild_zone.
  destruct (_ || _ || _) eqn:E; [done|]. destruct (z_Upstreams z) as [|up ups] eqn:Hu; [done|].
  set (fresh := (_, _)). go_bools.
  destruct (decide (Fqdn (z_Name z) = n)) as [Hn|Hn].
  - assert (Hk : h !! l = Some o) by (by eapply prefix_lookup_Some).
    rewrite Hn, Hl. cbn -[probe_upstream probe_interval Z.eqb String.eqb]. rewrite Hk. cbn -[probe_upstream probe_interval Z.eqb String.eqb].
    destruct Hz as (_ & Hi & up' & ups' & Hu' & Hup); [unfold eligible; rewrite Hu; by split_and! | done|].
    rewrite Hu in Hu'. injection Hu' as <- <-. rewrite Hup, Hi, String.eqb_refl, Z.eqb_refl. simpl. right. by rewrite lookup_insert_eq.
  - destruct (old !! Fqdn (z_Name z) ≫= _) as [[k o']|]; simpl; [destruct (_ && _)|];
      unfold fresh; simpl; by rewrite lookup_insert_ne.
Qed.

Lemma keep_all old h0 n l o zs : forall done_ acc,
  named h0 old -> built h0 done_ acc -> old !! n = Some l -> h0 !! l = Some o ->
  (forall z, In z zs -> eligible z -> Fqdn z.(z_Name) = n -> follows z o) ->
  (acc.2 !! n = None \/ acc.2 !! n = Some l) ->
  let m' := (foldl (rebuild_zone Fqdn old) acc zs).2 in m' !! n = None \/ m' !! n = Some l.
Proof.
  induction zs as [|z zs IH]; intros d [h m] Ho Hb Hl Hh Hz Hm; simpl; [done|].
  refine (IH (d ++ [z]) (rebuild_zone Fqdn old (h, m) z) Ho (built_step old h0 d (h, m) z Ho Hb) Hl Hh _ _).
  - intros z' ?. apply Hz. by right.
  - eapply keep_step; [exact Ho | exact Hb | done | done | | exact Hm]. apply Hz. by left.
Qed.

(** In every reachable state, whatever probes are still running, a rebuild
    leaves in the map exactly the names of the live, exact, least-latency zones
    of the configuration that have an upstream, each with a state that carries
    the upstream and the interval of such a zone of that name. *)
Theorem zones_follow_config (s : Server) (f : File) (n : string) :
  proxy_reachable s ->
  let s' := rebuildZones Fqdn (Some f) s in
  (is_Some (lookup_zone s' n) <-> exists z, In z f.(ForwardZones) /\ eligible z /\ Fqdn z.(z_Name) = n)
  /\ forall o, lookup_zone s' n = Some o -> exists z, In z f.(ForwardZones) /\ eligible z /\ o.(zs_Name) = n /\ follows z o.
Proof. intros. by apply lookup_rebuilt. Qed.

(** C37. A rebuild does not lose measurements: a zone whose settings did not
    change keeps its state, records and time of the last probe included. *)
Theorem rebuild_keeps_measurements (s : Server) (f : File) (n : string) (o : zoneState) :
  proxy_reachable s -> lookup_zone s n = Some o ->
  (exists z, In z f.(ForwardZones) /\ eligible z /\ Fqdn z.(z_Name) = n) ->
  (forall z, In z f.(ForwardZones) -> eligible z -> Fqdn z.(z_Name) = n -> follows z o) ->
  lookup_zone (rebuildZones Fqdn (Some f) s) n = Some o.
Proof.
  intros Hr Ho (z & Hin & He & Hn) Hall. pose proof (reachable_named s Hr) as Hs.
  unfold lookup_zone in Ho. destruct (zones s !! n) as [l|] eqn:Hl; [|done]. simpl in Ho.
  destruct (proj2 (proj1 (lookup_rebuilt s f n Hr)) ltac:(eauto)) as [o' Ho']. rewrite Ho'.
  assert (Hb : built s.(heap) [] (s.(heap), ∅)) by (split_and!; simpl; [done| |]; intros; set_solver).
  pose proof (keep_all s.(zones) s.(heap) n l o f.(ForwardZones) [] (s.(heap), ∅) Hs Hb Hl Ho Hall (or_introl (lookup_empty n))) as Hk.
  destruct (rebuild_built f s Hs) as (Hp & _). unfold lookup_zone, rebuildZones in *.
  destruct (foldl _ _ _) as [h m]. simpl in *. destruct Hk as [Hk|Hk]; rewrite Hk in Ho'; simpl in Ho'; [done|].
  rewrite (prefix_lookup_Some _ _ _ _ Ho Hp) in Ho'. congruence.
Qed.

(** A zone whose name has a capital letter is never served: the question's
    name is lowered, the zone's is not, so unless another zone has the lowered
    name every query for it is answered SERVFAIL. *)
Theorem capital_zone_servfail (s : Server) (f : File) (z : ForwardZone) (q : Question) qs :
  proxy_reachable s -> In z f.(ForwardZones) -> eligible z ->
  ToLower q.(q_Name) = ToLower (Fqdn z.(z_Name)) ->
  (forall z', In z' f.(ForwardZones) -> eligible z' -> Fqdn z'.(z_Name) <> ToLower (Fqdn z.(z_Name))) ->
  handle (rebuildZones Fqdn (Some f) s) (q :: qs) = {| Rcode := RcodeServerFailure; m_Answer := [] |}.
Proof.
  intros Hr Hin He Hq Hno. unfold handle. rewrite Hq.
  destruct (lookup_zone _ _) as [o|] eqn:Ho; [|done].
  destruct (proj1 (proj1 (lookup_rebuilt s f (ToLower (Fqdn (z_Name z))) Hr)) ltac:(eauto)) as (z' & H1 & H2 & H3).
  by destruct (Hno z' H1 H2).
Qed.
End zones.

(** ** Answers *)

Definition answers (q : Question) (ttl : Z) (r : latencyRecord) (a : Answer) : Prop :=
  (exists ip, r.(l_Type) = TypeA /\ q.(q_Qtype) = TypeA /\ ParseIP r.(l_Value) = Some ip /\ a = AnsA q.(q_Name) ttl ip)
  \/ (exists ip, r.(l_Type) = TypeAAAA /\ q.(q_Qtype) = TypeAAAA /\ ParseIP r.(l_Value) = Some ip /\ a = AnsAAAA q.(q_Name) ttl ip)
  \/ (r.(l_Type) = TypeCNAME /\ a = AnsCNAME q.(q_Name) ttl r.(l_Value)).

Lemma answer_record_iff q ttl r a : In a (answer_record q ttl r) <-> answers q ttl r a.
Proof.
  unfold answer_record, answers.
  destruct (Z.eqb_spec (l_Type r) TypeA) as [E|E]; [|destruct (Z.eqb_spec (l_Type r) TypeAAAA) as [E2|E2];
    [|destruct (Z.eqb_spec (l_Type r) TypeCNAME) as [E3|E3]]].
  - rewrite E. destruct (Z.eqb_spec (q_Qtype q) TypeA); simpl; [|split; [done|naive_solver]].
    destruct (ParseIP (l_Value r)); simpl; unfold TypeA, TypeAAAA, TypeCNAME; naive_solver.
  - rewrite E2. destruct (Z.eqb_spec (q_Qtype q) TypeAAAA); simpl; [|split; [done|naive_solver]].
    destruct (ParseIP (l_Value r)); simpl; unfold TypeA, TypeAAAA, TypeCNAME; naive_solver.
  - simpl. naive_solver.
  - simpl. naive_solver.
Qed.

Lemma answer_ttl_bounds rs :
  0 < answer_ttl rs <= 60 /\ Forall (fun r => 0 < r.(l_TTL) -> answer_ttl rs <= r.(l_TTL)) rs.
Proof.
  unfold answer_ttl. enough (H : forall t, 0 < t ->
    let v := foldl (fun ttl r => if (0 <? r.(l_TTL)) && (r.(l_TTL) <? ttl) then r.(l_TTL) else ttl) t rs in
    0 < v <= t /\ Forall (fun r => 0 < r.(l_TTL) -> v <= r.(l_TTL)) rs) by (apply H; lia).
  induction rs as [|r rs IH]; intros t Ht; simpl; [split; [lia|done]|].
  destruct (Z.ltb_spec 0 (l_TTL r)), (Z.ltb_spec (l_TTL r) t); simpl;
    (edestruct IH as [H1 H2]; [|split; [|constructor; [|exact H2]]]); lia.
Qed.

(** C36. What a query is answered.  Without a question: FORMERR; for a name the
    proxy has no zone or no records for: SERVFAIL; else one answer for every
    cached record of the question's type with a readable address and for every
    CNAME, under the name asked for and one TTL, positive, at most 60 and at
    most that of every record whose TTL is not 0; NXDOMAIN exactly when that leaves
    nothing. *)
Theorem handle_answers (s : Server) (questions : list Question) :
  match questions with
  | [] => (handle s questions).(Rcode) = RcodeFormatError
  | q :: _ =>
      match lookup_zone s (ToLower q.(q_Name)) with
      | Some o =>
          let ttl := answer_ttl o.(zs_Records) in
          let m := handle s questions in
          match o.(zs_Records) with
          | [] => m.(Rcode) = RcodeServerFailure
          | rs => (forall a, In a m.(m_Answer) <-> exists r, In r rs /\ answers q ttl r a)
                  /\ (m.(Rcode) = if decide (m.(m_Answer) = []) then RcodeNameError else RcodeSuccess)
                  /\ 0 < ttl <= 60 /\ Forall (fun r => 0 < r.(l_TTL) -> ttl <= r.(l_TTL)) rs
          end
      | None => (handle s questions).(Rcode) = RcodeServerFailure
      end
  end.
Proof.
  destruct questions as [|q qs]; [done|]. unfold handle. destruct (lookup_zone _ _) as [o|]; [|done].
  destruct (zs_Records o) as [|r0 rs0] eqn:E; [done|]. rewrite <- E in *. clear E r0 rs0. simpl. split_and!.
  - intros a. rewrite in_concat. setoid_rewrite in_map_iff. split.
    + intros (l & (r & <- & Hr) & Ha). exists r. split; [done|]. by apply answer_record_iff.
    + intros (r & Hr & Ha). eexists. split; [eauto|]. by apply answer_record_iff.
  - destruct (concat _); simpl; by repeat case_decide.
  - by apply answer_ttl_bounds.
  - by apply answer_ttl_bounds.
  - by apply answer_ttl_bounds.
Qed.

(** A zone that exists is denied: when the cached targets are all of one
    address family, every question of another type, the other family included,
    is answered NXDOMAIN (the name does not exist), not an empty answer. *)
Theorem other_types_denied (s : Server) (q : Question) qs (o : zoneState) (t : Z) :
  lookup_zone s (ToLower q.(q_Name)) = Some o -> o.(zs_Records) <> [] ->
  (t = TypeA \/ t = TypeAAAA) -> Forall (fun r => r.(l_Type) = t) o.(zs_Records) -> q.(q_Qtype) <> t ->
  handle s (q :: qs) = {| Rcode := RcodeNameError; m_Answer := [] |}.
Proof.
  intros Ho Hne Ht Hall Hq. unfold handle. rewrite Ho.
  assert (Hc : concat (map (answer_record q (answer_ttl (zs_Records o))) (zs_Records o)) = []).
  { generalize (answer_ttl (zs_Records o)). intros ttl. clear Hne Ho. induction Hall as [|r rs Hr _ IH]; [done|]. simpl.
    rewrite IH, app_nil_r. unfold answer_record. rewrite Hr. destruct Ht as [-> | ->]; simpl;
      by apply Z.eqb_neq in Hq as ->. }
  destruct (zs_Records o); [done|]. by rewrite Hc.
Qed.

(** ** Helpers of ping.go *)

Lemma HasPrefix_take s pre : HasPrefix s pre = (str_take (String.length pre) s =? pre)%string.
Proof.
  revert s. induction pre as [|c pre IH]; intros [|d s]; try done.
  cbn [HasPrefix String.length str_take]. rewrite IH. cbn [String.eqb]. by destruct (d =? c)%char.
Qed.
Lemma HasPrefix_length s pre : HasPrefix s pre = true -> (String.length pre <= String.length s)%nat.
Proof.
  revert s. induction pre as [|c pre IH]; intros [|d s]; simpl; try done; try lia.
  intros [_ H]%andb_true_iff. apply IH in H. lia.
Qed.
Lemma Contains_length s sub : Contains s sub = true -> (String.length sub <= String.length s)%nat.
Proof.
  unfold Contains. induction s as [|c s IH]; cbn [Index].
  - destruct (HasPrefix "" sub) eqn:E; [|done]. by apply HasPrefix_length in E.
  - destruct (HasPrefix (String c s) sub) eqn:E; [by apply HasPrefix_length in E|].
    destruct (Index s sub); simpl; [|done]. intros _. specialize (IH eq_refl). lia.
Qed.
Lemma containsSubstr_Contains s sub : containsSubstr s sub = Contains s sub.
Proof.
  unfold Contains. induction s as [|c s IH]; cbn [containsSubstr Index].
  - by destruct sub.
  - rewrite <- HasPrefix_take. destruct (HasPrefix (String c s) sub); [done|]. simpl. rewrite IH. by destruct (Index s sub).
Qed.

(** The hand-written substring test is [strings.Contains]. *)
Theorem stringsContains_correct (s sub : string) : stringsContains s sub = Contains s sub.
Proof.
  unfold stringsContains, len. rewrite containsSubstr_Contains.
  destruct (Contains s sub) eqn:E.
  - pose proof (Contains_length _ _ E) as Hl. apply andb_true_iff. split; [apply Z.leb_le; lia|].
    apply orb_true_iff. destruct s as [|c s]; [left; by destruct sub; [|simpl in Hl; lia]|]. right.
    apply andb_true_iff. split; [apply Z.ltb_lt; simpl; lia | done].
  - rewrite andb_false_r, orb_false_r. apply andb_false_iff. right. apply String.eqb_neq. intros ->.
    unfold Contains in E. destruct sub as [|c t]; [done|]. cbn [Index] in E.
    rewrite HasPrefix_take in E. assert (Ht : forall u, str_take (String.length u) u = u) by (induction u; simpl; congruence).
    by rewrite Ht, String.eqb_refl in E.
Qed.

(** A ping reports a time only for a packet from the address it pinged that
    parses to an echo with its own id and sequence number; the first such packet
    counts, everything before it is skipped. *)
Theorem await_reply_matches (addr : string) (id seq : Z) (packets : list Packet) :
  let mine p := (p.(pk_peer) = addr /\ p.(pk_echo) = Some (id, seq)) in
  (Forall (fun p => ~ mine p) packets /\ await_reply addr id seq packets = 0)
  \/ exists before p after, packets = before ++ p :: after /\ Forall (fun p => ~ mine p) before /\ mine p
       /\ await_reply addr id seq packets = p.(pk_rtt).
Proof.
  cbv zeta. set (mine := fun p : Packet => _ /\ _).
  assert (Hcons : forall p ps, ~ mine p -> await_reply addr id seq (p :: ps) = await_reply addr id seq ps).
  { intros p ps Hp. simpl. destruct (String.eqb_spec (pk_peer p) addr) as [Ha|]; [simpl|done].
    destruct (pk_echo p) as [[i q]|] eqn:He; [|done].
    destruct (Z.eqb_spec i id) as [->|], (Z.eqb_spec q seq) as [->|]; simpl; try done. by destruct Hp. }
  induction packets as [|p packets IH]; [by left; split; [apply Forall_nil|]|].
  assert (Hd : mine p \/ ~ mine p).
  { unfold mine. destruct (decide (pk_peer p = addr)), (decide (pk_echo p = Some (id, seq))); tauto. }
  destruct Hd as [Hp|Hp].
  - right. exists [], p, packets. split_and!; [done | by apply Forall_nil | done|]. destruct Hp as [Ha He]. simpl.
    by rewrite Ha, String.eqb_refl, He, !Z.eqb_refl.
  - rewrite Hcons by done. destruct IH as [[? ?]|(b & p' & a & -> & ? & ? & ?)].
    + left. split; [by constructor|done].
    + right. exists (p :: b), p', a. split_and!; try done. by constructor.
Qed.

(** ** Witnesses *)

Definition ex_fqdn (s : string) : string := ensureFQDN s.
Definition ex_fast (name : string) : ForwardZone := (ex_zone "z1" name 5) <| z_LeastLatency := true |>.
Definition ex_fast_file : File := ex_file (Some []) [(ex_fast "app.example.com"); (ex_fast "App2.example.com")] [].
Definition ex_rr (ip : string) (ttl : Z) : latencyRecord :=
  {| l_Target := "app.example.com."; l_Type := TypeA; l_Value := ip; l_TTL := ttl; l_RTT := 0 |}.
Definition ex_pings : list (string * Duration) := [("10.0.0.1", 9); ("10.0.0.2", 4); ("10.0.0.3", 4); ("10.0.0.4", 0)].
Definition ex_records : list latencyRecord := [(ex_rr "10.0.0.1" 300); (ex_rr "10.0.0.2" 20); (ex_rr "10.0.0.3" 300); (ex_rr "10.0.0.4" 300)].

Lemma concurrentPinger_order_witness : concurrentPinger ex_pings = concurrentPinger (rev ex_pings).
Proof.
  apply concurrentPinger_order; [apply Permutation_rev|]. apply (bool_decide_unpack _). vm_compute. exact I.
Defined.

Lemma probe_keeps_fastest_witness :
  exists r, In r (rank_records ex_records ex_pings) /\ is_address r = true.
Proof.
  assert (H1 : NoDup (probe_ips ex_records)) by (apply (bool_decide_unpack _); vm_compute; exact I).
  assert (H2 : ex_pings.*1 ≡ₚ probe_ips ex_records) by reflexivity.
  assert (H3 : Forall (fun r => l_RTT r = 0) ex_records) by (repeat constructor).
  refine (proj2 (proj2 (probe_keeps_fastest ex_records ex_pings H1 H2 H3) _)).
  intros H. inversion H as [|? ? Hx _]; subst. simpl in Hx. lia.
Defined.

Example ex_ranked : map l_Value (rank_records ex_records ex_pings) = ["10.0.0.2"; "10.0.0.3"].
Proof. vm_compute. reflexivity. Qed.

(** The condition on distinct addresses is needed: when an address comes twice
    the later time overwrites the best one and every address is dropped. *)
Example duplicate_address_drops_all :
  rank_records [(ex_rr "10.0.0.1" 300); (ex_rr "10.0.0.1" 60)] [("10.0.0.1", 4); ("10.0.0.1", 9)] = [].
Proof. vm_compute. reflexivity. Qed.

Lemma resolveTarget_complete_witness :
  exists rs, resolveTarget "a." (fun t => if t =? TypeA then Some (0, [RR_A "10.0.0.2" 5; RR_A "10.0.0.1" 5]) else None) = Some rs
    /\ rs ≡ₚ [{| l_Target := "a."; l_Type := TypeA; l_Value := "10.0.0.2"; l_TTL := 5; l_RTT := 0 |};
              {| l_Target := "a."; l_Type := TypeA; l_Value := "10.0.0.1"; l_TTL := 5; l_RTT := 0 |}].
Proof.
  set (exch := fun t => if t =? TypeA then _ else None).
  destruct (resolveTarget_complete "a." exch) as [_ H]. destruct (resolveTarget "a." exch) as [rs|] eqn:E.
  - exists rs. split; [reflexivity|]. exact (proj1 (H rs eq_refl)).
  - vm_compute in E. discriminate.
Defined.

(** a server that has been started on the file, and has probed its first zone *)
Definition ex_server : Server := Start ex_fqdn (Some ex_fast_file) New.
Definition ex_probed : Server :=
  probeZone (fun t => if t =? TypeA then Some (0, [RR_A "10.0.0.2" 5]) else None) [("10.0.0.2", 7)] 100 0 ex_server.
Lemma ex_server_reachable : proxy_reachable ex_fqdn ex_server.
Proof. eapply rtc_l; [apply px_start | apply rtc_refl]. Qed.
Lemma ex_probed_reachable : proxy_reachable ex_fqdn ex_probed.
Proof. eapply rtc_r; [apply ex_server_reachable | apply px_probe]. Qed.

Lemma ex_eligible name : eligible (ex_fast name).
Proof. unfold eligible. by split_and!. Qed.

Lemma zones_follow_config_witness :
  is_Some (lookup_zone (rebuildZones ex_fqdn (Some ex_fast_file) ex_probed) "app.example.com.").
Proof.
  apply (zones_follow_config ex_fqdn ex_probed ex_fast_file "app.example.com." ex_probed_reachable).
  exists (ex_fast "app.example.com"). split; [by left|]. split; [apply ex_eligible | reflexivity].
Defined.

Definition ex_state : zoneState :=
  {| zs_Name := "app.example.com."; zs_Upstream := "10.0.0.4:53"; zs_Interval := 5 * Minute;
     zs_Records := [{| l_Target := "app.example.com."; l_Type := TypeA; l_Value := "10.0.0.2"; l_TTL := 5; l_RTT := 7 |}];
     zs_Updated := 100; zs_Err := "" |}.
Lemma ex_probed_state : lookup_zone ex_probed "app.example.com." = Some ex_state.
Proof. vm_compute. reflexivity. Qed.

Lemma rebuild_keeps_measurements_witness :
  lookup_zone (rebuildZones ex_fqdn (Some ex_fast_file) ex_probed) "app.example.com." = Some ex_state.
Proof.
  apply (rebuild_keeps_measurements ex_fqdn ex_probed ex_fast_file "app.example.com." ex_state ex_probed_reachable ex_probed_state).
  - exists (ex_fast "app.example.com"). split; [by left|]. split; [apply ex_eligible | reflexivity].
  - intros z [<-|[<-|[]]] _ Hn; [|vm_compute in Hn; discriminate].
    split; [reflexivity|]. split; [vm_compute; reflexivity|]. exists "10.0.0.4", []. split; reflexivity.
Defined.

Lemma capital_zone_servfail_witness :
  handle (rebuildZones ex_fqdn (Some ex_fast_file) ex_probed) [{| q_Name := "App2.example.com."; q_Qtype := TypeA |}]
  = {| Rcode := RcodeServerFailure; m_Answer := [] |}.
Proof.
  apply (capital_zone_servfail ex_fqdn ex_probed ex_fast_file (ex_fast "App2.example.com") _ [] ex_probed_reachable).
  - right. by left.
  - apply ex_eligible.
  - reflexivity.
  - intros z [<-|[<-|[]]] _ Hn; vm_compute in Hn; discriminate.
Defined.

Lemma other_types_denied_witness :
  handle ex_probed [{| q_Name := "APP.example.com."; q_Qtype := TypeAAAA |}] = {| Rcode := RcodeNameError; m_Answer := [] |}.
Proof.
  refine (other_types_denied ex_probed {| q_Name := "APP.example.com."; q_Qtype := TypeAAAA |} [] ex_state TypeA ex_probed_state _ (or_introl eq_refl) _ _);
    [discriminate | by repeat constructor | discriminate].
Defined.
