(* ===== verification/ProxyRunProps.v ===== *)
(** The properties of the proxy's goroutines: whatever they do at the same time,
    a query is answered with what one probe of the configured upstream has
    measured, a refresh probes every zone, and Stop ends the loop. *)
From S2P Require Import Prelude GoStrings GoTime Config NetIP Ping Proxy ProxyRun Samples ProxyProps.

Section props.
Context (Fqdn : string -> string).

(** ** What a step does to the zones and to the history *)

(** the configuration that a step may rebuild the zones from *)
Definition rebuilds_from (cur : option File) (mv : Move) : Prop :=
  match mv with
  | MStart c | MRefresh c => c = cur
  | MGo _ io => io.(go_cur) = cur
  | _ => True
  end.
Lemma rebuilds_from_some mv : exists cur, rebuilds_from cur mv.
Proof. destruct mv; simpl; eauto; by exists None. Qed.

Inductive change (cur : option File) : Live -> Live -> Prop :=
  | ch_same v v' :
      v'.(lv_server).(heap) = v.(lv_server).(heap) -> v'.(lv_server).(zones) = v.(lv_server).(zones) ->
      v'.(lv_probed) = v.(lv_probed) -> change cur v v'
  | ch_rebuild v v' :
      v'.(lv_server).(heap) = (rebuildZones Fqdn cur v.(lv_server)).(heap) ->
      v'.(lv_server).(zones) = (rebuildZones Fqdn cur v.(lv_server)).(zones) ->
      v'.(lv_probed) = v.(lv_probed) -> change cur v v'
  | ch_probe l p v v' :
      v'.(lv_server) = (probe_ends l p v).(lv_server) -> v'.(lv_probed) = (probe_ends l p v).(lv_probed) -> change cur v v'.

Lemma go_change io go v go' v' : go_step Fqdn io go v = Some (go', v') -> change io.(go_cur) v v'.
Proof.
  assert (Hends : forall l, change io.(go_cur) v (probe_ends l (go_probe io) v)) by (intros l; by apply (ch_probe _ l (go_probe io))).
  assert (Hsame : change io.(go_cur) v v) by (by apply ch_same).
  destruct go as [[|now rest running|t|]|running|ph]; simpl.
  - intros [= _ <-]. by apply ch_rebuild.
  - destruct (go_pick io) as [k|]; [|by destruct rest, running; intros [= _ <-]].
    destruct (running !! k); [|done]. intros [= _ <-]. apply Hends.
  - destruct (go_pick io), (lv_tickers v !! t) as [k|]; try case_match; try done; intros [= _ <-]; by apply ch_same.
  - done.
  - destruct (go_pick io) as [k|]; [|done]. destruct (running !! k); [|done]. intros [= _ <-]. apply Hends.
  - destruct (query_step _ ph); [|done]. by intros [= _ <-].
Qed.

Lemma live_change cur mv v v' : rebuilds_from cur mv -> live_step Fqdn mv v = Some v' -> change cur v v'.
Proof.
  unfold live_step. destruct (lv_panic v); [done|]. destruct mv as [c| |t|c|qs|g io]; simpl.
  - intros -> [= <-]. unfold start, Proxy.Start. destruct (started (lv_server v)); [by apply ch_same|].
    by apply ch_rebuild.
  - intros _ [= <-]. unfold stop, Proxy.Stop. destruct (started (lv_server v)); simpl; by apply ch_same.
  - intros _. destruct (lv_tickers v !! t); [|done]. intros [= <-]. by apply ch_same.
  - intros -> [= <-]. by apply ch_rebuild.
  - intros _ [= <-]. by apply ch_same.
  - intros <-. destruct (lv_gos v !! g) as [go|]; [|done]. simpl. destruct (go_step Fqdn io go v) as [[go' w]|] eqn:E; [|done].
    intros [= <-]. apply go_change in E. inversion E; subst; [eapply ch_same|eapply ch_rebuild|eapply ch_probe]; eauto.
Qed.

(** ** The zone states along the steps *)

Definition same_settings (z z' : zoneState) : Prop :=
  z'.(zs_Name) = z.(zs_Name) /\ z'.(zs_Upstream) = z.(zs_Upstream) /\ z'.(zs_Interval) = z.(zs_Interval).

(** the records of the state at [l] are those of a probe of its name and upstream *)
Definition measured (log : list Probed) (l : nat) (z : zoneState) : Prop :=
  exists p, p ∈ log /\ p.(pr_loc) = l /\ p.(pr_Name) = z.(zs_Name) /\ p.(pr_Upstream) = z.(zs_Upstream)
    /\ pr_records p = Some z.(zs_Records).

Lemma rebuild_started cur s : (rebuildZones Fqdn cur s).(started) = s.(started).
Proof. destruct cur as [f|]; [|done]. simpl. by destruct (foldl _ _ _). Qed.

Lemma rebuild_grows cur s : exists news,
  (rebuildZones Fqdn cur s).(heap) = s.(heap) ++ news /\ Forall (fun z => z.(zs_Records) = []) news.
Proof.
  destruct cur as [f|]; simpl; [|exists []; by rewrite app_nil_r].
  assert (H : forall zs acc, (exists news, acc.1 = s.(heap) ++ news /\ Forall (fun z => z.(zs_Records) = []) news) ->
    exists news, (foldl (rebuild_zone Fqdn s.(zones)) acc zs).1 = s.(heap) ++ news /\ Forall (fun z => z.(zs_Records) = []) news).
  { induction zs as [|z zs IH]; intros [h m] Hacc; [done|]. simpl. apply IH. destruct Hacc as (news & Hh & Hn). simpl in Hh. subst h. simpl.
    assert (Hsame : exists n, s.(heap) ++ news = s.(heap) ++ n /\ Forall (fun z => z.(zs_Records) = []) n) by eauto.
    unfold rebuild_zone. destruct (_ || _); [done|]. destruct (z_Upstreams z); [done|].
    assert (Hnew : forall x m', zs_Records x = [] -> exists n, ((s.(heap) ++ news) ++ [x], m' : gmap string nat).1 = s.(heap) ++ n
      /\ Forall (fun z => z.(zs_Records) = []) n).
    { intros x m' Hx. exists (news ++ [x]). rewrite <- app_assoc. split; [done|]. apply Forall_app. by repeat constructor. }
    destruct (_ ≫= _) as [[k o]|]; [|by apply Hnew]. destruct (_ && _); [done | by apply Hnew]. }
  specialize (H f.(ForwardZones) (s.(heap), ∅)). destruct (foldl _ _ _) as [h m]. simpl in *. apply H. exists []. by rewrite app_nil_r.
Qed.

Lemma change_log cur v v' : change cur v v' -> v.(lv_probed) `prefix_of` v'.(lv_probed).
Proof. intros []; [by rewrite H1.. | rewrite H0]. by eexists. Qed.

Lemma change_lookup cur v v' l z :
  change cur v v' -> v.(lv_server).(heap) !! l = Some z ->
  exists z', v'.(lv_server).(heap) !! l = Some z' /\ same_settings z z'
    /\ (z'.(zs_Records) = z.(zs_Records) \/ measured v'.(lv_probed) l z').
Proof.
  intros Hc Hl. destruct Hc as [v v' -> _ _|v v' -> _ _|k p v v' -> ->].
  - exists z. split_and!; [done..|by left].
  - destruct (rebuild_grows cur v.(lv_server)) as (news & -> & _). exists z. split; [by apply lookup_app_l_Some|]. split_and!; [done..|by left].
  - simpl. destruct (decide (k = l)) as [->|Hk]; [|exists z; rewrite list_lookup_alter_ne by done; split_and!; [done..|by left]].
    eexists. rewrite list_lookup_alter_eq, Hl. split; [done|].
    pose proof (probe_result_same (pb_exchange p) (pb_pings p) (pb_now p) z) as (H1 & H2 & H3).
    split; [done|]. unfold probe_result in *. destruct (resolveTarget (zs_Name z) (pb_exchange p)) as [rs|] eqn:E; [right|by left].
    eexists. split; [apply elem_of_app; right; by apply list_elem_of_singleton|]. split_and!; [done..|].
    unfold pr_records. simpl. by rewrite E.
Qed.

Lemma change_measured cur v v' l z :
  change cur v v' -> v.(lv_server).(heap) !! l = Some z -> measured v.(lv_probed) l z ->
  exists z', v'.(lv_server).(heap) !! l = Some z' /\ same_settings z z' /\ measured v'.(lv_probed) l z'.
Proof.
  intros Hc Hl (p & Hp & ? & ? & ? & ?). destruct (change_lookup _ _ _ _ _ Hc Hl) as (z' & ? & Hs & [Hr|]); [|eauto].
  exists z'. split_and!; [done..|]. destruct Hs as (? & ? & ?). exists p.
  split; [by eapply elem_of_prefix, change_log|]. split_and!; [done|congruence..].
Qed.

(** ** The invariant *)

(** the map has states of the right names, and no state has records of its own making *)
Definition data_ok (v : Live) : Prop :=
  named v.(lv_server).(heap) v.(lv_server).(zones)
  /\ forall l z, v.(lv_server).(heap) !! l = Some z -> z.(zs_Records) = [] \/ measured v.(lv_probed) l z.

Lemma data_change cur v v' : change cur v v' -> data_ok v -> data_ok v'.
Proof.
  intros Hc [Hn Hr]. split.
  - inversion Hc as [? ? Hh Hz _|? ? Hh Hz _|l p ? ? Hs _]; subst.
    + intros n l. rewrite Hh, Hz. apply Hn.
    + intros n l. rewrite Hh, Hz. by apply named_rebuild.
    + intros n k Hk. rewrite Hs in Hk. destruct (Hn n k Hk) as (o & Ho & <-).
      destruct (change_lookup _ _ _ _ _ Hc Ho) as (o' & ? & (? & _) & _). eauto.
  - intros l z' Hl. destruct (v.(lv_server).(heap) !! l) as [z|] eqn:E.
    + destruct (change_lookup _ _ _ _ _ Hc E) as (z2 & Hl2 & Hs & [Hrec|]); [|right; congruence].
      assert (z2 = z') as -> by congruence. destruct (Hr _ _ E) as [Hz|Hm]; [left; congruence|].
      right. destruct (change_measured _ _ _ _ _ Hc E Hm) as (? & ? & _ & ?). congruence.
    + left. inversion Hc as [? ? Hh _ _|? ? Hh _ _|k p ? ? Hs _]; subst.
      * congruence.
      * destruct (rebuild_grows cur v.(lv_server)) as (news & Hg & Hnews). rewrite Hh, Hg in Hl.
        rewrite lookup_app, E in Hl. by apply (Forall_lookup_1 _ _ _ _ Hnews Hl).
      * rewrite Hs in Hl. simpl in Hl. destruct (decide (k = l)) as [->|].
        -- by rewrite list_lookup_alter_eq, E in Hl.
        -- rewrite list_lookup_alter_ne in Hl by done. congruence.
Qed.

(** a reply made of the records of one probe of the name, with a TTL of the same
    zone and upstream *)
Definition answered (log : list Probed) (q : Question) (m : Msg) : Prop :=
  exists p p' records records',
    p ∈ log /\ p' ∈ log /\ p.(pr_Name) = ToLower q.(q_Name)
    /\ p'.(pr_Name) = p.(pr_Name) /\ p'.(pr_Upstream) = p.(pr_Upstream) /\ p'.(pr_loc) = p.(pr_loc)
    /\ pr_records p = Some records /\ pr_records p' = Some records' /\ m = reply q (answer_ttl records') records.

Definition query_ok (v : Live) (ph : QueryPhase) : Prop :=
  let at_zone q l (P : zoneState -> Prop) :=
    exists z, v.(lv_server).(heap) !! l = Some z /\ z.(zs_Name) = ToLower q.(q_Name) /\ P z in
  match ph with
  | QueryLookup _ => True
  | QueryCheck q l => at_zone q l (fun _ => True)
  | QueryTTL q l => at_zone q l (measured v.(lv_probed) l)
  | QueryAnswer q l ttl =>
      at_zone q l (fun z => measured v.(lv_probed) l z /\ exists z', same_settings z z'
        /\ measured v.(lv_probed) l z' /\ ttl = answer_ttl z'.(zs_Records))
  | QueryReplied None m => m = {| Rcode := RcodeFormatError; m_Answer := [] |}
  | QueryReplied (Some q) m => m = servfail \/ answered v.(lv_probed) q m
  end.

Lemma measured_mono log log' l z : log `prefix_of` log' -> measured log l z -> measured log' l z.
Proof. intros H (p & Hp & ?). exists p. split; [by eapply elem_of_prefix | done]. Qed.

Lemma query_change cur v v' ph : change cur v v' -> query_ok v ph -> query_ok v' ph.
Proof.
  intros Hc. pose proof (change_log _ _ _ Hc) as Hlog. destruct ph as [|q l|q l|q l ttl|[q|] m]; simpl; [done| | | | |done].
  - intros (z & Hz & Hn & _). destruct (change_lookup _ _ _ _ _ Hc Hz) as (z' & ? & (Hs & _) & _). exists z'. split_and!; [done|congruence|done].
  - intros (z & Hz & Hn & Hm). destruct (change_measured _ _ _ _ _ Hc Hz Hm) as (z' & ? & (Hs & _) & ?). exists z'. by rewrite Hs.
  - intros (z & Hz & Hn & Hm & z2 & (S1 & S2 & S3) & Hm2 & ->).
    destruct (change_measured _ _ _ _ _ Hc Hz Hm) as (z' & ? & (T1 & T2 & T3) & ?). exists z'.
    split_and!; [done|congruence|done|]. exists z2. split_and!; [split_and!; congruence | by eapply measured_mono | done].
  - intros [->|(p & p' & rs & rs' & Hp & Hp' & H)]; [by left|right].
    exists p, p', rs, rs'. split; [by eapply elem_of_prefix|]. split; [by eapply elem_of_prefix|done].
Qed.

Lemma query_step_ok v ph ph' :
  data_ok v -> query_ok v ph -> query_step v.(lv_server) ph = Some ph' -> query_ok v ph'.
Proof.
  intros [Hn Hr]. destruct ph as [[|q qs]|q l|q l|q l ttl|asked m]; simpl; [| | | | |done].
  - by intros _ [= <-].
  - intros _ [= <-]. destruct (zones (lv_server v) !! ToLower (q_Name q)) as [l|] eqn:E; simpl; [|by left].
    destruct (Hn _ _ E) as (o & ? & ?). eauto.
  - intros (z & Hz & Hname & _) [= <-]. rewrite Hz. destruct (Hr _ _ Hz) as [->|Hm]; [by left|].
    destruct (zs_Records z) as [|r rs] eqn:E; [by left|]. simpl. eauto.
  - intros (z & Hz & Hname & Hm) [= <-]. rewrite Hz. simpl. exists z. split_and!; [done..|]. exists z. by split_and!.
  - intros (z & Hz & Hname & (p & Hp & P1 & P2 & P3 & P4) & z' & (S1 & S2 & S3) & (p' & Hp' & Q1 & Q2 & Q3 & Q4) & ->) [= <-].
    rewrite Hz. right. exists p, p', (zs_Records z), (zs_Records z'). split_and!; congruence.
Qed.

Definition live_ok (v : Live) : Prop :=
  data_ok v /\ forall g ph, v.(lv_gos) !! g = Some (Query ph) -> query_ok v ph.

Lemma go_frame io go v go' v' :
  go_step Fqdn io go v = Some (go', v') ->
  v'.(lv_gos) = v.(lv_gos) /\ v'.(lv_server).(started) = v.(lv_server).(started)
  /\ v'.(lv_closed) = v.(lv_closed) /\ v'.(lv_panic) = v.(lv_panic).
Proof.
  destruct go as [[|now rest running|t|]|running|ph]; simpl.
  - intros [= _ <-]. simpl. by rewrite rebuild_started.
  - destruct (go_pick io) as [k|]; [|by destruct rest, running; intros [= _ <-]].
    destruct (running !! k); [|done]. by intros [= _ <-].
  - destruct (go_pick io), (lv_tickers v !! t) as [k|]; try case_match; try done; by intros [= _ <-].
  - done.
  - destruct (go_pick io) as [k|]; [|done]. destruct (running !! k); [|done]. by intros [= _ <-].
  - destruct (query_step _ ph); [|done]. by intros [= _ <-].
Qed.

(** what a step does to the goroutines: nothing, one more, or a step of one *)
Lemma step_gos mv v v' :
  live_step Fqdn mv v = Some v' ->
  match mv with
  | MGo g io => exists go go' w, v.(lv_gos) !! g = Some go /\ go_step Fqdn io go v = Some (go', w)
                /\ v' = w <| lv_gos := <[g := go']> w.(lv_gos) |> /\ w.(lv_gos) = v.(lv_gos)
  | MQuery questions => v'.(lv_gos) = v.(lv_gos) ++ [Query (QueryLookup questions)]
  | MRefresh cur => v'.(lv_gos) = v.(lv_gos) ++ [Refreshing (zoneSnapshot (rebuildZones Fqdn cur v.(lv_server)))]
  | MStart _ => v'.(lv_gos) = v.(lv_gos) ++ (if v.(lv_server).(started) then [] else [Loop LoopPass])
  | _ => v'.(lv_gos) = v.(lv_gos)
  end.
Proof.
  unfold live_step. destruct (lv_panic v); [done|]. destruct mv as [c| |t|c|qs|g io]; simpl.
  - intros [= <-]. unfold start. case_match; simpl; [by rewrite app_nil_r|done].
  - intros [= <-]. unfold stop. by case_match.
  - destruct (lv_tickers v !! t); [|done]. by intros [= <-].
  - by intros [= <-].
  - by intros [= <-].
  - destruct (lv_gos v !! g) as [go|]; [|done]. simpl. destruct (go_step Fqdn io go v) as [[go' w]|] eqn:E; [|done].
    intros [= <-]. exists go, go', w. split_and!; [done..|]. by apply go_frame in E as (? & _).
Qed.

Lemma live_ok_step mv v v' : live_ok v -> live_step Fqdn mv v = Some v' -> live_ok v'.
Proof.
  intros [Hd Hq] Hs. destruct (rebuilds_from_some mv) as [cur Hf]. pose proof (live_change _ _ _ _ Hf Hs) as Hc.
  split; [by eapply data_change|]. intros g ph Hg.
  assert (Hkeep : forall gos, v.(lv_gos) = gos -> gos !! g = Some (Query ph) -> query_ok v' ph).
  { intros gos <- ?. eapply query_change; eauto. }
  apply step_gos in Hs. destruct mv as [c| |t|c|qs|k io].
  1,4,5: rewrite Hs in Hg; apply lookup_app_Some in Hg as [Hg|[_ Hg]]; [by apply (Hkeep _ eq_refl)|].
  - destruct (started _); [done|]. by apply list_lookup_singleton_Some in Hg as [_ ?].
  - by apply list_lookup_singleton_Some in Hg as [_ ?].
  - apply list_lookup_singleton_Some in Hg as [_ [= <-]]. done.
  - rewrite Hs in Hg. by apply (Hkeep _ eq_refl).
  - rewrite Hs in Hg. by apply (Hkeep _ eq_refl).
  - destruct Hs as (go & go' & w & Hgo & Hstep & -> & Hw). simpl in Hg. rewrite Hw in Hg.
    destruct (decide (k = g)) as [->|]; [|rewrite list_lookup_insert_ne in Hg by done; by apply (Hkeep _ eq_refl)].
    rewrite list_lookup_insert_eq in Hg by (by eapply lookup_lt_Some). injection Hg as ->.
    destruct go as [lp|running|qp]; simpl in Hstep.
    + destruct (loop_step _ _ _ _) as [[]|]; done.
    + destruct (go_pick io) as [n|]; [|done]. by destruct (running !! n).
    + destruct (query_step (lv_server v) qp) as [qp'|] eqn:E; [|done]. injection Hstep as -> <-.
      eapply query_change; [done|]. eapply query_step_ok; eauto.
Qed.

Lemma live_run_ind (P : Live -> Prop) (ok : Move -> Prop) moves v v' :
  (forall mv v v', ok mv -> P v -> live_step Fqdn mv v = Some v' -> P v') ->
  Forall ok moves -> P v -> live_run Fqdn moves v = Some v' -> P v'.
Proof.
  intros Hstep. revert v. induction moves as [|mv moves IH]; simpl; intros v Hok Hv; [by intros [= <-]|].
  apply Forall_cons in Hok as [? ?]. destruct (live_step Fqdn mv v) as [w|] eqn:E; [|done]. simpl. apply IH; [done|]. by eapply Hstep.
Qed.
Lemma live_run_app moves moves' v : live_run Fqdn (moves ++ moves') v = live_run Fqdn moves v ≫= live_run Fqdn moves'.
Proof. revert v. induction moves as [|mv moves IH]; simpl; intros v; [done|]. destruct (live_step Fqdn mv v); [apply IH|done]. Qed.

Lemma run_ok moves v : live_run Fqdn moves fresh = Some v -> live_ok v.
Proof.
  intros H. eapply (live_run_ind live_ok (fun _ => True)); [|by apply Forall_true| |done].
  - intros mv w w' _. apply live_ok_step.
  - split; [split|]; simpl; intros n l; [by rewrite lookup_empty | by rewrite lookup_nil..].
Qed.

(** Whatever runs at the same time, a reply is one of three: FORMERR without a
    question; SERVFAIL; or exactly what the records of one probe of the question's
    name, in lower case, give for the question.  Its TTL may be that of another probe of the same
    zone, one that ended while the query was answered. *)
Theorem reply_from_one_probe (moves : list Move) (v : Live) (g : nat) (asked : option Question) (m : Msg) :
  live_run Fqdn moves fresh = Some v ->
  v.(lv_gos) !! g = Some (Query (QueryReplied asked m)) ->
  match asked with
  | None => m = {| Rcode := RcodeFormatError; m_Answer := [] |}
  | Some q => m = servfail \/ answered v.(lv_probed) q m
  end.
Proof. intros Hrun Hg. destruct (run_ok _ _ Hrun) as [_ Hq]. exact (Hq g _ Hg). Qed.

(** ** The answers follow the configuration *)

Definition configured (f : File) (v : Live) : Prop :=
  (forall n l, v.(lv_server).(zones) !! n = Some l -> exists z o, In z f.(ForwardZones) /\ eligible z
      /\ v.(lv_server).(heap) !! l = Some o /\ o.(zs_Name) = n /\ follows Fqdn z o)
  /\ (forall z, In z f.(ForwardZones) -> eligible z -> is_Some (v.(lv_server).(zones) !! Fqdn z.(z_Name))).

Lemma configured_rebuild f v v' :
  live_ok v ->
  v'.(lv_server).(heap) = (rebuildZones Fqdn (Some f) v.(lv_server)).(heap) ->
  v'.(lv_server).(zones) = (rebuildZones Fqdn (Some f) v.(lv_server)).(zones) -> configured f v'.
Proof.
  intros [[Hn _] _] Hh Hz. destruct (rebuild_built Fqdn f _ Hn) as (_ & H1 & H2). unfold configured. by rewrite Hh, Hz.
Qed.

Lemma configured_step f mv v v' :
  rebuilds_from (Some f) mv -> live_ok v -> configured f v -> live_step Fqdn mv v = Some v' -> configured f v'.
Proof.
  intros Hf Hok [H1 H2] Hs. pose proof (live_change _ _ _ _ Hf Hs) as Hc.
  inversion Hc as [? ? Hh Hz _|? ? Hh Hz _|l p ? ? He _]; subst.
  - unfold configured. by rewrite Hh, Hz.
  - by eapply configured_rebuild.
  - split; [|intros z; rewrite He; apply H2]. intros n k Hk. rewrite He in Hk.
    destruct (H1 n k Hk) as (z & o & Hin & Hel & Ho & Hname & (F1 & F2 & up & ups & F3 & F4)).
    destruct (change_lookup _ _ _ _ _ Hc Ho) as (o' & Ho' & (S1 & S2 & S3) & _).
    exists z, o'. split_and!; [done..|congruence|]. split_and!; [congruence..|]. exists up, ups. split; congruence.
Qed.

(** C32. Once a refresh has taken over a configuration, and as long as no other
    one is read, every least-latency zone has a state, and the records it serves
    were measured by a probe of that name through the zone's own first upstream:
    a probe of the former upstream that ends late is never served. *)
Theorem answers_follow_config (moves moves' : list Move) (f : File) (v : Live) (z : ForwardZone) :
  live_run Fqdn (moves ++ MRefresh (Some f) :: moves') fresh = Some v ->
  Forall (rebuilds_from (Some f)) moves' ->
  In z f.(ForwardZones) -> eligible z ->
  exists o z' up ups, lookup_zone v.(lv_server) (Fqdn z.(z_Name)) = Some o
    /\ In z' f.(ForwardZones) /\ eligible z' /\ Fqdn z'.(z_Name) = Fqdn z.(z_Name) /\ z'.(z_Upstreams) = up :: ups
    /\ (o.(zs_Records) = [] \/
        exists p, p ∈ v.(lv_probed) /\ p.(pr_Name) = Fqdn z.(z_Name) /\ p.(pr_Upstream) = probe_upstream up
          /\ pr_records p = Some o.(zs_Records)).
Proof.
  rewrite live_run_app. destruct (live_run Fqdn moves fresh) as [v0|] eqn:E0; [|done]. simpl.
  destruct (live_step Fqdn (MRefresh (Some f)) v0) as [v1|] eqn:E1; [|done]. simpl. intros E2 Hf Hin Hel.
  pose proof (run_ok _ _ E0) as Hok0. pose proof (live_ok_step _ _ _ Hok0 E1) as Hok1.
  assert (Hconf : live_ok v /\ configured f v).
  { eapply (live_run_ind (fun v => live_ok v /\ configured f v)); [|exact Hf| |exact E2].
    - intros mv w w' Hmv [? ?] ?. split; [by eapply live_ok_step | by eapply configured_step].
    - split; [done|]. unfold live_step in E1. destruct (lv_panic v0); [done|]. injection E1 as <-. by apply (configured_rebuild f v0). }
  destruct Hconf as [[[_ Hrec] _] [H1 H2]]. destruct (H2 z Hin Hel) as [l Hl].
  destruct (H1 _ _ Hl) as (z' & o & Hin' & Hel' & Ho & Hname & F1 & F2 & up & ups & F3 & F4).
  exists o, z', up, ups. unfold lookup_zone. rewrite Hl. simpl. split_and!; [done..|congruence|done|].
  destruct (Hrec _ _ Ho) as [|(p & Hp & _ & P2 & P3 & P4)]; [by left|right]. exists p. split_and!; [done|congruence..|done].
Qed.

(** ** A refresh *)

(** the number of steps of a goroutine *)
Definition is_step (g : nat) (mv : Move) : bool := match mv with MGo k _ => Nat.eqb k g | _ => false end.
Definition steps_of (g : nat) (moves : list Move) : nat := length (List.filter (is_step g) moves).

(** the zones of a refresh: each one has been probed since [log], or its probe runs *)
Definition refreshed (log : list Probed) (v1 : Live) (ls running : list nat) (v : Live) : Prop :=
  exists since, v.(lv_probed) = log ++ since
    /\ forall l z1, l ∈ ls -> v1.(lv_server).(heap) !! l = Some z1 ->
         (exists z, v.(lv_server).(heap) !! l = Some z /\ same_settings z1 z)
         /\ (l ∈ running \/ exists p, p ∈ since /\ p.(pr_loc) = l
              /\ p.(pr_Name) = z1.(zs_Name) /\ p.(pr_Upstream) = z1.(zs_Upstream)).

Lemma same_settings_trans z1 z2 z3 : same_settings z1 z2 -> same_settings z2 z3 -> same_settings z1 z3.
Proof. unfold same_settings. intros (? & ? & ?) (? & ? & ?). split_and!; congruence. Qed.

Lemma refreshed_change log v1 ls running cur v v' :
  change cur v v' -> refreshed log v1 ls running v -> refreshed log v1 ls running v'.
Proof.
  intros Hc (since & Hlog & H). destruct (change_log _ _ _ Hc) as [more Hmore].
  exists (since ++ more). split; [by rewrite Hmore, Hlog, <- app_assoc|]. intros l z1 Hl Hz1.
  destruct (H l z1 Hl Hz1) as [(z & Hz & Hs) Hp]. split.
  - destruct (change_lookup _ _ _ _ _ Hc Hz) as (z' & Hz' & Hs' & _). exists z'. split; [done|]. by eapply same_settings_trans.
  - destruct Hp as [|(p & Hp & ?)]; [by left|right]. exists p. split; [apply elem_of_app; by left|done].
Qed.

Lemma refreshed_end log v1 ls running k l p v :
  running !! k = Some l -> refreshed log v1 ls running v -> refreshed log v1 ls (delete k running) (probe_ends l p v).
Proof.
  intros Hk Hr. destruct (refreshed_change _ _ _ _ None _ _ (ch_probe None l p v _ eq_refl eq_refl) Hr) as (since & Hlog & H).
  exists since. split; [done|]. intros l' z1 Hl' Hz1. destruct (H l' z1 Hl' Hz1) as [Hz Hp]. split; [done|].
  destruct (decide (l' = l)) as [->|Hne].
  - right. destruct Hr as (since0 & Hlog0 & H0). destruct (H0 l z1 Hl' Hz1) as [(z & Hz0 & S1 & S2 & _) _].
    simpl in Hlog. rewrite Hz0, Hlog0, <- app_assoc in Hlog. apply app_inv_head in Hlog as <-.
    eexists. split; [apply elem_of_app; right; by apply list_elem_of_singleton|]. by split_and!.
  - destruct Hp as [Hp|]; [left|by right]. apply list_elem_of_lookup in Hp as [i Hi].
    apply list_elem_of_lookup. destruct (decide (i < k)%nat).
    + exists i. by rewrite list_lookup_delete_lt.
    + exists (pred i). assert (i <> k) by (intros ->; congruence). rewrite list_lookup_delete_ge by lia. by replace (S (pred i)) with i by lia.
Qed.

Lemma go_refreshing io running v go' w :
  go_step Fqdn io (Refreshing running) v = Some (go', w) ->
  exists k l, running !! k = Some l /\ go' = Refreshing (delete k running) /\ w = probe_ends l io.(go_probe) v.
Proof.
  simpl. destruct (go_pick io) as [k|]; [|done]. destruct (running !! k) as [l|] eqn:E; [|done].
  intros [= <- <-]. eauto.
Qed.

(** a step leaves the other goroutines as they are *)
Lemma step_others mv v v' g go :
  v.(lv_gos) !! g = Some go -> is_step g mv = false -> live_step Fqdn mv v = Some v' -> v'.(lv_gos) !! g = Some go.
Proof.
  intros Hg Hmv Hs. apply step_gos in Hs. destruct mv as [c| |t|c|qs|k io]; try (rewrite Hs); try done; try by apply lookup_app_l_Some.
  destruct Hs as (? & go' & w & _ & _ & -> & Hw). simpl in *. apply Nat.eqb_neq in Hmv.
  by rewrite Hw, list_lookup_insert_ne.
Qed.

Lemma refresh_run log v1 ls g moves : forall running v v2,
  live_run Fqdn moves v = Some v2 -> v.(lv_gos) !! g = Some (Refreshing running) -> refreshed log v1 ls running v ->
  exists running', v2.(lv_gos) !! g = Some (Refreshing running') /\ refreshed log v1 ls running' v2
    /\ (length running' + steps_of g moves = length running)%nat.
Proof.
  induction moves as [|mv moves IH]; simpl; intros running v v2 Hrun Hg Hr; [injection Hrun as <-; exists running; unfold steps_of; simpl; eauto with lia|].
  destruct (live_step Fqdn mv v) as [w|] eqn:E; [|done]. simpl in Hrun. destruct (rebuilds_from_some mv) as [cur Hf].
  unfold steps_of. simpl. destruct (is_step g mv) eqn:Hmv.
  - destruct mv as [| | | | |k io]; try done. apply Nat.eqb_eq in Hmv as ->.
    apply step_gos in E as (go & go' & u & Hgo & Hstep & -> & Hu). assert (go = Refreshing running) as -> by congruence.
    apply go_refreshing in Hstep as (k & l & Hk & -> & ->).
    edestruct (IH (delete k running) _ _ Hrun) as (running' & ? & ? & Hlen).
    + simpl. by rewrite list_lookup_insert_eq by (by eapply lookup_lt_Some).
    + exact (refreshed_end _ _ _ _ _ _ _ _ Hk Hr).
    + exists running'. split_and!; [done..|]. simpl. unfold steps_of in Hlen.
      rewrite length_delete in Hlen by eauto. apply lookup_lt_Some in Hk. lia.
  - apply (IH running _ _ Hrun); [by eapply step_others|]. eapply refreshed_change; [|done]. by eapply live_change.
Qed.

Lemma length_snapshot s : length (zoneSnapshot s) = ZoneCount s.
Proof. unfold zoneSnapshot, ZoneCount. by rewrite length_fmap, length_map_to_list. Qed.

(** C33. RefreshNow waits for its own probes only, one step for each zone, and can
    always go on, whatever runs beside it.  When it returns, every least-latency
    zone of the configuration it read has been probed since the call, through
    the upstream of that configuration. *)
Theorem refresh_probes_every_zone (before moves : list Move) (f : File) (v v1 v2 : Live) :
  live_run Fqdn before fresh = Some v ->
  live_step Fqdn (MRefresh (Some f)) v = Some v1 ->
  live_run Fqdn moves v1 = Some v2 ->
  let g := length v.(lv_gos) in
  exists running since,
    v2.(lv_gos) !! g = Some (Refreshing running) /\ v2.(lv_probed) = v.(lv_probed) ++ since
    /\ (length running + steps_of g moves = ZoneCount v1.(lv_server))%nat
    /\ (running <> [] -> v2.(lv_panic) = false -> forall io, is_Some (live_step Fqdn (MGo g (io <| go_pick := Some 0%nat |>)) v2))
    /\ (running = [] -> forall z, In z f.(ForwardZones) -> eligible z -> exists p z' up ups,
          p ∈ since /\ p.(pr_Name) = Fqdn z.(z_Name) /\ p.(pr_Upstream) = probe_upstream up
          /\ In z' f.(ForwardZones) /\ eligible z' /\ Fqdn z'.(z_Name) = Fqdn z.(z_Name) /\ z'.(z_Upstreams) = up :: ups).
Proof.
  intros E0 E1 E2 g. pose proof (run_ok _ _ E0) as Hok0.
  pose proof (step_gos _ _ _ E1) as Hgos. simpl in Hgos.
  assert (Hs1 : v1.(lv_server) = rebuildZones Fqdn (Some f) v.(lv_server) /\ v1.(lv_probed) = v.(lv_probed)).
  { unfold live_step in E1. destruct (lv_panic v); [done|]. by injection E1 as <-. }
  destruct Hs1 as [Hs1 Hl1].
  destruct (refresh_run v1.(lv_probed) v1 (zoneSnapshot v1.(lv_server)) g moves (zoneSnapshot v1.(lv_server)) v1 v2 E2) as (running & Hg & (since & Hlog & Hr) & Hlen).
  { by rewrite Hgos, Hs1, lookup_app_r, Nat.sub_diag by done. }
  { exists []. split; [by rewrite app_nil_r|]. intros l z1 Hl Hz1. split; [by exists z1 | by left]. }
  exists running, since. rewrite length_snapshot in Hlen. split_and!; [done|congruence|done| |].
  - intros Hne Hp io. unfold live_step. rewrite Hp, Hg. destruct running as [|l running]; [done|]. simpl. eauto.
  - intros -> z Hin Hel. destruct (configured_rebuild f v v1 Hok0) as [H1 H2]; [by rewrite Hs1..|].
    destruct (H2 z Hin Hel) as [l Hl]. destruct (H1 _ _ Hl) as (z' & o & ? & ? & Ho & Hname & F1 & F2 & up & ups & F3 & F4).
    destruct (Hr l o) as [_ [Hx|(p & Hp & P1 & P2 & P3)]]; [|done|by apply not_elem_of_nil in Hx|].
    { apply list_elem_of_fmap. exists (Fqdn (z_Name z), l). split; [done|]. by apply elem_of_map_to_list. }
    exists p, z', up, ups. split_and!; try done; congruence.
Qed.

(** ** Stop *)

Definition no_start (mv : Move) : Prop := match mv with MStart _ => False | _ => True end.
Definition resting (k : Ticker) : Prop := k.(tk_running) = false.
Definition resting_all (v : Live) : Prop := Forall resting v.(lv_tickers).

(** only the last ticker runs, and only while the server is started *)
Definition tickers_ok (v : Live) : Prop :=
  Forall resting (take (pred (length v.(lv_tickers))) v.(lv_tickers))
  /\ (v.(lv_server).(started) = false -> resting_all v).

Lemma go_tickers io go v go' w :
  go_step Fqdn io go v = Some (go', w) ->
  w.(lv_tickers) = v.(lv_tickers) /\ go' <> Loop LoopPass
  \/ exists t k, v.(lv_tickers) !! t = Some k /\ k.(tk_tick) = true /\ go = Loop (LoopSelect t) /\ go' = Loop LoopPass
       /\ w.(lv_tickers) = <[t := {| tk_running := k.(tk_running); tk_tick := false |}]> v.(lv_tickers).
Proof.
  destruct go as [[|now rest running|t|]|running|ph]; simpl.
  - intros [= <- <-]. by left.
  - left. destruct (go_pick io) as [k|]; [|by destruct rest, running; simplify_eq/=].
    destruct (running !! k); by simplify_eq/=.
  - destruct (go_pick io), (lv_tickers v !! t) as [k|] eqn:E; try (destruct (lv_closed v)); try done;
      try (intros [= <- <-]; by left); destruct (tk_tick k) eqn:Ek; try done; intros [= <- <-]; right; exists t, k; by split_and!.
  - done.
  - left. destruct (go_pick io) as [k|]; [|done]. destruct (running !! k); by simplify_eq/=.
  - left. destruct (query_step _ ph); by simplify_eq/=.
Qed.

Lemma resting_update (ks : list Ticker) t k b :
  Forall resting ks -> ks !! t = Some k -> Forall resting (<[t := {| tk_running := k.(tk_running); tk_tick := b |}]> ks).
Proof. intros H Hk. apply Forall_insert; [done|]. exact (Forall_lookup_1 _ _ _ _ H Hk). Qed.

Lemma resting_stop n : forall ks, Forall resting (take n ks) -> length ks = S n -> Forall resting (alter stop_ticker n ks).
Proof.
  induction n as [|n IH]; intros [|k ks]; try done; simpl.
  - destruct ks; [|done]. intros _ _. by repeat constructor.
  - rewrite !Forall_cons. intros [? ?] [= ?]. split; [done|]. by apply IH.
Qed.

Lemma tickers_ok_step mv v v' : tickers_ok v -> live_step Fqdn mv v = Some v' -> tickers_ok v'.
Proof.
  intros [Ht Hs]. unfold live_step. destruct (lv_panic v); [done|]. destruct mv as [c| |t|c|qs|g io].
  - intros [= <-]. unfold start. destruct (started (lv_server v)) eqn:E; [by split; rewrite ?E|]. split; simpl.
    + rewrite length_app, Nat.add_1_r. simpl. rewrite take_app_length. by apply Hs.
    + unfold Proxy.Start. by rewrite E.
  - intros [= <-]. unfold stop. destruct (started (lv_server v)) eqn:E; simpl; [|split; [done|intros _; by apply Hs]].
    assert (Hall : Forall resting (alter stop_ticker (pred (length (lv_tickers v))) (lv_tickers v))).
    { destruct (lv_tickers v) as [|k ks] eqn:Ek; [by apply Forall_nil|]. apply resting_stop; [done | by destruct ks]. }
    split; [by apply Forall_take | done].
  - destruct (lv_tickers v !! t) as [k|] eqn:E; [|done]. intros [= <-]. split; simpl.
    + rewrite length_insert, take_insert. destruct (decide _); [|done].
      apply resting_update; [done|]. by rewrite lookup_take_lt.
    + intros H. apply resting_update; [by apply Hs|done].
  - intros [= <-]. split; simpl; [done|]. by rewrite rebuild_started.
  - by intros [= <-].
  - destruct (lv_gos v !! g) as [go|]; [|done]. simpl. destruct (go_step Fqdn io go v) as [[go' w]|] eqn:E; [|done].
    intros [= <-]. destruct (go_frame _ _ _ _ _ E) as (_ & F & _). unfold tickers_ok, resting_all. simpl. rewrite F.
    destruct (go_tickers _ _ _ _ _ E) as [[-> _]|(t & k & Hk & _ & _ & _ & ->)]; [done|]. split.
    + rewrite length_insert, take_insert. destruct (decide _); [|done].
      apply resting_update; [done|]. by rewrite lookup_take_lt.
    + intros H. apply resting_update; [by apply Hs|done].
Qed.
Lemma run_tickers_ok moves v : live_run Fqdn moves fresh = Some v -> tickers_ok v.
Proof.
  intros H. eapply (live_run_ind tickers_ok (fun _ => True)); [|by apply Forall_true| |done].
  - intros mv w w' _. apply tickers_ok_step.
  - split; [by apply Forall_nil | intros _; by apply Forall_nil].
Qed.

(** [done] is closed and no ticker runs: what is left after Stop *)
Definition quiet (v : Live) : Prop :=
  v.(lv_server).(started) = false /\ v.(lv_closed) = true /\ resting_all v.

Definition ticks (ks : list Ticker) : nat := length (List.filter tk_tick ks).
(** the steps that a loop has before it, for at most [K] zones *)
Definition loop_cost (K : nat) (ph : LoopPhase) : nat :=
  match ph with
  | LoopPass => 2 * K + 3
  | LoopScan _ rest running => 2 * length rest + length running + 2
  | LoopSelect _ => 1
  | LoopEnded => 0
  end.
Definition small (K : nat) (mv : Move) : Prop :=
  no_start mv /\ match mv with MGo _ {| go_cur := Some f |} => (length f.(ForwardZones) <= K)%nat | _ => True end.

Lemma ticks_insert ks t k b : ks !! t = Some k ->
  (ticks (<[t := {| tk_running := k.(tk_running); tk_tick := b |}]> ks) + Nat.b2n k.(tk_tick) = ticks ks + Nat.b2n b)%nat.
Proof.
  unfold ticks. revert t. induction ks as [|x ks IH]; intros [|t]; try done; simpl.
  - intros [= ->]. destruct (tk_tick k), b; simpl; lia.
  - intros H. specialize (IH t H). destruct (tk_tick x); simpl; lia.
Qed.

Lemma rebuild_zones_small s f : (ZoneCount (rebuildZones Fqdn (Some f) s) <= length f.(ForwardZones))%nat.
Proof.
  assert (H : forall zs acc, (size (foldl (rebuild_zone Fqdn s.(zones)) acc zs).2 <= size acc.2 + length zs)%nat).
  { induction zs as [|z zs IH]; intros acc; simpl; [lia|]. etrans; [apply IH|].
    enough (size (rebuild_zone Fqdn (zones s) acc z).2 <= S (size acc.2))%nat by lia.
    destruct acc as [h m]. assert (Hins : forall n l, (size (<[n := l]> m) <= S (size m))%nat).
    { intros n l. rewrite map_size_insert. case_match; unfold id; lia. }
    unfold rebuild_zone. repeat case_match; simpl; try apply Hins; lia. }
  specialize (H f.(ForwardZones) (s.(heap), ∅)). unfold ZoneCount. simpl.
  destruct (foldl _ _ _) as [h m]. simpl in *. by rewrite map_size_empty in H.
Qed.

(** the steps left to the loop [g], with those that ticks in the channels bring *)
Definition left_of (K g : nat) (v : Live) : nat :=
  match v.(lv_gos) !! g with Some (Loop ph) => loop_cost K ph | _ => 0 end + (2 * K + 3) * ticks v.(lv_tickers).

Lemma go_ticks io go v go' w :
  go_step Fqdn io go v = Some (go', w) ->
  (ticks w.(lv_tickers) <= ticks v.(lv_tickers))%nat /\ (resting_all v -> resting_all w).
Proof.
  intros H. unfold resting_all. destruct (go_tickers _ _ _ _ _ H) as [[-> _]|(t & k & Hk & Ht & _ & _ & ->)]; [done|].
  pose proof (ticks_insert _ _ _ false Hk) as Hi. rewrite Ht in Hi. simpl in Hi. split; [lia|].
  intros ?. by apply resting_update.
Qed.

(** a step of a loop uses up one of the steps it has left *)
Lemma loop_step_left K g io ph v go' w :
  small K (MGo g io) -> go_step Fqdn io (Loop ph) v = Some (go', w) ->
  exists ph', go' = Loop ph' /\
    (loop_cost K ph' + (2 * K + 3) * ticks w.(lv_tickers) < loop_cost K ph + (2 * K + 3) * ticks v.(lv_tickers))%nat.
Proof.
  intros [_ Hk] H. destruct (go_tickers _ _ _ _ _ H) as [[Hw Hpass]|(t & k & Ht & Htick & [= ->] & -> & Hw)].
  - rewrite Hw. clear Hw. enough (exists ph', go' = Loop ph' /\ (loop_cost K ph' < loop_cost K ph)%nat) as (ph' & ? & ?) by (exists ph'; split; [done|lia]). destruct ph as [|now rest running|t|]; simpl in H.
    + injection H as <- _. eexists. split; [done|]. cbn [loop_cost length]. rewrite length_snapshot.
      destruct io as [[f|] now pick pb]; cbn [go_cur] in *; [pose proof (rebuild_zones_small v.(lv_server) f); lia|].
      unfold ZoneCount. simpl. rewrite map_size_empty. lia.
    + destruct (go_pick io) as [k|].
      * destruct (running !! k) as [l|] eqn:E; [|done]. injection H as <- _. eexists. split; [done|]. simpl.
        rewrite length_delete by eauto. apply lookup_lt_Some in E. lia.
      * destruct rest as [|l rest]; [destruct running; [|done]|]; injection H as <- _; eexists; (split; [done|]); simpl; [lia|].
        rewrite length_app. repeat case_match; simpl; lia.
    + destruct (go_pick io); [destruct (lv_tickers v !! t) as [k|]; [|done]; destruct (tk_tick k); [|done]; by injection H as <- _|].
      destruct (lv_closed v); [|by case_match]. case_match; injection H as <- _; eexists; (split; [done|]); simpl; lia.
    + done.
  - exists LoopPass. split; [done|]. rewrite Hw. pose proof (ticks_insert _ _ _ false Ht) as Hi. rewrite Htick in Hi. simpl in *. nia.
Qed.

Lemma quiet_step K mv v v' :
  small K mv -> quiet v -> live_step Fqdn mv v = Some v' ->
  quiet v' /\ v'.(lv_panic) = v.(lv_panic) /\ (ticks v'.(lv_tickers) <= ticks v.(lv_tickers))%nat.
Proof.
  intros [Hk _] (Hs & Hc & Ht). unfold live_step. destruct (lv_panic v) eqn:Ep; [done|]. destruct mv as [c| |t|c|qs|g io]; [done|..].
  - intros [= <-]. unfold stop. rewrite Hs. simpl. by rewrite Ep.
  - destruct (lv_tickers v !! t) as [k|] eqn:E; [|done]. intros [= <-]. simpl.
    pose proof (Forall_lookup_1 _ _ _ _ Ht E) as Hrest. unfold resting in Hrest. rewrite Hrest. simpl.
    rewrite list_insert_id; [by split_and!|]. rewrite E. destruct k. by simplify_eq/=.
  - intros [= <-]. simpl. split_and!; [split_and!|..]; try done. simpl. by rewrite rebuild_started.
  - by intros [= <-].
  - destruct (lv_gos v !! g) as [go|]; [|done]. simpl. destruct (go_step Fqdn io go v) as [[go' w]|] eqn:E; [|done].
    intros [= <-]. destruct (go_frame _ _ _ _ _ E) as (_ & F1 & F2 & F3). destruct (go_ticks _ _ _ _ _ E) as [Hle Hall].
    simpl. unfold quiet, resting_all in *. simpl. rewrite F1, F2, F3. split_and!; try done. by apply Hall.
Qed.

Lemma quiet_run K g moves : forall v v' ph,
  Forall (small K) moves -> quiet v -> v.(lv_panic) = false -> v.(lv_gos) !! g = Some (Loop ph) -> live_run Fqdn moves v = Some v' ->
  quiet v' /\ v'.(lv_panic) = false /\ exists ph', v'.(lv_gos) !! g = Some (Loop ph')
  /\ (loop_cost K ph' + (2 * K + 3) * ticks v'.(lv_tickers) + steps_of g moves
       <= loop_cost K ph + (2 * K + 3) * ticks v.(lv_tickers))%nat.
Proof.
  induction moves as [|mv moves IH]; simpl; intros v v' ph Hk Hq Hp Hg Hrun.
  { injection Hrun as <-. split_and!; [done..|]. exists ph. unfold steps_of. simpl. split; [done|lia]. }
  apply Forall_cons in Hk as [Hmv Hk]. destruct (live_step Fqdn mv v) as [w|] eqn:E; [|done]. simpl in Hrun.
  destruct (quiet_step _ _ _ _ Hmv Hq E) as (Hqw & Hpw & Hle).
  assert (Hw : exists ph1, w.(lv_gos) !! g = Some (Loop ph1) /\
    (loop_cost K ph1 + (2 * K + 3) * ticks w.(lv_tickers) + Nat.b2n (is_step g mv) <= loop_cost K ph + (2 * K + 3) * ticks v.(lv_tickers))%nat).
  { destruct (is_step g mv) eqn:Hi; [|exists ph; split; [by eapply step_others | simpl; nia]].
    destruct mv as [| | | | |k io]; try done. apply Nat.eqb_eq in Hi as ->.
    apply step_gos in E as (go & go' & u & Hgo & Hstep & -> & Hu). assert (go = Loop ph) as -> by congruence.
    destruct (loop_step_left _ _ _ _ _ _ _ Hmv Hstep) as (ph1 & -> & Hlt). exists ph1. simpl. rewrite Hu.
    split; [by apply list_lookup_insert_eq; eapply lookup_lt_Some | lia]. }
  destruct Hw as (ph1 & Hg1 & Hle1). rewrite Hp in Hpw.
  destruct (IH _ _ _ Hk Hqw Hpw Hg1 Hrun) as (? & ? & ph' & ? & ?). split_and!; [done..|]. exists ph'. split; [done|].
  unfold steps_of in *. simpl. destruct (is_step g mv); simpl in *; lia.
Qed.

Lemma stop_quiet v v' :
  tickers_ok v -> v.(lv_server).(started) = true -> live_step Fqdn MStop v = Some v' -> quiet v'.
Proof.
  intros Ht Hs E. pose proof (tickers_ok_step _ _ _ Ht E) as [_ Hrest]. unfold live_step in E. destruct (lv_panic v); [done|].
  injection E as <-. unfold stop, Proxy.Stop in *. rewrite Hs in *. simpl in *. split_and!; [done..|]. by apply Hrest.
Qed.

(** C34. Stop ends the loop: as long as nobody calls Start again, it makes a bounded number
    of steps (those of the pass it is in, and one more pass for a tick that waits
    in a channel), and as long as it has not ended it can make one, whatever runs
    beside it; and nothing panics. *)
Theorem stop_ends_loop (before moves : list Move) (v0 v v' : Live) (g K : nat) (ph : LoopPhase) :
  live_run Fqdn before fresh = Some v0 -> v0.(lv_server).(started) = true ->
  live_step Fqdn MStop v0 = Some v -> v.(lv_panic) = false ->
  v.(lv_gos) !! g = Some (Loop ph) ->
  Forall (small K) moves -> live_run Fqdn moves v = Some v' ->
  (steps_of g moves <= loop_cost K ph + (2 * K + 3) * length v.(lv_tickers))%nat
  /\ v'.(lv_panic) = false
  /\ exists ph', v'.(lv_gos) !! g = Some (Loop ph')
       /\ (ph' = LoopEnded \/ exists io, is_Some (live_step Fqdn (MGo g io) v')).
Proof.
  intros E0 Hs E Hp Hg Hk Hrun. pose proof (stop_quiet _ _ (run_tickers_ok _ _ E0) Hs E) as Hq.
  destruct (quiet_run _ _ _ _ _ _ Hk Hq Hp Hg Hrun) as ((_ & Hc' & _) & Hp' & ph' & Hg' & Hle). split_and!; [|done|].
  - assert (ticks (lv_tickers v) <= length (lv_tickers v))%nat by apply List.filter_length_le. nia.
  - exists ph'. split; [done|]. unfold live_step. rewrite Hp', Hg'. simpl.
    pose (io := fun pick => {| go_cur := None; go_now := 0; go_pick := pick; go_probe := {| pb_exchange := fun _ => None; pb_pings := []; pb_now := 0 |} |}).
    destruct ph' as [|now rest running|t|]; [right|right|right|by left].
    + exists (io None). simpl. eauto.
    + destruct rest as [|l rest]; [destruct running as [|l running]|]; [exists (io None)|exists (io (Some 0%nat))|exists (io None)]; simpl; eauto.
    + exists (io None). simpl. rewrite Hc'. simpl; eauto.
Qed.

(** ** The channel [done] is closed once *)

Definition starts (moves : list Move) : nat :=
  length (List.filter (fun mv => match mv with MStart _ => true | _ => false end) moves).

(** with [n] calls of Start to come *)
Definition closable (n : nat) (v : Live) : Prop :=
  v.(lv_panic) = false /\ (n <= 1)%nat
  /\ (v.(lv_closed) = false \/ (v.(lv_server).(started) = false /\ n = 0%nat))
  /\ (n = 1%nat -> v.(lv_server).(started) = false).

Lemma closable_step mv moves v v' :
  closable (starts (mv :: moves)) v -> live_step Fqdn mv v = Some v' -> closable (starts moves) v'.
Proof.
  unfold closable, starts. intros (Hp & Hn & Hc & Hs). unfold live_step. rewrite Hp.
  destruct mv as [c| |t|c|qs|g io]; simpl in *.
  - intros [= <-]. set (n := length _) in *. assert (n = 0)%nat as -> by lia. rewrite (Hs eq_refl) in *.
    unfold start. rewrite (Hs eq_refl). simpl. destruct Hc as [Hc|[_ ?]]; [|done]. split_and!; [done|lia|by left|done].
  - intros [= <-]. unfold stop, Proxy.Stop. destruct (started (lv_server v)) eqn:E; simpl; [|by rewrite E; split_and!].
    destruct Hc as [Hc|[? _]]; [|done]. split_and!; [done|done| |done]. right. split; [done|].
    destruct (length _) as [|[|n]]; [done| |lia]. by specialize (Hs eq_refl).
  - destruct (lv_tickers v !! t); [|done]. by intros [= <-].
  - intros [= <-]. simpl. by rewrite rebuild_started.
  - by intros [= <-].
  - destruct (lv_gos v !! g) as [go|]; [|done]. simpl. destruct (go_step Fqdn io go v) as [[go' w]|] eqn:E; [|done].
    intros [= <-]. destruct (go_frame _ _ _ _ _ E) as (_ & F1 & F2 & F3). simpl. by rewrite F1, F2, F3.
Qed.

(** A process that calls Start once, as main does, never closes the channel twice. *)
Theorem one_start_no_panic (moves : list Move) (v : Live) :
  (starts moves <= 1)%nat -> live_run Fqdn moves fresh = Some v -> v.(lv_panic) = false.
Proof.
  intros Hn. assert (H : closable (starts moves) fresh) by (split_and!; [done|done|by left|done]). clear Hn.
  revert H. generalize fresh. induction moves as [|mv moves IH]; simpl; intros v0 H; [intros [= <-]; by destruct H|].
  destruct (live_step Fqdn mv v0) as [w|] eqn:E; [|done]. simpl. apply IH. by eapply closable_step.
Qed.

(** ** The operations without others in between *)

Definition alone (probes : nat -> Probe) (l : nat) : GoIO :=
  {| go_cur := None; go_now := 0; go_pick := Some 0%nat; go_probe := probes l |}.

Lemma probes_alone (probes : nat -> Probe) g ls : forall v,
  v.(lv_panic) = false -> v.(lv_gos) !! g = Some (Refreshing ls) ->
  exists v', live_run Fqdn (map (fun l => MGo g (alone probes l)) ls) v = Some v'
    /\ v'.(lv_server) = probeAll probes ls v.(lv_server) /\ v'.(lv_gos) !! g = Some (Refreshing []).
Proof.
  induction ls as [|l ls IH]; intros v Hp Hg; simpl; [by exists v|].
  unfold live_step. rewrite Hp, Hg. simpl.
  destruct (IH (probe_ends l (probes l) v <| lv_gos := <[g := Refreshing ls]> v.(lv_gos) |>)) as (v' & Hrun & Hs & Hg').
  - done.
  - simpl. by apply list_lookup_insert_eq; eapply lookup_lt_Some.
  - exists v'. split; [exact Hrun | done].
Qed.

(** [RefreshNow] of [Proxy] is the schedule in which nothing else happens *)
Theorem RefreshNow_alone (cur : option File) (probes : nat -> Probe) (v : Live) :
  v.(lv_panic) = false ->
  exists moves v', live_run Fqdn (MRefresh cur :: moves) v = Some v'
    /\ v'.(lv_server) = RefreshNow Fqdn cur probes v.(lv_server)
    /\ v'.(lv_gos) !! length v.(lv_gos) = Some (Refreshing []).
Proof.
  intros Hp. set (s := rebuildZones Fqdn cur v.(lv_server)).
  destruct (probes_alone probes (length v.(lv_gos)) (zoneSnapshot s) (v <| lv_server := s |> <| lv_gos := v.(lv_gos) ++ [Refreshing (zoneSnapshot s)] |>))
    as (v' & Hrun & Hs & Hg); [done|simpl; by rewrite lookup_app_r, Nat.sub_diag by done|].
  eexists _, v'. split; [|split; [exact Hs|exact Hg]]. cbn [live_run]. unfold live_step at 1. rewrite Hp. exact Hrun.
Qed.

(** and [handle] the one of a query *)
Lemma query_alone s g ph ph' :
  rtc (fun ph ph' => query_step s ph = Some ph') ph ph' ->
  forall v, v.(lv_panic) = false -> v.(lv_server) = s -> v.(lv_gos) !! g = Some (Query ph) ->
  exists moves v', live_run Fqdn moves v = Some v' /\ v'.(lv_server) = s /\ v'.(lv_gos) !! g = Some (Query ph').
Proof.
  induction 1 as [ph|ph ph1 ph' Hstep _ IH]; intros v Hp Hs Hg; [by exists [], v|].
  destruct (IH (v <| lv_gos := <[g := Query ph1]> v.(lv_gos) |>)) as (moves & v' & Hrun & ? & ?); [done..| |].
  { simpl. by apply list_lookup_insert_eq; eapply lookup_lt_Some. }
  exists (MGo g (alone (fun _ => {| pb_exchange := fun _ => None; pb_pings := []; pb_now := 0 |}) 0) :: moves), v'.
  split; [|done]. simpl. unfold live_step. rewrite Hp, Hg. simpl. rewrite Hs, Hstep. exact Hrun.
Qed.

Lemma handle_steps s questions :
  named s.(heap) s.(zones) ->
  rtc (fun ph ph' => query_step s ph = Some ph') (QueryLookup questions) (QueryReplied (hd_error questions) (handle s questions)).
Proof.
  intros Hn. destruct questions as [|q qs]; [by eapply rtc_l|]. simpl. unfold lookup_zone.
  eapply rtc_l; [simpl; done|]. destruct (zones s !! ToLower (q_Name q)) as [l|] eqn:El; simpl; [|done].
  destruct (Hn _ _ El) as (z & Hz & _). rewrite Hz. eapply rtc_l; [simpl; by rewrite Hz|].
  destruct (zs_Records z) as [|r rs] eqn:Er; [done|].
  eapply rtc_l; [simpl; by rewrite Hz|]. eapply rtc_l; [simpl; by rewrite Hz|]. by rewrite Er.
Qed.

Theorem handle_alone (before : list Move) (questions : list Question) (v : Live) :
  live_run Fqdn before fresh = Some v -> v.(lv_panic) = false ->
  exists moves v', live_run Fqdn (MQuery questions :: moves) v = Some v' /\ v'.(lv_server) = v.(lv_server)
    /\ v'.(lv_gos) !! length v.(lv_gos) = Some (Query (QueryReplied (hd_error questions) (handle v.(lv_server) questions))).
Proof.
  intros E0 Hp. destruct (run_ok _ _ E0) as [[Hn _] _].
  destruct (query_alone _ (length v.(lv_gos)) _ _ (handle_steps v.(lv_server) questions Hn) (v <| lv_gos := v.(lv_gos) ++ [Query (QueryLookup questions)] |>))
    as (moves & v' & Hrun & ? & ?); [done..|simpl; by rewrite lookup_app_r, Nat.sub_diag by done|].
  exists moves, v'. split; [|done]. cbn [live_run]. unfold live_step at 1. rewrite Hp. exact Hrun.
Qed.
End props.

(** ** Witnesses *)

(** one fast zone through the upstream [up], and a probe that gets the address [ip] *)
Definition pr_file (up : string) : File := ex_file (Some []) [((ex_fast "app.example.com") <| z_Upstreams := [up] |>)] [].
Definition pr_probe (ip : string) (now : Time) : Probe :=
  {| pb_exchange := fun t => if t =? TypeA then Some (0, [RR_A ip 30]) else None; pb_pings := [(ip, 5)]; pb_now := now |}.
Definition pr_go (cur : option File) (pick : option nat) (ip : string) : GoIO :=
  {| go_cur := cur; go_now := 7; go_pick := pick; go_probe := pr_probe ip 8 |}.
Definition pr_question : Question := {| q_Name := "App.example.com."; q_Qtype := TypeA |}.

(** the proxy is started; its loop is probing through 10.0.0.4 when the refresh
    takes over 10.0.0.5 *)
Definition pr_before : list Move :=
  [MStart (Some (pr_file "10.0.0.4")); MGo 0 (pr_go (Some (pr_file "10.0.0.4")) None ""); MGo 0 (pr_go None None "")].
Definition pr_after (n : nat) : list Move :=
  take n [(MGo 0 (pr_go (Some (pr_file "10.0.0.5")) (Some 0%nat) "192.0.2.1"));
          (MGo 1 (pr_go (Some (pr_file "10.0.0.5")) (Some 0%nat) "192.0.2.2"))].
Definition pr_refresh : Move := MRefresh (Some (pr_file "10.0.0.5")).

Lemma answers_follow_config_witness :
  exists v o up, live_run ex_fqdn (pr_before ++ pr_refresh :: pr_after 2) fresh = Some v
    /\ lookup_zone v.(lv_server) "app.example.com." = Some o
    /\ (o.(zs_Records) = [] \/ exists p, p ∈ v.(lv_probed) /\ p.(pr_Upstream) = probe_upstream up).
Proof.
  destruct (fmap_Some_1 lv_panic (live_run ex_fqdn (pr_before ++ pr_refresh :: pr_after 2) fresh) false) as (v & E & Hp); [vm_compute; reflexivity|].
  destruct (answers_follow_config ex_fqdn pr_before (pr_after 2) (pr_file "10.0.0.5") v ((ex_fast "app.example.com") <| z_Upstreams := ["10.0.0.5"] |>) E)
    as (o & _ & up & _ & Ho & _ & _ & _ & _ & H).
  - repeat constructor.
  - by left.
  - by split_and!.
  - exists v, o, up. split; [exact E|]. split; [exact Ho|]. destruct H as [H|(p & H1 & _ & H2 & _)];
      [exact (or_introl H) | exact (or_intror (ex_intro _ p (conj H1 H2)))].
Defined.

(** the probe through the former upstream has ended, the other one has not: the
    query is refused rather than answered from the former upstream *)
Example late_probe_not_served :
  match live_run ex_fqdn (pr_before ++ pr_refresh :: pr_after 1) fresh with
  | Some v => (handle v.(lv_server) [pr_question], map pr_Upstream v.(lv_probed)) = (servfail, ["10.0.0.4:53"])
  | None => False
  end.
Proof. vm_compute. reflexivity. Qed.
Example answered_after_probe :
  match live_run ex_fqdn (pr_before ++ pr_refresh :: pr_after 2) fresh with
  | Some v => handle v.(lv_server) [pr_question]
              = {| Rcode := RcodeSuccess; m_Answer := [AnsA "App.example.com." 30 (default [] (ParseIP "192.0.2.2"))] |}
  | None => False
  end.
Proof. vm_compute. reflexivity. Qed.

Definition asked_of (go : Goroutine) : option Question :=
  match go with Query (QueryReplied asked _) => asked | _ => None end.
Definition pr_query : list Move := MQuery [pr_question] :: repeat (MGo 2 (pr_go None None "")) 4.
Lemma reply_from_one_probe_witness :
  exists v m, live_run ex_fqdn (pr_before ++ pr_refresh :: pr_after 2 ++ pr_query) fresh = Some v
    /\ v.(lv_gos) !! 2%nat = Some (Query (QueryReplied (Some pr_question) m)) /\ (m = servfail \/ answered v.(lv_probed) pr_question m).
Proof.
  destruct (fmap_Some_1 (fun v => option_map asked_of (v.(lv_gos) !! 2%nat)) (live_run ex_fqdn (pr_before ++ pr_refresh :: pr_after 2 ++ pr_query) fresh)
    (Some (Some pr_question))) as (v & E & Hv); [vm_compute; reflexivity|].
  destruct (v.(lv_gos) !! 2%nat) as [[| |[| | | |asked m]]|] eqn:Eg; try discriminate Hv. injection Hv as <-.
  exists v, m. pose proof (reply_from_one_probe ex_fqdn _ v 2 _ m E Eg) as H.
  split; [exact E|]. split; [exact Eg|exact H].
Defined.

Lemma refresh_probes_every_zone_witness :
  exists v v2 running, live_run ex_fqdn pr_before fresh = Some v
    /\ v2.(lv_gos) !! length v.(lv_gos) = Some (Refreshing running)
    /\ (length running + steps_of (length v.(lv_gos)) (pr_after 2) = 1)%nat.
Proof.
  destruct (fmap_Some_1 (fun v => fmap (fun v1 => (ZoneCount v1.(lv_server), lv_panic <$> live_run ex_fqdn (pr_after 2) v1)) (live_step ex_fqdn pr_refresh v))
    (live_run ex_fqdn pr_before fresh) (Some (1%nat, Some false))) as (v & E0 & Hv); [vm_compute; reflexivity|].
  symmetry in Hv. apply fmap_Some_1 in Hv as (v1 & E1 & Hv1). injection Hv1 as Hc Hp.
  symmetry in Hp. apply fmap_Some_1 in Hp as (v2 & E2 & _).
  destruct (refresh_probes_every_zone ex_fqdn pr_before (pr_after 2) _ v v1 v2 E0 E1 E2) as (running & since & Hg & _ & Hlen & _).
  exists v, v2, running. split; [exact E0|]. split; [exact Hg|]. rewrite Hlen. by symmetry.
Defined.

(** the loop is in the middle of its first pass, and a tick waits, when Stop is called *)
Definition pr_ticked : list Move := pr_before ++ [MTick 0].
Definition pr_wind_down : list Move :=
  [(MGo 0 (pr_go None (Some 0%nat) "192.0.2.1")); (MGo 0 (pr_go None None "")); (MGo 0 (pr_go None (Some 0%nat) "")); (MGo 0 (pr_go None None ""));
   (MGo 0 (pr_go None None "")); (MGo 0 (pr_go None None ""))].
Lemma stop_ends_loop_witness :
  exists v0 v v', live_run ex_fqdn pr_ticked fresh = Some v0 /\ live_step ex_fqdn MStop v0 = Some v /\ live_run ex_fqdn pr_wind_down v = Some v'
    /\ (steps_of 0 pr_wind_down <= 6)%nat /\ v'.(lv_gos) !! 0%nat = Some (Loop LoopEnded).
Proof.
  destruct (fmap_Some_1 (fun v0 => (v0.(lv_server).(started), (fun v => (v.(lv_panic), length v.(lv_tickers), v.(lv_gos) !! 0%nat,
      (fun v' => v'.(lv_gos) !! 0%nat) <$> live_run ex_fqdn pr_wind_down v)) <$> live_step ex_fqdn MStop v0)) (live_run ex_fqdn pr_ticked fresh)
    (true, Some (false, 1%nat, Some (Loop (LoopScan 7 [] [0%nat])), Some (Some (Loop LoopEnded))))) as (v0 & E0 & Hv0); [vm_compute; reflexivity|].
  injection Hv0 as Hs Hv. symmetry in Hv. apply fmap_Some_1 in Hv as (v & E & Hv). injection Hv as Hp Ht Hg Hv'.
  symmetry in Hv'. apply fmap_Some_1 in Hv' as (v' & E' & Hend).
  destruct (stop_ends_loop ex_fqdn pr_ticked pr_wind_down v0 v v' 0 0 _ E0 (eq_sym Hs) E (eq_sym Hp) (eq_sym Hg)
    (ltac:(by repeat constructor) : Forall (small 0) pr_wind_down) E') as [Hb _].
  rewrite <- Ht in Hb. exists v0, v, v'. exact (conj E0 (conj E (conj E' (conj Hb (eq_sym Hend))))).
Defined.

Lemma one_start_no_panic_witness :
  exists v, live_run ex_fqdn (pr_ticked ++ [MStop; MStop]) fresh = Some v /\ v.(lv_panic) = false.
Proof.
  destruct (fmap_Some_1 lv_panic (live_run ex_fqdn (pr_ticked ++ [MStop; MStop]) fresh) false) as (v & E & Hp); [vm_compute; reflexivity|].
  exists v. split; [exact E|]. refine (one_start_no_panic ex_fqdn _ _ _ E). apply Nat.leb_le. vm_compute. reflexivity.
Defined.
(** A server that is started again after a Stop has a closed channel: its new loop
    may end after one pass, and the next Stop panics. *)
Example restart_then_stop_panics :
  let cur := Some (pr_file "10.0.0.4") in
  option_map lv_panic (live_run ex_fqdn [(MStart cur); MStop; (MStart cur); MStop] fresh) = Some true.
Proof. vm_compute. reflexivity. Qed.
Example restarted_loop_ends :
  let go pick := MGo 1 (pr_go None pick "") in
  match live_run ex_fqdn [(MStart None); MStop; (MStart None); (go None); (go None); (go None)] fresh with
  | Some v => (v.(lv_server).(started), v.(lv_gos)) = (true, [(Loop LoopPass); (Loop LoopEnded)])
  | None => False
  end.
Proof. vm_compute. reflexivity. Qed.

Lemma RefreshNow_alone_witness :
  exists moves v', live_run ex_fqdn (pr_refresh :: moves) fresh = Some v'
    /\ v'.(lv_server) = RefreshNow ex_fqdn (Some (pr_file "10.0.0.5")) (fun _ => pr_probe "192.0.2.2" 8) New.
Proof.
  destruct (RefreshNow_alone ex_fqdn (Some (pr_file "10.0.0.5")) (fun _ => pr_probe "192.0.2.2" 8) fresh eq_refl) as (moves & v' & Hrun & Hs & _).
  exists moves, v'. split; [exact Hrun | exact Hs].
Defined.
Lemma handle_alone_witness :
  exists moves v v', live_run ex_fqdn pr_before fresh = Some v
    /\ live_run ex_fqdn (MQuery [pr_question] :: moves) v = Some v' /\ v'.(lv_server) = v.(lv_server).
Proof.
  destruct (fmap_Some_1 lv_panic (live_run ex_fqdn pr_before fresh) false) as (v & E & Hp); [vm_compute; reflexivity|].
  destruct (handle_alone ex_fqdn _ [pr_question] v E) as (moves & v' & Hrun & Hs & _).
  - by symmetry.
  - exists moves, v, v'. split; [exact E|]. split; [exact Hrun | exact Hs].
Defined.
