(* ===== verification/AuditProps.v ===== *)
(** The properties of the audit log: the lines of the file, what [Tail] returns
    of what [Write] appended, and what a torn write can cost. *)
From S2P Require Import Prelude GoStrings GoTime Store AuditLog Samples.

(** ** splitLines *)

Lemma split_loop_line c1 s t : lacks NL s = true -> split_loop c1 (s +:+ String NL t) = (c1 +:+ s) :: splitLines t.
Proof.
  unfold lacks. revert c1. induction s as [|c s IH]; intros c1.
  - intros _. rewrite append_nil_l, append_nil_r. cbn [split_loop]. by rewrite Ascii.eqb_refl.
  - cbn [sforall]. intros [Hc%negb_true_iff Hs]%andb_true_iff. rewrite append_cons. cbn [split_loop]. rewrite Hc, IH by done.
    unfold str1. by rewrite append_assoc, append_cons, append_nil_l.
Qed.

Lemma split_loop_rest c1 s : lacks NL s = true -> split_loop c1 s = if (c1 +:+ s =? "")%string then [] else [c1 +:+ s].
Proof.
  unfold lacks. revert c1. induction s as [|c s IH]; intros c1.
  - intros _. by rewrite append_nil_r.
  - cbn [sforall]. intros [Hc%negb_true_iff Hs]%andb_true_iff. cbn [split_loop]. rewrite Hc, IH by done.
    unfold str1. by rewrite append_assoc, append_cons, append_nil_l.
Qed.

(** the file that holds [lines] *)
Definition file_of (lines : list string) : string := concat_str (map (fun l => l +:+ str1 NL) lines).

Lemma file_of_cons l ls : file_of (l :: ls) = (l +:+ str1 NL) +:+ file_of ls.
Proof. done. Qed.

Lemma file_of_app a b : file_of (a ++ b) = file_of a +:+ file_of b.
Proof.
  induction a as [|l a IH]; [done|]. rewrite <- app_comm_cons, !file_of_cons, IH. symmetry. apply append_assoc.
Qed.

Lemma splitLines_file (lines : list string) (rest : string) :
  Forall (fun l => lacks NL l = true) lines -> lacks NL rest = true ->
  splitLines (file_of lines +:+ rest) = lines ++ (if (rest =? "")%string then [] else [rest]).
Proof.
  intros Hl Hr. induction Hl as [|l lines Hl _ IH].
  - change (file_of []) with "". rewrite append_nil_l. unfold splitLines. rewrite split_loop_rest by done. by rewrite append_nil_l.
  - rewrite file_of_cons. unfold str1. rewrite !append_assoc, append_cons, append_nil_l. unfold splitLines at 1.
    rewrite split_loop_line by done. by rewrite append_nil_l, IH.
Qed.

(** [splitLines] inverts writing lines: complete lines come back one by
    one, empty ones included, and an unterminated rest comes back as a last
    line unless it is empty. *)
Theorem splitLines_roundtrip (lines : list string) (rest : string) :
  Forall (fun l => lacks NL l = true) lines -> lacks NL rest = true ->
  splitLines (file_of lines +:+ rest) = lines ++ (if (rest =? "")%string then [] else [rest]).
Proof. apply splitLines_file. Qed.

(** ** The log *)

Section log.
Context `{CL : !EntryCodecLaws C}.

(** the line of an entry *)
Definition line_of (e : Entry) (l : string) : Prop := MarshalEntry e = Ok l.

Lemma decode_line_of e l : line_of e l -> decode_line l = [utf8_entry e].
Proof.
  intros H. destruct (marshal_one_line e l H) as [_ Hn%String.eqb_neq]. unfold decode_line. rewrite Hn.
  by rewrite (unmarshal_marshal e l H).
Qed.

Lemma lines_lack es ls : Forall2 line_of es ls -> Forall (fun l => lacks NL l = true) ls.
Proof. induction 1 as [|e l es ls H _ IH]; [by apply Forall_nil|]. constructor; [by destruct (marshal_one_line e l H)|done]. Qed.

Lemma decode_lines es ls : Forall2 line_of es ls -> concat (map decode_line ls) = map utf8_entry es.
Proof. induction 1 as [|e l es ls H _ IH]; [done|]. simpl. by rewrite (decode_line_of e l H), IH. Qed.

(** a log of complete lines for the entries [es] *)
Definition holds (f : option string) (es : list Entry) : Prop :=
  exists ls, Forall2 line_of es ls /\ default "" f = file_of ls.

(** A successful Write appends its entry, with the time filled in, to a log;
    every other Write leaves the entries that were there readable: at most an
    unterminated line is added at the end. *)
Theorem Write_appends (io : LogIO) (e : Entry) (f f' : option string) es err :
  holds f es -> Write io e f = (f', err) ->
  match err with
  | None => holds f' (es ++ [fill_time io.(lo_now) e])
  | Some _ => exists ls rest, Forall2 line_of es ls /\ default "" f' = file_of ls +:+ rest
                /\ (lacks NL rest = true \/ exists l, line_of (fill_time io.(lo_now) e) l /\ rest = l +:+ str1 NL)
  end.
Proof.
  intros (ls & Hls & Hf). unfold Write.
  assert (Hnil : default "" f = file_of ls +:+ "") by (by rewrite append_nil_r).
  destruct (lo_mkdir io); [intros [= <- <-]; exists ls, ""; auto|].
  destruct (lo_open io); [intros [= <- <-]; exists ls, ""; auto|].
  destruct (MarshalEntry (fill_time (lo_now io) e)) as [data|] eqn:Hm; [|intros [= <- <-]; exists ls, ""; simpl; auto].
  destruct (marshal_one_line _ _ Hm) as [Hlk _].
  destruct (lo_write io) as [[n msg]|]; intros [= <- <-]; simpl.
  - exists ls, (str_take n (data +:+ str1 NL)). rewrite Hf. split_and!; [done..|].
    clear -Hlk Hm. unfold line_of.
    assert (Ht : forall n s, lacks NL s = true -> lacks NL (str_take n (s +:+ str1 NL)) = true \/ str_take n (s +:+ str1 NL) = s +:+ str1 NL).
    { clear. unfold lacks. intros n s. revert n. induction s as [|c s IH]; intros [|n]; try (by left).
      - intros _. right. by destruct n.
      - cbn [sforall]. intros [Hc Hs]%andb_true_iff. rewrite append_cons. cbn [str_take sforall].
        destruct (IH n Hs) as [H|H]; [left; by rewrite Hc, H | right; by rewrite H]. }
    destruct (Ht n data Hlk) as [H|H]; [by left | right; eauto].
  - exists (ls ++ [data]). split; [by apply Forall2_app; [|repeat constructor]|].
    rewrite file_of_app, Hf. change (file_of [data]) with ((data +:+ str1 NL) +:+ ""). by rewrite append_nil_r.
Qed.

(** C38. [Tail n] on a log of entries returns the last [n] of them in order (all
    of them for [n] not positive), with their texts in UTF-8, even when an undecodable rest of a torn write
    follows, which takes one place. *)
Theorem Tail_returns_last (n : Z) (f : option string) es ls rest :
  Forall2 line_of es ls -> f = Some (file_of ls +:+ rest) -> lacks NL rest = true ->
  UnmarshalEntry rest = None ->
  Tail n None f = Ok (map utf8_entry (
                      let k := if (rest =? "")%string then 0 else 1 in
                      if (0 <? n) && (n <? Z.of_nat (length es) + k)
                      then drop (length es + Z.to_nat k - Z.to_nat n) es else es)).
Proof.
  intros Hls -> Hr Hu. unfold Tail. rewrite splitLines_file by (done || by eapply lines_lack). f_equal.
  pose proof (Forall2_length _ _ _ Hls) as Hlen.
  assert (Hd : concat (map decode_line (if (rest =? "")%string then [] else [rest])) = []).
  { destruct (rest =? "")%string eqn:E; [done|]. simpl. unfold decode_line. by rewrite E, Hu. }
  assert (Hk : length (if (rest =? "")%string then [] else [rest]) = Z.to_nat (if (rest =? "")%string then 0 else 1))
    by (by case_match).
  unfold last_lines. rewrite length_app, <- Hlen, Hk. cbv zeta.
  rewrite Nat2Z.inj_add, Z2Nat.id by (case_match; lia).
  destruct (_ && _) eqn:E.
  - set (m := (_ + _ - _)%nat). rewrite drop_app, map_app, concat_app.
    rewrite (decode_lines (drop m es)) by (by apply Forall2_drop).
    enough (Hd' : forall m, concat (map decode_line (drop m (if (rest =? "")%string then [] else [rest]))) = [])
      by (by rewrite Hd', app_nil_r).
    intros j. destruct (rest =? "")%string; [by rewrite drop_nil|]. destruct j; [done|]. by destruct j.
  - by rewrite map_app, concat_app, Hd, app_nil_r, (decode_lines es).
Qed.
End log.

(** ** Witnesses *)

#[export] Instance entry_eq : EqDecision Entry. Proof. solve_decision. Defined.

(** a codec for finitely many entries: the [i]-th is a word of [i + 1] letters *)
Definition table_codec (l : list Entry) : EntryCodec := {|
  MarshalEntry e := match position e l with Some i => Ok (unary (S i)) | None => Err "not in the table" end;
  UnmarshalEntry s := match String.length s with O => None | S i => utf8_entry <$> l !! i end;
|}.
Lemma unary_lacks n : lacks NL (unary n) = true.
Proof. unfold lacks. by induction n. Qed.
#[export] Instance table_codec_laws l : EntryCodecLaws (table_codec l).
Proof.
  split; intros e s; simpl; destruct (position e l) as [i|] eqn:Hi; try done; intros [= <-].
  - split; [apply (unary_lacks (S i))|done].
  - simpl. rewrite unary_length. by rewrite (position_lookup _ _ _ Hi).
Qed.

Definition ex_entry (a : string) : Entry := {| en_Time := 7; en_Actor := "gui"; en_Action := a; en_Details := "" |}.
#[local] Instance ex_codec : EntryCodec := table_codec [(ex_entry "config-replace"); (ex_entry "forwarder-add")].
Definition ex_log_io : LogIO := {| lo_now := 7; lo_mkdir := None; lo_open := None; lo_write := None |}.

Lemma splitLines_roundtrip_witness : splitLines (file_of ["a"; ""; "b"] +:+ "c") = ["a"; ""; "b"; "c"].
Proof. apply splitLines_roundtrip; [by repeat constructor | reflexivity]. Defined.

Lemma Write_appends_witness :
  holds (Write ex_log_io ((ex_entry "forwarder-add") <| en_Time := 0 |>) None).1 [ex_entry "forwarder-add"].
Proof.
  destruct (Write ex_log_io ((ex_entry "forwarder-add") <| en_Time := 0 |>) None) as [f' err] eqn:H.
  assert (H0 : holds None []) by (exists []; split; [constructor | reflexivity]).
  pose proof (Write_appends ex_log_io _ None f' [] err H0 H) as R.
  destruct err; [vm_compute in H; discriminate | exact R].
Defined.

Lemma Tail_returns_last_witness :
  Tail 1 None (Some (file_of ["x"; "xx"] +:+ "")) = Ok [ex_entry "forwarder-add"].
Proof.
  refine (Tail_returns_last 1 _ [(ex_entry "config-replace"); (ex_entry "forwarder-add")] ["x"; "xx"] "" _ eq_refl eq_refl eq_refl).
  repeat constructor.
Defined.
