(* ===== verification/TLSProps.v ===== *)
(** The properties of the peer certificates: the derived key, the comparison,
    and that peers accept exactly the peers of their preshared key. *)
From S2P Require Import Prelude GoStrings Sha256 NetIP TLSPSK.

Section tls.
Context (ScalarBaseMult : Z -> option (Z * Z)).

(** the candidates of the loop: the seed, then the hashes of seed and counter *)
Definition candidate (seed : list Z) (i : nat) : Z :=
  match i with O => SetBytes seed | S j => reseed seed j end.
Definition usable (d : Z) : bool :=
  valid_scalar d && match ScalarBaseMult d with Some _ => true | None => false end.

Lemma key_loop_spec seed n : forall i,
  match key_loop ScalarBaseMult seed n i (candidate seed i) with
  | Ok k => exists j x y, (i <= j < i + n)%nat /\ k.(k_D) = candidate seed j /\ usable k.(k_D) = true
              /\ ScalarBaseMult k.(k_D) = Some (x, y)
              /\ k.(k_Public) = {| k_Curve := P256; k_X := x; k_Y := y |}
              /\ (forall l, (i <= l < j)%nat -> usable (candidate seed l) = false)
  | Err e => e = KNoKey /\ forall l, (i <= l < i + n)%nat -> usable (candidate seed l) = false
  end.
Proof.
  induction n as [|n IH]; intros i; cbn [key_loop]; [split; [done|intros; lia]|].
  assert (Hretry : usable (candidate seed i) = false ->
    match key_loop ScalarBaseMult seed n (S i) (reseed seed i) with
    | Ok k => exists j x y, (i <= j < i + S n)%nat /\ k.(k_D) = candidate seed j /\ usable k.(k_D) = true
                /\ ScalarBaseMult k.(k_D) = Some (x, y)
                /\ k.(k_Public) = {| k_Curve := P256; k_X := x; k_Y := y |}
                /\ (forall l, (i <= l < j)%nat -> usable (candidate seed l) = false)
    | Err e => e = KNoKey /\ forall l, (i <= l < i + S n)%nat -> usable (candidate seed l) = false
    end).
  { intros Hi. specialize (IH (S i)). cbn [candidate] in IH.
    assert (Hx : forall l, (i <= l)%nat -> l = i \/ (S i <= l)%nat) by lia.
    destruct (key_loop _ _ _ _ _) as [k|e].
    - destruct IH as (j & x & y & ? & ? & ? & ? & ? & Hl). exists j, x, y. split_and!; try done; try lia.
      intros l Hl'. destruct (Hx l) as [->|]; [lia|done|apply Hl; lia].
    - destruct IH as [? Hl]. split; [done|]. intros l Hl'. destruct (Hx l) as [->|]; [lia|done|apply Hl; lia]. }
  destruct (valid_scalar (candidate seed i)) eqn:Hv.
  - destruct (ScalarBaseMult (candidate seed i)) as [[x y]|] eqn:Hs.
    + exists i, x, y. cbn [k_D k_Public]. unfold usable. rewrite Hv, Hs. split_and!; try done; lia.
    + apply Hretry. unfold usable. by rewrite Hv, Hs.
  - apply Hretry. unfold usable. by rewrite Hv.
Qed.

(** C26. The key of a 32-byte seed is a function of the seed alone: its scalar is
    the first of the at most 10000 candidates (the seed, then SHA-256 of the
    seed and a counter) that lies strictly between 0 and the group order and has
    a public point, which is the key's: a candidate that is too large is rejected,
    not reduced modulo the order as the comment of the function says.  It is an
    error only when there is none, or the seed has another length. *)
Theorem ecdsaKeyFromSeed_first_candidate (seed : list Z) :
  match ecdsaKeyFromSeed ScalarBaseMult seed with
  | Ok k => length seed = 32%nat /\ 0 < k.(k_D) < P256_N
            /\ ScalarBaseMult k.(k_D) = Some (k.(k_Public).(k_X), k.(k_Public).(k_Y)) /\ k.(k_Public).(k_Curve) = P256
            /\ exists j, (j < max_tries)%nat /\ k.(k_D) = candidate seed j
                 /\ forall l, (l < j)%nat -> usable (candidate seed l) = false
  | Err (KSeedLength n) => n = length seed /\ n <> 32%nat
  | Err e => e = KNoKey /\ forall l, (l < max_tries)%nat -> usable (candidate seed l) = false
  end.
Proof.
  unfold ecdsaKeyFromSeed. destruct (Nat.eqb_spec (length seed) 32) as [Hlen|]; [|done]. cbn [negb].
  pose proof (key_loop_spec seed max_tries 0) as H. change (candidate seed 0) with (SetBytes seed) in H.
  destruct (key_loop _ _ _ _ _) as [k|e].
  - destruct H as (j & x & y & ? & ? & [Hv _]%andb_true_iff & Hs & -> & Hl).
    apply andb_true_iff in Hv as [?%Z.ltb_lt ?%Z.ltb_lt]. split_and!; try done.
    exists j. split_and!; [lia|done|]. intros l ?. apply Hl. lia.
  - destruct H as [-> Hl]. split; [done|]. intros l ?. apply Hl. lia.
Qed.

(** ** Verification *)

Context (ParseCertificate : string -> result string AnyKey).
Context (hkdf32 : string -> string -> result string (list Z)).

Lemma publicKeysEqual_iff a b :
  publicKeysEqual a b = Ok tt <-> exists k, a = ECDSA k /\ b = ECDSA k.
Proof.
  destruct a as [ka|], b as [kb|]; simpl; try (split; [done|intros (k & [=] & [=])]).
  destruct ka as [ca xa ya], kb as [cb xb yb]. simpl.
  assert (Hno : forall e : VerifyError, (ca, xa, ya) <> (cb, xb, yb) -> @Err _ unit e = Ok tt <->
    exists k, ECDSA {| k_Curve := ca; k_X := xa; k_Y := ya |} = ECDSA k /\ ECDSA {| k_Curve := cb; k_X := xb; k_Y := yb |} = ECDSA k).
  { intros e Hne. split; [done|]. intros (k & [= <-] & [= -> -> ->]). done. }
  destruct (bool_decide_reflect (ca = cb)) as [->|]; simpl; [|apply Hno; congruence].
  destruct (Z.eqb_spec xa xb) as [->|]; simpl; [|apply Hno; congruence].
  destruct (Z.eqb_spec ya yb) as [->|]; simpl; [|apply Hno; congruence].
  split; [eauto|done].
Qed.

(** The client accepts a handshake exactly when the first certificate the
    listener presents parses and carries an ECDSA key equal to the expected one,
    curve and both coordinates. *)
Theorem verifyPeerPublicKey_exact (rawCerts : list string) (expected : AnyKey) :
  verifyPeerPublicKey ParseCertificate rawCerts expected = Ok tt <->
  exists raw rest k, rawCerts = raw :: rest /\ ParseCertificate raw = Ok (ECDSA k) /\ expected = ECDSA k.
Proof.
  unfold verifyPeerPublicKey. destruct rawCerts as [|raw rest]; [split; [done|by intros (? & ? & ? & ? & _)]|].
  destruct (ParseCertificate raw) as [key|] eqn:Hp.
  - rewrite publicKeysEqual_iff. split.
    + intros (k & -> & ->). exists raw, rest, k. done.
    + intros (raw' & rest' & k & [= <- <-] & Hk & ->). exists k. split; [congruence|done].
  - split; [done|]. intros (raw' & rest' & k & [= <- <-] & Hk & _). congruence.
Qed.

(** Certificate creation is randomised: the two sides may use different functions,
    as long as the certificate carries the public key it was made for. *)
Definition carries_key (Create : Template -> PrivateKey -> result string string) : Prop :=
  forall tmpl priv der, Create tmpl priv = Ok der -> ParseCertificate der = Ok (ECDSA priv.(k_Public)).

Context (MarshalECPrivateKey : PrivateKey -> result string string).
Context (X509KeyPair : Block -> Block -> result string (list string)).
(** the chain that tls.X509KeyPair loads is the one CERTIFICATE block of the file *)
Definition loads_block : Prop :=
  forall cert key chain, X509KeyPair cert key = Ok chain -> chain = [cert.(b_Bytes)].
Context (verifyChain : option (list string) -> list string -> bool).

Lemma certFromPSK_ok Create psk cert :
  carries_key Create -> loads_block ->
  certFromPSK ScalarBaseMult ParseCertificate hkdf32 Create MarshalECPrivateKey X509KeyPair psk = Ok cert ->
  psk <> "" /\ exists seed der,
    hkdf32 psk psk_salt = Ok seed /\ ecdsaKeyFromSeed ScalarBaseMult seed = Ok cert.(c_Private)
    /\ cert.(c_Chain) = [der] /\ ParseCertificate der = Ok (ECDSA cert.(c_Private).(k_Public))
    /\ cert.(c_LeafKey) = ECDSA cert.(c_Private).(k_Public).
Proof.
  intros HC HL. unfold certFromPSK. destruct (String.eqb_spec psk ""); [done|].
  destruct (hkdf32 psk psk_salt) as [seed|]; [|done].
  destruct (ecdsaKeyFromSeed _ seed) as [k|] eqn:Hk; [|done].
  destruct (Create _ k) as [der|] eqn:Hd; [|done]. apply HC in Hd. rewrite Hd.
  destruct (MarshalECPrivateKey k); [|done].
  destruct (X509KeyPair _ _) as [chain|] eqn:Hp; [|done]. apply HL in Hp as ->.
  intros [= <-]. split; [done|]. by exists seed, der.
Qed.

(** C25. A client goes on with a listener exactly when the preshared keys of the two
    derive the same public key; in particular always when they are the same. *)
Theorem psk_handshake (CreateS CreateC : Template -> PrivateKey -> result string string) psk_server psk_client server client :
  carries_key CreateS -> carries_key CreateC -> loads_block ->
  tlsConfigForServer ScalarBaseMult ParseCertificate hkdf32 CreateS MarshalECPrivateKey X509KeyPair psk_server = Ok server ->
  tlsConfigForClient ScalarBaseMult ParseCertificate hkdf32 CreateC MarshalECPrivateKey X509KeyPair psk_client = Ok client ->
  psk_server <> "" /\ psk_client <> "" /\ exists ss sc ks kc,
    hkdf32 psk_server psk_salt = Ok ss /\ hkdf32 psk_client psk_salt = Ok sc
    /\ ecdsaKeyFromSeed ScalarBaseMult ss = Ok ks /\ ecdsaKeyFromSeed ScalarBaseMult sc = Ok kc
    /\ (accepts verifyChain client (presents server) = true <-> ks.(k_Public) = kc.(k_Public))
    /\ (psk_server = psk_client -> accepts verifyChain client (presents server) = true).
Proof.
  intros HS HC HL. unfold tlsConfigForServer, tlsConfigForClient.
  destruct (certFromPSK _ _ _ CreateS _ _ _) as [certs|] eqn:Es; [|done].
  destruct (certFromPSK _ _ _ CreateC _ _ _) as [certc|] eqn:Ec; [|done].
  intros [= <-] [= <-].
  apply (certFromPSK_ok _ _ _ HS HL) in Es as (? & ss & ds & Hs & Ks & Cs & Ps & _).
  apply (certFromPSK_ok _ _ _ HC HL) in Ec as (? & sc & dc & Hc & Kc & _ & _ & Lc).
  split_and!; [done..|]. exists ss, sc, (c_Private certs), (c_Private certc).
  assert (Hv : verifyPeerPublicKey ParseCertificate (c_Chain certs) (c_LeafKey certc) = Ok tt
    <-> (c_Private certs).(k_Public) = (c_Private certc).(k_Public)).
  { rewrite Cs, Lc. unfold verifyPeerPublicKey. rewrite Ps, publicKeysEqual_iff.
    split; [intros (k & [= ->] & [= ->]); done | intros ->; eauto]. }
  assert (Ha : forall r : result VerifyError unit, is_Ok r = true <-> r = Ok tt) by (intros [[]|]; done).
  split_and!; [done..| |]; cbn; rewrite Ha, Hv; [done|]. intros ->. congruence.
Qed.
End tls.

(** ** Fingerprints *)

(** A fingerprint is printed as OpenSSL does: two digits for each byte, one
    colon between two bytes. *)
Theorem fingerprintString_length (fp : list Z) :
  String.length (fingerprintString fp) = (3 * length fp - 1)%nat.
Proof.
  assert (H : forall l, String.length (fingerprint_from false l) = (3 * length l)%nat).
  { induction l as [|b l IH]; [done|]. cbn [fingerprint_from]. rewrite !append_length, IH. simpl. lia. }
  unfold fingerprintString. destruct fp as [|b fp]; [done|]. cbn [fingerprint_from].
  rewrite !append_length, H. simpl. lia.
Qed.

Example fingerprintString_ex : fingerprintString [171; 5; 255] = "AB:05:FF".
Proof. vm_compute. reflexivity. Qed.

(** ** Witnesses *)

(** a toy group and a toy certificate format, for which the hypotheses hold *)
Definition toy_mult (d : Z) : option (Z * Z) := Some (d, d + 1).
Definition toy_hkdf (psk salt : string) : result string (list Z) := Ok (take 32 (bytes_of psk ++ repeat 1 32)).
Definition toy_der (d : Z) : string := EncodeToString (be_bytes 32 d).
Definition toy_parse (der : string) : result string AnyKey :=
  let d := (span_hex 0 0 der).1.2 in Ok (ECDSA {| k_Curve := P256; k_X := d; k_Y := d + 1 |}).

(** on the keys that the toy group makes *)
Definition toy_create_checked (tmpl : Template) (priv : PrivateKey) : result string string :=
  match toy_parse (toy_der priv.(k_D)) with
  | Ok k => match publicKeysEqual k (ECDSA priv.(k_Public)) with Ok _ => Ok (toy_der priv.(k_D)) | Err _ => Err "bad key" end
  | Err e => Err e
  end.
Lemma toy_carries : carries_key toy_parse toy_create_checked.
Proof.
  intros tmpl priv der. unfold toy_create_checked. unfold toy_parse at 1.
  set (k := {| k_Curve := P256; k_X := _; k_Y := _ |}).
  destruct (publicKeysEqual (ECDSA k) (ECDSA (k_Public priv))) as [[]|] eqn:E; [|done].
  apply publicKeysEqual_iff in E as (k' & E1 & E2). intros [= <-].
  change (toy_parse (toy_der (k_D priv))) with (@Ok string _ (ECDSA k)). congruence.
Qed.
Definition toy_marshal (priv : PrivateKey) : result string string := Ok (toy_der priv.(k_D)).
(** a pair loads when the two blocks have the right types and belong together *)
Definition toy_pair (cert key : Block) : result string (list string) :=
  if negb (b_Type cert =? "CERTIFICATE")%string then Err "no certificate"
  else if negb (b_Type key =? "EC PRIVATE KEY")%string then Err "no key"
  else if (b_Bytes cert =? b_Bytes key)%string then Ok [b_Bytes cert]
  else Err "private key does not match public key".
Lemma toy_loads : loads_block toy_pair.
Proof. intros cert key chain. unfold toy_pair. repeat case_match; congruence. Qed.
(** no chain leads to a trusted root *)
Definition toy_chain (roots : option (list string)) (chain : list string) : bool := false.

Lemma psk_handshake_witness :
  exists server client,
    tlsConfigForServer toy_mult toy_parse toy_hkdf toy_create_checked toy_marshal toy_pair "secret" = Ok server
    /\ tlsConfigForClient toy_mult toy_parse toy_hkdf toy_create_checked toy_marshal toy_pair "secret" = Ok client
    /\ accepts toy_chain client (presents server) = true.
Proof.
  destruct (tlsConfigForServer toy_mult toy_parse toy_hkdf toy_create_checked toy_marshal toy_pair "secret") as [server|] eqn:H1;
    [|vm_compute in H1; discriminate].
  destruct (tlsConfigForClient toy_mult toy_parse toy_hkdf toy_create_checked toy_marshal toy_pair "secret") as [client|] eqn:H2;
    [|vm_compute in H2; discriminate].
  exists server, client. split; [reflexivity|]. split; [reflexivity|].
  destruct (psk_handshake toy_mult toy_parse toy_hkdf toy_marshal toy_pair toy_chain _ _ _ _ _ _ toy_carries toy_carries toy_loads H1 H2)
    as (_ & _ & ss & sc & ks & kc & _ & _ & _ & _ & _ & H). exact (H eq_refl).
Defined.
