(* ===== verification/ListenerProps.v ===== *)
(** The properties of the peer endpoint: nothing is served or changed without
    the key, what the three routes return, and when a push reaches the sink. *)
From S2P Require Import Prelude GoStrings GoPath GoTime Config Validate Sync Store AuditLog PeerListener Samples.

(** ** AuthOK *)

Lemma xor_acc_mono x y v : v <> 0 -> 0 <= v -> xor_acc v x y <> 0.
Proof.
  revert y v. induction x as [|c x IH]; intros [|d y] v Hv H0; simpl; try done. apply IH.
  - intros E. apply Z.lor_eq_0_iff in E as [? _]. done.
  - apply Z.lor_nonneg. split; [done|]. apply Z.lxor_nonneg. unfold code. lia.
Qed.

Lemma code_inj c d : code c = code d -> c = d.
Proof.
  unfold code. intros H. rewrite <- (ascii_N_embedding c), <- (ascii_N_embedding d). f_equal. lia.
Qed.

Lemma ConstantTimeCompare_eq x y : ConstantTimeCompare x y = 1 <-> x = y.
Proof.
  unfold ConstantTimeCompare. destruct (Nat.eqb_spec (String.length x) (String.length y)) as [Hl|Hl]; simpl.
  2:{ split; [done|]. by intros ->. }
  assert (H : xor_acc 0 x y = 0 <-> x = y).
  { revert y Hl. induction x as [|c x IH]; intros [|d y] Hl; simpl in *; try done.
    destruct (decide (c = d)) as [->|Hc].
    - rewrite Z.lxor_nilpotent, Z.lor_0_r, IH by lia. split; [by intros ->|by intros [=]].
    - split; [|by intros [= ? _]]. intros E. exfalso. revert E. apply xor_acc_mono.
      + rewrite Z.lor_0_l, Z.lxor_eq_0_iff. intros E. by apply Hc, code_inj.
      + apply Z.lor_nonneg. split; [lia|]. apply Z.lxor_nonneg. unfold code. lia. }
  destruct (Z.eqb_spec (xor_acc 0 x y) 0); rewrite <- H; lia.
Qed.

Lemma AuthOK_iff (token want : string) : AuthOK token want = true <-> want <> "" /\ token = want.
Proof.
  unfold AuthOK. destruct (String.eqb_spec want ""); [naive_solver|].
  rewrite Z.eqb_eq, ConstantTimeCompare_eq. naive_solver.
Qed.

(** The constant-time check accepts a token exactly when it is the preshared
    key, byte for byte; with an empty key it accepts nothing. *)
Theorem AuthOK_exact (token want : string) : AuthOK token want = true <-> want <> "" /\ token = want.
Proof. apply AuthOK_iff. Qed.

(** ** The routes *)

Section listener.
Context {W : Type} (cfg : ListenerConfig W).

(** C23. A request without the key changes nothing and learns nothing: every
    route answers 401 (404 off the routes, a redirect for a path that is not
    clean) with a fixed body, whatever the method and the body of the request. *)
Theorem unauthorized_rejected (now : Time) (r : PeerRequest) (w : W) :
  AuthOK r.(pr_token) cfg.(lc_PSK) = false ->
  let '(w', resp) := serve cfg now r w in
  w' = w /\ (resp = writeJSONError StatusUnauthorized "missing or invalid X-Peer-Token"
             \/ resp = {| ps_code := StatusNotFound; ps_body := BText "404 page not found" |}
             \/ resp = {| ps_code := StatusMovedPermanently; ps_body := BRedirect (cleanPath r.(pr_path)) |}).
Proof.
  intros Ha. unfold serve, handleManifest, handleItems, handleHealthz, requireAuth. rewrite Ha. simpl.
  repeat case_match; simplify_eq; auto.
Qed.

(** C24. Only an authenticated POST to the items route with a body that decodes
    reaches the push sink, and when the listener has a skew window and the envelope
    carries a server time (it is not zero), only if that time is inside the
    window; an envelope without one is not held against the clock.  Every other
    request leaves the world as it was. *)
Theorem only_valid_push_changes (now : Time) (r : PeerRequest) (w : W) :
  (serve cfg now r w).1 = w \/
  exists env sink, r.(pr_path) = "/peer/v1/items" /\ r.(pr_method) = POST /\ AuthOK r.(pr_token) cfg.(lc_PSK) = true
    /\ r.(pr_body) = Ok env /\ cfg.(lc_PushSink) = Some sink
    /\ (0 < cfg.(lc_Skew) -> env.(e_ServerTime) <> 0 -> outside cfg.(lc_Skew) (Since now env.(e_ServerTime)) = false)
    /\ let '(w', res) := sink env (peerName cfg) w in
       match res with
       | Err msg => serve cfg now r w = (w', writeJSONError StatusBadRequest msg)
       | Ok res => (serve cfg now r w).2 = ok (BMerge res)
                   /\ (serve cfg now r w).1 =
                      match cfg.(lc_Audit) with
                      | Some audit => audit {| en_Time := 0; en_Actor := "peer:" +:+ env.(e_InstanceID);
                                               en_Action := "peer-push-applied"; en_Details := StringifyMerge res |} w'
                      | None => w'
                      end
       end.
Proof.
  unfold serve. destruct (negb _); [by left|]. destruct (String.eqb_spec (pr_path r) "/peer/v1/manifest").
  { left. unfold handleManifest. by repeat case_match. }
  destruct (String.eqb_spec (pr_path r) "/peer/v1/items") as [Hp|].
  2:{ left. unfold handleHealthz. by repeat case_match. }
  unfold handleItems, requireAuth. destruct (AuthOK _ _) eqn:Ha; [simpl|by left].
  destruct (pr_method r) eqn:Hm; [left; by repeat case_match | | by left].
  unfold decodeEnvelope. destruct (pr_body r) as [env|] eqn:Hb; [|by left].
  destruct (out_of_skew _ _ _) eqn:Hs; [by left|].
  destruct (lc_PushSink cfg) as [sink|] eqn:Hk; [|by left].
  right. exists env, sink. split_and!; try done.
  - unfold out_of_skew, IsZero in Hs. intros Hsk%Z.ltb_lt Ht%Z.eqb_neq. rewrite Hsk, Ht in Hs. done.
  - destruct (sink env (peerName cfg) w) as [w' [res|msg]]; done.
Qed.

(** An authenticated GET returns the whole export for the listener's peer
    name, with the number of [since] echoed when it is one. *)
Theorem get_items_exports (now : Time) (r : PeerRequest) (w : W) (cur : File) :
  r.(pr_path) = "/peer/v1/items" -> r.(pr_method) = GET -> AuthOK r.(pr_token) cfg.(lc_PSK) = true ->
  cfg.(lc_Provider) w = Some cur ->
  exists env, serve cfg now r w = (w, ok (BEnvelope env))
    /\ env.(e_FromSeq) = default 0 (ParseUint r.(pr_since))
    /\ env <| e_FromSeq := 0 |> = FilterForExport now cfg.(lc_Instance) 0 cur (peerName cfg).
Proof.
  intros Hp Hm Ha Hc. unfold serve. rewrite Hp. simpl. unfold handleItems, requireAuth. rewrite Ha, Hm, Hc. simpl.
  eexists. split; [done|].
  destruct (String.eqb_spec (pr_since r) "") as [->|]; [done|]. simpl. by destruct (ParseUint (pr_since r)).
Qed.
End listener.

(** The audit line of a merge is "noop" exactly when every count is zero. *)
Theorem StringifyMerge_noop (r : MergeResult) : StringifyMerge r = "noop" <-> r = noResult.
Proof.
  split; [|by intros ->]. unfold StringifyMerge. destruct (_ && _) eqn:E.
  - intros _. go_bools. destruct r as [a u d sk c rj]. simpl in *.
    repeat match goal with H : (_ =? _)%nat = true |- _ => apply Nat.eqb_eq in H end. by subst.
  - intros H. exfalso.
    assert (Hj : forall p ps, Join (p :: ps) " " = "noop" -> (exists c, HasPrefix p c = true /\ c <> "" /\ HasPrefix "noop" c = false) -> False).
    { intros p ps Hj (c & Hc & Hn & Hno).
      assert (Hpre : forall p q c, HasPrefix p c = true -> HasPrefix (p +:+ q) c = true).
      { clear. intros p q c. revert p. induction c as [|x c IH]; intros [|y p]; try done. 
        - by destruct q.
        - rewrite append_cons. cbn [HasPrefix]. rewrite !andb_true_iff. naive_solver. }
      destruct ps as [|p' ps]; [cbn [Join] in Hj; by rewrite Hj, Hno in Hc|].
      change (p +:+ (" " +:+ Join (p' :: ps) " ") = "noop") in Hj.
      apply (Hpre _ (" " +:+ Join (p' :: ps) " ")) in Hc. rewrite Hj, Hno in Hc. done. }
    destruct r as [a u d sk c rj]. cbn [Added MUpdated MDeleted Skipped Conflicts Rejected] in *. unfold merge_part in H.
    destruct a; [|by eapply Hj; [exact H|]; exists "a"; split; [reflexivity|]].
    destruct u; [|by eapply Hj; [exact H|]; exists "u"; split; [reflexivity|]].
    destruct d; [|by eapply Hj; [exact H|]; exists "d"; split; [reflexivity|]].
    destruct c; [|by eapply Hj; [exact H|]; exists "c"; split; [reflexivity|]].
    destruct sk; [|by eapply Hj; [exact H|]; exists "s"; split; [reflexivity|]].
    destruct rj; [|by eapply Hj; [exact H|]; exists "r"; split; [reflexivity|]].
    done.
Qed.

(** ** Witnesses *)

Definition ex_listener : ListenerConfig (option File) :=
  {| lc_Listen := "0.0.0.0:8443"; lc_PSK := "secret"; lc_Instance := "site-b"; lc_Skew := 5 * Minute; lc_PeerName := "site-b";
     lc_Provider := fun w => w; lc_PushSink := None; lc_Audit := None |}.
Definition ex_request (token since : string) : PeerRequest :=
  {| pr_path := "/peer/v1/items"; pr_method := GET; pr_token := token; pr_since := since; pr_body := Err "EOF" |}.
Definition ex_served : File := ex_file (Some [ex_default "168.63.129.16" 53 5]) [] [].

Lemma unauthorized_rejected_witness :
  (serve ex_listener 100 (ex_request "guess" "") (Some ex_served)).1 = Some ex_served.
Proof.
  pose proof (unauthorized_rejected ex_listener 100 (ex_request "guess" "") (Some ex_served) eq_refl) as H.
  destruct (serve ex_listener 100 (ex_request "guess" "") (Some ex_served)) as [w' resp]. exact (proj1 H).
Defined.

Lemma get_items_exports_witness :
  exists env, serve ex_listener 100 (ex_request "secret" "17") (Some ex_served) = (Some ex_served, ok (BEnvelope env))
    /\ env.(e_FromSeq) = 17.
Proof.
  destruct (get_items_exports ex_listener 100 (ex_request "secret" "17") (Some ex_served) ex_served eq_refl eq_refl eq_refl eq_refl)
    as (env & H1 & H2 & _).
  exists env. split; [exact H1 | exact H2].
Defined.
