(* ===== verification/ClientProps.v ===== *)
(** The properties of the peer client: what leaves the process and for whom, the
    retries, the suppression of echoes, and what a pull changes. *)
From S2P Require Import Prelude GoStrings GoTime Config Validate Sync Store AuditLog PeerListener PeerClient Samples.

(** ** Substrings *)

Lemma HasPrefix_app s t : HasPrefix (s +:+ t) s = true.
Proof. induction s as [|c s IH]; [by destruct t|]. rewrite append_cons. cbn [HasPrefix]. by rewrite Ascii.eqb_refl, IH. Qed.
Lemma HasPrefix_nil s : HasPrefix s "" = true.
Proof. by destruct s. Qed.
Lemma HasPrefix_more s t p : HasPrefix s p = true -> HasPrefix (s +:+ t) p = true.
Proof.
  revert s. induction p as [|c p IH]; intros s; [intros _; apply HasPrefix_nil|]. destruct s as [|d s]; [done|].
  rewrite append_cons. cbn [HasPrefix]. rewrite !andb_true_iff. naive_solver.
Qed.
Lemma Contains_cons c s sub : Contains s sub = true -> Contains (String c s) sub = true.
Proof.
  unfold Contains. cbn [Index]. intros H. destruct (HasPrefix (String c s) sub); [done|]. by destruct (Index s sub).
Qed.
Lemma Contains_prefix s sub : HasPrefix s sub = true -> Contains s sub = true.
Proof. unfold Contains. intros H. destruct s; cbn [Index]; by rewrite H. Qed.
(** a substring of the middle is a substring of the whole *)
Lemma Contains_app a s b sub : Contains s sub = true -> Contains (a +:+ (s +:+ b)) sub = true.
Proof.
  intros H. induction a as [|c a IH]; [rewrite append_nil_l | rewrite append_cons; by apply Contains_cons].
  induction s as [|c s IH].
  - unfold Contains in H. cbn [Index] in H. destruct (HasPrefix "" sub) eqn:E; [|done].
    destruct sub; [|done]. apply Contains_prefix. by destruct b.
  - rewrite append_cons. unfold Contains in H. cbn [Index] in H.
    destruct (HasPrefix (String c s) sub) eqn:E.
    + apply Contains_prefix. rewrite <- append_cons. by apply HasPrefix_more.
    + apply Contains_cons, IH. unfold Contains. by destruct (Index s sub).
Qed.

(** ** Push *)

Definition waits_ms : list Z := [100 * Millisecond; 200 * Millisecond; 400 * Millisecond; 800 * Millisecond; 1600 * Millisecond].

Lemma push_loop_spec once cancelled n : forall k b last,
  let '(r, waits) := push_loop once cancelled n k b last in
  exists m, (m <= n)%nat /\ length waits = m
    /\ (forall j, (j < m)%nat -> exists e, once (k + j)%nat = Some e /\ Contains e "locked" = true)
    /\ match r with
       | None => (m < n)%nat /\ once (k + m)%nat = None \/ (m = n /\ n = 0%nat /\ last = None)
       | Some err =>
           ((m < n)%nat /\ once (k + m)%nat = Some err /\ Contains err "locked" = false)
           \/ (exists j, m = S j /\ (j < n)%nat /\ cancelled (k + j)%nat = Some err)
           \/ (m = n /\ (n = 0%nat /\ last = Some err \/ exists j, n = S j /\ once (k + j)%nat = Some err))
       end.
Proof.
  induction n as [|n IH]; intros k b last; cbn [push_loop].
  { exists 0%nat. split_and!; [done|done|lia|]. destruct last; eauto 10. }
  destruct (once k) as [err|] eqn:Hk.
  2:{ exists 0%nat. split_and!; [lia|done|lia|]. left. rewrite Nat.add_0_r. split; [lia|done]. }
  destruct (Contains err "locked") eqn:Hlk; simpl.
  2:{ exists 0%nat. split_and!; [lia|done|lia|]. left. rewrite Nat.add_0_r. split_and!; [lia|done..]. }
  assert (H0 : forall m, (forall j, (j < m)%nat -> exists e, once (S k + j)%nat = Some e /\ Contains e "locked" = true) ->
    forall j, (j < S m)%nat -> exists e, once (k + j)%nat = Some e /\ Contains e "locked" = true).
  { intros m Hm [|j] Hj; [rewrite Nat.add_0_r; eauto|]. replace (k + S j)%nat with (S k + j)%nat by lia. apply Hm. lia. }
  destruct (cancelled k) as [e|] eqn:Hc.
  { exists 1%nat. split_and!; [lia|done|apply H0; lia|]. right. left. exists 0%nat. rewrite Nat.add_0_r. split_and!; [done|lia|done]. }
  specialize (IH (S k) (wrap64 (b * 2)) (Some err)). destruct (push_loop _ _ _ _ _ _) as [r waits].
  destruct IH as (m & Hm & Hlen & Hall & Hr). exists (S m). split_and!; [lia|simpl; lia|by apply H0|].
  assert (Hsum : forall j, (k + S j)%nat = (S k + j)%nat) by lia.
  destruct r as [err'|].
  - destruct Hr as [(? & ? & ?)|[(j & -> & ? & ?)|(-> & [(-> & [= ->])|(j & -> & ?)])]].
    + left. rewrite Hsum. split_and!; [lia|done..].
    + right. left. exists (S j). rewrite Hsum. split_and!; [done|lia|done].
    + right. right. split; [done|]. right. exists 0%nat. by rewrite Nat.add_0_r.
    + right. right. split; [done|]. right. exists (S j). by rewrite Hsum.
  - destruct Hr as [(? & ?)|(-> & -> & [=])]. left. rewrite Hsum. split; [lia|done].
Qed.

Lemma push_loop_waits once cancelled n : forall k b last,
  0 <= b -> b * 2 ^ Z.of_nat n < 2 ^ 63 ->
  (push_loop once cancelled n k b last).2 `prefix_of` map (fun i => b * 2 ^ Z.of_nat i) (seq 0 n).
Proof.
  induction n as [|n IH]; intros k b last Hb Hn; cbn [push_loop]; [done|].
  assert (H2 : 2 ^ Z.of_nat (S n) = 2 * 2 ^ Z.of_nat n) by (rewrite Nat2Z.inj_succ, Z.pow_succ_r by lia; lia).
  pose proof (Z.pow_pos_nonneg 2 (Z.of_nat n) ltac:(lia) ltac:(lia)) as Hp.
  assert (Hw : wrap64 (b * 2) = b * 2) by (apply wrap64_id; unfold in64; nia).
  assert (Hm : map (fun i => b * 2 ^ Z.of_nat i) (seq 0 (S n)) = b :: map (fun i => (b * 2) * 2 ^ Z.of_nat i) (seq 0 n)).
  { cbn [seq map]. f_equal; [change (2 ^ Z.of_nat 0) with 1; lia|]. rewrite <- seq_shift, map_map. apply map_ext. intros i.
    rewrite Nat2Z.inj_succ, Z.pow_succ_r by lia. lia. }
  rewrite Hm. case_match; [|by apply prefix_nil]. case_match; [by apply prefix_nil|].
  case_match; [by apply prefix_cons, prefix_nil|]. rewrite Hw.
  specialize (IH (S k) (b * 2) (Some s)). destruct (push_loop _ _ _ _ _ _) as [r ws]. simpl.
  apply prefix_cons, IH; [lia|nia].
Qed.

(** A push is tried at most five times.  It is tried again only after an
    error that speaks of a lock; it succeeds when an attempt succeeds, and else
    returns the error of the last attempt made (or of the context).  Its waits
    double from 100 ms, so that they stay within 3.1 s in all. *)
Theorem Push_attempts (once cancelled : nat -> option string) :
  let '(r, waits) := Push once cancelled in
  waits `prefix_of` waits_ms /\ foldr Z.add 0 waits <= 3100 * Millisecond
  /\ (forall j, (j < length waits)%nat -> exists e, once j = Some e /\ Contains e "locked" = true)
  /\ match r with
     | None => (length waits < 5)%nat /\ once (length waits) = None
     | Some err =>
         ((length waits < 5)%nat /\ once (length waits) = Some err /\ Contains err "locked" = false)
         \/ (exists j, length waits = S j /\ cancelled j = Some err)
         \/ (length waits = 5%nat /\ once 4%nat = Some err)
     end.
Proof.
  unfold Push. pose proof (push_loop_spec once cancelled maxAttempts 0 (100 * Millisecond) None) as H.
  pose proof (push_loop_waits once cancelled maxAttempts 0 (100 * Millisecond) None) as Hw.
  destruct (push_loop _ _ _ _ _ _) as [r waits]. cbn [snd] in Hw.
  change (map _ _) with waits_ms in Hw.
  assert (Hp : waits `prefix_of` waits_ms).
  { apply Hw; [done | reflexivity]. }
  destruct H as (m & Hm & Hlen & Hall & Hr). rewrite Hlen. split_and!; [done| |done|].
  - destruct Hp as [rest Hp]. clear -Hp.
    do 5 (destruct waits as [|? waits]; [vm_compute; discriminate | injection Hp as <- Hp]).
    destruct waits; [vm_compute; discriminate | done].
  - destruct r as [err|].
    + destruct Hr as [(? & ? & ?)|[(j & ? & ? & ?)|(-> & [(? & ?)|(j & Hj & ?)])]]; [by left | right; left; by exists j | done |].
      right. right. injection Hj as <-. done.
    + destruct Hr as [?|(_ & ? & _)]; done.
Qed.

(** ** What is sent *)

Section client.
Context `{URLs}.

Lemma pushOnce_cases (cur : option File) (instanceID : string) (now : Time) (tp : Transport) (peer : Peer) :
  let '(err, sent, log) := pushOnce cur instanceID now tp peer in
  (forall s, sent = Some s -> exists f, cur = Some f /\ f.(f_Peers).(SharedKey) <> "" /\ peer.(p_URL) <> ""
      /\ s.(sent_token) = f.(f_Peers).(SharedKey)
      /\ s.(sent_envelope) = FilterForExport now instanceID 0 f peer.(p_Name)
      /\ joinURL peer.(p_URL) "/peer/v1/items" = Ok s.(sent_url))
  /\ (err = None <-> exists s resp, sent = Some s /\ tp.(tp_do) = Ok resp /\ Z.quot resp.(hr_code) 100 = 2)
  /\ (err <> None -> log = []).
Proof.
  assert (Hno : forall err : string,
     (forall s : Sent, None = Some s -> exists f, cur = Some f /\ f.(f_Peers).(SharedKey) <> "" /\ peer.(p_URL) <> ""
      /\ s.(sent_token) = f.(f_Peers).(SharedKey)
      /\ s.(sent_envelope) = FilterForExport now instanceID 0 f peer.(p_Name)
      /\ joinURL peer.(p_URL) "/peer/v1/items" = Ok s.(sent_url))
     /\ (Some err = None <-> exists (s : Sent) resp, None = Some s /\ tp.(tp_do) = Ok resp /\ Z.quot resp.(hr_code) 100 = 2)
     /\ (Some err <> None -> @nil Entry = [])).
  { intros err. split_and!; [done| |done]. split; [done|]. by intros (? & ? & ? & _). }
  unfold pushOnce. destruct cur as [f|]; [|by apply Hno].
  destruct (String.eqb_spec (SharedKey (f_Peers f)) "") as [|Hk]; [by apply Hno|].
  destruct (String.eqb_spec (p_URL peer) "") as [|Hu]; [by apply Hno|].
  destruct (tp_marshal tp _); [by apply Hno|]. destruct (joinURL _ _) as [u|] eqn:Hj; [|by apply Hno].
  destruct (tp_request tp u); [by apply Hno|]. destruct (httpClient tp _); [by apply Hno|].
  assert (Hsent : forall s, Some {| sent_url := u; sent_token := SharedKey (f_Peers f);
      sent_envelope := FilterForExport now instanceID 0 f (p_Name peer) |} = Some s ->
    exists g, Some f = Some g /\ g.(f_Peers).(SharedKey) <> "" /\ peer.(p_URL) <> ""
      /\ s.(sent_token) = g.(f_Peers).(SharedKey)
      /\ s.(sent_envelope) = FilterForExport now instanceID 0 g peer.(p_Name)
      /\ @Ok string _ u = Ok s.(sent_url)).
  { intros s [= <-]. exists f. done. }
  destruct (tp_do tp) as [resp|] eqn:Hd.
  - destruct (Z.eqb_spec (Z.quot (hr_code resp) 100) 2) as [Hc|Hc]; simpl negb; cbv iota.
    + split_and!; [exact Hsent| |by intros []]. split; [|done]. intros _. eauto 10.
    + split_and!; [exact Hsent| |done]. split; [done|]. intros (? & ? & _ & [= <-] & ?). done.
  - split_and!; [exact Hsent| |done]. split; [done|]. by intros (? & ? & _ & ? & _).
Qed.

(** A push only leaves the process when a key is configured and the peer has
    a URL; it carries the key as its token and exactly the export for that peer's
    name, and goes to the peer's URL extended by the path of the endpoint.  It
    succeeds exactly when it was sent and answered with a 2xx. *)
Theorem pushOnce_sends (cur : option File) (instanceID : string) (now : Time) (tp : Transport) (peer : Peer) :
  let '(err, sent, log) := pushOnce cur instanceID now tp peer in
  (forall s, sent = Some s -> exists f, cur = Some f /\ f.(f_Peers).(SharedKey) <> "" /\ peer.(p_URL) <> ""
      /\ s.(sent_token) = f.(f_Peers).(SharedKey)
      /\ s.(sent_envelope) = FilterForExport now instanceID 0 f peer.(p_Name)
      /\ joinURL peer.(p_URL) "/peer/v1/items" = Ok s.(sent_url))
  /\ (err = None <-> exists s resp, sent = Some s /\ tp.(tp_do) = Ok resp /\ Z.quot resp.(hr_code) 100 = 2)
  /\ (err <> None -> log = []).
Proof. apply pushOnce_cases. Qed.

(** A peer whose store is locked answers a push with the text of that error;
    the error the push returns still speaks of the lock, so it is tried again. *)
Theorem locked_peer_is_retried (f : File) (instanceID : string) (now : Time) (tp : Transport) (peer : Peer) resp err sent log :
  tp.(tp_do) = Ok resp -> resp.(hr_code) = StatusBadRequest -> resp.(hr_error) = "config is locked by another writer" ->
  pushOnce (Some f) instanceID now tp peer = (Some err, Some sent, log) ->
  Contains err "locked" = true.
Proof.
  intros Hd Hc He. unfold pushOnce. rewrite Hd, Hc.
  destruct (_ =? "")%string; [done|]. destruct (_ =? "")%string; [done|].
  destruct (tp_marshal _ _); [done|]. destruct (joinURL _ _); [|done]. destruct (tp_request _ _); [done|]. destruct (httpClient _ _); [done|].
  change (negb (Z.quot StatusBadRequest 100 =? 2)) with true. cbv iota. intros [= <- _ _].
  unfold error_body. rewrite He. change (_ =? "")%string with false. cbv iota.
  assert (Hm : Contains "config is locked by another writer" "locked" = true) by (vm_compute; reflexivity).
  pose proof (Contains_app ("push to " +:+ p_Name peer +:+ ": ") _ "" _ Hm) as Hx.
  rewrite append_nil_r, !append_assoc in Hx. exact Hx.
Qed.

(** A base URL with a path that does not end in a slash gets a double slash:
    the trimming helper puts back the slash that the endpoint's path begins with. *)
Theorem joinURL_double_slash (base p : string) (u : URL) (c : ascii) :
  url_Parse base = Ok u -> url_Path u = p +:+ str1 c -> c <> "/"%char ->
  joinURL base "/peer/v1/items" = Ok (url_String (url_setPath (p +:+ str1 c +:+ "//peer/v1/items") u)).
Proof.
  intros Hp Hpath Hc. unfold joinURL. rewrite Hp, Hpath. do 2 f_equal. f_equal.
  assert (Ht : trim_right_slash (p +:+ str1 c) = p +:+ str1 c).
  { clear Hpath. induction p as [|d p IH].
    - rewrite append_nil_l. simpl. by apply Ascii.eqb_neq in Hc as ->.
    - rewrite append_cons. cbn [trim_right_slash]. rewrite IH.
      destruct (p +:+ str1 c) eqn:E; [|done]. by destruct p. }
  unfold stringsTrimRightSlash. rewrite Ht. destruct (p +:+ str1 c =? "")%string eqn:E.
  - apply String.eqb_eq in E. by destruct p.
  - by rewrite !append_assoc.
Qed.
End client.

(** ** Echo suppression *)

(** A mark suppresses one round of pushes: a [PushAll] within two seconds of
    it pushes to nobody, every other pushes to the enabled peers, and after either
    nothing is marked, so the next one is not suppressed. *)
Theorem PushAll_suppresses_once (now now' : Time) (push push' : Peer -> option string) (peers peers' : list Peer) (c : Client) :
  let '(c1, pushed, errs) := PushAll now push peers c in
  (pushed = if recent now c then None else Some (List.filter p_Enabled peers))
  /\ (recent now c = true <-> c.(lastAppliedAt) <> 0 /\ Sub now c.(lastAppliedAt) < 2 * Second)
  /\ (pushed = None -> errs = [])
  /\ (PushAll now' push' peers' c1).1.2 = Some (List.filter p_Enabled peers').
Proof.
  unfold PushAll. assert (Hr : recent now c = true <-> c.(lastAppliedAt) <> 0 /\ Sub now c.(lastAppliedAt) < 2 * Second).
  { unfold recent, IsZero. by rewrite andb_true_iff, negb_true_iff, Z.eqb_neq, Z.ltb_lt. }
  destruct (recent now c); split_and!; try done; by intros.
Qed.

(** ** Pull *)

Section pull.
Context `{URLs} {W : Type} (ops : ClientOps W).

(** A pull either does nothing (no configuration, no key, no URL), or records
    one error for the peer and nothing else (a failing Apply apart, which runs
    first), or applies the envelope of a 2xx answer and then marks its sender,
    writes the audit entry and records the success, in this order. *)
Theorem pull_effects (now : Time) (tp : Transport) (peer : Peer) (w : W) :
  pull ops now tp peer w = w
  \/ (exists err, pull ops now tp peer w = recordErr ops now peer err w)
  \/ exists resp env, tp.(tp_do) = Ok resp /\ Z.quot resp.(hr_code) 100 = 2 /\ resp.(hr_envelope) = Ok env
      /\ let '(w', err) := ops.(co_Apply) env peer.(p_Name) w in
         pull ops now tp peer w =
         match err with
         | Some err => recordErr ops now peer err w'
         | None =>
             recordOK ops now peer
               (ops.(co_Audit) {| en_Time := 0; en_Actor := "peer:" +:+ env.(e_InstanceID);
                                  en_Action := "peer-pull-applied"; en_Details := peer.(p_Name) |}
                 (ops.(co_Mark) env.(e_InstanceID) w'))
         end.
Proof.
  unfold pull. destruct (co_Provider ops w) as [cur|]; [|by left].
  destruct (_ =? "")%string; [by left|]. destruct (_ =? "")%string; [by left|].
  destruct (joinURL _ _); [|right; left; eauto]. destruct (tp_request _ _); [right; left; eauto|].
  destruct (httpClient _ _); [right; left; eauto|]. destruct (tp_do tp) as [resp|] eqn:Hd; [|right; left; eauto].
  destruct (Z.eqb_spec (Z.quot (hr_code resp) 100) 2) as [Hc|]; simpl negb; cbv iota; [|right; left; eauto].
  destruct (hr_envelope resp) as [env|] eqn:He; [|right; left; eauto].
  right. right. exists resp, env. split_and!; [done..|]. destruct (co_Apply _ _ _ _) as [w' [err|]]; done.
Qed.
(** Without a key the loops run and do nothing; a key that appears later is
    used from the next pull on. *)
Lemma Run_without_key (peers : list Peer) pulls (w : W) : PSK ops w = "" -> Run ops peers pulls w = w.
Proof.
  intros Hk. unfold Run. induction pulls as [|[[i now] tp] pulls IH]; [done|]. simpl.
  enough (match loops peers !! i with Some p => pull ops now tp p w | None => w end = w) as -> by done.
  destruct (loops peers !! i) as [p|]; [|done]. unfold PSK, pull in *. destruct (co_Provider ops w); [|done]. by rewrite Hk.
Qed.

(** Only enabled peers are asked: what holds of a process that pulls from
    nobody else holds after any run. *)
Lemma Run_enabled (P : W -> Prop) (peers : list Peer) pulls w :
  (forall p now tp w, In p peers -> p.(p_Enabled) = true -> P w -> P (pull ops now tp p w)) -> P w -> P (Run ops peers pulls w).
Proof.
  intros Hp. unfold Run. revert w. induction pulls as [|[[i now] tp] pulls IH]; intros w Hw; [done|]. simpl. apply IH.
  destruct (loops peers !! i) as [p|] eqn:Hi; [|done].
  apply list_elem_of_lookup_2, list_elem_of_In, filter_In in Hi as [? ?]. by apply Hp.
Qed.
End pull.

(** ** Witnesses *)

(** URLs that are only a path *)
#[local] Instance path_urls : URLs :=
  {| URL := string; url_Parse := Ok; url_Path := fun u => u; url_setPath := fun p _ => p; url_String := fun u => u |}.
Definition ex_pushed : File := (ex_file (Some [ex_default "168.63.129.16" 53 5]) [] []) <| f_Peers := ex_peers [ex_peer "b"] |>.
Definition ex_locked : HTTPResponse :=
  {| hr_code := 400; hr_status := "400 Bad Request"; hr_error := "config is locked by another writer"; hr_merge := None;
     hr_envelope := Err "" |}.
Definition ex_transport : Transport := {| tp_marshal := fun _ => None; tp_request := fun _ => None; tp_tls := fun _ => None; tp_do := Ok ex_locked |}.

Lemma locked_peer_is_retried_witness :
  exists err, (pushOnce (Some ex_pushed) "a" 100 ex_transport (ex_peer "b")).1.1 = Some err /\ Contains err "locked" = true.
Proof.
  destruct (pushOnce (Some ex_pushed) "a" 100 ex_transport (ex_peer "b")) as [[[err|] [sent|]] log] eqn:E;
    [|vm_compute in E; discriminate..].
  exists err. split; [reflexivity|]. exact (locked_peer_is_retried ex_pushed "a" 100 ex_transport (ex_peer "b") ex_locked err sent log eq_refl eq_refl eq_refl E).
Defined.

(** Any text that contains the word counts as a lock, a name with it included. *)
Example blocked_is_locked :
  Contains (ConfigError_Error (EZoneNoUpstream 0 "blocked.example.com")) "locked" = true.
Proof. vm_compute. reflexivity. Qed.

Lemma joinURL_double_slash_witness : joinURL "/sync" "/peer/v1/items" = Ok "/sync//peer/v1/items".
Proof.
  refine (joinURL_double_slash "/sync" "/syn" "/sync" "c" eq_refl eq_refl _). discriminate.
Defined.
