(* ===== verification/WatcherProps.v ===== *)
(** The properties of the watcher: unbound's file is replaced by a checked one
    or not at all, unbound is signalled at most once, and what a poll does. *)
From S2P Require Import Prelude GoStrings GoTime Config Validate ValidateSpec Sync Store StoreProps Generate Resolve.
From S2P Require Import Ping Proxy AuditLog Watcher Samples.

(** ** Reload *)

(** attempt [k] gets its signal through *)
Definition signals (t : ReloadTry) : Prop := 0 < t.(rt_pid) /\ t.(rt_find) = None /\ t.(rt_signal) = None.

Lemma reload_loop_spec tries n : forall k last,
  match reload_loop tries n k last with
  | Signalled => exists j, (j < n)%nat /\ signals (tries (k + j)%nat)
                   /\ forall i, (i < j)%nat -> ~ signals (tries (k + i)%nat) /\ (tries (k + i)%nat).(rt_ctx) = None
  | ReloadCtx err => exists j, (j < n)%nat /\ (tries (k + j)%nat).(rt_ctx) = Some err
                   /\ forall i, (i <= j)%nat -> ~ signals (tries (k + i)%nat)
  | ReloadFailed _ => forall i, (i < n)%nat -> ~ signals (tries (k + i)%nat) /\ (tries (k + i)%nat).(rt_ctx) = None
  end.
Proof.
  induction n as [|n IH]; intros k last; cbn [reload_loop]; [intros; lia|].
  set (attempt := if 0 <? rt_pid (tries k) then _ else _).
  assert (Ha : match attempt with None => signals (tries k) | Some _ => ~ signals (tries k) end).
  { unfold attempt, signals. destruct (Z.ltb_spec 0 (rt_pid (tries k))); [|lia].
    destruct (rt_find (tries k)); [by intros (_ & ? & _)|]. destruct (rt_signal (tries k)); [by intros (_ & _ & ?) | done]. }
  clearbody attempt. destruct attempt as [last'|].
  2:{ exists 0%nat. rewrite Nat.add_0_r. split_and!; [lia|done|lia]. }
  destruct (rt_ctx (tries k)) as [err|] eqn:Hc.
  { exists 0%nat. rewrite Nat.add_0_r. split_and!; [lia|done|]. intros i Hi. replace (k + i)%nat with k by lia. done. }
  specialize (IH (S k) last').
  assert (Hs : forall P : nat -> Prop, P k -> forall m, (forall i, (i < m)%nat -> P (S k + i)%nat) -> forall i, (i < S m)%nat -> P (k + i)%nat).
  { intros P H0 m Hm [|i] Hi; [by rewrite Nat.add_0_r|]. replace (k + S i)%nat with (S k + i)%nat by lia. apply Hm. lia. }
  destruct (reload_loop tries n (S k) last').
  - destruct IH as (j & ? & ? & Hl). exists (S j). replace (k + S j)%nat with (S k + j)%nat by lia.
    split_and!; [lia|done|]. by apply (Hs (fun i => ~ signals (tries i) /\ rt_ctx (tries i) = None)).
  - destruct IH as (j & ? & ? & Hl). exists (S j). replace (k + S j)%nat with (S k + j)%nat by lia.
    split_and!; [lia|done|]. intros i Hi.
    apply (Hs (fun i => ~ signals (tries i)) Ha (S j)); [|lia]. intros i' ?. apply Hl. lia.
  - by apply (Hs (fun i => ~ signals (tries i) /\ rt_ctx (tries i) = None)).
Qed.

(** Reload makes at most twenty attempts and signals unbound at most once: it
    succeeds exactly when some attempt finds a running process it can signal
    before the context is done. *)
Theorem Reload_exact (tries : nat -> ReloadTry) :
  Reload tries = None <->
  exists j, (j < 20)%nat /\ signals (tries j)
    /\ forall i, (i < j)%nat -> ~ signals (tries i) /\ (tries i).(rt_ctx) = None.
Proof.
  unfold Reload. pose proof (reload_loop_spec tries 20 0 None) as H. cbn [Nat.add] in H.
  destruct (reload_loop tries 20 0 None).
  - done.
  - split; [done|]. intros (j & Hj & Hs & Hl). exfalso. destruct H as (j' & Hj' & Hc & Hl').
    destruct (Nat.lt_ge_cases j' j) as [Hlt|Hge]; [destruct (Hl j' Hlt); congruence | by apply (Hl' j)].
  - split; [done|]. intros (j & Hj & Hs & _). by destruct (H j Hj).
Qed.

(** ** applyOnce *)

Section watcher.
Context `{D : DNSLib} (outDir confName instance : string).
Abbreviation final := (final outDir confName).
Abbreviation applyOnce := (applyOnce outDir confName instance).

Lemma final_tmp_neq : final +:+ ".tmp" <> final.
Proof. by apply append_neq. Qed.

Lemma applyOnce_cases (io : ApplyIO) (reason : Reason) (cur : File) (fs : FS) (w : Watcher) fs' w' log err :
  applyOnce io reason (Some cur) fs w = (fs', w', log, err) ->
  w'.(proxy) = RefreshNow Fqdn (Some cur) io.(ai_probes) <$> w.(proxy) /\
  match err with
  | None => io.(ai_check) = None /\ fs' !! final = Some (Generate cur)
            /\ w'.(lastError) = "" /\ w'.(lastOK) = io.(ai_now)
            /\ (exists e, log = [e] /\ e.(en_Action) = "config-applied" /\ e.(en_Details) = reason_text reason)
            /\ (reason <> Initial -> Reload io.(ai_reload) = None)
  | Some msg => w'.(lastError) = msg /\ w'.(lastOK) = w.(lastOK) /\ log = []
                /\ (fs' !! final = fs !! final
                    \/ io.(ai_check) = None /\ reason <> Initial /\ Reload io.(ai_reload) = Some msg
                       /\ fs' !! final = Some (Generate cur))
  end.
Proof.
  unfold Watcher.applyOnce. destruct (ai_mkdir io); [intros [= <- <- <- <-]; simpl; auto 6|].
  destruct (WriteFile _ _ _ _) as [fs1 wErr] eqn:Hw.
  pose proof (WriteFile_other _ _ _ _ _ _ _ Hw final_tmp_neq) as Hf.
  destruct wErr; [intros [= <- <- <- <-]; simpl; auto 6|]. apply WriteFile_done in Hw as ->.
  destruct (ai_check io) as [[e out]|].
  { intros [= <- <- <- <-]. simpl. split_and!; try done. left. by rewrite lookup_delete_ne, Hf by apply final_tmp_neq. }
  destruct (ai_rename io); [intros [= <- <- <- <-]; simpl; auto 6|].
  pose proof (Rename_lookup (final +:+ ".tmp") final (Generate cur) fs) as Hr.
  destruct (if negb (is_initial reason) then Reload (ai_reload io) else None) as [msg|] eqn:He; intros [= <- <- <- <-]; simpl.
  - split_and!; try done. right. destruct reason; simpl in He; done.
  - split_and!; try done; [eauto|]. by destruct reason.
Qed.

(** C8. unbound's file is replaced completely by the text generated from the
    current configuration, after unbound-checkconf has accepted that text, or it
    stays as it was, in one application that no other one runs beside.  Without an
    error the status is clean, the file is the generated one and one audit entry
    says so; with an error the status shows it, and the audit log gets nothing
    (unlike what the README says of a failed unbound-checkconf); the only error
    after the replacement is that unbound could not be reloaded, which the first
    application does not attempt.  The proxy, when there is one, was refreshed
    with the same configuration. *)
Theorem applyOnce_atomic (io : ApplyIO) (reason : Reason) (cur : File) (fs : FS) (w : Watcher) fs' w' log err :
  applyOnce io reason (Some cur) fs w = (fs', w', log, err) ->
  w'.(proxy) = RefreshNow Fqdn (Some cur) io.(ai_probes) <$> w.(proxy) /\
  match err with
  | None => io.(ai_check) = None /\ fs' !! final = Some (Generate cur)
            /\ w'.(lastError) = "" /\ w'.(lastOK) = io.(ai_now)
            /\ (exists e, log = [e] /\ e.(en_Action) = "config-applied" /\ e.(en_Details) = reason_text reason)
            /\ (reason <> Initial -> Reload io.(ai_reload) = None)
  | Some msg => w'.(lastError) = msg /\ w'.(lastOK) = w.(lastOK) /\ log = []
                /\ (fs' !! final = fs !! final
                    \/ io.(ai_check) = None /\ reason <> Initial /\ Reload io.(ai_reload) = Some msg
                       /\ fs' !! final = Some (Generate cur))
  end.
Proof. apply applyOnce_cases. Qed.

(** unbound's files are not those of the configuration *)
Definition separate (path : string) : Prop := path <> final /\ path <> final +:+ ".tmp".

Lemma applyOnce_other path io reason cur fs w fs' w' log err :
  separate path -> applyOnce io reason cur fs w = (fs', w', log, err) -> fs' !! path = fs !! path.
Proof.
  intros [H1 H2]. unfold Watcher.applyOnce. destruct cur as [f|]; [|by intros [= <- _ _ _]].
  destruct (ai_mkdir io); [by intros [= <- _ _ _]|]. destruct (WriteFile _ _ _ _) as [fs1 wErr] eqn:Hw.
  pose proof (WriteFile_other _ _ _ _ _ _ path Hw (not_eq_sym H2)) as Hp.
  destruct wErr; [by intros [= <- _ _ _]|]. destruct (ai_check io) as [[]|].
  { intros [= <- _ _ _]. by rewrite lookup_delete_ne. }
  destruct (ai_rename io); [by intros [= <- _ _ _]|].
  assert (Hr : Rename (final +:+ ".tmp") (final) fs1 !! path = fs1 !! path).
  { unfold Rename. case_match; [|done]. by rewrite lookup_insert_ne, lookup_delete_ne by done. }
  case_match; intros [= <- _ _ _]; congruence.
Qed.

Lemma applyOnce_ok io reason f fs w fs' w' log :
  applyOnce io reason (Some f) fs w = (fs', w', log, None) ->
  fs' !! final = Some (Generate f) /\ w'.(lastError) = "".
Proof.
  unfold Watcher.applyOnce. destruct (ai_mkdir io); [done|]. destruct (WriteFile _ _ _ _) as [fs1 [msg|]] eqn:Hw; [done|].
  apply WriteFile_done in Hw as ->. destruct (ai_check io) as [[]|]; [done|]. destruct (ai_rename io); [done|].
  case_match; [done|]. intros [= <- <- _]. simpl. by rewrite Rename_lookup.
Qed.

(** ** The poll *)

Context `{Y : Yaml} (path : string) (env : Env).

(** A poll that finds the file unreadable, unparsable or invalid leaves the
    configuration in memory, unbound's file and the audit log alone, and shows
    the error; one that finds nothing new does nothing at all. *)
Theorem tick_keeps_good_config (fault : option string) (io : ApplyIO) (fs : FS) (s : Store) (w : Watcher) :
  let '(fs', s', w', log) := tick outDir confName instance path env fault io fs s w in
  match (ReloadIfChanged path env fault fs s).2 with
  | (_, Some e) => fs' = fs /\ s' = s /\ w'.(lastError) = LoadError_text e /\ w'.(lastOK) = w.(lastOK) /\ log = []
  | (false, None) => fs' = fs /\ s' = s /\ w'.(lastError) = w.(lastError) /\ w'.(lastOK) = w.(lastOK) /\ log = []
  | (true, None) => s' = (ReloadIfChanged path env fault fs s).1
      /\ exists f, s'.(current) = Some f /\ Validate f = Ok f
  end.
Proof.
  unfold tick. destruct (ReloadIfChanged path env fault fs s) as [s1 [changed err]] eqn:Hr.
  assert (Hs : err <> None \/ changed = false -> s1 = s).
  { unfold ReloadIfChanged in Hr. repeat (case_match; simplify_eq/=; try done); naive_solver. }
  cbn [fst snd]. destruct err as [e|]; [rewrite Hs by (by left); by destruct changed|].
  destruct changed; cbn [negb]; [|by rewrite Hs by (by right)].
  destruct (Watcher.applyOnce _ _ _ _ _ _ _ _) as [[[fs' w'] log] err] eqn:Ha. split; [done|].
  unfold ReloadIfChanged in Hr. repeat (case_match; simplify_eq/=; try done);
    (eexists; split; [done|]; by eauto with checked).
Qed.

(** An error shown by a poll outlives its cause: when the bad edit is undone,
    the file is again the one in memory, so no poll applies anything and the
    status keeps the error, whatever number of polls follow. *)
Theorem reverted_error_stays (ios : list ApplyIO) (fs : FS) (s : Store) (w : Watcher) (data : string) :
  fs !! path = Some data -> content_hash data = s.(hash) ->
  foldl (fun '(fs, s, w, log) io =>
           let '(fs, s, w, log') := tick outDir confName instance path env None io fs s w in (fs, s, w, log ++ log'))
        (fs, s, w, []) ios
  = (fs, s, w <| cycles := (fold_left (fun c _ => (c + 1) mod 2 ^ 64) ios w.(cycles)) |>, []).
Proof.
  intros Hf Hh. revert w. induction ios as [|io ios IH]; intros w; [by destruct w|]. cbn [foldl fold_left].
  unfold tick at 2. unfold ReloadIfChanged at 1, ReadFile at 1. rewrite Hf, Hh, String.eqb_refl. cbn [negb].
  rewrite app_nil_r, IH. by destruct w.
Qed.
End watcher.

(** ** Witnesses *)

Definition ex_try (pid : Z) : ReloadTry := {| rt_pid := pid; rt_find := None; rt_signal := None; rt_ctx := None |}.
Definition ex_probe : Probe := {| pb_exchange := fun _ => None; pb_pings := []; pb_now := 9 |}.
Definition ex_apply : ApplyIO :=
  {| ai_probes := fun _ => ex_probe; ai_mkdir := None; ai_write := Written; ai_check := None; ai_rename := None;
     ai_reload := fun k => ex_try (if (k <? 2)%nat then 0 else 4711); ai_now := 9 |}.
Definition ex_applied : File := ex_file (Some [ex_default "168.63.129.16" 53 5]) [] [].
Definition ex_fs : FS := ∅.

Lemma applyOnce_atomic_witness :
  (applyOnce "/etc/unbound" "unbound.conf" "a" ex_apply APISave (Some ex_applied) ex_fs NewWatcher).1.1.1
    !! final "/etc/unbound" "unbound.conf" = Some (Generate ex_applied).
Proof.
  destruct (applyOnce "/etc/unbound" "unbound.conf" "a" ex_apply APISave (Some ex_applied) ex_fs NewWatcher)
    as [[[fs' w'] log] err] eqn:H.
  pose proof (applyOnce_atomic "/etc/unbound" "unbound.conf" "a" ex_apply APISave ex_applied ex_fs NewWatcher fs' w' log err H) as [_ R].
  destruct err; [|exact (proj1 (proj2 R))].
  assert (E : (applyOnce "/etc/unbound" "unbound.conf" "a" ex_apply APISave (Some ex_applied) ex_fs NewWatcher).2 = None) by reflexivity.
  rewrite H in E. discriminate.
Defined.

(** the store of a process whose file is as it loaded it, after a bad edit was undone *)
Definition ex_watched : Store := {| current := Some ex_applied; hash := content_hash ""; loadErr := None; onSave := false; onApply := false |}.
Definition ex_stuck : Watcher := {| lastError := "parse: bad yaml"; lastOK := 5; cycles := 7; proxy := None |}.
Lemma reverted_error_stays_witness :
  (tick (H := table_yaml []) "/etc/unbound" "unbound.conf" "a" "/c" no_env None ex_apply {["/c" := ""]} ex_watched ex_stuck).1.2.(lastError)
  = "parse: bad yaml".
Proof.
  pose proof (reverted_error_stays (Y := table_yaml []) "/etc/unbound" "unbound.conf" "a" "/c" no_env [ex_apply]
                {["/c" := ""]} ex_watched ex_stuck "" eq_refl eq_refl) as R.
  cbn [foldl] in R.
  destruct (tick (H := table_yaml []) "/etc/unbound" "unbound.conf" "a" "/c" no_env None ex_apply {["/c" := ""]} ex_watched ex_stuck)
    as [[[fs' s'] w'] log]. injection R as _ _ R _. cbn [fst snd]. rewrite R. reflexivity.
Defined.
