(* ===== verification/DaemonProps.v ===== *)
(** The properties of the wiring: a pushed envelope is merged once, is not echoed
    and is reported; retries are bounded and happen only while the store is
    locked; and the two places where the echo suppression misses its aim. *)
From S2P Require Import SyncProps.
From S2P Require Import Prelude GoStrings GoTime Config Validate ValidateSpec Sync.
From S2P Require Import Store StoreProps Generate Resolve Ping Proxy AuditLog PeerListener PeerClient Watcher WatcherProps Daemon Samples.

(** ** Save and the hooks *)

Section daemon.
Context `{Y : Yaml} `{D : DNSLib} (path outDir confName instance : string) (Hsep : separate outDir confName path).

Lemma Save_flags io (opts : SaveOptions string) fs s fs' s' hooks r :
  Save path io opts fs s = (fs', s', hooks, r) -> s'.(onSave) = s.(onSave) /\ s'.(onApply) = s.(onApply).
Proof. unfold Save. intros H. by repeat (case_match; simplify_eq/=). Qed.

Lemma Save_locked io (opts : SaveOptions string) fs s fs' s' hooks :
  Save path io opts fs s = (fs', s', hooks, Err ErrLocked) ->
  io.(si_flock) = FlockWouldBlock /\ s' = s /\ hooks = [] /\ fs' !! path = fs !! path.
Proof.
  unfold Save. pose proof (lookup_lock path fs) as Hl.
  set (fs1 := match fs !! _ with Some _ => fs | None => _ end) in *. clearbody fs1.
  intros H. repeat (case_match; simplify_eq/=; try done).
Qed.

(** the hooks are set, as [startPeerListenerAndClient] leaves them *)
Definition hooked (n : Node) : Prop := n.(n_store).(onSave) = true /\ n.(n_store).(onApply) = true.

(** what the round of pushes after a Save of [f] at [now] is *)
Definition pushed_to (now : Time) (c : Client) (f : File) : option (list Peer) :=
  if recent now c then None else Some (List.filter p_Enabled f.(f_Peers).(List)).

(** the hook's application of [f], from some files *)
Definition hook_applied (io : HookIO) (f : File) (n n' : Node) : Prop :=
  exists fs0 log err, applyOnce outDir confName instance io.(hk_apply) APISave (Some f) fs0 n.(n_watcher) = (n'.(n_fs), n'.(n_watcher), log, err)
                      /\ n'.(n_audit) = n.(n_audit) ++ log.

Lemma save_node_ok io t opts n n' f :
  hooked n -> save_node path outDir confName instance io t opts n = (n', Ok f) ->
  drafted io opts n.(n_store) f /\ committed path f n'.(n_fs) n'.(n_store) /\ hooked n'
  /\ n'.(n_client) = NewClient /\ n'.(n_events) = n.(n_events) ++ [EvPush (pushed_to t.(hk_now) n.(n_client) f); EvApply]
  /\ n'.(n_status) = n.(n_status) /\ hook_applied t f n n'.
Proof.
  intros [Hs Ha]. unfold save_node. destruct (Save _ _ _ _ _) as [[[fs s] hooks] r] eqn:E.
  intros [= Hn ->]. pose proof (Save_flags _ _ _ _ _ _ _ _ E) as [Fs Fa]. apply Save_cases in E as (Hd & Hc & Hh).
  assert (Hcur : s.(current) = Some f) by (by destruct Hc as (? & ? & ? & ? & ?)).
  unfold fireOnSave, fireOnApply in Hh. rewrite Hs, Ha in Hh. rewrite Hh in Hn. simpl in Hn.
  unfold on_save in Hn. simpl in Hn. rewrite Hcur in Hn. unfold PushAll in Hn. unfold pushed_to, hooked, hook_applied.
  unfold on_apply, apply_node, ApplyNow in Hn.
  destruct (recent (hk_now t) (n_client n)); simpl in Hn; rewrite Hcur in Hn;
    destruct (applyOnce _ _ _ _ _ _ _ _) as [[[fs' w'] log] err] eqn:Ew; simpl in Hn; subst n'; simpl; rewrite Fs, Fa, <- app_assoc;
    (split_and!; try done; [|by eexists _, _, _]).
  all: destruct Hc as (d & Hm & Hp & Hc & Hx); exists d; split_and!; try done; by erewrite applyOnce_other.
Qed.

Lemma save_node_locked io t opts n n' :
  save_node path outDir confName instance io t opts n = (n', Err ErrLocked) ->
  io.(si_flock) = FlockWouldBlock /\ n' = n <| n_fs := n'.(n_fs) |> /\ n'.(n_fs) !! path = n.(n_fs) !! path.
Proof.
  unfold save_node. destruct (Save _ _ _ _ _) as [[[fs s] hooks] r] eqn:E. intros [= Hn ->].
  apply Save_locked in E as (? & -> & -> & ?). simpl in Hn. subst n'. by destruct n.
Qed.

(** ** Retries *)

(** [n'] is [n] with other files than the configuration changed *)
Definition same_config (n n' : Node) : Prop := n' = n <| n_fs := n'.(n_fs) |> /\ n'.(n_fs) !! path = n.(n_fs) !! path.

Lemma same_config_refl n : same_config n n.
Proof. split; [by destruct n | done]. Qed.
Lemma same_config_trans n1 n2 n3 : same_config n1 n2 -> same_config n2 n3 -> same_config n1 n3.
Proof. intros [H1 ?] [H2 ?]. split; [rewrite H2, H1; done | congruence]. Qed.
Lemma same_config_store n n' : same_config n n' ->
  n'.(n_store) = n.(n_store) /\ n'.(n_client) = n.(n_client) /\ n'.(n_events) = n.(n_events)
  /\ n'.(n_watcher) = n.(n_watcher) /\ n'.(n_status) = n.(n_status) /\ n'.(n_audit) = n.(n_audit).
Proof. by intros [-> _]. Qed.

Lemma save_loop_spec ios opts fuel : forall k b last n,
  let '(n', e, sleeps) := save_loop path outDir confName instance ios opts fuel k b last n in
  exists m n1, (m <= fuel)%nat /\ length sleeps = m /\ same_config n n1
    /\ (forall j, (j < m)%nat -> (ios (k + j)%nat).1.(si_flock) = FlockWouldBlock)
    /\ ((m < fuel)%nat /\ (exists r, save_node path outDir confName instance (ios (k + m)%nat).1 (ios (k + m)%nat).2 (opts (ios (k + m)%nat).2.(hk_merge)) n1 = (n', r)
            /\ e = match r with Ok _ => None | Err e => Some e end /\ e <> Some ErrLocked)
        \/ m = fuel /\ n' = n1 /\ (e = last /\ m = 0%nat \/ e = Some ErrLocked)).
Proof.
  induction fuel as [|fuel IH]; intros k b last n; cbn [save_loop].
  { exists 0%nat, n. split_and!; [done|done|apply same_config_refl|lia|]. right. auto. }
  destruct (save_node _ _ _ _ _ _ _ _) as [n1 r] eqn:Hsv.
  assert (Hstop : forall e, e = match r with Ok _ => None | Err e => Some e end -> e <> Some ErrLocked ->
    exists m n2, (m <= S fuel)%nat /\ @length Duration [] = m /\ same_config n n2
    /\ (forall j, (j < m)%nat -> (ios (k + j)%nat).1.(si_flock) = FlockWouldBlock)
    /\ ((m < S fuel)%nat /\ (exists r, save_node path outDir confName instance (ios (k + m)%nat).1 (ios (k + m)%nat).2 (opts (ios (k + m)%nat).2.(hk_merge)) n2 = (n1, r)
            /\ e = match r with Ok _ => None | Err e => Some e end /\ e <> Some ErrLocked)
        \/ m = S fuel /\ n1 = n2 /\ (e = last /\ m = 0%nat \/ e = Some ErrLocked))).
  { intros e He Hne. exists 0%nat, n. rewrite Nat.add_0_r.
    split_and!; [lia|done|apply same_config_refl|lia|]. left. split; [lia|]. eauto. }
  destruct r as [f|e0]; [by apply Hstop|]. destruct e0; try (by apply Hstop).
  apply save_node_locked in Hsv as (Hk & Hn1 & Hp). clear Hstop.
  specialize (IH (S k) (next_backoff b) (Some ErrLocked) n1).
  destruct (save_loop _ _ _ _ _ _ _ _ _ _ _) as [[n' e'] sleeps].
  destruct IH as (m & n2 & Hm & Hlen & H12 & Hall & Hr). exists (S m), n2.
  assert (Hadd : forall j, (k + S j)%nat = (S k + j)%nat) by lia.
  split_and!; [lia | simpl; lia | by eapply same_config_trans | |].
  - intros [|j] Hj; [by rewrite Nat.add_0_r|]. rewrite Hadd. apply Hall. lia.
  - rewrite Hadd. destruct Hr as [[? ?]|(-> & -> & Hr)]; [left; split; [lia|done]|right]. split_and!; [done..|]. right. by destruct Hr as [[? _]|?].
Qed.

(** Saving an envelope is tried at most twenty times, again only while the
    store is locked, and a locked attempt changes nothing; what happens is what
    the first attempt that gets the lock does, and it is ErrLocked only when none
    of the twenty did. *)
Theorem save_retry_first_unlocked (ios : nat -> SaveIO * HookIO) (opts : Time -> SaveOptions string) (n : Node) :
  let '(n', e, sleeps) := save_retry path outDir confName instance ios opts n in
  exists m n1, (m <= 20)%nat /\ length sleeps = m /\ same_config n n1
    /\ (forall j, (j < m)%nat -> (ios j).1.(si_flock) = FlockWouldBlock)
    /\ ((m < 20)%nat /\ (exists r, save_node path outDir confName instance (ios m).1 (ios m).2 (opts (ios m).2.(hk_merge)) n1 = (n', r)
            /\ e = match r with Ok _ => None | Err e => Some e end /\ e <> Some ErrLocked)
        \/ m = 20%nat /\ n' = n1 /\ e = Some ErrLocked).
Proof.
  unfold save_retry. pose proof (save_loop_spec ios opts saveAttempts 0 (50 * Millisecond) None n) as H.
  destruct (save_loop _ _ _ _ _ _ _ _ _ _ _) as [[n' e] sleeps]. destruct H as (m & n1 & ? & ? & ? & Hl & Hr).
  exists m, n1. split_and!; [done..|]. destruct Hr as [?|(-> & ? & [[_ ?]|?])]; [by left | done | right; auto].
Qed.

(** the attempt [k] is the first that does not meet the lock of another *)
Definition first_unlocked (ios : nat -> SaveIO * HookIO) (k : nat) : Prop :=
  (forall j, (j < k)%nat -> (ios j).1.(si_flock) = FlockWouldBlock) /\ (ios k).1.(si_flock) <> FlockWouldBlock.
Lemma first_unlocked_unique ios j k : first_unlocked ios j -> first_unlocked ios k -> j = k.
Proof.
  intros [Hj Hj'] [Hk Hk']. destruct (Nat.lt_trichotomy j k) as [H|[H|H]]; [|done|]; exfalso; eauto.
Qed.
Lemma save_node_unlocked io t opts n n' f :
  save_node path outDir confName instance io t opts n = (n', Ok f) -> io.(si_flock) <> FlockWouldBlock.
Proof.
  unfold save_node, Save. intros H Hf. rewrite Hf in H. by repeat (case_match; simplify_eq/=).
Qed.

(** a successful [save_retry] is one successful Save *)
Lemma save_retry_ok ios opts n n' sleeps :
  hooked n -> save_retry path outDir confName instance ios opts n = (n', None, sleeps) ->
  exists k f, first_unlocked ios k /\ drafted (ios k).1 (opts (ios k).2.(hk_merge)) n.(n_store) f /\ committed path f n'.(n_fs) n'.(n_store)
    /\ n'.(n_client) = NewClient
    /\ n'.(n_events) = n.(n_events) ++ [EvPush (pushed_to (ios k).2.(hk_now) n.(n_client) f); EvApply]
    /\ hooked n' /\ hook_applied (ios k).2 f n n'.
Proof.
  intros Hh H. unfold save_retry in H.
  pose proof (save_loop_spec ios opts saveAttempts 0 (50 * Millisecond) None n) as Hs. rewrite H in Hs.
  destruct Hs as (m & n1 & ? & ? & Hsame & Hlk & [[Hm (r & Hr & He & _)]|(-> & -> & [[_ ?]|?])]); [|done|done].
  destruct r as [f|]; [|done]. pose proof (save_node_unlocked _ _ _ _ _ _ Hr) as Hun. pose proof (same_config_store _ _ Hsame) as (Hst & Hcl & Hev & Hw & _ & Hau).
  assert (Hh1 : hooked n1) by (unfold hooked; by rewrite Hst).
  apply save_node_ok in Hr as (Hd & Hc & Hh' & Hcl' & Hev' & _ & Hap); [|done].
  exists m, f. unfold hook_applied in *. rewrite <- Hst, <- Hcl, <- Hev, <- Hw, <- Hau. split_and!; try done; by split.
Qed.

(** ** Pushes from a peer *)

(** the file that a merge of [env] into [cur] leaves: the merged lists, stamped *)
Definition merged_file (io : SaveIO) (actor : string) (now : Time) (env : Envelope) (skew : Duration) (cur f : File) : Prop :=
  let m := (Merge now (Clone cur) env skew).1 in
  f.(ForwardZones) = map (stamp_zone io.(si_stamp_now) actor) m.(ForwardZones)
  /\ f.(StaticRecords) = map (stamp_record io.(si_stamp_now) actor) m.(StaticRecords)
  /\ elems f.(UpstreamDefaults) = map (fun u => Upstream_defaults (stamp_upstream io.(si_stamp_now) actor u)) (elems m.(UpstreamDefaults))
  /\ f.(UpdatedBy) = actor /\ Validate f = Ok f /\ f.(f_Peers).(SharedKey) = cur.(f_Peers).(SharedKey).

Lemma finish_draft_fields io actor d f :
  finish_draft io actor d = Ok f ->
  f.(ForwardZones) = map (stamp_zone io.(si_stamp_now) actor) d.(ForwardZones)
  /\ f.(StaticRecords) = map (stamp_record io.(si_stamp_now) actor) d.(StaticRecords)
  /\ elems f.(UpstreamDefaults) = map (fun u => Upstream_defaults (stamp_upstream io.(si_stamp_now) actor u)) (elems d.(UpstreamDefaults))
  /\ f.(UpdatedBy) = actor.
Proof.
  unfold finish_draft. intros [_ Hf]%Validate_iff. split_and!; [by rewrite Hf..| |by rewrite Hf].
  rewrite Hf, elems_normalise. unfold stampItems. simpl. destruct (UpstreamDefaults d) as [us|]; [|done].
  simpl. by rewrite map_map.
Qed.

(** the key is not one of the fields with a default *)
Lemma finish_draft_key io actor d f : finish_draft io actor d = Ok f -> f.(f_Peers).(SharedKey) = d.(f_Peers).(SharedKey).
Proof.
  unfold finish_draft. intros [_ ->]%Validate_iff. unfold normalise, stampItems. cbn [f_Peers]. by rewrite Peers_WithDefaults_eq.
Qed.

Lemma drafted_merge io actor now env skew (s : Store) cur f :
  s.(current) = Some cur -> drafted io (merge_options actor now env skew) s f ->
  merged_file io actor now env skew cur f.
Proof.
  intros Hc Hd. pose proof (drafted_checked _ _ _ _ Hd) as Hv. destruct Hd as (m & Hm & _ & Hd).
  assert (Hmut : m.(mut_draft) = (Merge now (Clone cur) env skew).1).
  { rewrite <- Hm, Hc. unfold run_mutate, merge_options. cbn [Mutate mut_draft default from_option id]. reflexivity. }
  rewrite Hmut in Hd. pose proof (finish_draft_key _ _ _ _ Hd) as Hk.
  apply finish_draft_fields in Hd as (H1 & H2 & H3 & H4). unfold merged_file. split_and!; try done.
  rewrite Hk. destruct (Merge_parts now (Clone cur) env skew) as (r1 & r2 & _ & _ & _ & _ & _ & _ & _ & _ & _ & _ & _ & Hp & _). by rewrite Hp.
Qed.

(** the hooks leave the store as the Save left it, and whether they are set or
    not a successful merge is in memory *)
Lemma hooks_store io hooks : forall n, (foldl (run_hook outDir confName instance io) n hooks).(n_store) = n.(n_store).
Proof.
  induction hooks as [|h hooks IH]; intros n; [done|]. simpl. rewrite IH. destruct h; simpl.
  - unfold on_save. destruct (current (n_store n)); [|done]. unfold PushAll. by destruct (recent _ _).
  - unfold on_apply, apply_node. by destruct (ApplyNow _ _ _ _ _ _ _) as [[[fs w] log] err].
Qed.
Lemma save_retry_merged ios actor env skew n n' sleeps cur :
  n.(n_store).(current) = Some cur ->
  save_retry path outDir confName instance ios (fun now => merge_options actor now env skew) n = (n', None, sleeps) ->
  exists k f, first_unlocked ios k /\ n'.(n_store).(current) = Some f
    /\ merged_file (ios k).1 actor (ios k).2.(hk_merge) env skew cur f.
Proof.
  intros Hc H. unfold save_retry in H.
  pose proof (save_loop_spec ios (fun now => merge_options actor now env skew) saveAttempts 0 (50 * Millisecond) None n) as Hs. rewrite H in Hs.
  destruct Hs as (m & n1 & ? & ? & Hsame & Hlk & [[Hm (r & Hr & He & _)]|(-> & -> & [[_ ?]|?])]); [|done|done].
  destruct r as [f|]; [|done]. pose proof (save_node_unlocked _ _ _ _ _ _ Hr) as Hun.
  pose proof (same_config_store _ _ Hsame) as (Hst & _). unfold save_node in Hr.
  destruct (Save _ _ _ _ _) as [[[fs s] hooks] r] eqn:Hsv. injection Hr as <- ->.
  apply Save_cases in Hsv as (Hd & (? & _ & _ & Hcs & _) & _). exists m, f. rewrite hooks_store. split; [by split|]. split; [exact Hcs|].
  eapply drafted_merge; [|exact Hd]. by rewrite Hst.
Qed.

(** a push that succeeds is one Save of the merge, with the mark set before it *)
Lemma PushSink_ok ios preview mark skew env name n n' res :
  hooked n -> PushSink path outDir confName instance ios preview mark skew env name n = (n', Ok res) ->
  exists k cur f, first_unlocked ios k /\ n.(n_store).(current) = Some cur
    /\ merged_file (ios k).1 ("peer:" +:+ env.(e_InstanceID)) (ios k).2.(hk_merge) env skew cur f
    /\ committed path f n'.(n_fs) n'.(n_store) /\ hook_applied (ios k).2 f n n'
    /\ res = (Merge preview (Clone cur) env skew).2 /\ n'.(n_client) = NewClient
    /\ n'.(n_events) = n.(n_events)
         ++ [EvPush (pushed_to (ios k).2.(hk_now) (MarkAppliedFrom mark env.(e_InstanceID) n.(n_client)) f); EvApply].
Proof.
  intros Hh. unfold PushSink. destruct (current (n_store n)) as [cur|] eqn:Hc; [|done].
  set (n0 := n <| n_client := _ |>).
  destruct (save_retry _ _ _ _ _ _ n0) as [[n1 e] sleeps] eqn:Hr. destruct e; [done|]. intros [= <- <-].
  apply save_retry_ok in Hr as (k & f & Hk & Hd & Hcm & Hcl & Hev & _ & Hap); [|exact Hh].
  exists k, cur, f. split_and!; try done. by eapply drafted_merge.
Qed.


(** A pull marks its sender only after the Save, whose round of pushes has then
    already run and was not suppressed: the envelope is echoed to every enabled
    peer, and it is the next round of pushes, the one of the next local change
    within two seconds, that is suppressed instead and never sent. *)
Theorem pulled_envelope_echoed `{URLs} (cur f0 : File) (ios : nat -> SaveIO * HookIO) (now : Time) (tp : Transport) (peer : Peer)
    (n n1 : Node) env resp u :
  hooked n -> n.(n_client) = NewClient -> 0 < now ->
  n.(n_store).(current) = Some f0 -> f0.(f_Peers).(SharedKey) <> "" -> peer.(p_URL) <> "" ->
  joinURL peer.(p_URL) "/peer/v1/items" = Ok u -> tp.(tp_request) u = None -> tp.(tp_tls) f0.(f_Peers).(SharedKey) = None ->
  tp.(tp_do) = Ok resp -> Z.quot resp.(hr_code) 100 = 2 -> resp.(hr_envelope) = Ok env ->
  Apply path outDir confName instance ios (peer_skew cur) env peer.(p_Name) n = (n1, None) ->
  let n' := pull (client_ops path outDir confName instance cur ios now) now tp peer n in
  (exists f, n'.(n_store).(current) = Some f
     /\ n'.(n_events) = n.(n_events) ++ [EvPush (Some (List.filter p_Enabled f.(f_Peers).(List))); EvApply])
  /\ forall io t opts n2 g, 0 <= t.(hk_now) - now < 2 * Second ->
       save_node path outDir confName instance io t opts n' = (n2, Ok g) -> n2.(n_events) = n'.(n_events) ++ [EvPush None; EvApply].
Proof.
  intros Hh Hcl Hnow Hf0 Hkey%String.eqb_neq Hurl%String.eqb_neq Hj Hrq Htls Hd Hq Henv Ha n'.
  assert (Hn' : n' = recordOK (client_ops path outDir confName instance cur ios now) now peer
     (audit_node {| en_Time := 0; en_Actor := "peer:" +:+ env.(e_InstanceID); en_Action := "peer-pull-applied";
                    en_Details := peer.(p_Name) |} (n1 <| n_client := MarkAppliedFrom now env.(e_InstanceID) n1.(n_client) |>))).
  { unfold n', pull, httpClient. cbn [co_Provider client_ops]. rewrite Hf0, Hkey, Hurl, Hj, Hrq, Htls, Hd, Hq, Henv.
    cbn [fmap option_fmap option_map]. cbn [negb Z.eqb Pos.eqb].
    cbn [co_Apply client_ops]. by rewrite Ha. }
  clearbody n'.
  unfold Apply in Ha. destruct (save_retry _ _ _ _ _ _ n) as [[n2 e] sleeps] eqn:Hr. injection Ha as -> He.
  destruct e; [done|]. apply save_retry_ok in Hr as (k & f & _ & _ & (? & _ & _ & Hcur & _) & Hcl1 & Hev & Hh1 & _); [|exact Hh].
  rewrite Hn'. unfold recordOK, audit_node. simpl. split.
  - exists f. split; [done|]. rewrite Hev. unfold pushed_to. by rewrite Hcl.
  - intros io t opts n3 g Ht Hsv. apply save_node_ok in Hsv as (_ & _ & _ & _ & Hev3 & _); [|exact Hh1].
    simpl in Hev3. rewrite Hev3. unfold pushed_to.
    assert (Hrec : recent t.(hk_now) (MarkAppliedFrom now env.(e_InstanceID) n1.(n_client)) = true); [|by rewrite Hrec].
    unfold recent, IsZero. simpl. destruct (Z.eqb_spec now 0); [lia|]. simpl.
    apply Z.ltb_lt. rewrite Sub_exact; [lia|]. unfold in64, Second, Millisecond in *. lia.
Qed.
End daemon.

(** ** Start-up *)

(** Peer sync starts only with a key and a listener that is up, and only then
    are the hooks set: without it a Save neither pushes nor applies through them. *)
Theorem sync_needs_key (bind : option string) (n n' : Node) (up : bool) :
  startPeerListenerAndClient bind n = (n', up) ->
  (up = true <-> bind = None /\ exists cur, n.(n_store).(current) = Some cur /\ cur.(f_Peers).(SharedKey) <> "")
  /\ (if up then hooked n' else n' = n).
Proof.
  unfold startPeerListenerAndClient. destruct (current (n_store n)) as [cur|].
  2:{ intros [= <- <-]. split; [|done]. split; [done|]. by intros (_ & ? & ? & _). }
  destruct (String.eqb_spec (SharedKey (f_Peers cur)) "") as [E|E].
  { intros [= <- <-]. split; [|done]. split; [done|]. intros (_ & ? & [= <-] & ?). done. }
  destruct bind; intros [= <- <-]; (split; [|done]); split; try done; [by intros [? _] | eauto].
Qed.

(** ** The supervisor *)

Definition sup_run (ins : list SupInput) : Supervisor := foldl (fun s i => sup_step i s) sup_init ins.

(** whether the supervisor got past the wait for the file *)
Definition past_wait (st : SupState) : bool :=
  match st with SupWaitFile | SupDone => false | _ => true end.

(** The recorded pid is that of a process the supervisor has started and not yet
    seen exit; it is 0 when there is none, but for the moment between the end of the
    process and the clearing of the pid; unbound is not started before its file exists. *)
Theorem supervisor_pid (ins : list SupInput) :
  let s := sup_run ins in
  match s.(sup_state) with SupRunning (Some pid) => s.(sup_pid) = pid | SupReaped => True | _ => s.(sup_pid) = 0 end
  /\ (past_wait s.(sup_state) = true -> existsb in_file ins = true).
Proof.
  unfold sup_run. induction ins as [|i ins IH] using rev_ind; [done|].
  rewrite foldl_app. simpl. rewrite existsb_app. set (s := foldl _ _ _) in *. destruct IH as [IH1 IH2].
  destruct s as [st pid]. simpl in *. unfold sup_step. simpl.
  destruct st as [| |p|p| | |]; simpl in *; rewrite ?(IH2 eq_refl); simpl.
  - destruct (in_file i) eqn:E; simpl; [split; [done|]; by rewrite orb_true_r|]. by destruct (in_done i).
  - destruct (in_done i); [done|]. by destruct (in_start i).
  - done.
  - done.
  - done.
  - by destruct (in_done i).
  - done.
Qed.

(** ** Witnesses *)

Definition ex_cur : File := (ex_file (Some [ex_default "168.63.129.16" 53 5]) [] []) <| f_Peers := ex_peers [ex_peer "site-a"] |>.
Definition ex_env : Envelope := ex_envelope [] [ex_zone "z1" "corp.example.com" 7] [].
Definition ex_ios (k : nat) : SaveIO * HookIO := (fine_save 8, {| hk_merge := 8; hk_now := 8; hk_apply := ex_apply |}).
(** the file that applying [ex_env] makes, when the push or the pull comes from [actor] *)
Definition ex_result (actor : string) : File :=
  match finish_draft (fine_save 8) actor (Merge 8 (Clone ex_cur) ex_env (5 * Minute)).1 with
  | Ok f => f
  | Err _ => ex_cur
  end.
#[local] Instance ex_daemon_yaml : Yaml := table_yaml [(ex_result "peer:peer-a"); (ex_result "peer:site-a")].
Definition ex_node : Node :=
  {| n_fs := ∅;
     n_store := {| current := Some ex_cur; hash := ""; loadErr := None; onSave := true; onApply := true |};
     n_watcher := NewWatcher; n_client := NewClient; n_status := ∅; n_audit := []; n_events := [] |}.

Lemma ex_apart : separate "/u" "unbound.conf" "/c".
Proof. split; discriminate. Qed.


#[local] Instance ex_urls : URLs :=
  {| URL := string; url_Parse := Ok; url_Path := fun u => u; url_setPath := fun p _ => p; url_String := fun u => u |}.
Definition ex_answer : HTTPResponse :=
  {| hr_code := 200; hr_status := "200 OK"; hr_error := ""; hr_merge := None; hr_envelope := Ok ex_env |}.
Definition ex_tp : Transport := {| tp_marshal := fun _ => None; tp_request := fun _ => None; tp_tls := fun _ => None; tp_do := Ok ex_answer |}.

Lemma pulled_envelope_echoed_witness :
  exists f, (pull (client_ops "/c" "/u" "unbound.conf" "a" ex_cur ex_ios 8) 8 ex_tp (ex_peer "site-a") ex_node).(n_events)
            = [EvPush (Some (List.filter p_Enabled f.(f_Peers).(List))); EvApply].
Proof.
  destruct (Apply "/c" "/u" "unbound.conf" "a" ex_ios (peer_skew ex_cur) ex_env "site-a" ex_node) as [n1 e] eqn:E.
  assert (He : e = None).
  { assert (E' : (Apply "/c" "/u" "unbound.conf" "a" ex_ios (peer_skew ex_cur) ex_env "site-a" ex_node).2 = None) by (vm_compute; reflexivity).
    rewrite E in E'. exact E'. }
  subst e.
  assert (Hk : ex_cur.(f_Peers).(SharedKey) <> "") by discriminate.
  assert (Hu : (ex_peer "site-a").(p_URL) <> "") by (vm_compute; discriminate).
  assert (Hj : joinURL (ex_peer "site-a").(p_URL) "/peer/v1/items" = Ok "https://site-a:8443//peer/v1/items")
    by (vm_compute; reflexivity).
  destruct (pulled_envelope_echoed "/c" "/u" "unbound.conf" "a" ex_apart ex_cur ex_cur ex_ios 8 ex_tp (ex_peer "site-a") ex_node n1 ex_env ex_answer
              _ (conj eq_refl eq_refl) eq_refl eq_refl eq_refl Hk Hu Hj eq_refl eq_refl eq_refl eq_refl eq_refl E) as [(f & _ & Hf) _].
  exists f. exact Hf.
Defined.

Lemma sync_needs_key_witness : hooked (startPeerListenerAndClient None ex_node).1.
Proof.
  destruct (startPeerListenerAndClient None ex_node) as [n' up] eqn:E.
  destruct (sync_needs_key None ex_node n' up E) as [[_ H] Hif].
  assert (Hup : up = true) by (apply H; split; [reflexivity|]; exists ex_cur; split; [reflexivity | discriminate]).
  subst up. exact Hif.
Defined.
