(* ===== verification/HostProps.v ===== *)
(** The properties of the machine: what a successful application means for the
    unbound processes, and what keeps unbound's file whole. *)
From S2P Require Import Prelude GoStrings Config Generate Store Watcher Daemon Host Samples.

Section props.
Context (checkconf : option string -> option (string * string)).
#[local] Arguments reload_again : simpl never.
Abbreviation apply_step := (apply_step checkconf).
Abbreviation host_step := (host_step checkconf).
Abbreviation host_run := (host_run checkconf).
Abbreviation final h := (contents h.(h_disk) h.(h_disk).(dk_final)).

(** ** Versions *)

Definition version_of (ph : ApplyPhase) : option nat :=
  match ph with
  | ApLoadPid _ v _ _ | ApSignal _ v _ _ _ | ApWait _ v _ _ | ApDone _ v => Some v
  | _ => None
  end.

(** the version grows, and stands for the contents *)
Definition later (h h' : Host) : Prop :=
  (h.(h_version) <= h'.(h_version))%nat /\ (h'.(h_version) = h.(h_version) -> final h' = final h).

Lemma later_disk h h' : h'.(h_disk) = h.(h_disk) -> h'.(h_version) = h.(h_version) -> later h h'.
Proof. intros H1 H2. split; [by rewrite H2 | by rewrite H1]. Qed.
Lemma later_set_disk d h h' :
  h'.(h_disk) = d -> h'.(h_version) = (set_disk d h).(h_version) -> later h h'.
Proof. unfold later. intros -> ->. unfold set_disk. simpl. destruct (decide _) as [->|]; split; [done|done|lia|lia]. Qed.

(** what a step of an application does to the host *)
Lemma apply_step_frame io reason ph h ph' h' :
  apply_step io reason ph h = Some (ph', h') ->
  later h h' /\ h'.(h_sup) = h.(h_sup) /\ h'.(h_jobs) = h.(h_jobs) /\ h'.(h_current) = h.(h_current)
  /\ (forall v, version_of ph' = Some v -> version_of ph = Some v \/ v = h'.(h_version))
  /\ (h'.(h_procs) = h.(h_procs) /\ (reason <> Initial -> forall cur v, ph' <> ApDone cur v)
      \/ exists cur v k pid last p, ph = ApSignal cur v k pid last /\ ph' = ApDone cur v
           /\ h.(h_procs) !! pid = Some p /\ h'.(h_procs) = <[pid := terminate p]> h.(h_procs)).
Proof.
  assert (Hagain : forall cur v k last g ph' g', reload_again cur v k last g = (ph', g') ->
    g'.(h_disk) = g.(h_disk) /\ g'.(h_version) = g.(h_version) /\ g'.(h_sup) = g.(h_sup) /\ g'.(h_jobs) = g.(h_jobs)
    /\ g'.(h_current) = g.(h_current) /\ g'.(h_procs) = g.(h_procs) /\ (forall w, version_of ph' = Some w -> w = v)
    /\ forall cur v, ph' <> ApDone cur v).
  { intros cur v k last g p g'. unfold reload_again, fail. destruct (decide _); intros [= <- <-]; split_and!; try done. by intros w [= <-]. }
  destruct ph as [|cur|cur i|cur|msg|cur|cur v k last|cur v k pid last|cur v k last|cur v|msg]; simpl; try done.
  - destruct (h_current h) eqn:E; intros [= <- <-]; (split; [by apply later_disk|]); split_and!; try done; by left.
  - destruct (jb_mkdir io); [|destruct (jb_open io); [|destruct (open_tmp (h_disk h)) as [i d]]]; intros [= <- <-].
    1,2: (split; [by apply later_disk|]); split_and!; try done; by left.
    split; [by eapply later_set_disk|]. split_and!; try done; by left.
  - destruct (jb_write io) as [[n msg]|]; intros [= <- <-]; (split; [by eapply later_set_disk|]); split_and!; try done; by left.
  - destruct (match jb_check io with Some e => Some e | None => checkconf (contents (h_disk h) (dk_tmp (h_disk h))) end) as [[err out]|]; intros [= <- <-];
      (split; [by apply later_disk|]); split_and!; try done; by left.
  - intros [= <- <-]. (split; [by eapply later_set_disk|]); split_and!; try done; by left.
  - destruct (jb_rename io); [|destruct (dk_tmp (h_disk h)) eqn:Et].
    1,3: intros [= <- <-]; (split; [by apply later_disk|]); split_and!; try done; by left.
    destruct (is_initial reason) eqn:Hr; simpl.
    + intros [= <- <-]. (split; [by eapply later_set_disk|]). split_and!; try done; [intros v [= <-]; by right|].
      left. split; [done|]. intros Hne. by destruct reason.
    + intros Hg. apply (inj Some) in Hg. apply Hagain in Hg as (D & V & -> & -> & -> & Pr & Hw & Hd). simpl in *.
      split; [eapply later_set_disk; [exact D | exact V]|]. split_and!; try done.
      * intros v Hv. right. rewrite (Hw v Hv). by rewrite V.
      * left. rewrite Pr. split; [done|]. intros _. exact Hd.
  - intros [= <- <-]. (split; [by apply later_disk|]). split_and!; try done; [destruct (0 <? _); auto|]. left. split; [done|]. by destruct (0 <? _).
  - destruct (jb_find io); [|destruct (jb_signal io); [|destruct (h_procs h !! pid) as [p|] eqn:Ep]]; intros [= <- <-];
      (split; [by apply later_disk|]); split_and!; try done; auto; try (by left; split).
    right. by exists cur, v, k, pid, last, p.
  - destruct (jb_ctx io); [intros [= <- <-]; (split; [by apply later_disk|]); split_and!; try done; by left|].
    intros Hg. apply (inj Some) in Hg. apply Hagain in Hg as (D & V & -> & -> & -> & -> & Hw & Hd).
    split; [by apply later_disk|]. split_and!; try done; [intros w Hv; left; f_equal; symmetry; by apply Hw|]. left. split; [done|]. by intros _.
Qed.

(** ** The invariant *)

(** at most one unbound process, the one the supervisor waits for *)
Definition procs_ok (h : Host) : Prop :=
  match h.(h_sup).(sup_state) with
  | SupStarted pid | SupRunning (Some pid) => exists p, h.(h_procs) = {[pid := p]}
  | _ => h.(h_procs) = ∅
  end.
(** a process has read what its version stands for *)
Definition loads_ok (h : Host) : Prop :=
  forall pid p v c, h.(h_procs) !! pid = Some p -> p.(pc_loaded) = Some (v, c) ->
    (v <= h.(h_version))%nat /\ (v = h.(h_version) -> c = final h).
(** a process that reads a version before [v] has been told to terminate *)
Definition renewed (v : nat) (p : Proc) : Prop :=
  p.(pc_term) = true \/ forall v' c, p.(pc_loaded) = Some (v', c) -> (v <= v')%nat.
Definition jobs_ok (h : Host) : Prop :=
  forall j a, h.(h_jobs) !! j = Some a ->
    (forall v, version_of a.(ap_phase) = Some v -> (v <= h.(h_version))%nat)
    /\ (forall cur v, a.(ap_phase) = ApDone cur v -> a.(ap_reason) <> Initial ->
         forall pid p, h.(h_procs) !! pid = Some p -> renewed v p).
Definition host_ok (h : Host) : Prop := procs_ok h /\ loads_ok h /\ jobs_ok h.

(** a step that changes the processes in no way that matters *)
Lemma loads_later h h' :
  later h h' ->
  (forall pid p', h'.(h_procs) !! pid = Some p' -> exists p, h.(h_procs) !! pid = Some p /\ p'.(pc_loaded) = p.(pc_loaded)) ->
  loads_ok h -> loads_ok h'.
Proof.
  intros [Hv Hc] Hp Hl pid p' v c Hp' Hload. destruct (Hp _ _ Hp') as (p & Hp0 & E). rewrite E in Hload.
  destruct (Hl _ _ _ _ Hp0 Hload) as [Hle Heq]. split; [lia|]. intros ->.
  assert (h_version h' = h_version h) as E' by lia. rewrite (Hc E'). by apply Heq.
Qed.
Lemma jobs_later h h' :
  (h.(h_version) <= h'.(h_version))%nat -> h'.(h_jobs) = h.(h_jobs) ->
  (forall pid p', h'.(h_procs) !! pid = Some p' -> (forall v, (v <= h.(h_version))%nat -> renewed v p')
     \/ exists p, h.(h_procs) !! pid = Some p /\ forall v, (v <= h.(h_version))%nat -> renewed v p -> renewed v p') ->
  jobs_ok h -> jobs_ok h'.
Proof.
  intros Hv Hj Hp H j a. rewrite Hj. intros Ha. destruct (H j a Ha) as [H1 H2]. split; [intros v Hw; specialize (H1 v Hw); lia|].
  intros cur v Hph Hr pid p' Hp'. destruct (Hp _ _ Hp') as [Hn|(p & Hp0 & Hn)].
  - apply Hn, H1. by rewrite Hph.
  - apply Hn; [apply H1; by rewrite Hph | by eapply H2].
Qed.

Lemma procs_cases h : procs_ok h -> h.(h_procs) = ∅ \/ exists pid r, h.(h_procs) = {[pid := r]}.
Proof. unfold procs_ok. destruct (sup_state _) as [| |?|[?|]| | |]; first [intros ?; by left | intros [r Hr]; right; eauto]. Qed.
Lemma only_proc h a b p q : procs_ok h -> h.(h_procs) !! a = Some p -> h.(h_procs) !! b = Some q -> a = b.
Proof.
  intros Hp Ha Hb. destruct (procs_cases _ Hp) as [E|(pid & r & E)]; rewrite E in Ha, Hb; [by rewrite lookup_empty in Ha|].
  apply lookup_singleton_Some in Ha as [<- _]. by apply lookup_singleton_Some in Hb as [<- _].
Qed.
Lemma procs_update h procs pid p p' :
  procs_ok h -> h.(h_procs) !! pid = Some p -> procs = <[pid := p']> h.(h_procs) -> procs_ok (h <| h_procs := procs |>).
Proof.
  intros Hp Hpid ->. unfold procs_ok in *. simpl. revert Hp. destruct (sup_state _) as [| |q|[q|]| | |];
    intros Hp; try (rewrite Hp, lookup_empty in Hpid; done);
    destruct Hp as [r E]; rewrite E in *; apply lookup_singleton_Some in Hpid as [<- _]; exists p'; apply insert_singleton_eq.
Qed.

Lemma jobs_move io j a ph h h1 :
  host_ok h -> h.(h_jobs) !! j = Some a -> apply_step io a.(ap_reason) a.(ap_phase) h = Some (ph, h1) ->
  jobs_ok (h1 <| h_jobs := <[j := {| ap_reason := a.(ap_reason); ap_phase := ph |}]> h1.(h_jobs) |>).
Proof.
  intros (Hp & Hl & Hj) Ha Hs. destruct (apply_step_frame _ _ _ _ _ _ Hs) as ([Hv _] & Hsup & Hjobs & _ & Hver & Hcase).
  assert (Hother : jobs_ok h1).
  { eapply jobs_later; [exact Hv|exact Hjobs| |exact Hj]. intros pid p' Hp'.
    destruct Hcase as [[E _]|(cur & v & k & pid' & last & p & _ & _ & Hpid & E)]; rewrite E in Hp'; [right; eauto|].
    left. intros w _. apply lookup_insert_Some in Hp' as [[_ <-]|[Hne Hp']]; [by left|]. by destruct Hne; eapply only_proc. }
  intros i b Hb. simpl in Hb. rewrite Hjobs in Hb. destruct (decide (i = j)) as [->|Hne].
  - rewrite list_lookup_insert_eq in Hb by (by eapply lookup_lt_Some). injection Hb as <-. simpl. split.
    + intros v Hw. destruct (Hver v Hw) as [Hw'| ->]; [|done]. destruct (Hj j a Ha) as [H1 _]. specialize (H1 v Hw'). lia.
    + intros cur v -> Hr pid p' Hp'. destruct Hcase as [[_ Hno]|(cur' & v' & k & pid' & last & p & _ & _ & Hpid & E)]; [by destruct (Hno Hr cur v)|].
      rewrite E in Hp'. apply lookup_insert_Some in Hp' as [[_ <-]|[Hne Hp']]; [by left|]. by destruct Hne; eapply only_proc.
  - rewrite list_lookup_insert_ne in Hb by done. apply (Hother i b). by rewrite Hjobs.
Qed.

Lemma sup_move_ok d start h h' : host_ok h -> sup_move d start h = Some h' -> host_ok h'.
Proof.
  intros (Hp & Hl & Hj). unfold sup_move. generalize (bool_decide (is_Some h.(h_disk).(dk_final))). intros file.
  assert (Hframe : forall next, procs_ok (h <| h_sup := next |>) -> host_ok (h <| h_sup := next |>)).
  { intros next H. split_and!; [done | exact Hl | exact Hj]. }
  destruct h as [disk ver cur jobs [st pid] procs err]. unfold procs_ok in Hp. cbn [h_sup h_procs sup_state] in *.
  destruct st as [| |q|[q|]| | |]; unfold sup_step; cbn [sup_state sup_pid in_file in_done in_start].
  - intros [= <-]. apply Hframe. unfold procs_ok. simpl. by destruct file, d.
  - simpl. destruct d; [intros [= <-]; by apply Hframe|]. destruct start as [q|]; simpl; [|intros [= <-]; by apply Hframe].
    destruct (_ && _); [|done]. intros [= <-]. subst procs. split_and!.
    + exists new_proc. done.
    + intros k p v c Hk. simpl in Hk. apply lookup_insert_Some in Hk as [[_ <-]|[_ Hk]]; [done|by rewrite lookup_empty in Hk].
    + eapply jobs_later; [| | |exact Hj]; [done|done|]. intros k p Hk. left. intros v _. right.
      simpl in Hk. apply lookup_insert_Some in Hk as [[_ <-]|[_ Hk]]; [done|by rewrite lookup_empty in Hk].
  - intros [= <-]. by apply Hframe.
  - destruct (procs !! q) as [p|] eqn:E; [|done]. destruct (pc_exited p); [|done]. intros [= <-]. destruct Hp as [r ->].
    rewrite delete_singleton_eq. split_and!; [done| |]; [intros k ? ? ? Hk; simpl in Hk; by rewrite lookup_empty in Hk|].
    eapply jobs_later; [| | |exact Hj]; [done|done|]. intros k ? Hk. simpl in Hk. by rewrite lookup_empty in Hk.
  - intros [= <-]. by apply Hframe.
  - intros [= <-]. by apply Hframe.
  - intros [= <-]. apply Hframe. unfold procs_ok. simpl. by destruct d.
  - intros [= <-]. by apply Hframe.
Qed.

(** a change of one process *)
Lemma update_ok h pid p p' :
  host_ok h -> h.(h_procs) !! pid = Some p ->
  (forall v c, p'.(pc_loaded) = Some (v, c) -> p.(pc_loaded) = Some (v, c) \/ (v, c) = (h.(h_version), final h)) ->
  (p.(pc_term) = true -> p'.(pc_term) = true) -> host_ok (h <| h_procs := <[pid := p']> h.(h_procs) |>).
Proof.
  intros (Hp & Hl & Hj) Hpid Hload Hterm. split_and!.
  - by eapply procs_update.
  - intros k r v c Hk Hr. simpl in Hk. apply lookup_insert_Some in Hk as [[<- <-]|[_ Hk]]; [|by eapply Hl].
    destruct (Hload _ _ Hr) as [Hold|[= -> ->]]; [by eapply Hl | done].
  - eapply jobs_later; [| | |exact Hj]; [done|done|]. intros k r Hk. simpl in Hk.
    apply lookup_insert_Some in Hk as [[<- <-]|[_ Hk]]; [|right; eauto]. right. exists p. split; [done|].
    intros v Hv [Ht|Hn]; [left; auto|right]. intros v' c Hr. destruct (Hload _ _ Hr) as [Hold|[= -> ->]]; [by eapply Hn | done].
Qed.

Lemma host_ok_step mv h h' : host_ok h -> host_step mv h = Some h' -> host_ok h'.
Proof.
  intros Hok. pose proof Hok as (Hp & Hl & Hj). destruct mv as [f|reason|j io|d start|pid|pid]; simpl.
  - by intros [= <-].
  - intros [= <-]. split_and!; [done|done|]. intros j a Ha. simpl in Ha. apply lookup_app_Some in Ha as [Ha|[_ Ha]]; [by eapply Hj|].
    apply list_lookup_singleton_Some in Ha as [_ <-]. by split.
  - destruct (h_jobs h !! j) as [a|] eqn:Ea; [|done]. simpl.
    destruct (apply_step io (ap_reason a) (ap_phase a) h) as [[ph h1]|] eqn:E; [|done]. intros [= <-].
    pose proof (jobs_move _ _ _ _ _ _ Hok Ea E) as Hj1.
    destruct (apply_step_frame _ _ _ _ _ _ E) as (Hlater & Hsup & Hjobs & _ & _ & Hcase). split_and!; [| |exact Hj1].
    + destruct Hcase as [[Hr _]|(cur & v & k & pid & last & p & _ & _ & Hpid & Hr)].
      * unfold procs_ok in *. simpl. by rewrite Hsup, Hr.
      * pose proof (procs_update _ _ _ _ (terminate p) Hp Hpid eq_refl) as Hu. unfold procs_ok in *. simpl in *. by rewrite Hsup, Hr.
    + eapply loads_later; [exact Hlater| |exact Hl]. intros pid p' Hp'. simpl in Hp'.
      destruct Hcase as [[Hr _]|(cur & v & k & q & last & p & _ & _ & Hpid & Hr)]; rewrite Hr in Hp'; [by exists p'|].
      apply lookup_insert_Some in Hp' as [[<- <-]|[_ Hp']]; [by exists p | by exists p'].
  - by apply sup_move_ok.
  - destruct (h_procs h !! pid) as [p|] eqn:E; [|done]. simpl. destruct (_ || _); [done|]. intros [= <-].
    eapply update_ok; [done|done| |done]. intros v c [= <- <-]. by right.
  - destruct (h_procs h !! pid) as [p|] eqn:E; [|done]. intros [= <-]. eapply update_ok; [done|done| |done]. intros v c H. by left.
Qed.

Lemma host_run_in (P : Host -> Prop) allowed moves : forall h h',
  (forall mv h h', In mv moves -> allowed mv h = true -> P h -> host_step mv h = Some h' -> P h') ->
  P h -> host_run allowed moves h = Some h' -> P h'.
Proof.
  induction moves as [|mv moves IH]; simpl; intros h h' Hstep Hh; [by intros [= <-]|].
  destruct (allowed mv h) eqn:Ea; [|done]. destruct (host_step mv h) as [h1|] eqn:E; [|done]. simpl.
  apply IH; [intros ? ? ? ?; by apply Hstep; right|]. eapply Hstep; eauto.
Qed.
Lemma host_run_ind (P : Host -> Prop) allowed moves h h' :
  (forall mv h h', allowed mv h = true -> P h -> host_step mv h = Some h' -> P h') ->
  P h -> host_run allowed moves h = Some h' -> P h'.
Proof. intros Hstep. apply host_run_in. intros mv g g' _. apply Hstep. Qed.
Lemma host_run_app allowed moves1 moves2 : forall h h',
  host_run allowed (moves1 ++ moves2) h = Some h' ->
  exists h1, host_run allowed moves1 h = Some h1 /\ host_run allowed moves2 h1 = Some h'.
Proof.
  induction moves1 as [|mv moves1 IH]; simpl; intros h h' H; [by exists h|].
  destruct (allowed mv h); [|done]. destruct (host_step mv h) as [h1|]; [|done]. by apply IH.
Qed.

Lemma boot_ok old cur : host_ok (boot old cur).
Proof. split_and!; [done| |]; intros j a; simpl; [by rewrite lookup_empty | by rewrite lookup_nil]. Qed.
Lemma run_host_ok allowed moves old cur h : host_run allowed moves (boot old cur) = Some h -> host_ok h.
Proof. apply (host_run_ind host_ok); [|apply boot_ok]. intros mv h0 h1 _. apply host_ok_step. Qed.

(** C10. However the applications, the supervisor and the unbound processes are interleaved: once an
    application other than the first one has succeeded, and as long as the file
    stays as that application left it, an unbound that has read its file and has
    not been told to terminate has read exactly what the file holds. *)
Theorem applied_is_loaded allowed (moves : list HostMove) (old : option string) (boot_cur : option File) (h : Host)
    (j : nat) (reason : Reason) (cur : File) (v : nat) (pid : Z) (p : Proc) :
  host_run allowed moves (boot old boot_cur) = Some h ->
  h.(h_jobs) !! j = Some {| ap_reason := reason; ap_phase := ApDone cur v |} -> reason <> Initial ->
  h.(h_version) = v ->
  h.(h_procs) !! pid = Some p -> p.(pc_term) = false ->
  forall v' c, p.(pc_loaded) = Some (v', c) -> c = final h.
Proof.
  intros Hrun Hj Hr Hv Hp Ht v' c Hload. destruct (run_host_ok _ _ _ _ _ Hrun) as (_ & Hl & Hjobs).
  destruct (Hjobs j _ Hj) as [_ Hren]. destruct (Hl _ _ _ _ Hp Hload) as [Hle Hc].
  destruct (Hren cur v eq_refl Hr pid p Hp) as [|Hn]; [congruence|]. specialize (Hn _ _ Hload). apply Hc. lia.
Qed.

(** ** One application after the other *)

Definition in_force (cur : File) (h : Host) : Prop :=
  final h = Some (Generate cur) /\ checkconf (Some (Generate cur)) = None.
(** unbound's file is the old one, or a generated one that has passed the check *)
Definition sane (old : option string) (h : Host) : Prop := final h = old \/ exists cur, in_force cur h.

Definition disk_ok (d : Disk) : Prop :=
  (forall i, d.(dk_tmp) = Some i -> (i < length d.(dk_inodes))%nat /\ d.(dk_final) <> Some i)
  /\ (forall i, d.(dk_final) = Some i -> (i < length d.(dk_inodes))%nat).

Definition phase_ok (ph : ApplyPhase) (h : Host) : Prop :=
  let tmp := contents h.(h_disk) h.(h_disk).(dk_tmp) in
  match ph with
  | ApWrite _ i => h.(h_disk).(dk_tmp) = Some i /\ tmp = Some EmptyString
  | ApCheck cur => tmp = Some (Generate cur)
  | ApRename cur => tmp = Some (Generate cur) /\ checkconf (Some (Generate cur)) = None
  | ApLoadPid cur v _ _ | ApSignal cur v _ _ _ | ApWait cur v _ _ | ApDone cur v => v = h.(h_version) -> in_force cur h
  | _ => True
  end.

Lemma open_tmp_ok d i d' :
  disk_ok d -> open_tmp d = (i, d') ->
  disk_ok d' /\ d'.(dk_tmp) = Some i /\ d'.(dk_inodes) !! i = Some EmptyString
  /\ contents d' d'.(dk_final) = contents d d.(dk_final).
Proof.
  intros [Ht Hf]. unfold open_tmp, disk_ok, contents. destruct (dk_tmp d) as [t|]; intros [= <- <-]; simpl.
  - destruct (Ht t eq_refl) as [Hlt Hne]. rewrite length_insert. split_and!; [|done|done|by apply list_lookup_insert_eq|].
    + by intros i [= <-].
    + destruct (dk_final d) as [k|]; simpl; [|done]. rewrite list_lookup_insert_ne; [done|congruence].
  - rewrite length_app. simpl. split_and!; [|intros i Hi; specialize (Hf i Hi); lia|done| |].
    + intros i [= <-]. split; [lia|]. intros Hi. specialize (Hf _ Hi). lia.
    + by rewrite lookup_app_r, Nat.sub_diag by done.
    + destruct (dk_final d) as [k|] eqn:E; simpl; [|done]. rewrite lookup_app_l; [done|]. by apply Hf.
Qed.

Lemma write_at_ok d i data :
  disk_ok d -> d.(dk_tmp) = Some i -> d.(dk_inodes) !! i = Some EmptyString ->
  disk_ok (write_at i data d) /\ contents (write_at i data d) (Some i) = Some data
  /\ contents (write_at i data d) d.(dk_final) = contents d d.(dk_final).
Proof.
  intros [Ht Hf] Hi He. unfold disk_ok, contents. simpl. rewrite length_alter. split_and!; [done|done| |].
  - rewrite list_lookup_alter_eq, He. simpl. destruct (String.length data); simpl; by rewrite append_nil_r.
  - destruct (Ht i Hi) as [_ Hne]. destruct (dk_final d) as [k|]; simpl; [|done]. rewrite list_lookup_alter_ne; [done|congruence].
Qed.

(** the configuration an application applies *)
Definition cur_of_phase (ph : ApplyPhase) : option File :=
  match ph with
  | ApOpen cur | ApWrite cur _ | ApCheck cur | ApRename cur | ApLoadPid cur _ _ _ | ApSignal cur _ _ _ _ | ApWait cur _ _ _ | ApDone cur _ => Some cur
  | ApRead | ApRemove _ | ApFailed _ => None
  end.
(** unbound's file is as it was, or the one of that configuration *)
Definition left_by (ph : ApplyPhase) (h h' : Host) : Prop :=
  final h' = final h \/ exists cur, cur_of_phase ph = Some cur /\ in_force cur h'.

Lemma apply_step_serial io reason ph h ph' h' :
  disk_ok h.(h_disk) -> phase_ok ph h -> apply_step io reason ph h = Some (ph', h') ->
  disk_ok h'.(h_disk) /\ left_by ph h h' /\ phase_ok ph' h'.
Proof.
  intros Hd Hph. assert (Hs : left_by ph h h) by by left. unfold left_by in *.
  assert (Hagain : forall cur v k last g, disk_ok g.(h_disk) -> left_by ph h g -> (v = g.(h_version) -> in_force cur g) ->
    forall ph' g', reload_again cur v k last g = (ph', g') -> disk_ok g'.(h_disk) /\ left_by ph h g' /\ phase_ok ph' g').
  { intros cur v k last g Hg Hsg Hp p g'. unfold reload_again, fail. destruct (decide _); by intros [= <- <-]. }
  destruct ph as [|cur|cur i|cur|msg|cur|cur v k last|cur v k pid last|cur v k last|cur v|msg]; simpl in *; try done.
  - destruct (h_current h); by intros [= <- <-].
  - destruct (jb_mkdir io); [by intros [= <- <-]|]. destruct (jb_open io); [by intros [= <- <-]|].
    destruct (open_tmp (h_disk h)) as [i d] eqn:E. intros [= <- <-]. destruct (open_tmp_ok _ _ _ Hd E) as (H1 & H2 & H3 & H4).
    split_and!; [done|by left|]. simpl. rewrite H2. split; [done|exact H3].
  - destruct Hph as [Hi He]. assert (He' : dk_inodes (h_disk h) !! i = Some EmptyString) by (unfold contents in He; by rewrite Hi in He).
    assert (Hw : forall data, disk_ok (write_at i data (h_disk h)) /\ final (set_disk (write_at i data (h_disk h)) h) = final h
      /\ contents (write_at i data (h_disk h)) (dk_tmp (h_disk h)) = Some data).
    { intros data. destruct (write_at_ok _ _ data Hd Hi He') as (H1 & H2 & H3). split_and!; [done|done|by rewrite Hi]. }
    destruct (jb_write io) as [[n msg]|]; intros [= <- <-]; destruct (Hw (Generate cur)) as (H1 & H2 & H3).
    + destruct (Hw (str_take n (Generate cur))) as (H1' & H2' & _). split_and!; [done|by left|done].
    + split_and!; [done|by left|done].
  - destruct (jb_check io) as [[err out]|]; [by intros [= <- <-]|]. destruct (checkconf _) as [[err out]|] eqn:E; intros [= <- <-]; [done|].
    split_and!; [done|done|]. simpl. rewrite Hph in E. done.
  - intros [= <- <-]. split_and!; [|by left|done]. destruct Hd as [_ Hf]. by split.
  - destruct Hph as [Ht Hc]. destruct (jb_rename io); [by intros [= <- <-]|]. destruct (dk_tmp (h_disk h)) as [i|] eqn:Ei; [|done].
    set (h1 := set_disk (rename_tmp (h_disk h)) h).
    assert (Hin : in_force cur h1).
    { split; [|done]. unfold h1, set_disk, rename_tmp. rewrite Ei. exact Ht. }
    assert (Hd1 : disk_ok (h_disk h1)).
    { unfold h1, set_disk, rename_tmp. rewrite Ei. destruct Hd as [Hd _]. split; simpl; [done|]. intros k [= <-]. by apply Hd. }
    assert (Hs1 : left_by (ApRename cur) h h1) by (right; by exists cur).
    destruct (negb _); intros Hg; apply (inj Some) in Hg; [by eapply Hagain in Hg|].
    injection Hg as <- <-. split; [exact Hd1|]. split; [exact Hs1|]. intros _. exact Hin.
  - intros [= <- <-]. destruct (0 <? _); by split_and!.
  - destruct (jb_find io); [by intros [= <- <-]|]. destruct (jb_signal io); [by intros [= <- <-]|].
    destruct (h_procs h !! pid); by intros [= <- <-].
  - destruct (jb_ctx io); [by intros [= <- <-]|]. intros Hg. apply (inj Some) in Hg. by eapply Hagain in Hg.
Qed.

Lemma left_by_sane old ph h h' : left_by ph h h' -> sane old h -> sane old h'.
Proof. intros [E|(cur & _ & Hin)]; [unfold sane, in_force; by rewrite E | intros _; right; by exists cur]. Qed.

Definition serial_ok (old : option string) (h : Host) : Prop :=
  disk_ok h.(h_disk) /\ sane old h
  /\ (forall i j a b, h.(h_jobs) !! i = Some a -> h.(h_jobs) !! j = Some b -> finished a = false -> finished b = false -> i = j)
  /\ (forall j a, h.(h_jobs) !! j = Some a -> phase_ok a.(ap_phase) h).

(** what a finished application has left is not touched by a step of another one *)
Lemma finished_later h h' a :
  later h h' -> finished a = true -> (forall v, version_of a.(ap_phase) = Some v -> (v <= h.(h_version))%nat) ->
  phase_ok a.(ap_phase) h -> phase_ok a.(ap_phase) h'.
Proof.
  intros [Hv Hf] Hfin Hle. unfold finished in Hfin. destruct (ap_phase a) as [| | | | | | | | |cur v|]; try done. simpl in *.
  intros H ->. specialize (Hle _ eq_refl). assert (E : h_version h' = h_version h) by lia.
  unfold in_force. rewrite (Hf E). apply H. lia.
Qed.

Lemma serial_ok_step old mv h h' :
  host_ok h -> serial_ok old h -> serial mv h = true -> host_step mv h = Some h' -> serial_ok old h'.
Proof.
  intros Hok (Hd & Hs & Hone & Hph) Hser.
  assert (Hsame : forall g, g.(h_disk) = h.(h_disk) -> g.(h_version) = h.(h_version) -> g.(h_jobs) = h.(h_jobs) -> serial_ok old g).
  { intros g Eg Ev Ej. unfold serial_ok, sane, in_force. rewrite Eg, Ej. split_and!; [done..|]. intros j a Ha. specialize (Hph j a Ha).
    destruct (ap_phase a); simpl in *; unfold in_force in *; by rewrite ?Eg, ?Ev. }
  destruct mv as [f|reason|j io|d start|pid|pid]; simpl.
  - intros [= <-]. by apply Hsame.
  - intros [= <-]. simpl in Hser.
    assert (Hfin : forall i a, h.(h_jobs) !! i = Some a -> finished a = true).
    { intros i a Ha. rewrite List.forallb_forall in Hser. apply Hser, list_elem_of_In. by eapply list_elem_of_lookup_2. }
    split_and!; [done|done| |]; simpl.
    + intros i k a b Ha Hb Fa Fb. apply lookup_app_Some in Ha as [Ha|[Hi Ha]]; [apply Hfin in Ha; congruence|].
      apply lookup_app_Some in Hb as [Hb|[Hk Hb]]; [apply Hfin in Hb; congruence|].
      apply list_lookup_singleton_Some in Ha as [? _]. apply list_lookup_singleton_Some in Hb as [? _]. lia.
    + intros i a Ha. apply lookup_app_Some in Ha as [Ha|[_ Ha]]; [by eapply Hph|].
      by apply list_lookup_singleton_Some in Ha as [_ <-].
  - destruct (h_jobs h !! j) as [a|] eqn:Ea; [|done]. simpl.
    destruct (apply_step io (ap_reason a) (ap_phase a) h) as [[ph h1]|] eqn:E; [|done]. intros [= <-].
    destruct (apply_step_frame _ _ _ _ _ _ E) as (Hlater & _ & Hjobs & _).
    destruct (apply_step_serial _ _ _ _ _ _ Hd (Hph _ _ Ea) E) as (Hd1 & Hl1 & Hph1).
    pose proof (left_by_sane old _ _ _ Hl1 Hs) as Hs1.
    assert (Ha : finished a = false) by (unfold finished; by destruct (ap_phase a)).
    assert (Hrest : forall i b, i <> j -> h.(h_jobs) !! i = Some b -> finished b = true).
    { intros i b Hne Hb. destruct (finished b) eqn:Fb; [done|]. destruct Hne. by eapply Hone. }
    split_and!; [exact Hd1|exact Hs1| |]; simpl; rewrite Hjobs.
    + intros i k b c Hb Hc Fb Fc. destruct (decide (i = j)) as [->|Hi], (decide (k = j)) as [->|Hk]; [done|..].
      * rewrite list_lookup_insert_ne in Hc by done. rewrite (Hrest _ _ Hk Hc) in Fc. done.
      * rewrite list_lookup_insert_ne in Hb by done. rewrite (Hrest _ _ Hi Hb) in Fb. done.
      * rewrite list_lookup_insert_ne in Hb by done. rewrite (Hrest _ _ Hi Hb) in Fb. done.
    + intros i b Hb. destruct (decide (i = j)) as [->|Hi].
      * rewrite list_lookup_insert_eq in Hb by (by eapply lookup_lt_Some). injection Hb as <-. exact Hph1.
      * rewrite list_lookup_insert_ne in Hb by done. destruct Hok as (_ & _ & Hj).
        eapply (finished_later h); [exact Hlater | by eapply Hrest | by apply (Hj i b Hb) | by eapply Hph].
  - unfold sup_move. intros H. apply Hsame; revert H; repeat case_match; try done; by intros [= <-].
  - destruct (h_procs h !! pid) as [p|]; [|done]. simpl. destruct (_ || _); [done|]. intros [= <-]. by apply Hsame.
  - destruct (h_procs h !! pid) as [p|]; [|done]. intros [= <-]. by apply Hsame.
Qed.

Lemma boot_disk_ok old cur : serial_ok old (boot old cur).
Proof.
  split_and!; [|left; by destruct old|by intros ? ? ? ?; simpl; rewrite lookup_nil|by intros ? ?; simpl; rewrite lookup_nil].
  split; [done|]. intros i. simpl. destruct old; simpl; [|done]. intros [= <-]. lia.
Qed.

(** C9. When the applications come one after the other, unbound's file is at any time
    the one that was left there or a generated one that has passed the check. As
    long as it is what the last application left, it is the text of that
    application's configuration, and unless that was the first application,
    an unbound that has read its file and has not been told to terminate runs
    with that text. *)
Theorem serial_in_force (moves : list HostMove) (old : option string) (cur0 : option File) (h : Host) :
  host_run serial moves (boot old cur0) = Some h ->
  sane old h
  /\ forall j reason cur, h.(h_jobs) !! j = Some {| ap_reason := reason; ap_phase := ApDone cur h.(h_version) |} ->
       in_force cur h
       /\ (reason <> Initial -> forall pid p v c, h.(h_procs) !! pid = Some p -> p.(pc_term) = false ->
             p.(pc_loaded) = Some (v, c) -> c = Some (Generate cur)).
Proof.
  intros Hrun. assert (H : host_ok h /\ serial_ok old h).
  { eapply (host_run_ind (fun h => host_ok h /\ serial_ok old h)); [| |exact Hrun]; [|split; [apply boot_ok | apply boot_disk_ok]].
    intros mv h0 h1 Ha [? ?] ?. split; [by eapply host_ok_step | by eapply serial_ok_step]. }
  destruct H as [(_ & Hl & Hj) (_ & Hs & _ & Hph)]. split; [done|]. intros j reason cur Ha.
  pose proof (Hph _ _ Ha eq_refl) as Hin. split; [done|]. intros Hr pid p v c Hp Ht Hload.
  destruct (Hl _ _ _ _ Hp Hload) as [Hle Hc]. destruct (Hj _ _ Ha) as [_ Hren].
  destruct (Hren _ _ eq_refl Hr _ _ Hp) as [|Hn]; [congruence|]. specialize (Hn _ _ Hload).
  destruct Hin as [<- _]. apply Hc. lia.
Qed.

(** *** Which configuration the file is of *)

(** it was in memory at the start or was saved *)
Definition saved (cur0 : option File) (moves : list HostMove) (f : File) : Prop := cur0 = Some f \/ In (HSave f) moves.
Definition quiet (mv : HostMove) : bool := match mv with HSave _ | HApply _ => false | _ => true end.

Lemma apply_step_cur io reason ph h ph' h' c :
  apply_step io reason ph h = Some (ph', h') -> cur_of_phase ph' = Some c ->
  cur_of_phase ph = Some c \/ h.(h_current) = Some c.
Proof.
  destruct ph; simpl; try done; unfold reload_again, fail, succeed; intros H Hc;
    simplify_eq/=; repeat (case_match; simplify_eq/=; try (by auto)); by auto.
Qed.
(** after the rename an application does not touch the file *)
Lemma apply_step_settled io reason ph h ph' h' v :
  apply_step io reason ph h = Some (ph', h') -> version_of ph = Some v -> h'.(h_version) = h.(h_version).
Proof.
  destruct ph; simpl; try done; unfold reload_again, fail, succeed; intros H _;
    repeat (case_match; simplify_eq/=; try done).
Qed.

Definition traced (P : File -> Prop) (old : option string) (h : Host) : Prop :=
  host_ok h /\ serial_ok old h /\ (forall f, h.(h_current) = Some f -> P f)
  /\ (forall j a cur, h.(h_jobs) !! j = Some a -> cur_of_phase a.(ap_phase) = Some cur -> P cur)
  /\ (final h = old \/ exists cur, P cur /\ in_force cur h).

Lemma traced_step P old mv h h' :
  (forall f, mv = HSave f -> P f) -> serial mv h = true -> traced P old h -> host_step mv h = Some h' -> traced P old h'.
Proof.
  intros Hsv Hser (Hok & Hso & Hc & Hj & Hf) Hst.
  split; [by eapply host_ok_step|]. split; [by eapply serial_ok_step|].
  assert (Hsame : forall g, g.(h_disk) = h.(h_disk) -> g.(h_jobs) = h.(h_jobs) -> g.(h_current) = h.(h_current) ->
    (forall f, g.(h_current) = Some f -> P f) /\ (forall j a cur, g.(h_jobs) !! j = Some a -> cur_of_phase a.(ap_phase) = Some cur -> P cur)
    /\ (final g = old \/ exists cur, P cur /\ in_force cur g)).
  { intros g Eg Ej Ec. unfold in_force. rewrite Eg, Ej, Ec. done. }
  destruct mv as [f|reason|j io|d start|pid|pid]; simpl in Hst.
  - injection Hst as <-. split_and!; [|done|done]. intros g [= <-]. by apply Hsv.
  - injection Hst as <-. split_and!; [done| |done]. intros j a cur Ha. simpl in Ha.
    apply lookup_app_Some in Ha as [Ha|[_ Ha]]; [by eapply Hj|]. by apply list_lookup_singleton_Some in Ha as [_ <-].
  - destruct (h_jobs h !! j) as [a|] eqn:Ea; [|done]. simpl in Hst.
    destruct (apply_step io (ap_reason a) (ap_phase a) h) as [[ph h1]|] eqn:E; [|done]. injection Hst as <-.
    destruct (apply_step_frame _ _ _ _ _ _ E) as (_ & _ & Hjobs & Hcur & _). destruct Hso as (Hd & _ & _ & Hph).
    destruct (apply_step_serial _ _ _ _ _ _ Hd (Hph _ _ Ea) E) as (_ & Hl & _). split_and!.
    + intros f. simpl. rewrite Hcur. apply Hc.
    + intros i b cur. simpl. rewrite Hjobs. destruct (decide (i = j)) as [->|Hne].
      * rewrite list_lookup_insert_eq by (by eapply lookup_lt_Some). intros [= <-] Hb. simpl in Hb.
        destruct (apply_step_cur _ _ _ _ _ _ _ E Hb); [by eapply Hj | by apply Hc].
      * rewrite list_lookup_insert_ne by done. apply Hj.
    + destruct Hl as [El|(cur & Hcp & Hin)]; [unfold in_force in *; simpl; by rewrite El|]. right. exists cur. split; [by eapply Hj | done].
  - unfold sup_move in Hst. apply Hsame; revert Hst; repeat case_match; try done; by intros [= <-].
  - destruct (h_procs h !! pid) as [p|]; [|done]. simpl in Hst. destruct (_ || _); [done|]. injection Hst as <-. by apply Hsame.
  - destruct (h_procs h !! pid) as [p|]; [|done]. injection Hst as <-. by apply Hsame.
Qed.

Lemma boot_traced P old cur : (forall f, cur = Some f -> P f) -> traced P old (boot old cur).
Proof. intros H. split_and!; [by apply boot_ok|by apply boot_disk_ok|done|done|left; by destruct old]. Qed.

(** the last application, with the others finished and nothing saved beside it *)
Definition last_alone (f : option File) (j : nat) (h : Host) : Prop :=
  h.(h_current) = f /\ length h.(h_jobs) = S j
  /\ (forall i b, h.(h_jobs) !! i = Some b -> i <> j -> finished b = true)
  /\ forall a, h.(h_jobs) !! j = Some a ->
       (forall c, cur_of_phase a.(ap_phase) = Some c -> f = Some c)
       /\ forall v, version_of a.(ap_phase) = Some v -> v = h.(h_version).

Lemma last_alone_step f j mv h h' :
  quiet mv = true -> last_alone f j h -> host_step mv h = Some h' -> last_alone f j h'.
Proof.
  intros Hq (Hc & Hlen & Hfin & Hlast).
  assert (Hsame : forall g, g.(h_version) = h.(h_version) -> g.(h_jobs) = h.(h_jobs) -> g.(h_current) = h.(h_current) -> last_alone f j g).
  { intros g Ev Ej Ec. unfold last_alone. rewrite Ev, Ej, Ec. done. }
  destruct mv as [g|reason|i io|d start|pid|pid]; simpl; try done.
  - destruct (h_jobs h !! i) as [a|] eqn:Ea; [|done]. simpl.
    destruct (apply_step io (ap_reason a) (ap_phase a) h) as [[ph h1]|] eqn:E; [|done]. intros [= <-].
    destruct (apply_step_frame _ _ _ _ _ _ E) as (_ & _ & Hjobs & Hcur & Hver & _).
    assert (i = j) as ->.
    { destruct (decide (i = j)) as [|Hne]; [done|]. specialize (Hfin i a Ea Hne). unfold finished in Hfin. by destruct (ap_phase a). }
    destruct (Hlast a Ea) as [Hcp Hv]. unfold last_alone. simpl. rewrite Hjobs, Hcur, length_insert. split_and!; [done|done| |].
    + intros k b Hk Hne. rewrite list_lookup_insert_ne in Hk by done. by eapply Hfin.
    + intros b. rewrite list_lookup_insert_eq by (by eapply lookup_lt_Some). intros [= <-]. simpl. split.
      * intros c Hph. destruct (apply_step_cur _ _ _ _ _ _ _ E Hph); [by apply Hcp | by rewrite <- Hc].
      * intros v Hph. destruct (Hver v Hph) as [Hold| ->]; [|done]. rewrite (apply_step_settled _ _ _ _ _ _ _ E Hold). by apply Hv.
  - unfold sup_move. intros Hst. apply Hsame; revert Hst; repeat case_match; try done; by intros [= <-].
  - destruct (h_procs h !! pid) as [p|]; [|done]. simpl. destruct (_ || _); [done|]. intros [= <-]. by apply Hsame.
  - destruct (h_procs h !! pid) as [p|]; [|done]. intros [= <-]. by apply Hsame.
Qed.

(** C12. When the applications come one after the other, unbound's file is at any
    time the one that was left there, or the text, accepted by unbound-checkconf,
    of a configuration that was in memory at the start or has been saved since:
    never a partial file and never that of a configuration nobody saved.  And when
    the last application has ended well and nothing has been saved since it began,
    the file is that of the configuration in memory. *)
Theorem unbound_file_generated (moves : list HostMove) (old : option string) (cur0 : option File) (h : Host) :
  host_run serial moves (boot old cur0) = Some h ->
  (final h = old
   \/ exists cur, saved cur0 moves cur /\ final h = Some (Generate cur) /\ checkconf (Some (Generate cur)) = None)
  /\ forall before reason rest r cur v,
       moves = before ++ HApply reason :: rest -> forallb quiet rest = true ->
       last h.(h_jobs) = Some {| ap_reason := r; ap_phase := ApDone cur v |} ->
       h.(h_current) = Some cur /\ final h = Some (Generate cur) /\ checkconf (Some (Generate cur)) = None.
Proof.
  intros Hrun. assert (Ht : traced (saved cur0 moves) old h).
  { eapply (host_run_in (traced (saved cur0 moves) old)); [| |exact Hrun].
    - intros mv h0 h1 Hin Ha. apply traced_step; [|done]. intros f ->. by right.
    - apply boot_traced. intros f ->. by left. }
  destruct Ht as (_ & (_ & _ & _ & Hph) & _ & _ & Hf). split; [exact Hf|].
  intros before reason rest r cur v -> Hq Hlast.
  apply host_run_app in Hrun as (h0 & _ & Hrun). simpl in Hrun. destruct (forallb finished _) eqn:Hfin; [|done].
  assert (Hal : last_alone h0.(h_current) (length h0.(h_jobs)) h).
  { eapply (host_run_in (last_alone h0.(h_current) (length h0.(h_jobs)))); [| |exact Hrun].
    - intros mv g g' Hin _. apply last_alone_step. rewrite List.forallb_forall in Hq. by apply Hq.
    - split_and!; [done|simpl; rewrite length_app; simpl; lia| |].
      + intros i b Hb Hne. simpl in Hb. apply lookup_app_Some in Hb as [Hb|[Hi Hb]].
        * rewrite List.forallb_forall in Hfin. apply Hfin, list_elem_of_In. by eapply list_elem_of_lookup_2.
        * apply list_lookup_singleton_Some in Hb as [Hb _]. lia.
      + intros a. simpl. rewrite lookup_app_r, Nat.sub_diag by done. by intros [= <-]. }
  destruct Hal as (Hc & Hlen & _ & Hl). rewrite last_lookup, Hlen in Hlast. simpl in Hlast.
  destruct (Hl _ Hlast) as [Hcp Hv]. simpl in *. split; [by rewrite Hc; apply Hcp|].
  exact (Hph _ _ Hlast (Hv v eq_refl)).
Qed.

(** ** unbound comes back *)

(** the supervisor goes on, processes read their file, and those that have been
    told to terminate do *)
Definition orderly (mv : HostMove) (h : Host) : bool :=
  match mv with
  | HSup ctx_done _ => negb ctx_done
  | HLoad _ => true
  | HExit pid => match h.(h_procs) !! pid with Some p => p.(pc_term) | None => false end
  | _ => false
  end.
(** an unbound runs with what the file holds *)
Definition serves (h : Host) : Prop :=
  exists pid p, h.(h_procs) !! pid = Some p /\ p.(pc_term) = false /\ p.(pc_exited) = false
    /\ p.(pc_loaded) = Some (h.(h_version), final h).
Definition comes_back (h : Host) : Prop :=
  exists moves h', host_run orderly moves h = Some h' /\ h'.(h_disk) = h.(h_disk) /\ serves h'.

Lemma comes_step mv h h1 :
  orderly mv h = true -> host_step mv h = Some h1 -> h1.(h_disk) = h.(h_disk) -> comes_back h1 -> comes_back h.
Proof.
  intros Ho Hs Hd (moves & h' & Hrun & Hd' & Hr). exists (mv :: moves), h'. split_and!; [|congruence|done].
  simpl. rewrite Ho, Hs. exact Hrun.
Qed.

Lemma comes_load h pid p :
  h.(h_procs) !! pid = Some p -> p.(pc_term) = false -> p.(pc_exited) = false -> p.(pc_loaded) = None -> comes_back h.
Proof.
  intros Hp Ht He Hl. eapply (comes_step (HLoad pid)); [done|simpl; rewrite Hp; simpl; by rewrite He, Hl|done|].
  exists [], (h <| h_procs := <[pid := load h p]> h.(h_procs) |>). split_and!; [done..|].
  exists pid, (load h p). split_and!; [apply lookup_insert_eq|done..].
Qed.

Lemma comes_start h :
  h.(h_sup).(sup_state) = SupStart -> h.(h_procs) = ∅ -> comes_back h.
Proof.
  destruct h as [disk ver cur jobs [st pid] procs err]. simpl. intros -> ->.
  eapply (comes_step (HSup false (Some 1))); [done|reflexivity|done|].
  eapply comes_load; simpl; [apply lookup_insert_eq|done..].
Qed.

Lemma comes_pause h :
  h.(h_sup).(sup_state) = SupPause \/ h.(h_sup).(sup_state) = SupReaped -> h.(h_procs) = ∅ -> comes_back h.
Proof.
  destruct h as [disk ver cur jobs [st pid] procs err]. simpl. intros Hst ->.
  assert (Hpause : forall pid, comes_back {| h_disk := disk; h_version := ver; h_current := cur; h_jobs := jobs;
      h_sup := {| sup_state := SupPause; sup_pid := pid |}; h_procs := ∅; h_error := err |}).
  { intros q. eapply (comes_step (HSup false None)); [done|reflexivity|done|]. by apply comes_start. }
  destruct Hst as [->| ->]; [apply Hpause|].
  eapply (comes_step (HSup false None)); [done|reflexivity|done|]. apply Hpause.
Qed.

(** a process that has ended is waited for *)
Lemma comes_exited h pid p :
  procs_ok h -> h.(h_procs) !! pid = Some p -> p.(pc_exited) = true -> comes_back h.
Proof.
  destruct h as [disk ver cur jobs [st spid] procs err]. unfold procs_ok. simpl. intros Hp Hpid He.
  assert (Hwait : forall spid, procs = {[pid := p]} -> comes_back {| h_disk := disk; h_version := ver; h_current := cur; h_jobs := jobs;
      h_sup := {| sup_state := SupRunning (Some pid); sup_pid := spid |}; h_procs := procs; h_error := err |}).
  { intros q ->. eapply (comes_step (HSup false None)); [done|simpl; unfold sup_move; simpl; rewrite lookup_singleton_eq, He; reflexivity|done|].
    apply comes_pause; simpl; [by right | apply delete_singleton_eq]. }
  destruct st as [| |q|[q|]| | |]; try (by rewrite Hp, lookup_empty in Hpid); destruct Hp as [r E];
    pose proof Hpid as Hq; rewrite E in Hq; apply lookup_singleton_Some in Hq as [-> ->].
  - eapply (comes_step (HSup false None)); [done|reflexivity|done|]. by apply Hwait.
  - by apply Hwait.
Qed.

(** C11. A machine on which an application other than the first one has succeeded, whose
    file has not changed since, and whose supervisor goes on, gets back to an
    unbound that runs with the file, by nothing but steps of the supervisor and
    of unbound, in which no process ends that was not told to. *)
Theorem unbound_comes_back allowed (moves : list HostMove) (old : option string) (cur0 : option File) (h : Host)
    (j : nat) (reason : Reason) (cur : File) :
  host_run allowed moves (boot old cur0) = Some h ->
  h.(h_jobs) !! j = Some {| ap_reason := reason; ap_phase := ApDone cur h.(h_version) |} -> reason <> Initial ->
  is_Some h.(h_disk).(dk_final) -> h.(h_sup).(sup_state) <> SupDone ->
  comes_back h.
Proof.
  intros Hrun Hj Hr Hfile Hsup. destruct (run_host_ok _ _ _ _ _ Hrun) as (Hp & Hl & Hjobs).
  destruct (Hjobs j _ Hj) as [_ Hren]. specialize (Hren _ _ eq_refl Hr). simpl in Hren.
  destruct (procs_cases _ Hp) as [He|(pid & p & He)].
  - unfold procs_ok in Hp. destruct (sup_state (h_sup h)) as [| |q|[q|]| | |] eqn:Est; try done.
    + destruct h as [disk ver c jobs [st spid] procs err]. simpl in *. subst.
      eapply (comes_step (HSup false None)); [done|simpl; unfold sup_move, sup_step; simpl; rewrite bool_decide_true by done; reflexivity|done|].
      by apply comes_start.
    + by apply comes_start.
    + destruct Hp as [r E]. rewrite E in He. by apply map_non_empty_singleton in He.
    + destruct Hp as [r E]. rewrite E in He. by apply map_non_empty_singleton in He.
    + destruct h as [disk ver c jobs [st spid] procs err]. simpl in *. subst.
      eapply (comes_step (HSup false None)); [done|reflexivity|done|]. apply comes_pause; simpl; [by right|done].
    + apply comes_pause; [by right|done].
    + apply comes_pause; [by left|done].
  - assert (Hpid : h.(h_procs) !! pid = Some p) by (rewrite He; apply lookup_singleton_eq).
    destruct (pc_exited p) eqn:Ex; [by eapply comes_exited|].
    destruct (pc_term p) eqn:Et.
    + eapply (comes_step (HExit pid)); [simpl; by rewrite Hpid|simpl; by rewrite Hpid|done|].
      eapply comes_exited; [by eapply procs_update|apply lookup_insert_eq|done].
    + destruct (pc_loaded p) as [[v c]|] eqn:El; [|by eapply comes_load].
      exists [], h. split_and!; [done..|]. exists pid, p. split_and!; [done..|]. rewrite El.
      destruct (Hl _ _ _ _ Hpid El) as [Hle Hc]. destruct (Hren _ _ Hpid) as [|Hn]; [congruence|]. specialize (Hn _ _ El).
      assert (v = h_version h) as -> by lia. by rewrite Hc.
Qed.
End props.

(** ** Witnesses *)

(** an unbound-checkconf that wants a text *)
Definition hx_check (c : option string) : option (string * string) :=
  match c with
  | None => Some ("exit status 1", "no such file")
  | Some s => if (s =? "")%string then Some ("exit status 1", "empty") else None
  end.
Definition hx_io : JobIO :=
  {| jb_mkdir := None; jb_open := None; jb_write := None; jb_check := None; jb_rename := None; jb_find := None; jb_signal := None; jb_ctx := None |}.
Definition hx_file (name : string) : File := ex_file (Some [ex_default "168.63.129.16" 53 5]) [ex_zone "z1" name 5] [].
Definition hx_a : File := hx_file "a.example".
Definition hx_b : File := hx_file "b.example".

Definition hx_job (j n : nat) : list HostMove := repeat (HJob j hx_io) n.
(** unbound is started as process 7 and reads its file *)
Definition hx_up : list HostMove := [(HSup false None); (HSup false (Some 7)); (HSup false None); (HLoad 7)].
(** the first application, unbound comes up, then an edit is applied *)
Definition hx_moves : list HostMove :=
  HApply Initial :: hx_job 0 5 ++ hx_up ++ HSave hx_b :: HApply PollChange :: hx_job 1 7.
(** what is left when it has run *)
Definition hx_end (h : Host) : option Applying * nat * SupState * bool * option Proc :=
  (h.(h_jobs) !! 1%nat, h.(h_version), h.(h_sup).(sup_state), bool_decide (is_Some h.(h_disk).(dk_final)), h.(h_procs) !! 7).
Definition hx_after : option Applying * nat * SupState * bool * option Proc :=
  (Some {| ap_reason := PollChange; ap_phase := ApDone hx_b 2 |}, 2%nat, SupRunning (Some 7), true,
   Some {| pc_loaded := Some (1%nat, Some (Generate hx_a)); pc_term := true; pc_exited := false |}).
Lemma hx_run : exists h, host_run hx_check serial hx_moves (boot None (Some hx_a)) = Some h /\ hx_after = hx_end h.
Proof. apply fmap_Some_1. vm_compute. reflexivity. Qed.

Lemma serial_in_force_witness :
  exists h, host_run hx_check serial hx_moves (boot None (Some hx_a)) = Some h /\ contents h.(h_disk) h.(h_disk).(dk_final) = Some (Generate hx_b).
Proof.
  destruct hx_run as (h & E & Hend). exists h. split; [exact E|].
  injection Hend as Hj Hv _ _ _.
  destruct (serial_in_force hx_check hx_moves None (Some hx_a) h E) as [_ H].
  refine (proj1 (proj1 (H 1%nat PollChange hx_b _))). rewrite <- Hv. exact (eq_sym Hj).
Defined.

(** the edit that was saved is the one in force *)
Lemma unbound_file_generated_witness :
  exists h, host_run hx_check serial hx_moves (boot None (Some hx_a)) = Some h
    /\ h.(h_current) = Some hx_b /\ contents h.(h_disk) h.(h_disk).(dk_final) = Some (Generate hx_b).
Proof.
  destruct (fmap_Some_1 (fun h => last h.(h_jobs)) (host_run hx_check serial hx_moves (boot None (Some hx_a)))
    (Some {| ap_reason := PollChange; ap_phase := ApDone hx_b 2 |})) as (h & E & Hlast); [vm_compute; reflexivity|].
  exists h. split; [exact E|].
  destruct (proj2 (unbound_file_generated hx_check hx_moves None (Some hx_a) h E) (HApply Initial :: hx_job 0 5 ++ hx_up ++ [HSave hx_b])
    PollChange (hx_job 1 7) PollChange hx_b 2%nat eq_refl eq_refl (eq_sym Hlast)) as (Hc & Hf & _).
  split; [exact Hc | exact Hf].
Defined.

(** after it the signalled unbound ends, and the next one reads the file *)
Lemma unbound_comes_back_witness :
  exists h, host_run hx_check serial hx_moves (boot None (Some hx_a)) = Some h /\ comes_back hx_check h.
Proof.
  destruct hx_run as (h & E & Hend). exists h. split; [exact E|]. injection Hend as Hj Hv Hs Hf _.
  refine (unbound_comes_back hx_check serial hx_moves None (Some hx_a) h 1 PollChange hx_b E _ _ _ _).
  - rewrite <- Hv. exact (eq_sym Hj).
  - discriminate.
  - exact (bool_decide_eq_true_1 _ (eq_sym Hf)).
  - rewrite <- Hs. discriminate.
Defined.

(** the next unbound, process 8, has read the file *)
Definition hx_again : list HostMove :=
  hx_moves ++ [(HExit 7); (HSup false None); (HSup false None); (HSup false None); (HSup false (Some 8)); (HSup false None); (HLoad 8)].
Lemma hx_run_again : exists h, host_run hx_check any_move hx_again (boot None (Some hx_a)) = Some h
  /\ ((Some {| ap_reason := PollChange; ap_phase := ApDone hx_b 2 |}, 2%nat, SupRunning (Some 8), true, None) : option Applying * nat * SupState * bool * option Proc) = hx_end h
  /\ Some {| pc_loaded := Some (2%nat, Some (Generate hx_b)); pc_term := false; pc_exited := false |} = h.(h_procs) !! 8.
Proof.
  destruct (fmap_Some_1 (fun h => (hx_end h, h.(h_procs) !! 8)) (host_run hx_check any_move hx_again (boot None (Some hx_a)))
    (Some {| ap_reason := PollChange; ap_phase := ApDone hx_b 2 |}, 2%nat, SupRunning (Some 8), true, None,
     Some {| pc_loaded := Some (2%nat, Some (Generate hx_b)); pc_term := false; pc_exited := false |})) as (h & E & H); [vm_compute; reflexivity|].
  exists h. split; [exact E|]. exact (conj (f_equal fst H) (f_equal snd H)).
Qed.
Lemma applied_is_loaded_witness :
  exists h, host_run hx_check any_move hx_again (boot None (Some hx_a)) = Some h /\ Some (Generate hx_b) = contents h.(h_disk) h.(h_disk).(dk_final).
Proof.
  destruct hx_run_again as (h & E & Hend & Hp). exists h. split; [exact E|]. injection Hend as Hj Hv _ _ _.
  refine (applied_is_loaded hx_check any_move hx_again None (Some hx_a) h 1 PollChange hx_b 2 8 _ E (eq_sym Hj) _ (eq_sym Hv) (eq_sym Hp) eq_refl _ _ eq_refl).
  discriminate.
Defined.

(** ** What the code does not keep apart *)

(** A file that is there when the process starts is loaded by unbound, which the
    supervisor starts at once; the first application replaces the file, succeeds,
    and signals nobody. *)
Example initial_apply_not_loaded :
  match host_run hx_check any_move (hx_up ++ HApply Initial :: hx_job 0 5) (boot (Some (Generate hx_b)) (Some hx_a)) with
  | Some h => (map ap_phase h.(h_jobs), contents h.(h_disk) h.(h_disk).(dk_final), h.(h_error), h.(h_procs) !! 7)
      = ([ApDone hx_a 1], Some (Generate hx_a), "",
         Some {| pc_loaded := Some (0%nat, Some (Generate hx_b)); pc_term := false; pc_exited := false |})
  | None => False
  end.
Proof. vm_compute. reflexivity. Qed.

(** Two applications share the temporary file: one truncates it between the check
    and the rename of the other, and unbound's file is empty. *)
Example applications_share_tmp :
  match host_run hx_check any_move (HApply PollChange :: HApply APISave :: hx_job 0 4 ++ hx_job 1 2 ++ hx_job 0 1) (boot (Some (Generate hx_b)) (Some hx_a)) with
  | Some h => contents h.(h_disk) h.(h_disk).(dk_final) = Some ""
  | None => False
  end.
Proof. vm_compute. reflexivity. Qed.

(** An application that has read the configuration before a save and renames after
    the application of that save puts the older one back in force. *)
Example older_application_wins :
  match host_run hx_check any_move
          (hx_up ++ HApply PollChange :: hx_job 0 1 ++ HSave hx_b :: HApply APISave :: hx_job 1 7 ++ hx_job 0 6) (boot (Some (Generate hx_a)) (Some hx_a)) with
  | Some h => (map finished h.(h_jobs), map ap_phase h.(h_jobs), contents h.(h_disk) h.(h_disk).(dk_final), h.(h_current), h.(h_error))
      = ([true; true], [(ApDone hx_a 2); (ApDone hx_b 1)], Some (Generate hx_a), Some hx_b, "")
  | None => False
  end.
Proof. vm_compute. reflexivity. Qed.
