(* ===== verification/ServerProps.v ===== *)
(** The properties of the HTTP API: a call is carried out or refused, what the
    configuration holds afterwards, what the responses reveal, and the calls
    that leave it in a state the API cannot leave again. *)
From S2P Require Import Prelude GoStrings GoTime Config Validate ValidateSpec Sync Store StoreProps Generate.
From S2P Require Import NetIP AuditLog PeerListener PeerClient Watcher WatcherProps Daemon DaemonProps Resolve Server Samples.

(** ** One Save from a handler *)

Section server.
Context `{Y : Yaml} `{D : DNSLib} (path outDir confName instance : string).
Context (Hsep : separate outDir confName path).
Context (json_settings : Settings -> string) (json_peer : string -> string -> string).

Lemma apply_node_keeps io n n' err :
  apply_node outDir confName instance io n = (n', err) ->
  n'.(n_store) = n.(n_store) /\ n'.(n_fs) !! path = n.(n_fs) !! path.
Proof.
  unfold apply_node, ApplyNow. destruct (applyOnce _ _ _ _ _ _ _ _) as [[[fs w] log] err'] eqn:E.
  intros [= <- _]. simpl. split; [done|]. by eapply applyOnce_other.
Qed.

Lemma hooks_keep io hooks : forall n,
  let n' := foldl (run_hook outDir confName instance io) n hooks in
  n'.(n_store) = n.(n_store) /\ n'.(n_fs) !! path = n.(n_fs) !! path.
Proof.
  induction hooks as [|h hooks IH]; intros n; simpl; [done|].
  destruct (IH (run_hook outDir confName instance io n h)) as (-> & ->). destruct h; simpl.
  - unfold on_save. destruct (current (n_store n)) as [f|]; [|done]. unfold PushAll. by destruct (recent _ _).
  - unfold on_apply. destruct (apply_node _ _ _ _ n) as [n1 err] eqn:E. by apply apply_node_keeps in E.
Qed.

(** the configuration file, the store and the log are as they were *)
Definition unchanged (a a' : Node) : Prop :=
  a'.(n_fs) !! path = a.(n_fs) !! path /\ a'.(n_store) = a.(n_store)
  /\ a'.(n_audit) = a.(n_audit) /\ a'.(n_watcher) = a.(n_watcher).

Lemma unchanged_refl a : unchanged a a.
Proof. done. Qed.

Definition api_drafted (io : ApiIO) (k : nat) (opts : SaveOptions string) (a : Node) (f : File) : Prop :=
  drafted (io.(api_saves) k).1 opts a.(n_store) f.
Definition api_committed (f : File) (a : Node) : Prop := committed path f a.(n_fs) a.(n_store).

Lemma save_app_cases io k opts a a' r :
  save_app path outDir confName instance io k opts a = (a', r) ->
  match r with
  | Ok f => api_drafted io k opts a f /\ api_committed f a'
  | Err (SErrUnlock _) => exists f, api_drafted io k opts a f /\ api_committed f a'
  | Err _ => untouched path a.(n_fs) a.(n_store) a'.(n_fs) a'.(n_store) /\ (respects_peers opts -> unchanged a a')
  end.
Proof.
  unfold save_app, save_node. destruct (Save _ _ _ _ _) as [[[fs s] hooks] r'] eqn:E. intros [= <- <-].
  pose proof (hooks_keep (api_saves io k).2 hooks (a <| n_fs := fs |> <| n_store := s |>)) as [H1 H2].
  unfold api_committed, committed, unchanged. simpl in *. rewrite H1, H2.
  pose proof (Save_cases _ _ _ _ _ _ _ _ _ E) as Hc.
  destruct r' as [f|[]]; destruct Hc as [Hc Hh]; subst; try done; [by destruct Hh| | | | |].
  all: split; [done|]; intros Hr; split_and!; try done; [by destruct Hc|]; by eapply Save_untouched.
Qed.

Lemma respects_on_draft actor m : respects_peers (on_draft actor m).
Proof. intros f. unfold run_mutate, on_draft. simpl. by destruct (m f). Qed.

Lemma save_app_unlock io k opts a a' msg :
  save_app path outDir confName instance io k opts a = (a', Err (SErrUnlock msg)) -> (io.(api_saves) k).1.(si_unlock) = Some msg.
Proof.
  unfold save_app, save_node, Save. intros H. repeat (case_match; simplify_eq/=; try done).
Qed.

(** every unlock of the request's Saves succeeds; the error of an unlock comes
    after the new configuration is in place *)
Definition unlocks (io : ApiIO) : Prop := forall k, (io.(api_saves) k).1.(si_unlock) = None.

Lemma save_app_refused io k opts a a' e :
  respects_peers opts -> unlocks io -> save_app path outDir confName instance io k opts a = (a', Err e) -> unchanged a a'.
Proof.
  intros Hr Hu H. pose proof (save_app_cases _ _ _ _ _ _ H) as Hc.
  destruct e; try (by apply Hc). apply save_app_unlock in H. by rewrite Hu in H.
Qed.

Lemma save_app_checked io k opts a a' r :
  save_app path outDir confName instance io k opts a = (a', r) -> current_checked a.(n_store) -> current_checked a'.(n_store).
Proof.
  unfold save_app, save_node. destruct (Save _ _ _ _ _) as [[[fs s] hooks] r'] eqn:E. intros [= <- <-]. simpl.
  destruct (hooks_keep (api_saves io k).2 hooks (a <| n_fs := fs |> <| n_store := s |>)) as [H _].
  simpl in H. intros Hc. rewrite H. eauto with checked.
Qed.

(** ** The handlers that save and apply *)

Lemma afterSave_code io reason a a' resp :
  afterSave outDir confName instance io reason a = (a', resp) ->
  (resp.(rs_code) = StatusOK \/ resp.(rs_code) = StatusInternalServerError)
  /\ a'.(n_store) = a.(n_store).
Proof.
  unfold afterSave. destruct (apply_node _ _ _ _ _) as [n' [e|]] eqn:E; apply apply_node_keeps in E as [E _]; intros [= <- <-]; auto.
Qed.

Lemma save_and_apply_cases io opts action details reason a a' resp :
  save_and_apply path outDir confName instance io opts action details reason a = (a', resp) ->
  (exists a1 e, save_app path outDir confName instance io 0 opts a = (a1, Err e) /\ a' = a1 /\ resp = http_error StatusBadRequest (SaveError_text e))
  \/ exists a1 f, save_app path outDir confName instance io 0 opts a = (a1, Ok f) /\ (resp.(rs_code) = StatusOK \/ resp.(rs_code) = StatusInternalServerError)
       /\ afterSave outDir confName instance io reason (audit_app opts.(Actor) action details a1) = (a', resp)
       /\ a'.(n_store) = a1.(n_store).
Proof.
  unfold save_and_apply. destruct (save_app path outDir confName instance io 0 opts a) as [a1 [f|e]] eqn:E.
  - intros H. pose proof (afterSave_code _ _ _ _ _ H) as [? ?]. right. by exists a1, f.
  - intros [= <- <-]. left. by exists a1, e.
Qed.

(** the configuration, its file, unbound's file and the status after an applied
    call that made the configuration [f] *)
Definition applied (f : File) (a' : Node) : Prop :=
  a'.(n_store).(current) = Some f /\ Validate f = Ok f
  /\ (exists data, Marshal f = Ok data /\ a'.(n_fs) !! path = Some data)
  /\ a'.(n_fs) !! final outDir confName = Some (Generate f)
  /\ a'.(n_watcher).(lastError) = "".

Lemma save_and_apply_ok io opts action details reason a a' resp :
  save_and_apply path outDir confName instance io opts action details reason a = (a', resp) ->
  resp.(rs_code) = StatusOK -> exists f, api_drafted io 0 opts a f /\ applied f a'.
Proof.
  intros H Hok. apply save_and_apply_cases in H as [(? & ? & _ & _ & ->)|(a1 & f & Hs & _ & Haf & Hst)]; [done|].
  apply save_app_cases in Hs as (Hd & (data & Hm & Hp & Hcur & _)). exists f. split; [done|].
  unfold afterSave, apply_node, ApplyNow in Haf. simpl in Haf. rewrite Hcur in Haf.
  destruct (applyOnce _ _ _ _ _ _ _ _) as [[[fs w] log] err] eqn:Ha. destruct err; [by injection Haf as _ <-|].
  assert (Hpath : fs !! path = a1.(n_fs) !! path) by (by eapply applyOnce_other).
  apply applyOnce_ok in Ha as [Hf Hw]. injection Haf as <- _. unfold applied. simpl in *.
  split_and!; try done; [by eauto with checked|]. exists data. split; [done|]. congruence.
Qed.

(** ** Lists *)

Lemma update_first_split {A} (p : A -> bool) (g : A -> A) l l' :
  update_first p g l = Some l' ->
  exists l1 x l2, l = l1 ++ x :: l2 /\ p x = true /\ Forall (fun y => p y = false) l1 /\ l' = l1 ++ g x :: l2.
Proof.
  revert l'. induction l as [|y l IH]; intros l'; simpl; [done|]. destruct (p y) eqn:Hy.
  - intros [= <-]. exists [], y, l. by split_and!.
  - destruct (update_first p g l) as [l0|]; [|done]. simpl. intros [= <-].
    destruct (IH l0 eq_refl) as (l1 & x & l2 & -> & Hx & Hf & ->). exists (y :: l1), x, l2. split_and!; try done. by constructor.
Qed.

Lemma remove_first_split {A} (p : A -> bool) l1 x l2 :
  p x = true -> Forall (fun y => p y = false) l1 -> remove_first p (l1 ++ x :: l2) = Some (l1 ++ l2).
Proof.
  intros Hx. induction 1 as [|y l1 Hy _ IH]; simpl; [by rewrite Hx|]. by rewrite Hy, IH.
Qed.

(** ** Deleting *)

Lemma delete_item_cases io actor bury remove action details a a' resp :
  delete_item path outDir confName instance io actor bury remove action details a = (a', resp) ->
  (exists a1 e, save_app path outDir confName instance io 0 (on_draft actor bury) a = (a1, Err e) /\ a' = a1 /\ resp = http_error StatusBadRequest (SaveError_text e))
  \/ exists a1 f a2 r, save_app path outDir confName instance io 0 (on_draft actor bury) a = (a1, Ok f)
       /\ save_app path outDir confName instance io 1 (on_draft actor remove) a1 = (a2, r)
       /\ a' = audit_app actor action details a2 /\ resp = json (BOk action).
Proof.
  unfold delete_item. destruct (save_app path outDir confName instance io 0 _ a) as [a1 [f|e]] eqn:E1.
  - destruct (save_app path outDir confName instance io 1 _ a1) as [a2 r] eqn:E2. intros [= <- <-]. right. by exists a1, f, a2, r.
  - intros [= <- <-]. left. by exists a1, e.
Qed.

(** ** Calls *)

Abbreviation run := (run_call path outDir confName instance json_settings json_peer).

(** the calls whose callback writes the shared peer list in place *)
Definition in_place (c : ApiCall) : bool := match c with UpdatePeer _ _ | DeletePeer _ => true | _ => false end.

Ltac unfold_call :=
  unfold run_call, apiPutConfig, apiImport, apiAddForwarder, apiUpdateForwarder, apiDeleteForwarder, apiAddDefault,
    apiUpdateDefault, apiDeleteDefault, apiAddRecord, apiUpdateRecord, apiDeleteRecord, apiPutSettings, apiAddPeer,
    apiUpdatePeer, apiDeletePeer, apiSyncPeer, with_body.

(** a predicate on the process that a Save, the log and the application keep holds after every call *)
Lemma run_keeps (P : Node -> Prop) io hdr c a :
  (forall k opts a a' r, save_app path outDir confName instance io k opts a = (a', r) -> P a -> P a') ->
  (forall actor action details a, P a -> P (audit_app actor action details a)) ->
  (forall reason a a' resp, afterSave outDir confName instance io reason a = (a', resp) -> P a -> P a') ->
  P a -> P (run io hdr c a).1.
Proof.
  intros Hsave Haudit Hafter Ha.
  assert (Hsa : forall opts action details reason, P (save_and_apply path outDir confName instance io opts action details reason a).1).
  { intros. destruct (save_and_apply _ _ _ _ _ _ _ _ _ a) as [a' resp] eqn:E.
    apply save_and_apply_cases in E as [(a1 & e & Hs & -> & _)|(a1 & f & Hs & _ & Haf & _)]; [by eapply Hsave|].
    eapply Hafter; [exact Haf|]. apply Haudit. by eapply Hsave. }
  assert (Hd : forall actor bury remove action details, P (delete_item path outDir confName instance io actor bury remove action details a).1).
  { intros. destruct (delete_item _ _ _ _ _ _ _ _ _ _ a) as [a' resp] eqn:E.
    apply delete_item_cases in E as [(a1 & e & Hs & -> & _)|(a1 & f & a2 & r & H1 & H2 & -> & _)]; [by eapply Hsave|].
    apply Haudit. eapply Hsave; [exact H2|]. by eapply Hsave. }
  assert (Ho : forall opts action details body, P (save_only path outDir confName instance io opts action details body a).1).
  { intros. unfold save_only. destruct (save_app path outDir confName instance io 0 opts a) as [a1 [f|e]] eqn:E; [apply Haudit|]; by eapply Hsave. }
  destruct c; unfold_call; repeat (case_match; simplify_eq/=; try done); auto.
Qed.

(** Every call of the API keeps the configuration in memory one that Validate
    accepts as it is, whatever the request and whatever fails. *)
Theorem calls_keep_valid (io : ApiIO) (hdr : string) (c : ApiCall) (a : Node) f :
  (forall g, cur_of a = Some g -> Validate g = Ok g) ->
  cur_of (run io hdr c a).1 = Some f -> Validate f = Ok f.
Proof.
  intros Ha. revert f. change (current_checked (run io hdr c a).1.(n_store)).
  apply (run_keeps (fun a => current_checked a.(n_store))); [| done | | exact Ha].
  - intros. by eapply save_app_checked.
  - intros reason b b' resp H Hb. apply afterSave_code in H as [_ H]. by rewrite H.
Qed.

(** C16. A call that is refused with 400 (a bad body, an unknown item, a file that
    Validate does not accept, a lock that is taken, an error of the disk) leaves the
    configuration, its file, the audit log and the watcher as they were, provided
    that the unlock at the end of its Save does not fail: a Save whose unlock fails
    reports an error too, after it has replaced everything.  The two calls that
    write the peers in place are not meant (see [failed_delete_leaks]). *)
Theorem refused_call_changes_nothing (io : ApiIO) (hdr : string) (c : ApiCall) (a : Node) :
  unlocks io -> in_place c = false ->
  (run io hdr c a).2.(rs_code) = StatusBadRequest -> unchanged a (run io hdr c a).1.
Proof.
  intros Hu Hc.
  assert (Hsa : forall actor m action details reason,
    (save_and_apply path outDir confName instance io (on_draft actor m) action details reason a).2.(rs_code) = StatusBadRequest ->
    unchanged a (save_and_apply path outDir confName instance io (on_draft actor m) action details reason a).1).
  { intros actor m action details reason. destruct (save_and_apply _ _ _ _ _ _ _ _ _ a) as [a' resp] eqn:E. simpl.
    apply save_and_apply_cases in E as [(a1 & e & Hs & -> & _)|(a1 & f & _ & [-> | ->] & _)]; [|done..].
    intros _. exact (save_app_refused _ _ _ _ _ _ (respects_on_draft actor m) Hu Hs). }
  assert (Hd : forall actor bury remove action details,
    (delete_item path outDir confName instance io actor bury remove action details a).2.(rs_code) = StatusBadRequest ->
    unchanged a (delete_item path outDir confName instance io actor bury remove action details a).1).
  { intros actor bury remove action details. destruct (delete_item _ _ _ _ _ _ _ _ _ _ a) as [a' resp] eqn:E. simpl.
    apply delete_item_cases in E as [(a1 & e & Hs & -> & _)|(a1 & f & a2 & r & _ & _ & _ & ->)]; [|done].
    intros _. exact (save_app_refused _ _ _ _ _ _ (respects_on_draft actor bury) Hu Hs). }
  assert (Ho : forall actor m action details body,
    (save_only path outDir confName instance io (on_draft actor m) action details body a).2.(rs_code) = StatusBadRequest ->
    unchanged a (save_only path outDir confName instance io (on_draft actor m) action details body a).1).
  { intros actor m action details body. unfold save_only. destruct (save_app path outDir confName instance io 0 _ a) as [a1 [f|e]] eqn:E; [done|].
    intros _. exact (save_app_refused _ _ _ _ _ _ (respects_on_draft actor m) Hu E). }
  destruct c; try done; unfold_call; repeat (case_match; simplify_eq/=; try done); auto.
Qed.

(** ** What a call that succeeds leaves *)

(** the calls that apply what they saved *)
Definition applies (c : ApiCall) : bool :=
  match c with
  | PutConfig _ | Import _ | AddForwarder _ | UpdateForwarder _ _ | AddDefault _ | UpdateDefault _ _ _
  | AddRecord _ | UpdateRecord _ _ | PutSettings _ => true
  | _ => false
  end.

Lemma drafted_on_draft (io : SaveIO) actor m (s : Store) f :
  drafted io (on_draft actor m) s f ->
  exists g, m (Clone (default (DefaultConfig io.(si_default_now)) s.(current))) = Ok g /\ finish_draft io actor g = Ok f.
Proof.
  intros (mu & <- & He & Hf). unfold run_mutate, on_draft in *. simpl in *.
  destruct (m _) as [g|e]; [|done]. by exists g.
Qed.

(** What a call asks to be made of the configuration [f], by its body: the edit
    that its name promises, of the first item with the identifier, or of every
    default with the address and port. *)
Inductive asked (io : ApiIO) (actor : string) (f : File) : ApiCall -> File -> Prop :=
  | asked_replace body : asked io actor f (PutConfig (Ok body)) (replace_config body f)
  | asked_import data body : Unmarshal data = Ok body -> asked io actor f (Import (Ok data)) (replace_config body f)
  | asked_new_zone b :
      asked io actor f (AddForwarder (Ok b)) (f <| ForwardZones := f.(ForwardZones) ++ [new_zone (newID io.(api_random)) b] |>)
  | asked_zone id b l1 z l2 :
      f.(ForwardZones) = l1 ++ z :: l2 -> z.(z_ID) = id -> Forall (fun y => y.(z_ID) <> id) l1 ->
      asked io actor f (UpdateForwarder id (Ok b)) (f <| ForwardZones := l1 ++ edit_zone io.(api_now) actor b z :: l2 |>)
  | asked_new_default b :
      Forall (fun u => (u.(u_Address), u.(u_Port)) <> (b.(db_Address), b.(db_Port))) (elems f.(UpstreamDefaults)) ->
      asked io actor f (AddDefault (Ok b)) (f <| UpstreamDefaults := Some (elems f.(UpstreamDefaults) ++ [new_default b]) |>)
  | asked_default addr port b :
      Exists (fun u => (u.(u_Address), u.(u_Port)) = (addr, (Atoi port).1)) (elems f.(UpstreamDefaults)) ->
      asked io actor f (UpdateDefault addr port (Ok b))
        (f <| UpstreamDefaults := Some (map (fun u =>
           if decide ((u.(u_Address), u.(u_Port)) = (addr, (Atoi port).1)) then edit_default io.(api_now) actor b u else u)
           (elems f.(UpstreamDefaults))) |>)
  | asked_new_record b :
      asked io actor f (AddRecord (Ok b)) (f <| StaticRecords := f.(StaticRecords) ++ [new_record (newID io.(api_random)) b] |>)
  | asked_record id b l1 r l2 :
      f.(StaticRecords) = l1 ++ r :: l2 -> r.(r_ID) = id -> Forall (fun y => y.(r_ID) <> id) l1 ->
      asked io actor f (UpdateRecord id (Ok b)) (f <| StaticRecords := l1 ++ edit_record io.(api_now) actor b r :: l2 |>)
  | asked_settings s : asked io actor f (PutSettings (Ok s)) (f <| f_Settings := Settings_WithDefaults s |>)
  | asked_new_peer b name url :
      normalizePeer b.(pb_Name) b.(pb_URL) = Ok (name, url) -> Forall (fun p => p.(p_Name) <> name) f.(f_Peers).(List) ->
      asked io actor f (AddPeer (Ok b))
        (set_list (f.(f_Peers).(List) ++ [{| p_Name := name; p_URL := url; p_Enabled := default true b.(pb_Enabled); p_Status := noStatus |}]) f)
  | asked_peer name b l1 p l2 :
      f.(f_Peers).(List) = l1 ++ p :: l2 -> p.(p_Name) = name -> Forall (fun q => q.(p_Name) <> name) l1 ->
      (b.(pb_URL) <> "" -> exists r, normalizePeer name b.(pb_URL) = Ok r) ->
      asked io actor f (UpdatePeer name (Ok b)) (set_list (l1 ++ edit_peer b p :: l2) f)
  | asked_no_peer name l1 p l2 :
      f.(f_Peers).(List) = l1 ++ p :: l2 -> p.(p_Name) = name -> Forall (fun q => q.(p_Name) <> name) l1 ->
      asked io actor f (DeletePeer name) (set_list (l1 ++ l2) f).

Lemma Forall_neqb {A} (g : A -> string) k l : Forall (fun y => (g y =? k)%string = false) l -> Forall (fun y => g y <> k) l.
Proof. intros H. eapply Forall_impl; [exact H|]. intros y. apply String.eqb_neq. Qed.
Lemma is_default_iff addr port u : is_default addr port u = true <-> (u.(u_Address), u.(u_Port)) = (addr, port).
Proof. unfold is_default. rewrite andb_true_iff, String.eqb_eq, Z.eqb_eq. split; [by intros [-> ->] | by intros [= -> ->]]. Qed.
Lemma edit_defaults_asked io actor addr port b f g :
  edit_defaults io.(api_now) actor addr (Atoi port).1 b f = Ok g -> asked io actor f (UpdateDefault addr port (Ok b)) g.
Proof.
  unfold edit_defaults. destruct (existsb _ _) eqn:He; [|done]. intros [= <-].
  rewrite (map_ext _ (fun u => if decide ((u.(u_Address), u.(u_Port)) = (addr, (Atoi port).1)) then edit_default io.(api_now) actor b u else u)).
  - constructor. apply existsb_exists in He as (u & Hu%list_elem_of_In & Hd%is_default_iff). apply Exists_exists. eauto.
  - intros u. destruct (is_default addr _ u) eqn:Hd; [apply is_default_iff in Hd; by rewrite decide_True|].
    rewrite decide_False; [done|]. intros E%is_default_iff. congruence.
Qed.
Lemma add_default_asked io actor b f g :
  add_default (new_default b) f = Ok g -> asked io actor f (AddDefault (Ok b)) g.
Proof.
  unfold add_default. destruct (existsb _ _) eqn:He; [done|]. intros [= <-]. constructor.
  apply Forall_forall. intros u Hu%list_elem_of_In E. apply not_true_iff_false in He. apply He, existsb_exists.
  exists u. split; [done|]. by apply is_default_iff.
Qed.
Lemma add_peer_asked io actor b name url f g :
  normalizePeer b.(pb_Name) b.(pb_URL) = Ok (name, url) -> add_peer name url (default true b.(pb_Enabled)) f = Ok g ->
  asked io actor f (AddPeer (Ok b)) g.
Proof.
  unfold add_peer. intros Hn. destruct (existsb _ _) eqn:He; [done|]. intros [= <-]. constructor; [done|].
  apply Forall_forall. intros p Hp%list_elem_of_In E. apply not_true_iff_false in He. apply He, existsb_exists.
  exists p. split; [done|]. by apply String.eqb_eq.
Qed.
Lemma update_zone_asked io actor id b e f g :
  with_zones e (update_first (has_zone_id id) (edit_zone io.(api_now) actor b) f.(ForwardZones)) f = Ok g ->
  asked io actor f (UpdateForwarder id (Ok b)) g.
Proof.
  destruct (update_first _ _ _) as [zs|] eqn:Hu; [|done]. intros [= <-].
  apply update_first_split in Hu as (l1 & z & l2 & Hl & Hz%String.eqb_eq & Hf%Forall_neqb & ->). by apply asked_zone.
Qed.
Lemma update_record_asked io actor id b e f g :
  with_records e (update_first (has_record_id id) (edit_record io.(api_now) actor b) f.(StaticRecords)) f = Ok g ->
  asked io actor f (UpdateRecord id (Ok b)) g.
Proof.
  destruct (update_first _ _ _) as [zs|] eqn:Hu; [|done]. intros [= <-].
  apply update_first_split in Hu as (l1 & z & l2 & Hl & Hz%String.eqb_eq & Hf%Forall_neqb & ->). by apply asked_record.
Qed.
Lemma update_peer_asked io actor name b f :
  (mutate_update_peer name b f).(mut_err) = None -> asked io actor f (UpdatePeer name (Ok b)) (mutate_update_peer name b f).(mut_draft).
Proof.
  unfold mutate_update_peer. destruct (update_first _ _ _) as [l|] eqn:Hu; [|done].
  apply update_first_split in Hu as (l1 & p & l2 & Hl & Hp%String.eqb_eq & Hf%Forall_neqb & ->).
  destruct (String.eqb_spec (pb_URL b) "") as [Hb|Hb]; cbn [negb];
    [|destruct (normalizePeer _ _) as [r|e] eqn:Hr; [|done]]; intros _; simpl; econstructor; eauto; done.
Qed.
Lemma delete_peer_asked io actor name f :
  (mutate_delete_peer name f).(mut_err) = None -> asked io actor f (DeletePeer name) (mutate_delete_peer name f).(mut_draft).
Proof.
  unfold mutate_delete_peer. destruct (remove_first _ _) as [l|] eqn:Hr; [|done]. intros _. simpl.
  assert (Hs : exists l1 p l2, f.(f_Peers).(List) = l1 ++ p :: l2 /\ is_peer name p = true /\ Forall (fun q => is_peer name q = false) l1 /\ l = l1 ++ l2).
  { revert l Hr. induction (List (f_Peers f)) as [|q qs IH]; intros l; simpl; [done|]. destruct (is_peer name q) eqn:Hq.
    - intros [= <-]. exists [], q, qs. by split_and!.
    - destruct (remove_first _ qs) as [l0|]; [|done]. intros [= <-]. destruct (IH l0 eq_refl) as (l1 & p & l2 & -> & Hp & Hf & ->).
      exists (q :: l1), p, l2. split_and!; try done. by constructor. }
  destruct Hs as (l1 & p & l2 & Hl & Hp%String.eqb_eq & Hf%Forall_neqb & ->). by econstructor.
Qed.

(** the configuration is in memory and in its file *)
Definition stored (f : File) (a' : Node) : Prop :=
  a'.(n_store).(current) = Some f /\ Validate f = Ok f /\ exists data, Marshal f = Ok data /\ a'.(n_fs) !! path = Some data.
Definition actor_of (hdr : string) (c : ApiCall) : string := actorOf hdr (match c with Import _ => "import" | _ => "api" end).
(** what a Save by a call starts from *)
Definition before (io : ApiIO) (a : Node) : File :=
  Clone (default (DefaultConfig (io.(api_saves) 0%nat).1.(si_default_now)) (cur_of a)).
(** the edit was asked for, and [f] is its result, stamped and normalised *)
Definition carried_out (io : ApiIO) (hdr : string) (c : ApiCall) (a : Node) (f : File) : Prop :=
  exists g, asked io (actor_of hdr c) (before io a) c g /\ finish_draft (io.(api_saves) 0%nat).1 (actor_of hdr c) g = Ok f.

Definition honoured (io : ApiIO) (hdr : string) (c : ApiCall) (a a' : Node) : Prop :=
  exists f, carried_out io hdr c a f /\ stored f a'
    /\ (applies c = true -> a'.(n_fs) !! final outDir confName = Some (Generate f) /\ a'.(n_watcher).(lastError) = "").

Lemma save_and_apply_asked io hdr c m action details reason a :
  (save_and_apply path outDir confName instance io (on_draft (actor_of hdr c) m) action details reason a).2.(rs_code) = StatusOK ->
  (forall g, m (before io a) = Ok g -> asked io (actor_of hdr c) (before io a) c g) ->
  honoured io hdr c a (save_and_apply path outDir confName instance io (on_draft (actor_of hdr c) m) action details reason a).1.
Proof.
  destruct (save_and_apply _ _ _ _ _ _ _ _ _ a) as [a' resp] eqn:E. intros Hok Hm.
  destruct (save_and_apply_ok _ _ _ _ _ _ _ _ E Hok) as (f & Hd & H1 & H2 & H3 & H4 & H5).
  apply drafted_on_draft in Hd as (g & Hg & Hf). exists f. split_and!; try done. exists g. split; [by apply Hm | done].
Qed.
Lemma save_only_asked io hdr c opts action details body a :
  (save_only path outDir confName instance io opts action details body a).2.(rs_code) = StatusOK ->
  applies c = false -> opts.(Actor) = actor_of hdr c ->
  ((run_mutate opts (before io a)).(mut_err) = None -> asked io (actor_of hdr c) (before io a) c (run_mutate opts (before io a)).(mut_draft)) ->
  honoured io hdr c a (save_only path outDir confName instance io opts action details body a).1.
Proof.
  unfold save_only. destruct (save_app path outDir confName instance io 0 opts a) as [a1 [f|e]] eqn:E; [|done].
  intros _ Hc Ha Hm. pose proof (save_app_cases _ _ _ _ _ _ E) as [(mu & <- & He & Hf) (data & Hd & Hp & Hcur & _)].
  exists f. rewrite Ha in Hf. split; [eexists; split; [by apply Hm | exact Hf]|]. split; [|by rewrite Hc].
  unfold stored. simpl. split_and!; [done| |by exists data]. by eapply checked_of_Validate.
Qed.

Definition deletes (c : ApiCall) : bool :=
  match c with DeleteForwarder _ | DeleteDefault _ _ | DeleteRecord _ => true | _ => false end.


Lemma finish_draft_zones (io : SaveIO) actor g f :
  finish_draft io actor g = Ok f ->
  f.(ForwardZones) = map (stamp_zone io.(si_stamp_now) actor) g.(ForwardZones)
  /\ f.(StaticRecords) = map (stamp_record io.(si_stamp_now) actor) g.(StaticRecords) /\ ValidFile f.
Proof.
  unfold finish_draft. intros H. pose proof (checked_of_Validate _ _ H) as [Hv _]%ValidFile_checked.
  apply Validate_iff in H as [_ ->]. done.
Qed.

(** C19. A forwarder that was added with 200 is the last zone of the configuration
    that is applied: it has the fresh identifier, the name, the wildcard and
    least-latency flags, the upstreams, the probe frequency and the sync flag of the
    request as they came, the request's list of peers normalised, the actor and the
    time of the Save, and it is live and well formed; the zones that were there are
    kept in order. *)
Theorem added_forwarder (io : ApiIO) (hdr : string) (b : forwarderBody) (a : Node) (cur : File) :
  cur_of a = Some cur ->
  (run io hdr (AddForwarder (Ok b)) a).2.(rs_code) = StatusOK ->
  exists f z, applied f (run io hdr (AddForwarder (Ok b)) a).1
    /\ f.(ForwardZones) = map (stamp_zone (io.(api_saves) 0%nat).1.(si_stamp_now) (actorOf hdr "api")) cur.(ForwardZones) ++ [z]
    /\ zone_ok z /\ z.(z_ID) = newID io.(api_random) /\ z.(z_Name) = b.(fb_Name) /\ z.(z_Upstreams) = b.(fb_Upstreams)
    /\ z.(z_Wildcard) = b.(fb_Wildcard) /\ z.(z_LeastLatency) = b.(fb_LeastLatency) /\ z.(z_Deleted) = false
    /\ z.(z_LatencyTestFrequency) = b.(fb_LatencyTestFrequency)
    /\ z.(z_DoNotSync) = b.(fb_DoNotSync) /\ z.(z_SyncPeers) = normalizePeerList b.(fb_SyncPeers)
    /\ z.(z_UpdatedBy) = actorOf hdr "api" /\ z.(z_UpdatedAt) = (io.(api_saves) 0%nat).1.(si_stamp_now).
Proof.
  intros Hcur Hok. unfold run_call, apiAddForwarder, with_body in *.
  destruct (save_and_apply _ _ _ _ _ _ _ _ _ a) as [a' resp] eqn:E.
  destruct (save_and_apply_ok _ _ _ _ _ _ _ _ E Hok) as (f & Hd & Hf).
  apply drafted_on_draft in Hd as (g & Hg & Hfin). unfold cur_of in Hcur. rewrite Hcur in Hg. injection Hg as <-.
  apply finish_draft_zones in Hfin as (Hz & _ & [_ _ _ Hzs _ _ _]). simpl in Hz. rewrite map_app in Hz. cbn [map] in Hz.
  eexists f, _. split; [exact Hf|]. split; [exact Hz|]. rewrite Hz, Forall_app, Forall_singleton in Hzs.
  destruct Hzs as [_ Hzs]. split; [exact Hzs|]. by split_and!.
Qed.

(** A forwarder that was changed with 200 is found where it was, with the
    fields of the request, and a timestamp that beats every older copy; an
    identifier that names no zone is refused. *)
Theorem updated_forwarder (io : ApiIO) (hdr id : string) (b : forwarderBody) (a : Node) (cur : File) :
  cur_of a = Some cur ->
  (run io hdr (UpdateForwarder id (Ok b)) a).2.(rs_code) = StatusOK ->
  exists f zs1 z zs2, applied f (run io hdr (UpdateForwarder id (Ok b)) a).1
    /\ cur.(ForwardZones) = zs1 ++ z :: zs2 /\ z.(z_ID) = id
    /\ Forall (fun z => z.(z_ID) <> id) zs1
    /\ f.(ForwardZones) = map (stamp_zone (io.(api_saves) 0%nat).1.(si_stamp_now) (actorOf hdr "api"))
                            (zs1 ++ edit_zone io.(api_now) (actorOf hdr "api") b z :: zs2).
Proof.
  intros Hcur Hok. unfold run_call, apiUpdateForwarder, with_body in *.
  destruct (save_and_apply _ _ _ _ _ _ _ _ _ a) as [a' resp] eqn:E.
  destruct (save_and_apply_ok _ _ _ _ _ _ _ _ E Hok) as (f & Hd & Hf).
  apply drafted_on_draft in Hd as (g & Hg & Hfin). unfold cur_of in Hcur. rewrite Hcur in Hg.
  apply finish_draft_zones in Hfin as (Hz & _ & _). simpl in Hg.
  destruct (update_first _ _ _) as [zs|] eqn:Hu; [|done]. simpl in Hg. injection Hg as <-.
  apply update_first_split in Hu as (l1 & x & l2 & H1 & H2 & H3 & ->). exists f, l1, x, l2.
  unfold has_zone_id in *. split_and!; try done; [by apply String.eqb_eq|].
  eapply Forall_impl; [exact H3|]. intros z. apply String.eqb_neq.
Qed.

(** ** Deleting without peer sync *)

Lemma Save_hooks (io : SaveIO) (opts : SaveOptions string) fs s fs' s' hooks r :
  Save path io opts fs s = (fs', s', hooks, r) ->
  s'.(onSave) = s.(onSave) /\ s'.(onApply) = s.(onApply)
  /\ (s.(onSave) = false -> s.(onApply) = false -> hooks = []).
Proof.
  unfold Save. intros H. repeat (case_match; simplify_eq/=; try done).
  all: split_and!; try done; unfold fireOnSave, fireOnApply; simpl; by intros -> ->.
Qed.

(** no hook is set, as in a process whose peer sync did not start, and the file
    is the one that was loaded or saved last *)
Definition idle (n : Node) : Prop :=
  n.(n_store).(onSave) = false /\ n.(n_store).(onApply) = false
  /\ exists data, n.(n_fs) !! path = Some data /\ content_hash data = n.(n_store).(hash).

Lemma save_app_idle io k opts a a' r p :
  save_app path outDir confName instance io k opts a = (a', r) -> idle a ->
  p <> path -> p <> path +:+ ".tmp" -> p <> path +:+ ".lock" ->
  idle a' /\ a'.(n_fs) !! p = a.(n_fs) !! p
  /\ a'.(n_events) = a.(n_events) /\ a'.(n_watcher) = a.(n_watcher).
Proof.
  unfold save_app, save_node. destruct (Save _ _ _ _ _) as [[[fs s] hooks] r'] eqn:E. intros [= <- <-].
  intros (H1 & H2 & data & Hd & Hh) Hp1 Hp2 Hp3. pose proof (Save_hooks _ _ _ _ _ _ _ _ E) as (H3 & H4 & H5).
  rewrite H5 by done. unfold idle. simpl. rewrite H3, H4. pose proof (Save_either _ _ _ _ _ _ _ _ _ E) as Hc.
  assert (Hfile : exists d, fs !! path = Some d /\ content_hash d = hash s).
  { destruct Hc as [(f & d & _ & ? & _ & ?)|(? & ? & _)]; [by exists d|]. exists data. split; congruence. }
  split_and!; try done. by eapply Save_footprint.
Qed.

(** While peer sync is off (no hooks), deleting a forwarder, a default or a
    record never reaches unbound: its file stays as it was, nothing is asked to
    apply, and the next poll finds the file to be the configuration in memory
    and does nothing either, whatever the call answered. *)
Theorem delete_not_applied_without_sync (io : ApiIO) (hdr : string) (c : ApiCall) (a : Node) (env : Env) (io' : ApplyIO) :
  final outDir confName <> path +:+ ".tmp" -> final outDir confName <> path +:+ ".lock" ->
  idle a -> deletes c = true ->
  let a' := (run io hdr c a).1 in
  a'.(n_fs) !! final outDir confName = a.(n_fs) !! final outDir confName
  /\ a'.(n_events) = a.(n_events) /\ a'.(n_watcher) = a.(n_watcher)
  /\ tick outDir confName instance path env None io' a'.(n_fs) a'.(n_store) a'.(n_watcher)
     = (a'.(n_fs), a'.(n_store),
        a'.(n_watcher) <| cycles := (a'.(n_watcher).(cycles) + 1) mod 2 ^ 64 |>, []).
Proof.
  intros Ht Hl Hidle Hc a'. pose proof (proj1 Hsep) as Hp.
  set (P := fun b : Node => idle b
    /\ b.(n_fs) !! final outDir confName = a.(n_fs) !! final outDir confName
    /\ b.(n_events) = a.(n_events) /\ b.(n_watcher) = a.(n_watcher)).
  assert (Hsave : forall k opts b b' r, save_app path outDir confName instance io k opts b = (b', r) -> P b -> P b').
  { intros k opts b b' r Hs (Hb & H1 & H2 & H3).
    destruct (save_app_idle _ _ _ _ _ _ (final outDir confName) Hs Hb (not_eq_sym Hp) Ht Hl) as (? & E1 & E2 & E3).
    unfold P. rewrite E1, E2, E3. auto. }
  assert (HP : P a').
  { assert (Hd : forall actor bury remove action details, P (delete_item path outDir confName instance io actor bury remove action details a).1).
    { intros. destruct (delete_item _ _ _ _ _ _ _ _ _ _ a) as [b resp] eqn:E.
      apply delete_item_cases in E as [(b1 & e & Hs & -> & _)|(b1 & f & b2 & r & H1 & H2 & -> & _)].
      - by eapply Hsave.
      - eapply Hsave in H1; [|by unfold P]. by eapply Hsave in H2. }
    subst a'. destruct c; try done; apply Hd. }
  destruct HP as ((_ & _ & data & Hd & Hh) & ? & ? & ?). split_and!; [done..|].
  unfold tick, ReloadIfChanged, ReadFile. rewrite Hd, Hh, String.eqb_refl. done.
Qed.

(** ** Deleting with peer sync *)

(** the hook's applications go through *)
Definition hooks_apply (io : ApiIO) : Prop :=
  forall k f fs w, (applyOnce outDir confName instance (io.(api_saves) k).2.(hk_apply) APISave (Some f) fs w).2 = None.

Lemma save_app_hooked io k opts a a' f :
  hooked a -> hooks_apply io -> save_app path outDir confName instance io k opts a = (a', Ok f) ->
  hooked a' /\ api_drafted io k opts a f /\ cur_of a' = Some f /\ a'.(n_fs) !! final outDir confName = Some (Generate f).
Proof.
  intros Hh Hio H. eapply save_node_ok in H as (Hd & (_ & _ & _ & Hc & _) & Hh' & _ & _ & _ & Hap); [|exact Hsep|exact Hh].
  destruct Hap as (fs0 & log & err & Ha & _). specialize (Hio k f fs0 a.(n_watcher)). rewrite Ha in Hio. simpl in Hio. subst err.
  apply applyOnce_ok in Ha as [Hf _]. by split_and!.
Qed.

Lemma save_app_failed io k opts a a' e :
  unlocks io -> save_app path outDir confName instance io k opts a = (a', Err e) ->
  a'.(n_fs) !! final outDir confName = a.(n_fs) !! final outDir confName \/ final outDir confName = path +:+ ".tmp" \/ final outDir confName = path +:+ ".lock".
Proof.
  intros Hu H. destruct (decide (final outDir confName = path +:+ ".tmp")) as [|Ht]; [auto|].
  destruct (decide (final outDir confName = path +:+ ".lock")) as [|Hl]; [auto|]. left.
  unfold save_app, save_node in H. destruct (Save _ _ _ _ _) as [[[fs s] hooks] r] eqn:E. injection H as <- ->.
  pose proof (Save_cases _ _ _ _ _ _ _ _ _ E) as Hc. assert (hooks = []) as -> by (by destruct e; destruct Hc).
  simpl. eapply Save_footprint; [exact E | by apply not_eq_sym, Hsep | done | done].
Qed.


(** ** The last default *)

(** the calls that can still put a default there, or do not save *)
Definition may_add_default (c : ApiCall) : bool :=
  match c with PutConfig _ | Import _ | AddDefault _ | SyncPeer _ => true | _ => false end.

Lemma save_app_wedged io k opts a f :
  cur_of a = Some f -> f.(UpstreamDefaults) = Some [] -> keeps_nil opts -> is_Ok (save_app path outDir confName instance io k opts a).2 = false.
Proof.
  intros Hc Hu Hk. unfold save_app, save_node.
  destruct (Save _ _ _ _ _) as [[[fs s] hooks] r'] eqn:E. simpl. by eapply Save_wedged.
Qed.

Lemma keeps_nil_on_draft actor m :
  (forall f g, f.(UpstreamDefaults) = None -> m f = Ok g -> g.(UpstreamDefaults) = None) -> keeps_nil (on_draft actor m).
Proof.
  intros Hm f Hf. unfold run_mutate, on_draft. simpl. destruct (m f) as [g|e] eqn:E; simpl; [|done]. by eapply Hm.
Qed.

(** Once the last upstream default was deleted (which Validate allows while a
    zone is left), every call that edits zones, records, settings or peers is
    refused, until a default is added or the configuration is replaced. *)
Theorem last_default_wedges (io : ApiIO) (hdr : string) (c : ApiCall) (a : Node) (f : File) :
  cur_of a = Some f -> f.(UpstreamDefaults) = Some [] -> may_add_default c = false ->
  (run io hdr c a).2.(rs_code) = StatusBadRequest.
Proof.
  intros Hcur Hu Hc. pose proof (fun k opts => save_app_wedged io k opts a f Hcur Hu) as Hs.
  assert (Hsa : forall opts action details reason, keeps_nil opts ->
    (save_and_apply path outDir confName instance io opts action details reason a).2.(rs_code) = StatusBadRequest).
  { intros opts ? ? ? Hk. unfold save_and_apply. specialize (Hs 0%nat opts Hk). by destruct (save_app _ _ _ _ _ _ _ _) as [b []]. }
  assert (Hd : forall actor bury remove action details, keeps_nil (on_draft actor bury) ->
    (delete_item path outDir confName instance io actor bury remove action details a).2.(rs_code) = StatusBadRequest).
  { intros actor bury ? ? ? Hk. unfold delete_item. specialize (Hs 0%nat _ Hk). by destruct (save_app _ _ _ _ _ _ _ _) as [b []]. }
  assert (Ho : forall opts action details body, keeps_nil opts ->
    (save_only path outDir confName instance io opts action details body a).2.(rs_code) = StatusBadRequest).
  { intros opts ? ? ? Hk. unfold save_only. specialize (Hs 0%nat opts Hk). by destruct (save_app _ _ _ _ _ _ _ _) as [b []]. }
  destruct c; try done; unfold_call; repeat (case_match; simplify_eq/=; try done);
    (first [apply Hsa | apply Hd | apply Ho]); try apply keeps_nil_on_draft; intros g.
  all: unfold with_zones, with_records, edit_defaults, with_defaults, add_peer; simpl; intros; simplify_eq/=; try done.
  all: try (match goal with H : UpstreamDefaults _ = None |- _ => rewrite H in * end; done).
  all: unfold run_mutate, mutate_update_peer, mutate_delete_peer; simpl; repeat (case_match; simplify_eq/=; try done).
Qed.
End server.
