(* ===== verification/ServerViews.v ===== *)
(** What the API shows and stores: the key in its responses, the lists of peer
    names it writes, and calls worked out on a small process, which witness the
    theorems of ServerProps. *)
From S2P Require Import Prelude GoStrings GoTime Config Validate ValidateSpec Sync Store StoreProps Generate NetIP.
From S2P Require Import AuditLog PeerListener PeerClient Watcher WatcherProps Daemon Resolve Server Samples SyncProps ServerProps.

(** ** Who sees the preshared key *)

(** Of the responses that show a configuration, the peer list never shows the
    preshared key and the export only when asked to; GET /api/config always
    does.  Everything else is shown as it is in memory. *)
Theorem key_in_responses (a : Node) (cur : File) (secrets : string) :
  cur_of a = Some cur ->
  apiListPeers a = json (BPeers (cur.(f_Peers) <| SharedKey := "" |>))
  /\ (exists comment f, apiExport secrets a = json (BExport comment f)
        /\ f.(f_Peers) = (cur.(f_Peers) <| SharedKey := if (secrets =? "1")%string then cur.(f_Peers).(SharedKey) else "" |>)
        /\ f.(f_Settings) = cur.(f_Settings) /\ elems f.(UpstreamDefaults) = elems cur.(UpstreamDefaults)
        /\ f.(ForwardZones) = cur.(ForwardZones) /\ f.(StaticRecords) = cur.(StaticRecords))
  /\ exists f, apiGetConfig a = json (BConfig f) /\ f.(f_Peers) = cur.(f_Peers).
Proof.
  intros Hc. unfold apiListPeers, apiExport, apiGetConfig, reading. rewrite Hc.
  assert (Hu : elems (Snapshot cur).(UpstreamDefaults) = elems cur.(UpstreamDefaults)).
  { unfold Snapshot. simpl. by destruct (UpstreamDefaults cur) as [[|]|]. }
  split_and!; [done| |by eexists].
  destruct (secrets =? "1")%string; eexists _, _; (split; [done|]); split_and!; try exact Hu; simpl; try done; by destruct (f_Peers cur).
Qed.

(** [GET /healthz] answers 200 exactly when a configuration is loaded and its
    last application left no error. *)
Lemma healthz_exact (a : Node) :
  (apiHealthz a).(rs_code) = StatusOK <-> (exists f, cur_of a = Some f) /\ a.(n_watcher).(lastError) = "".
Proof.
  unfold apiHealthz, Status. destruct (cur_of a) as [f|]; simpl; [|split; [done | by intros [[] _]]].
  destruct (String.eqb_spec (lastError (n_watcher a)) ""); simpl; naive_solver.
Qed.

(** ** The names in SyncPeers *)

Lemma normalize_loop_In peers : forall seen p,
  In p (normalize_loop seen peers) -> p <> "" /\ TrimSpace p = p /\ ToLower p ∉ seen /\ exists q, In q peers /\ p = TrimSpace q.
Proof.
  induction peers as [|q peers IH]; intros seen p; simpl; [done|].
  destruct (String.eqb_spec (TrimSpace q) "") as [|Hq]; [intros H; apply IH in H; naive_solver|].
  case_bool_decide as Hs; [intros H; apply IH in H; naive_solver|]. simpl. intros [<-|H].
  - split_and!; try done; [apply TrimSpace_idem | eauto].
  - apply IH in H as (? & ? & ? & q' & ? & ?). split_and!; try done; [set_solver|eauto].
Qed.

Lemma normalize_loop_distinct peers : forall seen, NoDup (map ToLower (normalize_loop seen peers)).
Proof.
  induction peers as [|q peers IH]; intros seen; simpl; [constructor|].
  destruct (_ =? _)%string; [done|]. case_bool_decide; [done|]. simpl. constructor; [|done].
  intros (p & Hp & Hin)%list_elem_of_In%in_map_iff. apply normalize_loop_In in Hin as (_ & _ & Hn & _). set_solver.
Qed.

Lemma normalize_loop_covers peers : forall seen q,
  In q peers -> TrimSpace q <> "" ->
  ToLower (TrimSpace q) ∈ seen \/ exists p, In p (normalize_loop seen peers) /\ ToLower p = ToLower (TrimSpace q).
Proof.
  induction peers as [|r peers IH]; intros seen q; simpl; [done|]. intros Hin Hq.
  destruct (String.eqb_spec (TrimSpace r) "") as [Hr|Hr]; [destruct Hin as [->|]; [done|by apply IH]|].
  case_bool_decide as Hs; [destruct Hin as [->|]; [by left|by apply IH]|].
  destruct Hin as [->|Hin]; [right; exists (TrimSpace q); simpl; auto|].
  destruct (IH ({[ToLower (TrimSpace r)]} ∪ seen) q Hin Hq) as [[Hx%elem_of_singleton|]%elem_of_union|(p & ? & ?)].
  - right. exists (TrimSpace r). simpl. auto.
  - by left.
  - right. exists p. simpl. auto.
Qed.

Lemma normalize_loop_fixed l : forall seen,
  Forall (fun p => p <> "" /\ TrimSpace p = p /\ ToLower p ∉ seen) l -> NoDup (map ToLower l) -> normalize_loop seen l = l.
Proof.
  induction l as [|p l IH]; intros seen; simpl; [done|].
  intros [(Hp & Ht & Hs) Hl]%Forall_cons [Hn Hd]%NoDup_cons. rewrite Ht. apply String.eqb_neq in Hp as ->.
  rewrite bool_decide_false by done. f_equal. apply IH; [|done].
  apply Forall_forall. intros q Hq. rewrite Forall_forall in Hl. destruct (Hl q Hq) as (? & ? & ?).
  split_and!; try done. apply not_elem_of_union. split; [|done]. intros E%elem_of_singleton. apply Hn.
  rewrite <- E. by apply list_elem_of_In, in_map, list_elem_of_In.
Qed.

(** C40. The list of peer names the API stores has no blank and no name twice (up
    to case), each name trimmed; normalising it again changes nothing.  Unless it is
    empty, it names exactly the peers the request named, so the item goes to the
    same peers.  (A list of blanks, which names nobody, becomes the empty list,
    which means every peer.) *)
Theorem normalizePeerList_correct (peers : list string) :
  let l := normalizePeerList peers in
  Forall (fun p => p <> "" /\ TrimSpace p = p /\ exists q, In q peers /\ p = TrimSpace q) l
  /\ NoDup (map ToLower l)
  /\ normalizePeerList l = l
  /\ forall d name, l <> [] -> TrimSpace name <> "" -> SyncsToPeer d l name = SyncsToPeer d peers name.
Proof.
  intros l. assert (Hl : forall p, In p l -> p <> "" /\ TrimSpace p = p /\ ToLower p ∉ (∅ : gset string)
    /\ exists q, In q peers /\ p = TrimSpace q) by (intros; by apply normalize_loop_In).
  pose proof (normalize_loop_distinct peers ∅ : NoDup (map ToLower l)) as Hd.
  split_and!; [|done| |].
  - apply Forall_forall. intros p Hp%list_elem_of_In. naive_solver.
  - apply normalize_loop_fixed; [|done]. apply Forall_forall. intros p Hp%list_elem_of_In. naive_solver.
  - intros d name Hne Hname. apply eq_true_iff_eq. rewrite !SyncsToPeer_iff. unfold names_peer.
    assert (Hpe : peers <> []) by (intros ->; done).
    split; intros [-> [?|(p & Hp & E)]]; try done; (split; [done|]); right.
    + destruct (Hl p Hp) as (_ & Ht & _ & q & Hq & ->). rewrite TrimSpace_idem in E. eauto.
    + destruct (normalize_loop_covers peers ∅ p Hp) as [?|(q & Hq & Eq)]; [|set_solver|].
      { intros Hb. rewrite Hb in E. apply Hname. destruct (TrimSpace name); [done|]. discriminate. }
      exists q. split; [done|]. destruct (Hl q Hq) as (_ & -> & _). congruence.
Qed.

(** A list of blanks becomes the empty list, which means every peer. *)
Example blank_list_means_all :
  SyncsToPeer false [" "] "spoke-1" = false /\ SyncsToPeer false (normalizePeerList [" "]) "spoke-1" = true.
Proof. split; reflexivity. Qed.

(** ** A small process *)

Definition ex_start : File :=
  (ex_file (Some [ex_default "168.63.129.16" 53 5]) [ex_zone "z0" "corp.example.com" 5] [])
    <| f_Peers := ex_peers [ex_peer "site-a"; ex_peer "site-b"] |>.
Definition ex_body : forwarderBody :=
  {| fb_Name := "lab.example.com"; fb_Wildcard := false; fb_Upstreams := ["10.0.0.9"]; fb_LeastLatency := false;
     fb_LatencyTestFrequency := 0; fb_DoNotSync := false; fb_SyncPeers := [] |}.
Definition ex_random : list Z := [1; 2; 3; 4; 5; 6; 7; 8].
(** what the Save of a callback makes of a configuration at time 7 *)
Definition ex_saved (m : File -> result string File) (f : File) : File :=
  match m (Clone f) with
  | Ok g => match finish_draft (fine_save 7) "api" g with Ok f => f | Err _ => f end
  | Err _ => f
  end.
Definition ex_added : File := ex_saved (fun f => Ok (f <| ForwardZones := f.(ForwardZones) ++ [new_zone (newID ex_random) ex_body] |>)) ex_start.
Definition ex_updated : File :=
  ex_saved (fun f => with_zones "" (update_first (has_zone_id "z0") (edit_zone 7 "api" ex_body) f.(ForwardZones)) f) ex_start.
Definition ex_buried : File :=
  ex_saved (fun f => with_zones "" (update_first (has_zone_id "z0") (bury_zone 7 "api") f.(ForwardZones)) f) ex_start.
Definition ex_removed : File := ex_saved (fun f => with_zones "" (remove_first (has_zone_id "z0") f.(ForwardZones)) f) ex_buried.
#[local] Instance ex_api_yaml : Yaml := table_yaml [ex_start; ex_added; ex_updated; ex_buried; ex_removed].

(** with or without peer sync *)
Definition ex_process (hooks : bool) (f : File) : Node :=
  {| n_fs := {["/c" := ""; "/u/unbound.conf" := "# as it was"]};
     n_store := {| current := Some f; hash := content_hash ""; loadErr := None; onSave := hooks; onApply := hooks |};
     n_watcher := NewWatcher; n_client := NewClient; n_status := ∅; n_audit := []; n_events := [] |}.
Definition ex_api : ApiIO :=
  {| api_saves := fun _ => (fine_save 7, {| hk_merge := 7; hk_now := 7; hk_apply := ex_apply |}); api_apply := ex_apply; api_now := 7; api_random := ex_random |}.
#[local] Notation ex_run c f :=
  (run_call "/c" "/u" "unbound.conf" "a" (fun _ => "") (fun _ _ => "") ex_api "" c (ex_process false f)) (only parsing).

Lemma ex_separate : separate "/u" "unbound.conf" "/c".
Proof. split; discriminate. Qed.

Lemma calls_keep_valid_witness : Validate ex_added = Ok ex_added.
Proof.
  refine (calls_keep_valid "/c" "/u" "unbound.conf" "a" ex_separate (fun _ => "") (fun _ _ => "") ex_api "" (AddForwarder (Ok ex_body))
            (ex_process false ex_start) ex_added _ _).
  - intros g [= <-]. vm_compute. reflexivity.
  - vm_compute. reflexivity.
Defined.

Lemma refused_call_changes_nothing_witness :
  (ex_run (DeleteForwarder "z9") ex_start).1.(n_store) = (ex_process false ex_start).(n_store).
Proof.
  refine (proj1 (proj2 (refused_call_changes_nothing "/c" "/u" "unbound.conf" "a" ex_separate (fun _ => "") (fun _ _ => "") ex_api ""
    (DeleteForwarder "z9") (ex_process false ex_start) _ _ _))); [intros k; reflexivity | reflexivity | vm_compute; reflexivity].
Defined.


Lemma added_forwarder_witness :
  exists f z, applied "/c" "/u" "unbound.conf" f (ex_run (AddForwarder (Ok ex_body)) ex_start).1
    /\ f.(ForwardZones) = [ex_zone "z0" "corp.example.com" 5; z] /\ z.(z_ID) = "0102030405060708".
Proof.
  assert (Hok : (ex_run (AddForwarder (Ok ex_body)) ex_start).2.(rs_code) = StatusOK) by (vm_compute; reflexivity).
  destruct (added_forwarder "/c" "/u" "unbound.conf" "a" ex_separate (fun _ => "") (fun _ _ => "") ex_api "" ex_body
    (ex_process false ex_start) ex_start eq_refl Hok) as (f & z & Hf & Hz & _ & Hid & _).
  exists f, z. split; [exact Hf|]. rewrite Hz, Hid. split; vm_compute; reflexivity.
Defined.

Lemma updated_forwarder_witness :
  exists f z, applied "/c" "/u" "unbound.conf" f (ex_run (UpdateForwarder "z0" (Ok ex_body)) ex_start).1 /\ In z f.(ForwardZones)
    /\ z.(z_ID) = "z0" /\ z.(z_Name) = "lab.example.com".
Proof.
  assert (Hok : (ex_run (UpdateForwarder "z0" (Ok ex_body)) ex_start).2.(rs_code) = StatusOK) by (vm_compute; reflexivity).
  destruct (updated_forwarder "/c" "/u" "unbound.conf" "a" ex_separate (fun _ => "") (fun _ _ => "") ex_api "" "z0" ex_body
    (ex_process false ex_start) ex_start eq_refl Hok) as (f & zs1 & z & zs2 & Hf & _ & Hid & _ & Hz).
  exists f, (stamp_zone 7 "api" (edit_zone 7 "api" ex_body z)). split; [exact Hf|].
  rewrite Hz, map_app. split_and!; [|exact Hid | reflexivity]. apply in_or_app. right. left. reflexivity.
Defined.

(** the zone is gone from memory and from the file, and unbound still forwards it *)
Lemma delete_not_applied_without_sync_witness :
  cur_of (ex_run (DeleteForwarder "z0") ex_start).1 = Some ex_removed /\ ex_removed.(ForwardZones) = []
  /\ (ex_run (DeleteForwarder "z0") ex_start).1.(n_fs) !! "/u/unbound.conf" = Some "# as it was".
Proof.
  split_and!; [vm_compute; reflexivity | vm_compute; reflexivity |].
  refine (proj1 (delete_not_applied_without_sync "/c" "/u" "unbound.conf" "a" ex_separate (fun _ => "") (fun _ _ => "") ex_api ""
    (DeleteForwarder "z0") (ex_process false ex_start) no_env ex_apply _ _ _ eq_refl)); [discriminate | discriminate |].
  split; [reflexivity|]. split; [reflexivity|]. exists "". split; reflexivity.
Defined.


(** Each of the two Saves of a delete runs both hooks. *)
Example delete_pushes_twice :
  map (fun e => match e with EvPush _ => "push" | EvApply => "apply" end)
    (run_call "/c" "/u" "unbound.conf" "a" (fun _ => "") (fun _ _ => "") ex_api "" (DeleteForwarder "z0") (ex_process true ex_start)).1.(n_events)
  = ["push"; "apply"; "push"; "apply"].
Proof. vm_compute. reflexivity. Qed.

Lemma last_default_wedges_witness :
  (ex_run (AddForwarder (Ok ex_body)) (ex_start <| UpstreamDefaults := Some [] |>)).2.(rs_code) = StatusBadRequest.
Proof.
  exact (last_default_wedges "/c" "/u" "unbound.conf" "a" (fun _ => "") (fun _ _ => "") ex_api ""
    (AddForwarder (Ok ex_body)) (ex_process false (ex_start <| UpstreamDefaults := Some [] |>)) _ eq_refl eq_refl eq_refl).
Defined.

Lemma key_in_responses_witness :
  exists f, apiGetConfig (ex_process false ex_start) = json (BConfig f) /\ f.(f_Peers).(SharedKey) = "secret".
Proof.
  destruct (key_in_responses (ex_process false ex_start) ex_start "" eq_refl) as (_ & _ & f & Hf & Hp).
  exists f. split; [exact Hf|]. rewrite Hp. reflexivity.
Defined.

(** ** Peers are written in place *)

(** A delete that fails, here because the disk is full, still changes the
    configuration in memory: the deleted peer is gone from it and the one after
    it is there twice. *)
Definition ex_full_disk : ApiIO :=
  {| api_saves := fun _ => ({| si_mkdir := None; si_open := None; si_flock := FlockOk; si_write := WritePartial 0 "no space left on device";
                               si_rename := None; si_unlock := None; si_default_now := 7; si_now := 7; si_stamp_now := 7 |}, {| hk_merge := 7; hk_now := 7; hk_apply := ex_apply |});
     api_apply := ex_apply; api_now := 7; api_random := ex_random |}.
Example failed_delete_leaks :
  let r := apiDeletePeer "/c" "/u" "unbound.conf" "a" ex_full_disk "" "site-a" (ex_process false (ex_start <| Updated := 1 |>)) in
  r.2.(rs_code) = StatusBadRequest
  /\ ((fun f => map p_Name f.(f_Peers).(List)) <$> cur_of r.1) = Some ["site-b"; "site-b"].
Proof. split; vm_compute; reflexivity. Qed.
