(* ===== verification/SystemProps.v ===== *)
(** The properties of the whole process: invariants of every state it reaches,
    whatever its goroutines do in whatever order, and the ways an edit and a
    push take from one end to the other. *)
From S2P Require Import Prelude GoStrings GoTime Config Validate ValidateSpec Sync Store StoreProps Generate Resolve Ping Proxy.
From S2P Require Import LWW Convergence SyncProps AuditLog PeerListener ListenerProps PeerClient ClientProps Watcher WatcherProps Daemon DaemonProps Server ServerProps ServerViews System Samples.

Section system.
Context `{Y : Yaml} `{D : DNSLib} (path outDir confName instance : string) (env : Env).

(** unbound's file is none of those the store writes *)
Definition apart : Prop :=
  separate outDir confName path
  /\ final outDir confName <> path +:+ ".tmp" /\ final outDir confName <> path +:+ ".lock".
Context (Hapart : apart) (fs0 : FS).

Local Notation final := (final outDir confName).

(** the configuration in memory is validated *)
Definition sound (n : Node) : Prop := current_checked n.(n_store).

(** ** What keeps the invariant *)

Lemma apply_node_store io n : (apply_node outDir confName instance io n).1.(n_store) = n.(n_store).
Proof. unfold apply_node. by destruct (ApplyNow _ _ _ _ _ _ _) as [[[fs w] log] err]. Qed.

Lemma run_hook_sound io h n : sound n -> sound (run_hook outDir confName instance io n h).
Proof.
  unfold sound. destruct h; simpl; intros Hn; [|by rewrite apply_node_store].
  unfold on_save. destruct (current (n_store n)); [|done]. unfold PushAll. by destruct (recent _ _).
Qed.

Lemma hooks_sound io hooks : forall n, sound n -> sound (foldl (run_hook outDir confName instance io) n hooks).
Proof. induction hooks as [|h hooks IH]; intros n Hn; [exact Hn|]. by apply IH, run_hook_sound. Qed.

Lemma save_node_sound io hk opts n n' r :
  save_node path outDir confName instance io hk opts n = (n', r) -> sound n -> sound n'.
Proof.
  unfold save_node. destruct (Save _ _ _ _ _) as [[[fs s] hooks] r'] eqn:E. intros [= <- <-] Hc.
  apply hooks_sound. unfold sound in *. simpl. by eauto with checked.
Qed.

Lemma save_loop_sound ios opts fuel : forall k b last n n' e sleeps,
  save_loop path outDir confName instance ios opts fuel k b last n = (n', e, sleeps) -> sound n -> sound n'.
Proof.
  induction fuel as [|fuel IH]; intros k b last n n' e sleeps; cbn [save_loop]; [by intros [= <- _ _]|].
  destruct (save_node _ _ _ _ _ _ _ _) as [n1 r] eqn:Hs. intros H Hn. apply save_node_sound in Hs; [|exact Hn].
  destruct r as [f|[]]; try (by injection H as <- _ _).
  destruct (save_loop _ _ _ _ _ _ _ _ _ _ _) as [[n2 e2] sl] eqn:Hl. injection H as <- _ _. by eapply IH.
Qed.

Lemma call_sound js jp io hdr c n : sound n -> sound (run_call path outDir confName instance js jp io hdr c n).1.
Proof.
  apply run_keeps with (P := sound); [apply Hapart|..].
  - intros k opts a a' r H. by eapply save_node_sound.
  - done.
  - intros reason a a' resp. unfold afterSave.
    unfold sound in *. rewrite <- (apply_node_store (api_apply io) a).
    destruct (apply_node _ _ _ _ a) as [a1 [e|]]; intros [= <- _]; done.
Qed.

Lemma request_sound cur ios preview mark now r n :
  sound n -> sound (serve (listener_config path outDir confName instance cur ios preview mark) now r n).1.
Proof.
  intros Hn. unfold serve. repeat case_match; try done.
  - unfold handleManifest. by repeat case_match.
  - unfold handleItems. destruct (requireAuth _ _); [done|]. destruct (pr_method r); [by case_match| |done].
    destruct (decodeEnvelope r) as [e|]; [|done]. destruct (out_of_skew _ _ _); [done|].
    cbn [lc_PushSink listener_config]. destruct (PushSink _ _ _ _ _ _ _ _ _ _ _) as [n1 res] eqn:E.
    assert (Hn1 : sound n1).
    { unfold PushSink in E. destruct (current (n_store n)); [|by injection E as <- _].
      destruct (save_retry _ _ _ _ _ _ _) as [[n2 err] sleeps] eqn:Hr.
      apply save_loop_sound in Hr; [|exact Hn]. by destruct err; injection E as <- _. }
    by destruct res.
  - unfold handleHealthz. by case_match.
Qed.

Lemma pull_sound `{URLs} cur ios mark now tp peer n :
  sound n -> sound (pull (client_ops path outDir confName instance cur ios mark) now tp peer n).
Proof.
  intros Hn. unfold pull. cbn [co_Provider client_ops]. repeat (case_match; try done).
  all: match goal with E : co_Apply _ _ _ _ = _ |- _ =>
         cbn [co_Apply client_ops] in E; unfold Apply in E;
         destruct (save_retry _ _ _ _ _ _ _) as [[n2 err] sleeps] eqn:Hr; apply save_loop_sound in Hr; [|exact Hn];
         injection E as <- _; exact Hr end.
Qed.

Lemma tick_sound fault io n : sound n -> sound (watcher_tick path outDir confName instance env fault io n).
Proof.
  unfold sound, watcher_tick, tick. intros Hc. destruct (ReloadIfChanged _ _ _ _ _) as [s [changed err]] eqn:Hr.
  assert (Hs : current_checked s) by (by eauto with checked).
  destruct err; [done|]. destruct changed; [|done]. simpl.
  by destruct (applyOnce _ _ _ _ _ _ _ _) as [[[fs w] log] err].
Qed.

Lemma run_sound io n n' : watcher_run outDir confName instance io n = Some n' -> sound n -> sound n'.
Proof.
  unfold watcher_run, Run_start. intros H Hc. destruct (current (n_store n)) as [cur|] eqn:Hcur; [|done].
  destruct (applyOnce _ _ _ _ _ _ _ _) as [[[fs w] log] err]. by injection H as <-.
Qed.

Lemma main_sound io : sound (main path env io fs0).1.
Proof.
  unfold main. destruct (Load _ _ _ _ _) as [fs [s e]] eqn:E.
  assert (Hs : current_checked s) by (eapply Load_checked; [exact E | done]).
  unfold startPeerListenerAndClient. cbn [n_store].
  destruct (current s) as [cur|] eqn:Hc; [|done]. repeat case_match; done.
Qed.

Lemma step_sound `{URLs} js jp n n' :
  sys_step path outDir confName instance env js jp n n' -> sound n -> sound n'.
Proof.
  intros Hst Hn. destruct Hst.
  - by apply call_sound.
  - by eapply run_sound.
  - by apply tick_sound.
  - by apply request_sound.
  - by apply pull_sound.
  - revert n Hn. induction entries as [|e entries IH]; intros n Hn; [exact Hn|]. by apply IH.
  - exact Hn.
  - exact Hn.
  - exact Hn.
  - intros h [= <-]. by eapply checked_of_Validate.
Qed.

Lemma running_sound `{URLs} js jp n : running path outDir confName instance env js jp fs0 n -> sound n.
Proof. intros (io & H1). pose proof (main_sound io) as H0. induction H1; eauto using step_sound. Qed.

(** C1. Whatever requests, pushes, pulls, polls and edits of the file a process
    meets, in whatever order and with whatever failures, the configuration it
    has in memory is always one that Validate accepts as it is. *)
Theorem running_config_valid `{URLs} js jp n f :
  running path outDir confName instance env js jp fs0 n -> cur_of n = Some f -> Validate f = Ok f.
Proof. intros Hn%running_sound. apply Hn. Qed.

(** ** From an edit of the file to unbound *)

(** the system lets an application through *)
Definition applying (io : ApplyIO) : Prop :=
  io.(ai_mkdir) = None /\ io.(ai_write) = Written /\ io.(ai_check) = None /\ io.(ai_rename) = None
  /\ Reload io.(ai_reload) = None.

Lemma applyOnce_applying io reason f fs w :
  applying io -> exists fs' w' log, applyOnce outDir confName instance io reason (Some f) fs w = (fs', w', log, None)
    /\ fs' !! final = Some (Generate f) /\ w'.(lastError) = "" /\ forall p, p <> final -> p <> final +:+ ".tmp" -> fs' !! p = fs !! p.
Proof.
  intros (H1 & H2 & H3 & H4 & H5). unfold applyOnce. rewrite H1, H2, H3, H4, H5.
  assert ((if negb (is_initial reason) then None else None : option string) = None) as -> by by destruct reason.
  eexists _, _, _. split; [done|]. simpl. rewrite Rename_lookup. split_and!; [done..|].
  intros p Hp Ht. unfold Rename. rewrite lookup_insert_eq. by rewrite lookup_insert_ne, lookup_delete_ne, lookup_insert_ne.
Qed.

(** C13. A valid edit of the configuration file, with another hash than that of the
    text in memory, is in force after one poll whose application the system lets
    through (it can make the directory, write, have the file checked, rename it and
    reload unbound, and its file is none of the store's): it is the configuration in memory (seeded from the environment
    and validated), and unbound's file is generated from it.  The poll after that
    finds the same hash and does nothing: it does not regenerate the file, unlike
    what the README says of every poll cycle. *)
Theorem edit_in_force_after_poll (n : Node) (data : string) (g f : File) (io io' : ApplyIO) :
  content_hash data <> n.(n_store).(hash) -> Unmarshal data = Ok g -> Validate (SeedFromEnv env g) = Ok f ->
  applying io ->
  let n1 := watcher_tick path outDir confName instance env None io (edit path data n) in
  let n2 := watcher_tick path outDir confName instance env None io' n1 in
  cur_of n1 = Some f /\ n1.(n_fs) !! final = Some (Generate f) /\ n1.(n_watcher).(lastError) = ""
  /\ n2.(n_fs) = n1.(n_fs) /\ n2.(n_store) = n1.(n_store) /\ n2.(n_audit) = n1.(n_audit).
Proof.
  intros Hh%String.eqb_neq Hu Hv Hio n1.
  destruct (applyOnce_applying io PollChange f (<[path := data]> n.(n_fs))
     (n.(n_watcher) <| cycles := (n.(n_watcher).(cycles) + 1) mod 2 ^ 64 |>) Hio) as (fs' & w' & log & Ha & Hf & Hw & Hp).
  assert (Hn1 : n1 = n <| n_fs := fs' |> <| n_store := setCurrent f (content_hash data) n.(n_store) |>
                       <| n_watcher := w' |> <| n_audit := n.(n_audit) ++ log |>).
  { unfold n1, watcher_tick, tick, ReloadIfChanged, ReadFile, edit. simpl. rewrite lookup_insert_eq, Hh, Hu, Hv. cbn [negb].
    unfold setCurrent at 1. cbn [current]. simpl in Ha |- *. by rewrite Ha. }
  clearbody n1. subst n1. cbv zeta. split_and!; try done.
  all: unfold watcher_tick, tick, ReloadIfChanged, ReadFile; simpl; destruct Hapart as ([Hp1 Hp2] & _ & _);
    rewrite Hp, lookup_insert_eq, String.eqb_refl by done; cbn [negb]; simpl; by rewrite ?app_nil_r.
Qed.

(** ** From one process to another *)

(** the request a push makes, as the listener decodes it *)
Definition push_request (s : Sent) : PeerRequest :=
  {| pr_path := "/peer/v1/items"; pr_method := POST; pr_token := s.(sent_token); pr_since := "";
     pr_body := Ok s.(sent_envelope) |}.

Lemma to_map_map {A} `{SyncItem A} (g : A -> A) (l : list A) k :
  (forall x, it_key (g x) = it_key x) -> to_map (map g l) !! k = g <$> to_map l !! k.
Proof.
  intros Hg. induction l as [|x l IH] using rev_ind; [done|].
  rewrite map_app. cbn [map]. rewrite !to_map_snoc, Hg.
  destruct (decide (it_key x = k)) as [<-|]; [by rewrite !lookup_insert_eq | by rewrite !lookup_insert_ne].
Qed.
Lemma NoDup_map_filter {A B} (g : A -> B) (p : A -> bool) l : NoDup (map g l) -> NoDup (map g (List.filter p l)).
Proof.
  induction l as [|x l IH]; simpl; [done|]. intros [Hx Hl]%NoDup_cons. destruct (p x); simpl; [|by apply IH].
  constructor; [|by apply IH]. intros (y & Hy & [Hin _]%filter_In)%list_elem_of_In%in_map_iff. apply Hx.
  rewrite <- Hy. by apply list_elem_of_In, in_map.
Qed.

(** the answer to a push, and the zones of the receiver after it *)
Lemma push_received `{URLs} (fA fB curB : File) (instA : string) (nowA now preview mark : Time) (tp : Transport) (peer : Peer)
    err sent log ios (b b' : Node) res :
  pushOnce (Some fA) instA nowA tp peer = (err, Some sent, log) ->
  fB.(f_Peers).(SharedKey) = fA.(f_Peers).(SharedKey) ->
  out_of_skew (peer_skew fB) now nowA = false ->
  hooked b -> cur_of b = Some curB ->
  let cfg := listener_config path outDir confName instance fB ios preview mark in
  PushSink path outDir confName instance ios preview mark (peer_skew fB) sent.(sent_envelope) (peerName cfg) b = (b', Ok res) ->
  let r := serve cfg now (push_request sent) b in
  r.2 = ok (BMerge res)
  /\ exists k f res0, first_unlocked ios k /\ cur_of r.1 = Some f
     /\ f.(ForwardZones) = map (stamp_zone (ios k).1.(si_stamp_now) ("peer:" +:+ instA))
          (fst (merge_items (ios k).2.(hk_merge) (peer_skew fB) curB.(ForwardZones) (export_items peer.(p_Name) fA.(ForwardZones)) res0))
     /\ f.(f_Peers).(SharedKey) = curB.(f_Peers).(SharedKey).
Proof.
  intros Hsent Hkey Hskew Hh Hcur cfg Hps r.
  pose proof (pushOnce_cases (Some fA) instA nowA tp peer) as Hc. rewrite Hsent in Hc.
  destruct Hc as (Hc & _). destruct (Hc sent eq_refl) as (g & [= <-] & Hne & _ & Htok & Henv & _).
  assert (Hauth : AuthOK sent.(sent_token) cfg.(lc_PSK) = true).
  { apply AuthOK_iff. cbn [lc_PSK listener_config cfg]. rewrite Htok, Hkey. done. }
  assert (Hr : r = (audit_node {| en_Time := 0; en_Actor := "peer:" +:+ sent.(sent_envelope).(e_InstanceID);
      en_Action := "peer-push-applied"; en_Details := StringifyMerge res |} b', ok (BMerge res))).
  { unfold r, serve, handleItems, requireAuth, push_request. cbn [pr_path pr_token pr_method]. rewrite Hauth. cbn [negb].
    unfold decodeEnvelope. cbn [pr_body].
    assert (out_of_skew cfg.(lc_Skew) now sent.(sent_envelope).(e_ServerTime) = false) as -> by (rewrite Henv; exact Hskew).
    change cfg.(lc_PushSink) with (Some (fun env name n => PushSink path outDir confName instance ios preview mark (peer_skew fB) env name n)).
    cbv beta iota. by rewrite Hps. }
  rewrite Hr. split; [done|].
  apply PushSink_ok in Hps as (k & cur & f & Hk & Hcb & (Hz & _ & _ & _ & _ & Hkf) & (_ & _ & _ & Hf & _) & _); [|apply Hapart|exact Hh].
  unfold cur_of in Hcur. rewrite Hcur in Hcb. injection Hcb as <-.
  destruct (Merge_parts (ios k).2.(hk_merge) (Clone curB) sent.(sent_envelope) (peer_skew fB)) as (r1 & r2 & _ & _ & _ & _ & Hm & _).
  exists k, f, r1. split_and!; [exact Hk|exact Hf| |exact Hkf]. rewrite Hz, Hm, Henv. done.
Qed.

(** C14. What one process pushes arrives.  When both have the same key, the time in
    the envelope is not outside the receiver's skew window, the hooks are set, the
    zones of the sender have different identifiers and the receiver can save: the
    listener answers with the result of the merge, and each zone of the receiver is
    then the newer of its own copy and the sender's, for exactly the zones of the
    sender that are meant for this peer and were not last changed outside the skew
    window around the receiver's clock, as the attempt that gets the lock reads it
    (a window that is not positive excludes nothing, and neither is a zone excluded
    that has no time of change); a tombstone of a zone that the receiver does not
    have is dropped; and every other zone is as it was, but for the stamp of one
    that has none yet. *)
Theorem push_delivers `{URLs} (fA fB curB : File) (instA : string) (nowA now preview mark : Time) (tp : Transport) (peer : Peer)
    err sent log ios (b b' : Node) res :
  pushOnce (Some fA) instA nowA tp peer = (err, Some sent, log) ->
  fB.(f_Peers).(SharedKey) = fA.(f_Peers).(SharedKey) ->
  out_of_skew (peer_skew fB) now nowA = false ->
  hooked b -> cur_of b = Some curB -> NoDup (map z_ID fA.(ForwardZones)) ->
  let cfg := listener_config path outDir confName instance fB ios preview mark in
  PushSink path outDir confName instance ios preview mark (peer_skew fB) sent.(sent_envelope) (peerName cfg) b = (b', Ok res) ->
  let r := serve cfg now (push_request sent) b in
  r.2 = ok (BMerge res)
  /\ exists k f, first_unlocked ios k /\ cur_of r.1 = Some f
     /\ forall id, to_map f.(ForwardZones) !! id
         = stamp_zone (ios k).1.(si_stamp_now) ("peer:" +:+ instA)
           <$> merge1 (to_map curB.(ForwardZones) !! id)
                      (to_map (accepted (ios k).2.(hk_merge) (peer_skew fB)
                                 (List.filter (syncs_to peer.(p_Name)) fA.(ForwardZones))) !! id).
Proof.
  intros Hsent Hkey Hskew Hh Hcur Hnd cfg Hps r.
  destruct (push_received _ _ _ _ _ _ _ _ _ _ _ _ _ _ _ _ _ Hsent Hkey Hskew Hh Hcur Hps) as (Hr & k & f & res0 & Hk & Hf & Hz & _).
  split; [exact Hr|]. exists k, f. split; [exact Hk|]. split; [exact Hf|]. intros id. rewrite Hz, to_map_map by done. f_equal.
  rewrite export_items_filter, merge_items_lookup; [done|]. by apply (NoDup_map_filter z_ID).
Qed.
End system.

(** *** Two processes *)

(** what a zone that was saved once has *)
Definition dated (z : ForwardZone) : Prop := z.(z_UpdatedAt) <> 0 /\ z.(z_UpdatedBy) <> "".
Lemma stamp_dated t actor l : (forall z, In z l -> dated z) -> map (stamp_zone t actor) l = l.
Proof.
  intros Hl. apply map_fixed. intros z Hz%list_elem_of_In. destruct (Hl z Hz) as [H1%Z.eqb_neq H2%String.eqb_neq].
  unfold stamp_zone, stamp_at, stamp_by, IsZero. rewrite H1, H2. by destruct z.
Qed.

Section two.
Context `{Y : Yaml} `{D : DNSLib} `{U : URLs}.
(** the two processes: their paths and names, the configurations their
    listeners were started with, and the way each knows the other *)
Context (pathA outA confA instA pathB outB confB instB : string) (bootA bootB : File) (peerA peerB : Peer).
Hypothesis HapartA : apart pathA outA confA.
Hypothesis HapartB : apart pathB outB confB.

(** Two processes converge: after the first has pushed to the second and the
    second to the first, both arrived and saved, they have the same live forward
    zones, whatever each had before.  It takes what it has to: the same key, clocks
    that agree, unique identifiers, zones that were saved once, are meant for the
    other and are inside the skew window, and no two different copies of a zone with
    the same timestamp and deletion mark. *)
Theorem peers_converge (a b : Node) (fA fB : File) (nowA nowB now1 now2 preview1 preview2 mark1 mark2 : Time) (tp1 tp2 : Transport) iosA iosB
    err1 err2 sent1 sent2 log1 log2 (a' b' : Node) res1 res2 :
  hooked a -> hooked b -> cur_of a = Some fA -> cur_of b = Some fB ->
  bootB.(f_Peers).(SharedKey) = fA.(f_Peers).(SharedKey) -> bootA.(f_Peers).(SharedKey) = fB.(f_Peers).(SharedKey) ->
  out_of_skew (peer_skew bootB) now1 nowA = false -> out_of_skew (peer_skew bootA) now2 nowB = false ->
  NoDup (map z_ID fA.(ForwardZones)) -> NoDup (map z_ID fB.(ForwardZones)) ->
  (forall z, In z fA.(ForwardZones) \/ In z fB.(ForwardZones) ->
     dated z /\ syncs_to peerA.(p_Name) z = true /\ syncs_to peerB.(p_Name) z = true
     /\ forall k, acceptable (iosB k).2.(hk_merge) (peer_skew bootB) z = true /\ acceptable (iosA k).2.(hk_merge) (peer_skew bootA) z = true) ->
  (forall z z', In z fA.(ForwardZones) -> In z' fB.(ForwardZones) -> z.(z_ID) = z'.(z_ID) -> same_stamp z z' -> z = z') ->
  let cfgA := listener_config pathA outA confA instA bootA iosA preview2 mark2 in
  let cfgB := listener_config pathB outB confB instB bootB iosB preview1 mark1 in
  pushOnce (cur_of a) instA nowA tp1 peerB = (err1, Some sent1, log1) ->
  PushSink pathB outB confB instB iosB preview1 mark1 (peer_skew bootB) sent1.(sent_envelope) (peerName cfgB) b = (b', Ok res1) ->
  let b1 := (serve cfgB now1 (push_request sent1) b).1 in
  pushOnce (cur_of b1) instB nowB tp2 peerA = (err2, Some sent2, log2) ->
  PushSink pathA outA confA instA iosA preview2 mark2 (peer_skew bootA) sent2.(sent_envelope) (peerName cfgA) a = (a', Ok res2) ->
  let a1 := (serve cfgA now2 (push_request sent2) a).1 in
  exists gA gB, cur_of a1 = Some gA /\ cur_of b1 = Some gB
    /\ forall id, live (to_map gA.(ForwardZones) !! id) = live (to_map gB.(ForwardZones) !! id).
Proof.
  intros Ha Hb HfA HfB HkB HkA Hs1 Hs2 HnA HnB Hok Huniq cfgA cfgB Hp1 Hr1 b1 Hp2 Hr2 a1. rewrite HfA in Hp1.
  destruct (push_received pathB outB confB instB HapartB _ _ _ _ _ _ _ _ _ _ _ _ _ _ _ _ _ Hp1 HkB Hs1 Hb HfB Hr1)
    as (_ & k1 & gB & r1 & _ & HgB & HzB & HkgB). fold cfgB in HgB. fold b1 in HgB. rewrite HgB in Hp2.
  rewrite <- HkgB in HkA.
  destruct (push_received pathA outA confA instA HapartA _ _ _ _ _ _ _ _ _ _ _ _ _ _ _ _ _ Hp2 HkA Hs2 Ha HfA Hr2)
    as (_ & k2 & gA & r2 & _ & HgA & HzA & _). fold cfgA in HgA. fold a1 in HgA.
  exists gA, gB. split_and!; [done..|].
  assert (HinB : forall z, In z (fst (merge_items (iosB k1).2.(hk_merge) (peer_skew bootB) fB.(ForwardZones)
      (export_items peerB.(p_Name) fA.(ForwardZones)) r1)) -> In z fA.(ForwardZones) \/ In z fB.(ForwardZones)).
  { intros z [|Hz]%in_merge_items; [by right|]. left. rewrite export_items_filter in Hz. by apply filter_In in Hz as [? _]. }
  rewrite stamp_dated in HzB by (intros z Hz; by apply Hok, HinB).
  rewrite stamp_dated in HzA.
  - intros id. rewrite HzA, HzB. apply exchange_live; try done. intros z Hz. destruct (Hok z Hz) as (_ & ? & ? & Hacc). split_and!; [done|done|apply Hacc..].
  - intros z [Hz|Hz]%in_merge_items; [apply Hok; by left|].
    rewrite export_items_filter in Hz. apply filter_In in Hz as [Hz _]. rewrite HzB in Hz. by apply Hok, HinB.
Qed.
End two.

(** ** Witnesses *)

Lemma ex_all_apart : apart "/c" "/u" "unbound.conf".
Proof. split_and!; [exact ex_separate | discriminate | discriminate]. Qed.

#[local] Existing Instance ex_urls.
#[local] Existing Instance ex_api_yaml.
Definition ex_boot : BootIO := {| bo_load := fine_load 3; bo_probes := fun _ => ex_probe; bo_bind := None |}.
Definition ex_files : FS := {["/c" := ""; "/u/unbound.conf" := "# as it was"]}.
Definition ex_js (s : Settings) : string := "".
Definition ex_jp (n u : string) : string := "".
(** a process that starts and adds a forwarder *)
Definition ex_running : Node :=
  (run_call "/c" "/u" "unbound.conf" "a" ex_js ex_jp ex_api "" (AddForwarder (Ok ex_body))
     (main "/c" no_env ex_boot ex_files).1).1.
Lemma ex_is_running : running "/c" "/u" "unbound.conf" "a" no_env ex_js ex_jp ex_files ex_running.
Proof. exists ex_boot. apply rtc_once, sys_call. Qed.

Lemma running_config_valid_witness : Validate ex_added = Ok ex_added.
Proof.
  apply (running_config_valid "/c" "/u" "unbound.conf" "a" no_env ex_all_apart ex_files ex_js ex_jp ex_running ex_added ex_is_running).
  vm_compute. reflexivity.
Defined.

Lemma ex_applying : applying ex_apply.
Proof. repeat split. Qed.

(** somebody saves the second configuration of the table over the first *)
Lemma edit_in_force_after_poll_witness :
  cur_of (watcher_tick "/c" "/u" "unbound.conf" "a" no_env None ex_apply (edit "/c" "x" (ex_process false ex_start))) = Some ex_added.
Proof.
  assert (Hh : content_hash "x" <> (ex_process false ex_start).(n_store).(hash)) by exact ex_hash_new.
  assert (Hu : Unmarshal "x" = Ok ex_added) by reflexivity.
  assert (Hv : Validate (SeedFromEnv no_env ex_added) = Ok ex_added) by (vm_compute; reflexivity).
  exact (proj1 (edit_in_force_after_poll "/c" "/u" "unbound.conf" "a" no_env ex_all_apart (ex_process false ex_start)
    "x" ex_added ex_added ex_apply ex_apply Hh Hu Hv ex_applying)).
Defined.

Lemma got_ok {A E B} (r : A * result E B) : is_Ok r.2 = true -> exists a b, r = (a, Ok b).
Proof. destruct r as [a [b|]]; [eauto | done]. Qed.

(** the first process pushes to one that has no zones yet *)
Definition ex_sent : Sent :=
  {| sent_url := "https://site-b:8443//peer/v1/items"; sent_token := "secret";
     sent_envelope := FilterForExport 8 "a" 0 ex_start "site-b" |}.
Definition ex_received : File :=
  match finish_draft (fine_save 8) "peer:a" (Merge 8 (Clone ex_cur) ex_sent.(sent_envelope) (peer_skew ex_cur)).1 with
  | Ok f => f
  | Err _ => ex_cur
  end.
Definition ex_receiving : Yaml := table_yaml [ex_received].
Lemma push_delivers_witness :
  exists t f, cur_of (serve (listener_config (Y := ex_receiving) "/c" "/u" "unbound.conf" "b" ex_cur ex_ios 8 8) 8
                        (push_request ex_sent) ex_node).1 = Some f
    /\ to_map f.(ForwardZones) !! "z0" = Some (stamp_zone t "peer:a" (ex_zone "z0" "corp.example.com" 5)).
Proof.
  assert (Hs : pushOnce (Some ex_start) "a" 8 ex_tp (ex_peer "site-b") = (None, Some ex_sent, [])) by (vm_compute; reflexivity).
  destruct (got_ok (PushSink (Y := ex_receiving) "/c" "/u" "unbound.conf" "b" ex_ios 8 8 (peer_skew ex_cur) ex_sent.(sent_envelope)
              "b" ex_node)) as (b' & res & E); [vm_compute; reflexivity|].
  assert (Hnd : NoDup (map z_ID ex_start.(ForwardZones))) by (apply (bool_decide_unpack _); vm_compute; exact I).
  destruct (push_delivers (Y := ex_receiving) "/c" "/u" "unbound.conf" "b" ex_all_apart ex_start ex_cur ex_cur "a" 8 8 8 8 ex_tp
    (ex_peer "site-b") None ex_sent [] ex_ios ex_node b' res Hs eq_refl eq_refl (conj eq_refl eq_refl) eq_refl Hnd E)
    as (_ & k & f & _ & Hf & Hz).
  exists (ex_ios k).1.(si_stamp_now), f. split; [exact Hf|]. rewrite Hz. reflexivity.
Defined.

(** each of two processes has a zone the other does not know *)
Definition ex_site_a : File :=
  (ex_file (Some [ex_default "168.63.129.16" 53 5]) [ex_zone "z0" "corp.example.com" 5] []) <| f_Peers := ex_peers [ex_peer "site-b"] |>.
Definition ex_site_b : File :=
  (ex_file (Some [ex_default "168.63.129.16" 53 5]) [ex_zone "z1" "lab.example.com" 6] []) <| f_Peers := ex_peers [ex_peer "site-a"] |>.
Definition ex_merged (from : string) (env : Envelope) (f : File) : File :=
  match finish_draft (fine_save 8) ("peer:" +:+ from) (Merge 8 (Clone f) env (peer_skew f)).1 with Ok f => f | Err _ => f end.
Definition ex_site_b' : File := ex_merged "a" (FilterForExport 8 "a" 0 ex_site_a "site-b") ex_site_b.
Definition ex_site_a' : File := ex_merged "b" (FilterForExport 8 "b" 0 ex_site_b' "site-a") ex_site_a.
Definition ex_sites : Yaml := table_yaml [ex_site_a; ex_site_b; ex_site_b'; ex_site_a'].
Definition ex_sent_by (id : string) (f : File) (to : string) : Sent :=
  {| sent_url := "https://" +:+ to +:+ ":8443//peer/v1/items"; sent_token := "secret"; sent_envelope := FilterForExport 8 id 0 f to |}.
#[local] Notation ex_listens id f := (listener_config (Y := ex_sites) "/c" "/u" "unbound.conf" id f ex_ios 8 8) (only parsing).

Lemma peers_converge_witness :
  exists gA gB,
    cur_of (serve (ex_listens "a" ex_site_a) 8 (push_request (ex_sent_by "b" ex_site_b' "site-a")) (ex_process true ex_site_a)).1 = Some gA
    /\ cur_of (serve (ex_listens "b" ex_site_b) 8 (push_request (ex_sent_by "a" ex_site_a "site-b")) (ex_process true ex_site_b)).1 = Some gB
    /\ live (to_map gA.(ForwardZones) !! "z1") = live (to_map gB.(ForwardZones) !! "z1").
Proof.
  assert (Hp1 : pushOnce (Some ex_site_a) "a" 8 ex_tp (ex_peer "site-b") = (None, Some (ex_sent_by "a" ex_site_a "site-b"), []))
    by (vm_compute; reflexivity).
  destruct (got_ok (PushSink (Y := ex_sites) "/c" "/u" "unbound.conf" "b" ex_ios 8 8 (peer_skew ex_site_b)
              (sent_envelope (ex_sent_by "a" ex_site_a "site-b")) "b" (ex_process true ex_site_b))) as (b' & res1 & E1); [vm_compute; reflexivity|].
  assert (Hp2 : pushOnce (cur_of (serve (ex_listens "b" ex_site_b) 8 (push_request (ex_sent_by "a" ex_site_a "site-b"))
                                    (ex_process true ex_site_b)).1) "b" 8 ex_tp (ex_peer "site-a")
                = (None, Some (ex_sent_by "b" ex_site_b' "site-a"), [])) by (vm_compute; reflexivity).
  destruct (got_ok (PushSink (Y := ex_sites) "/c" "/u" "unbound.conf" "a" ex_ios 8 8 (peer_skew ex_site_a)
              (sent_envelope (ex_sent_by "b" ex_site_b' "site-a")) "a" (ex_process true ex_site_a))) as (a' & res2 & E2); [vm_compute; reflexivity|].
  assert (HnA : NoDup (map z_ID ex_site_a.(ForwardZones))) by (apply (bool_decide_unpack _); vm_compute; exact I).
  assert (HnB : NoDup (map z_ID ex_site_b.(ForwardZones))) by (apply (bool_decide_unpack _); vm_compute; exact I).
  destruct (peers_converge (Y := ex_sites) "/c" "/u" "unbound.conf" "a" "/c" "/u" "unbound.conf" "b" ex_site_a ex_site_b
     (ex_peer "site-a") (ex_peer "site-b") ex_all_apart ex_all_apart (ex_process true ex_site_a) (ex_process true ex_site_b)
     ex_site_a ex_site_b 8 8 8 8 8 8 8 8 ex_tp ex_tp ex_ios ex_ios None None
     (ex_sent_by "a" ex_site_a "site-b") (ex_sent_by "b" ex_site_b' "site-a") [] [] a' b' res1 res2
     (conj eq_refl eq_refl) (conj eq_refl eq_refl) eq_refl eq_refl eq_refl eq_refl eq_refl eq_refl HnA HnB) as (gA & gB & HA & HB & H);
    [| |exact Hp1|exact E1|exact Hp2|exact E2|].
  - intros z [[<-|[]]|[<-|[]]]; (split; [split; discriminate|]); repeat split.
  - intros z z' [<-|[]] [<-|[]] Hid. discriminate Hid.
  - exists gA, gB. split; [exact HA|]. split; [exact HB|]. apply H.
Defined.
