(* ===== verification/ClusterProps.v ===== *)
(** Processes that push to and pull from each other: every envelope that
    arrives is a delivery in the sense of [Cluster], and so all of them
    converge, whatever else they do in between. *)
From S2P Require Import Prelude GoStrings GoTime Config Validate ValidateSpec Sync Store StoreProps Generate Resolve Ping Proxy.
From S2P Require Import LWW Convergence SyncProps Cluster AuditLog PeerListener ListenerProps PeerClient ClientProps Watcher WatcherProps Daemon DaemonProps Server ServerProps ServerViews System SystemProps Samples.

(** ** The processes *)

(** where a process has its files, its name, its environment, and the
    configuration its listener and its client were started with *)
Record Site := {
  st_path : string;
  st_outDir : string;
  st_confName : string;
  st_instance : string;
  st_env : Env;
  st_boot : File;
}.

(** the request of a pull, as the listener reads it *)
Definition pull_request (token : string) : PeerRequest :=
  {| pr_path := "/peer/v1/items"; pr_method := GET; pr_token := token; pr_since := ""; pr_body := Err "EOF" |}.

Section run.
Context `{Y : Yaml} `{D : DNSLib} `{U : URLs} (js : Settings -> string) (jp : string -> string -> string) (sites : list Site).

Definition site_listener (s : Site) ios preview mark : ListenerConfig Node :=
  listener_config s.(st_path) s.(st_outDir) s.(st_confName) s.(st_instance) s.(st_boot) ios preview mark.
Definition site_client (s : Site) ios mark : ClientOps Node :=
  client_ops s.(st_path) s.(st_outDir) s.(st_confName) s.(st_instance) s.(st_boot) ios mark.
(** the clock that the merge reads, in the attempt that gets the lock *)
Definition merged_at (ios : nat -> SaveIO * HookIO) (now : Time) : Prop :=
  exists k, first_unlocked ios k /\ (ios k).2.(hk_merge) = now.

(** the exchange of a pull goes well and brings [env] *)
Definition answered (tp : Transport) (key url : string) (env : Envelope) : Prop :=
  key <> "" /\ url <> ""
  /\ exists u resp, joinURL url "/peer/v1/items" = Ok u /\ tp.(tp_request) u = None /\ tp.(tp_tls) key = None
       /\ tp.(tp_do) = Ok resp /\ Z.quot resp.(hr_code) 100 = 2 /\ resp.(hr_envelope) = Ok env.

(** an envelope arrives: a push that the listener answers with the result of
    the merge, or a pull whose envelope, the listener's answer, is saved *)
Inductive arrives (d : Delivery) (ns : list Node) : list Node -> Prop :=
  | arrives_push s r a b b' peer nowA tp err sent log ios preview mark now res :
      sites !! d.(d_from) = Some s -> sites !! d.(d_to) = Some r ->
      ns !! d.(d_from) = Some a -> ns !! d.(d_to) = Some b ->
      pushOnce (cur_of a) s.(st_instance) nowA tp peer = (err, Some sent, log) ->
      serve (site_listener r ios preview mark) now (push_request sent) b = (b', ok (BMerge res)) ->
      merged_at ios d.(d_now) -> d.(d_name) = peer.(p_Name) -> d.(d_skew) = peer_skew r.(st_boot) ->
      arrives d ns (<[d.(d_to) := b']> ns)
  | arrives_pull s r a b fb peer nowA tp ios iosA previewA markA mark now token env :
      sites !! d.(d_from) = Some s -> sites !! d.(d_to) = Some r ->
      ns !! d.(d_from) = Some a -> ns !! d.(d_to) = Some b ->
      serve (site_listener s iosA previewA markA) nowA (pull_request token) a = (a, ok (BEnvelope env)) ->
      cur_of b = Some fb -> answered tp fb.(f_Peers).(SharedKey) peer.(p_URL) env ->
      ((site_client r ios mark).(co_Apply) env peer.(p_Name) b).2 = None ->
      merged_at ios d.(d_now) -> d.(d_name) = peerName (site_listener s iosA previewA markA) -> d.(d_skew) = peer_skew r.(st_boot) ->
      arrives d ns (<[d.(d_to) := pull (site_client r ios mark) now tp peer b]> ns).

(** arrivals in this order, and between them any steps of the processes that
    leave their configurations alone *)
Inductive run : list Delivery -> list Node -> list Node -> Prop :=
  | run_nil ns : run [] ns ns
  | run_arrives d ds ns ns1 ns2 : arrives d ns ns1 -> run ds ns1 ns2 -> run (d :: ds) ns ns2
  | run_idle j s n n' ds ns ns2 :
      sites !! j = Some s -> ns !! j = Some n ->
      sys_step s.(st_path) s.(st_outDir) s.(st_confName) s.(st_instance) s.(st_env) js jp n n' -> cur_of n' = cur_of n ->
      run ds (<[j := n']> ns) ns2 -> run ds ns ns2.
End run.

(** ** The three kinds of items *)

(** What a kind of items has to do with files and envelopes: an envelope holds
    the exported items, a merged file the merged ones, stamped and with their
    defaults; on items that have both this changes nothing. *)
Class Kind (A : Type) `{SyncItemLaws A} := {
  kd_items : File -> list A;
  kd_sent : Envelope -> list A;
  kd_restamp : Time -> string -> A -> A;
  kd_by : A -> string;
  kd_export now id seq f peer : kd_sent (FilterForExport now id seq f peer) = export_items peer (kd_items f);
  kd_merge io actor now env skew cur f :
    merged_file io actor now env skew cur f ->
    exists r, kd_items f = map (kd_restamp io.(si_stamp_now) actor)
                             (fst (merge_items now skew (kd_items cur) (kd_sent env) r));
  kd_fixed f x t actor : Validate f = Ok f -> x ∈ kd_items f -> stamped kd_by x -> kd_restamp t actor x = x;
}.

Lemma stamp_fixed t actor (at_ : Time) (by_ : string) :
  at_ <> 0 -> by_ <> "" -> stamp_at t at_ = at_ /\ stamp_by actor by_ = by_.
Proof. intros H1%Z.eqb_neq H2%String.eqb_neq. unfold stamp_at, stamp_by, IsZero. by rewrite H1, H2. Qed.

#[export, refine] Instance zone_kind : Kind ForwardZone := {|
  kd_items := ForwardZones; kd_sent := e_ForwardZones; kd_restamp := stamp_zone; kd_by := z_UpdatedBy;
|}.
Proof.
  - done.
  - intros io actor now env skew cur f (Hz & _). rewrite Hz.
    destruct (Merge_parts now (Clone cur) env skew) as (r1 & r2 & _ & _ & _ & _ & Hm & _). rewrite Hm. by exists r1.
  - intros f x t actor _ _ [H1 H2]. destruct (stamp_fixed t actor _ _ H1 H2) as [E1 E2]. simpl in *.
    unfold stamp_zone. rewrite E1, E2. by destruct x.
Defined.
#[export, refine] Instance record_kind : Kind StaticRecord := {|
  kd_items := StaticRecords; kd_sent := e_StaticRecords; kd_restamp := stamp_record; kd_by := r_UpdatedBy;
|}.
Proof.
  - done.
  - intros io actor now env skew cur f (_ & Hr & _). rewrite Hr.
    destruct (Merge_parts now (Clone cur) env skew) as (r1 & r2 & _ & _ & _ & _ & _ & Hm & _). rewrite Hm. by exists r2.
  - intros f x t actor _ _ [H1 H2]. destruct (stamp_fixed t actor _ _ H1 H2) as [E1 E2]. simpl in *.
    unfold stamp_record. rewrite E1, E2. by destruct x.
Defined.
#[export, refine] Instance upstream_kind : Kind UpstreamDefault := {|
  kd_items f := elems f.(UpstreamDefaults); kd_sent := e_UpstreamDefaults; kd_by := u_UpdatedBy;
  kd_restamp t actor u := Upstream_defaults (stamp_upstream t actor u);
|}.
Proof.
  - done.
  - intros io actor now env skew cur f (_ & _ & Hu & _). rewrite Hu.
    destruct (Merge_parts now (Clone cur) env skew) as (r1 & r2 & _ & _ & Hm & _). rewrite Hm.
    exists noResult. unfold Clone, Snapshot. simpl. by destruct (UpstreamDefaults cur) as [[|]|].
  - intros f x t actor Hf Hx [H1 H2]. destruct (stamp_fixed t actor _ _ H1 H2) as [E1 E2]. simpl in *.
    assert (Hs : stamp_upstream t actor x = x) by (unfold stamp_upstream; rewrite E1, E2; by destruct x). rewrite Hs.
    apply ValidFile_checked in Hf as [_ Hn]. rewrite <- Hn, elems_normalise in Hx.
    apply list_elem_of_fmap in Hx as (y & -> & _). apply Upstream_defaults_idem.
Defined.

Section converge.
Context `{Y : Yaml} `{D : DNSLib} `{U : URLs} (js : Settings -> string) (jp : string -> string -> string) (sites : list Site).
Context {A : Type} `{Kind A}.

(** the items a process has in memory *)
Definition held (n : Node) : list A := match cur_of n with Some f => kd_items f | None => [] end.

(** the items of [n'] are those of [n] after the merge of [env], stamped *)
Definition took (now : Time) (skew : Duration) (env : Envelope) (n n' : Node) : Prop :=
  cur_of n <> None
  /\ exists t actor, held n' = map (kd_restamp t actor) (fst (merge_items now skew (held n) (kd_sent env) noResult)).

Lemma merged_took io actor now env skew n n' cur f :
  cur_of n = Some cur -> cur_of n' = Some f -> merged_file io actor now env skew cur f -> took now skew env n n'.
Proof.
  intros Hn Hn' Hm. split; [congruence|]. unfold held. rewrite Hn, Hn'. apply kd_merge in Hm as [r ->].
  exists io.(si_stamp_now), actor. f_equal. apply merge_items_any.
Qed.

Lemma pushed_took r ios preview mark now at_ sent b b' res :
  serve (site_listener r ios preview mark) now (push_request sent) b = (b', ok (BMerge res)) -> merged_at ios at_ ->
  took at_ (peer_skew r.(st_boot)) sent.(sent_envelope) b b'.
Proof.
  intros Hsv (k' & Hk' & <-). revert Hsv. unfold serve, handleItems, push_request.
  cbn [pr_path pr_method String.eqb Ascii.eqb Bool.eqb]. destruct (requireAuth _ _) as [resp|] eqn:Ha; [unfold requireAuth in Ha; destruct (negb _); [|done]; by injection Ha as <-|].
  unfold decodeEnvelope. cbn [pr_body]. destruct (out_of_skew _ _ _); [done|].
  cbn [lc_PushSink site_listener listener_config]. unfold PushSink.
  destruct (current (n_store b)) as [cur|] eqn:Hc; [|done].
  destruct (save_retry _ _ _ _ _ _ _) as [[b1 e] sleeps] eqn:Hs. destruct e; [done|].
  apply save_retry_merged with (cur := cur) in Hs as (k & f & Hk & Hf & Hm); [|exact Hc]. cbn [lc_Audit]. intros [= <- <-].
  rewrite (first_unlocked_unique _ _ _ Hk' Hk). by eapply merged_took.
Qed.

Lemma pulled_took r ios mark now at_ tp peer b fb env :
  cur_of b = Some fb -> answered tp fb.(f_Peers).(SharedKey) peer.(p_URL) env ->
  ((site_client r ios mark).(co_Apply) env peer.(p_Name) b).2 = None -> merged_at ios at_ ->
  took at_ (peer_skew r.(st_boot)) env b (pull (site_client r ios mark) now tp peer b).
Proof.
  intros Hc (Hk%String.eqb_neq & Hu%String.eqb_neq & u & resp & Hj & Hr & Ht & Hd & Hq & He) Ha (k' & Hk' & <-). unfold pull.
  cbn [co_Provider site_client client_ops] in *. unfold cur_of in Hc. rewrite Hc, Hk, Hu, Hj, Hr.
  unfold httpClient. rewrite Ht, Hd, Hq, He. cbn [fmap option_fmap option_map negb Z.eqb Pos.eqb].
  cbn [co_Apply client_ops site_client] in *. unfold Apply in *.
  destruct (save_retry _ _ _ _ _ _ _) as [[b1 e] sleeps] eqn:Hs. simpl in Ha. destruct e; [done|].
  apply save_retry_merged with (cur := fb) in Hs as (k & f & Hun & Hf & Hm); [|exact Hc].
  cbn [fmap option_fmap option_map]. rewrite (first_unlocked_unique _ _ _ Hk' Hun). by eapply merged_took.
Qed.

Lemma pull_request_env s ios preview mark now token a a' env :
  serve (site_listener s ios preview mark) now (pull_request token) a = (a', ok (BEnvelope env)) ->
  kd_sent env = export_items (peerName (site_listener s ios preview mark)) (held a).
Proof.
  unfold serve, handleItems, pull_request, held, cur_of. cbn [pr_path pr_method pr_since String.eqb Ascii.eqb Bool.eqb negb].
  destruct (requireAuth _ _) as [resp|] eqn:Ha; [unfold requireAuth in Ha; destruct (negb _); [|done]; by injection Ha as <-|].
  cbn [lc_Provider site_listener listener_config]. destruct (current (n_store a)) as [f|]; [|done].
  intros [= _ <-]. apply kd_export.
Qed.

Lemma push_env a inst now tp peer err sent log :
  pushOnce (cur_of a) inst now tp peer = (err, Some sent, log) ->
  kd_sent sent.(sent_envelope) = export_items peer.(p_Name) (held a).
Proof.
  intros Hs. pose proof (pushOnce_cases (cur_of a) inst now tp peer) as Hc. rewrite Hs in Hc.
  destruct Hc as (Hc & _). destruct (Hc sent eq_refl) as (g & Hg & _ & _ & _ & -> & _).
  unfold held. rewrite Hg. apply kd_export.
Qed.

(** the items of everyone, once nothing is left to stamp *)
Definition all_held (ns : list Node) : list A := concat (map held ns).

Lemma took_delivers (u : list A) d ns a b b' env :
  (forall x t actor, x ∈ u -> kd_restamp t actor x = x) -> within u (map held ns) -> (forall x, x ∈ u -> carried d x) ->
  ns !! d.(d_from) = Some a -> ns !! d.(d_to) = Some b ->
  kd_sent env = export_items d.(d_name) (held a) -> took d.(d_now) d.(d_skew) env b b' ->
  map held (<[d.(d_to) := b']> ns) = deliver (map held ns) d.
Proof.
  intros Hfix Hw Hc Ha Hb Henv (_ & t & actor & Hb'). pose proof (deliver_within u _ d Hw Hc) as Hw'. revert Hw'.
  unfold deliver. rewrite !lookup_map_list, Ha, Hb. cbn [fmap option_fmap option_map]. intros Hw'.
  rewrite map_insert_list. f_equal.
  rewrite Hb', Henv. apply map_fixed. intros x Hx. apply Hfix.
  refine (proj2 (proj1 (Forall_lookup _ _) Hw' d.(d_to) _ _) x Hx).
  apply list_lookup_insert_eq. rewrite length_map. by apply lookup_lt_Some in Hb.
Qed.

Lemma arrives_delivers u d ns ns' :
  (forall x t actor, x ∈ u -> kd_restamp t actor x = x) -> within u (map held ns) -> (forall x, x ∈ u -> carried d x) ->
  arrives sites d ns ns' -> map held ns' = deliver (map held ns) d.
Proof.
  intros Hfix Hw Hc Har.
  destruct Har as [s r a b b' peer nowA tp err sent log ios preview mark now res Hs Hr Ha Hb Hp Hsv Hat Hname Hskew
                  |s r a b fb peer nowA tp ios iosA previewA markA mark now token env Hs Hr Ha Hb Hg Hfb Hans Hap Hat Hname Hskew].
  - eapply took_delivers; [done..| |].
    + rewrite Hname. by eapply push_env.
    + rewrite Hskew. by eapply pushed_took.
  - eapply took_delivers; [done..| |].
    + rewrite Hname. by eapply pull_request_env.
    + rewrite Hskew. by eapply pulled_took.
Qed.

Lemma run_delivers u ds ns ns' :
  (forall x t actor, x ∈ u -> kd_restamp t actor x = x) -> within u (map held ns) ->
  (forall d x, d ∈ ds -> x ∈ u -> carried d x) ->
  run js jp sites ds ns ns' -> map held ns' = foldl deliver (map held ns) ds.
Proof.
  intros Hfix Hw Hc Hrun. induction Hrun as [ns|d ds ns ns1 ns2 Har Hrun IH|j s n n' ds ns ns2 Hs Hn Hst Hcur Hrun IH]; [done|..].
  - simpl. rewrite <- (arrives_delivers u d ns ns1); [|done..| |done]; [|intros x; apply Hc; by left].
    apply IH; [|intros d' x Hd; apply Hc; by right]. rewrite (arrives_delivers u d ns ns1); [|done..| |done].
    + apply deliver_within; [done|]. intros x. apply Hc. by left.
    + intros x. apply Hc. by left.
  - assert (Hsame : map held (<[j := n']> ns) = map held ns); [|by rewrite Hsame in IH; apply IH].
    rewrite map_insert_list. apply list_insert_id. rewrite lookup_map_list, Hn. simpl. unfold held. by rewrite Hcur.
Qed.

(** a configuration in memory that was saved once: it validates, its keys are
    unique and its items have a timestamp and an author *)
Definition settled_file (n : Node) : Prop :=
  exists f, cur_of n = Some f /\ Validate f = Ok f /\ NoDup (map it_key (kd_items f)) /\ Forall (stamped kd_by) (kd_items f).

(** C3. Any number of processes converge.  After as many rounds as there are other
    processes, in each of which an envelope got from everyone to everyone, pushed or
    pulled, in any order and with anything else that leaves the configurations
    alone in between, everyone has the same live items: of every key the newest
    copy that anyone had, or none when that is a tombstone.  It takes what it has
    to: that at the start every process has a configuration that was saved once,
    that is, one that Validate accepts as it is, in whose list no key comes twice
    and in which every item has a timestamp and an author (an item that somebody
    has written into the file by hand without them is not meant); items that are
    meant for all and inside the skew windows, by the clock of each merge; and no two
    different copies of one key with the same timestamp and deletion flag. *)
Theorem cluster_converges (rounds : list (list Delivery)) (ns ns' : list Node) :
  run js jp sites (concat rounds) ns ns' ->
  Forall settled_file ns ->
  (forall x y, x ∈ all_held ns -> y ∈ all_held ns -> it_key x = it_key y -> same_stamp x y -> x = y) ->
  (forall d x, d ∈ concat rounds -> x ∈ all_held ns -> carried d x) ->
  Forall (complete (length ns)) rounds -> (length ns <= S (length rounds))%nat ->
  forall n k, n ∈ ns' -> live (to_map (held n) !! k) = live (newest k (all_held ns)).
Proof.
  intros Hrun Hs Hu Hc Hr Hlen n k [i Hn]%list_elem_of_lookup. rewrite Forall_forall in Hs.
  assert (Hfix : forall x t actor, x ∈ all_held ns -> kd_restamp t actor x = x).
  { intros x t actor Hx. apply elem_of_concat in Hx as (l & (m & -> & Hm)%list_elem_of_fmap & Hx). destruct (Hs m Hm) as (f & Hf & Hv & _ & Hst). unfold held in Hx. rewrite Hf in Hx.
    eapply kd_fixed; [done..|]. by eapply Forall_forall in Hst. }
  assert (Hnd : Forall (fun l => NoDup (map it_key l)) (map held ns)).
  { apply Forall_map, Forall_forall. intros m Hm. destruct (Hs m Hm) as (f & Hf & _ & Hn' & _). unfold held. by rewrite Hf. }
  refine (rounds_newest (map held ns) rounds Hnd Hu Hc _ _ i (held n) _ k); [by rewrite length_map..|].
  rewrite <- (run_delivers (all_held ns) _ ns ns'); [|done| |done|done].
  - by rewrite lookup_map_list, Hn.
  - apply Forall_lookup. intros j l Hj. split; [by apply (proj1 (Forall_lookup _ _) Hnd j)|].
    intros x. by eapply elem_of_concat_lookup.
Qed.
End converge.

(** ** Witnesses *)

(** A round is not always enough: a tombstone is not kept by a peer that does
    not have the key, which may then get a live copy from a third. *)
Definition ex_all_ways : list Delivery :=
  map (fun '(i, j) => {| d_from := i; d_to := j; d_name := "any"; d_now := 40; d_skew := 300 |})
      [(0, 1); (2, 1); (0, 2); (1, 0); (1, 2); (2, 0)]%nat.
Example one_round_resurrects :
  let ls := [[(ex_zone "b" "b.example.com" 30) <| z_Deleted := true |>]; []; [ex_zone "b" "b.example.com" 20]] in
  complete 3 ex_all_ways
  /\ map (fun l => live (to_map l !! "b")) (foldl deliver ls ex_all_ways) = [None; Some (ex_zone "b" "b.example.com" 20); None]
  /\ map (fun l => live (to_map l !! "b")) (foldl deliver ls (ex_all_ways ++ ex_all_ways)) = [None; None; None].
Proof.
  split_and!; [|vm_compute; reflexivity..]. intros i j Hi Hj Hij.
  exists {| d_from := i; d_to := j; d_name := "any"; d_now := 40; d_skew := 300 |}. split; [|done].
  destruct i as [|[|[|i]]], j as [|[|[|j]]]; try lia; unfold ex_all_ways; simpl; rewrite !elem_of_cons; auto 10.
Qed.

(** Two processes, each with a zone the other does not know: the first pushes
    to the second and then pulls from it. *)
#[local] Existing Instance ex_urls.
Definition ex_back : Envelope := FilterForExport 8 "b" 0 ex_site_b' "b".
Definition ex_cluster_yaml : Yaml := table_yaml [ex_site_a; ex_site_b; ex_site_b'; ex_merged "site-b" ex_back ex_site_a].
#[local] Existing Instance ex_cluster_yaml.
Definition ex_site (id : string) (f : File) : Site :=
  {| st_path := "/c"; st_outDir := "/u"; st_confName := "unbound.conf"; st_instance := id; st_env := no_env; st_boot := f |}.
Definition ex_two : list Site := [ex_site "a" ex_site_a; ex_site "b" ex_site_b].
Definition ex_nodes : list Node := [ex_process true ex_site_a; ex_process true ex_site_b].
Definition ex_push : Delivery := {| d_from := 0; d_to := 1; d_name := "site-b"; d_now := 8; d_skew := 5 * Minute |}.
Definition ex_pull : Delivery := {| d_from := 1; d_to := 0; d_name := "b"; d_now := 8; d_skew := 5 * Minute |}.
Definition ex_sent_a : Sent := ex_sent_by "a" ex_site_a "site-b".
Definition ex_after_push : Node :=
  (serve (site_listener (ex_site "b" ex_site_b) ex_ios 8 8) 8 (push_request ex_sent_a) (ex_process true ex_site_b)).1.
Definition ex_tp_with (env : Envelope) : Transport :=
  {| tp_marshal := fun _ => None; tp_request := fun _ => None; tp_tls := fun _ => None;
     tp_do := Ok {| hr_code := 200; hr_status := "200 OK"; hr_error := ""; hr_merge := None; hr_envelope := Ok env |} |}.
Definition ex_after_pull : Node :=
  pull (site_client (ex_site "a" ex_site_a) ex_ios 8) 8 (ex_tp_with ex_back) (ex_peer "site-b") (ex_process true ex_site_a).

Lemma ex_merged_at : merged_at ex_ios 8.
Proof. exists 0%nat. split; [|reflexivity]. split; [intros j Hj; lia | discriminate]. Qed.
Lemma ex_run js jp : run js jp ex_two (concat [[ex_push; ex_pull]]) ex_nodes [ex_after_pull; ex_after_push].
Proof.
  apply (run_arrives js jp ex_two ex_push [ex_pull] ex_nodes [ex_process true ex_site_a; ex_after_push]).
  - refine (arrives_push ex_two ex_push ex_nodes (ex_site "a" ex_site_a) (ex_site "b" ex_site_b) (ex_process true ex_site_a)
      (ex_process true ex_site_b) ex_after_push (ex_peer "site-b") 8 ex_tp None ex_sent_a [] ex_ios 8 8 8
      {| Added := 1; MUpdated := 0; MDeleted := 0; Skipped := 1; Conflicts := 0; Rejected := 0 |}
      eq_refl eq_refl eq_refl eq_refl _ _ ex_merged_at eq_refl eq_refl); [vm_compute; reflexivity|].
    unfold ex_after_push. rewrite (surjective_pairing (serve _ _ _ _)) at 1. f_equal; vm_compute; reflexivity.
  - refine (run_arrives js jp ex_two ex_pull [] [ex_process true ex_site_a; ex_after_push] [ex_after_pull; ex_after_push] _ _ (run_nil _ _ _ _)).
    refine (arrives_pull ex_two ex_pull [ex_process true ex_site_a; ex_after_push] (ex_site "b" ex_site_b) (ex_site "a" ex_site_a)
      ex_after_push (ex_process true ex_site_a) ex_site_a (ex_peer "site-b") 8 (ex_tp_with ex_back) ex_ios ex_ios 8 8 8 8 "secret" ex_back
      eq_refl eq_refl eq_refl eq_refl _ eq_refl _ _ ex_merged_at eq_refl eq_refl).
    + rewrite (surjective_pairing (serve _ _ _ _)). f_equal; vm_compute; reflexivity.
    + split; [discriminate|]. split; [vm_compute; discriminate|]. eexists _, _. repeat split; vm_compute; reflexivity.
    + vm_compute. reflexivity.
Qed.

Lemma cluster_converges_witness :
  exists ns', run ex_js ex_jp ex_two (concat [[ex_push; ex_pull]]) ex_nodes ns'
    /\ forall n, n ∈ ns' -> live (to_map (held n) !! "z1") = Some (ex_zone "z1" "lab.example.com" 6).
Proof.
  exists [ex_after_pull; ex_after_push]. split; [apply ex_run|]. intros n Hn.
  assert (Hall : all_held ex_nodes = [ex_zone "z0" "corp.example.com" 5; ex_zone "z1" "lab.example.com" 6]) by reflexivity.
  refine (eq_trans (cluster_converges ex_js ex_jp ex_two [[ex_push; ex_pull]] ex_nodes [ex_after_pull; ex_after_push]
    (ex_run ex_js ex_jp) _ _ _ _ _ n "z1" Hn) _).
  - apply Forall_cons. split; [exists ex_site_a | apply Forall_singleton; exists ex_site_b];
      (split; [reflexivity|]; split; [vm_compute; reflexivity|]; split;
       [apply (bool_decide_unpack _); vm_compute; exact I | apply Forall_singleton; split; discriminate]).
  - intros x y. rewrite Hall, !elem_of_cons, !elem_of_nil. intros Hx Hy.
    destruct Hx as [->|[->|[]]], Hy as [->|[->|[]]]; intros E; solve [reflexivity | discriminate E].
  - intros d x. cbn [concat app]. rewrite Hall, !elem_of_cons, !elem_of_nil. intros Hd Hx.
    destruct Hd as [->|[->|[]]], Hx as [->|[->|[]]]; split; vm_compute; reflexivity.
  - apply Forall_singleton. intros i j Hi Hj Hij. destruct i as [|[|i]], j as [|[|j]]; simpl in *; try lia.
    + exists ex_push. split; [left | split; reflexivity].
    + exists ex_pull. split; [right; left | split; reflexivity].
  - simpl. lia.
  - vm_compute. reflexivity.
Defined.

(** A deleted zone can return.  The second Save of a delete drops the tombstone,
    whether the peers have received it or not: here the peer was not reached,
    and the next pull brings its live copy back. *)
Definition ex_any_yaml : Yaml := {| Marshal _ := Ok "x"; Unmarshal _ := Err "not read" |}.
Example deleted_zone_returns :
  let r := run_call (Y := ex_any_yaml) "/c" "/u" "unbound.conf" "a" ex_js ex_jp ex_api "" (DeleteForwarder "z0") (ex_process true ex_site_a) in
  let n := pull (site_client (Y := ex_any_yaml) (ex_site "a" ex_site_a) ex_ios 8) 8
             (ex_tp_with (FilterForExport 8 "b" 0 ex_site_a "b")) (ex_peer "site-b") r.1 in
  r.2.(rs_code) = StatusOK /\ held r.1 = [] :> list ForwardZone
  /\ held n = [ex_zone "z0" "corp.example.com" 5].
Proof. split_and!; vm_compute; reflexivity. Qed.
