(* ===== verification/RouterProps.v ===== *)
(** The routes: a GET never changes the process, every route is answered by a
    handler of its own, and every page is shown with its template and the
    configuration in force. *)
From S2P Require Import Prelude GoStrings GoTime Config Validate Sync Store Generate Resolve AuditLog.
From S2P Require Import PeerListener PeerClient Watcher Daemon Server Router Samples AuditProps ServerProps ServerViews.

(** No method and pattern is registered twice. *)
Lemma routes_distinct : NoDup (map fst routes).
Proof. apply (bool_decide_unpack _). vm_compute. exact I. Qed.

(** the routes of GET, and those of every method, have handlers that only read *)
Lemma reading_routes `{J : JSONBodies} m pat h rq param :
  (m, pat, h) ∈ routes -> m = None \/ m = Some VGet -> call_of h rq param = None.
Proof. intros Hin%list_elem_of_In Hm. simpl in Hin. destruct_or! Hin; simplify_eq; try done; by destruct Hm. Qed.

Lemma read_answers instance log_fault log exchange `{D : DNSLib} `{J : JSONBodies} `{EC : EntryCodec} h rq param n :
  call_of h rq param = None -> read_of instance log_fault log exchange h rq n <> RNoRoute.
Proof. by destruct h. Qed.

Section dispatch.
Context `{Y : Yaml} `{D : DNSLib} `{C : Chi} `{CL : !ChiLaws C} `{J : JSONBodies} `{EC : EntryCodec}.
Context (path outDir confName instance : string).
Context (json_settings : Settings -> string) (json_peer : string -> string -> string).
Context (log_fault log : option string) (exchange : string -> Z -> string -> result string Reply).
#[local] Notation dispatch := (dispatch path outDir confName instance json_settings json_peer log_fault log exchange).

Lemma chi_route_In v p i param :
  chi_route (map fst routes) v p = Some (i, param) ->
  exists m pat h, routes !! i = Some (m, pat, h) /\ (m, pat, h) ∈ routes /\ (m = None \/ m = Some v).
Proof.
  intros (m & pat & Hi & Hm)%chi_route_method. rewrite list_lookup_fmap in Hi.
  destruct (routes !! i) as [[[m' pat'] h]|] eqn:Hr; [|done]. simplify_eq/=.
  eexists _, _, _. split_and!; [done| |done].
  by apply list_elem_of_lookup_2 with i.
Qed.

(** C22. A GET changes nothing: whatever its path, its headers and its body, the
    files, the configuration in force, the watcher, the peers' states and the
    audit log are the same after the response.  Whatever the method, the answer
    is that there is no such route exactly when the table has none for it. *)
Theorem get_is_safe (io : ApiIO) (rq : HttpRequest) (n : Node) :
  (rq.(rq_verb) = VGet -> (dispatch io rq n).1 = n)
  /\ ((dispatch io rq n).2 = RNoRoute <-> chi_route (map fst routes) rq.(rq_verb) rq.(rq_path) = None).
Proof.
  unfold Router.dispatch.
  destruct (chi_route (map fst routes) _ _) as [[i param]|] eqn:Hc; [|done].
  apply chi_route_In in Hc as (m & pat & h & -> & Hin & Hm).
  destruct (call_of h rq param) as [c|] eqn:Hcall.
  - destruct (run_call _ _ _ _ _ _ _ _ _ _) as [n' r]. simpl. split; [|done].
    intros Hv. rewrite Hv in Hm. by rewrite (reading_routes m pat h rq param) in Hcall.
  - simpl. split; [done|]. split; [|done]. intros H. by apply read_answers with (param := param) in H.
Qed.

(** A request to a route of the table with a state-changing handler runs exactly
    the call of that handler. *)
Lemma dispatch_call io rq n i param m pat h c :
  chi_route (map fst routes) rq.(rq_verb) rq.(rq_path) = Some (i, param) ->
  routes !! i = Some (m, pat, h) -> call_of h rq param = Some c ->
  dispatch io rq n = (let '(n', r) := run_call path outDir confName instance json_settings json_peer io rq.(rq_actor) c n in
                      (n', RApi r)).
Proof. unfold Router.dispatch. by intros -> -> ->. Qed.
End dispatch.

(** Every page is shown: its template set is parsed, it is the base layout
    with the page's own file, and its data are this instance and a copy of the
    configuration in force, if there is one; the status shown is that of the
    watcher, unless no file has been read yet. *)
Theorem pages_never_missing (instance : string) (h : PageHandler) (n : Node) :
  instance <> "" ->
  exists t pd, handle_page instance h n = Rendered t ["base.html"; t] pd
    /\ pd.(pd_Instance) = instance
    /\ pd.(pd_Config) = Snapshot <$> cur_of n
    /\ pd.(pd_Status) = (if (n.(n_store).(hash) =? "")%string then noStatusView else status_view n).
Proof.
  intros Hi. unfold handle_page, render. destruct (page_args h) as [[name title] active] eqn:Ha.
  assert (Hf : List.find (fun p => (p.1 =? name)%string) pages = Some (name, ["base.html"; name]))
    by (by destruct h; injection Ha as <- <- <-).
  rewrite Hf. eexists _, _. split; [done|].
  destruct (hash (n_store n) =? "")%string; simpl; by destruct (cur_of n).
Qed.

(** ** A router that matches the patterns literally *)

Definition ex_find (v : Verb) (p : string) : option (nat * (option Verb * string)) -> bool :=
  fun e => match e with
           | Some (_, (m, pat)) => bool_decide (m = None \/ m = Some v) && (pat =? p)%string
           | None => false
           end.
#[local] Instance ex_chi : Chi := {|
  chi_route rs v p :=
    match List.find (fun e => ex_find v p (Some e)) (imap pair rs) with
    | Some (i, _) => Some (i, fun _ => "z0")
    | None => None
    end |}.
#[local] Instance ex_chi_laws : ChiLaws ex_chi.
Proof.
  split. simpl. intros rs v p i ps H.
  destruct (List.find _ _) as [[j [m pat]]|] eqn:Hf; [|done]. simplify_eq.
  apply List.find_some in Hf as [Hin Hm]. apply list_elem_of_In in Hin.
  apply elem_of_lookup_imap in Hin as (k & e & [= -> <-] & Hk).
  apply andb_prop in Hm as [Hm%bool_decide_eq_true _]. eauto.
Qed.
(** bodies the router does not read *)
#[local] Instance ex_bodies : JSONBodies := {|
  json_file _ := Err "EOF"; json_forwarder _ := Err "EOF"; json_default _ := Err "EOF"; json_record _ := Err "EOF";
  json_settings_body _ := Err "EOF"; json_peer_body _ := Err "EOF"; json_test _ := Err "EOF" |}.
#[local] Instance ex_no_log : EntryCodec := table_codec [].
#[local] Instance ex_nothing_saved : Yaml := table_yaml [].
Definition ex_request (v : Verb) (p : string) : HttpRequest :=
  {| rq_verb := v; rq_path := p; rq_actor := ""; rq_secrets := ""; rq_body := ""; rq_form := Err "no file" |}.
#[local] Notation ex_dispatch v p n :=
  (dispatch "/c" "/u" "unbound.conf" "a" (fun _ => "") (fun _ _ => "") None None (fun _ _ _ => Err "timeout")
     ex_api (ex_request v p) n) (only parsing).

Lemma get_is_safe_witness :
  (ex_dispatch VGet "/api/forwarders" (ex_process true ex_start)).1 = ex_process true ex_start
  /\ (ex_dispatch VPatch "/api/forwarders" (ex_process true ex_start)).2 = RNoRoute.
Proof.
  split.
  - exact (proj1 (get_is_safe "/c" "/u" "unbound.conf" "a" (fun _ => "") (fun _ _ => "") None None (fun _ _ _ => Err "timeout")
                    ex_api (ex_request VGet "/api/forwarders") (ex_process true ex_start)) eq_refl).
  - apply (proj2 (get_is_safe "/c" "/u" "unbound.conf" "a" (fun _ => "") (fun _ _ => "") None None (fun _ _ _ => Err "timeout")
                    ex_api (ex_request VPatch "/api/forwarders") (ex_process true ex_start))).
    vm_compute. reflexivity.
Defined.

Lemma pages_never_missing_witness :
  exists t pd, handle_page "hub" handleForwardersPage (ex_process true ex_start) = Rendered t ["base.html"; t] pd
    /\ pd.(pd_Instance) = "hub" /\ pd.(pd_Config) = Some (Snapshot ex_start).
Proof.
  destruct (pages_never_missing "hub" handleForwardersPage (ex_process true ex_start)) as (t & pd & H & Hi & Hc & _);
    [discriminate | eauto].
Defined.

(** a DELETE of a forward zone runs its call *)
Example delete_is_dispatched :
  ex_dispatch VDelete "/api/forwarders/{id}" (ex_process false ex_start)
    = (let '(n, r) := run_call "/c" "/u" "unbound.conf" "a" (fun _ => "") (fun _ _ => "") ex_api "" (DeleteForwarder "z0")
                        (ex_process false ex_start) in (n, RApi r)).
Proof. by apply dispatch_call with (i := 14%nat) (param := fun _ => "z0") (m := Some VDelete) (pat := "/api/forwarders/{id}") (h := HDeleteForwarder). Qed.
