(* ===== verification/ConcurrentProps.v ===== *)
(** Saves at the same time: any schedule of any number of them, in any number of
    processes, does what the whole Saves do one after the other; a reader always
    finds a whole file; and a Save waits for nothing but its own hooks.  With polls
    beside the Saves the hash still describes the memory, and a poll catches up with the file. *)
From S2P Require Import Prelude GoStrings GoTime Config Validate Sync Sha256 Store Concurrent Samples ValidateSpec StoreProps.

Section concurrent.
Context `{Y : Yaml} (path : string) {E : Type}.
Implicit Types (fs : FS) (s : Store) (w : World E) (ph : Phase E) (order : list (nat * result (SaveError E) File)).
#[local] Notation advance := (@advance _ path E).
#[local] Notation lock := (path +:+ ".lock").
#[local] Notation tmp := (path +:+ ".tmp").

(** ** One Save, step by step *)

Definition rank ph : nat :=
  match ph with
  | AtRead => 7 | AtValidate _ => 6 | AtTmp _ _ => 5 | AtWrite _ _ => 4 | AtRename _ _ => 3 | AtSet _ _ => 2 | AtUnlock _ => 1
  | _ => 0
  end.

(** a Save that holds the lock, run until it has let it go *)
Fixpoint rest (io : SaveIO) (opts : SaveOptions E) (n : nat) ph fs s : FS * Store * Phase E :=
  match n with
  | O => (fs, s, ph)
  | S n => if holds ph then let '(fs, s, ph, _) := advance io opts true ph fs s in rest io opts n ph fs s else (fs, s, ph)
  end.

Lemma rest_idle io opts n ph fs s : holds ph = false -> rest io opts n ph fs s = (fs, s, ph).
Proof. intros H. destruct n; simpl; by rewrite ?H. Qed.

Lemma advance_taken io opts taken ph fs s :
  holds ph = true -> advance io opts taken ph fs s = advance io opts true ph fs s.
Proof. by destruct ph. Qed.

Lemma advance_holding io opts taken ph fs s fs' s' ph' op :
  holds ph = true -> advance io opts taken ph fs s = (fs', s', ph', op) ->
  (op = Keep /\ holds ph' = true /\ rank ph = S (rank ph') /\ outcome ph' = None)
  \/ (op = Release /\ holds ph' = false /\ is_Some (outcome ph')).
Proof. destruct ph; simpl; try done; intros _ H; simplify_eq/=; repeat (case_match; simplify_eq/=); eauto 10. Qed.

Lemma rest_advance io opts taken ph fs s fs' s' ph' op :
  holds ph = true -> advance io opts taken ph fs s = (fs', s', ph', op) ->
  rest io opts (rank ph) ph fs s = rest io opts (rank ph') ph' fs' s'.
Proof.
  intros Hh H. pose proof (advance_holding _ _ _ _ _ _ _ _ _ _ Hh H) as [(_ & Hh' & Hr & _)|(_ & Hh' & _)].
  - rewrite Hr. simpl. rewrite advance_taken in H by done. by rewrite Hh, H.
  - rewrite (rest_idle _ _ _ ph') by done. assert (exists n, rank ph = S n) as [n ->] by (destruct ph; try done; simpl; eauto).
    simpl. rewrite advance_taken in H by done. rewrite Hh, H. by apply rest_idle.
Qed.

Lemma open_lock_exists fs : is_Some (open_lock path fs !! lock).
Proof. unfold open_lock. case_match; [eauto|]. rewrite lookup_insert_eq. eauto. Qed.
Lemma open_lock_id fs : is_Some (fs !! lock) -> open_lock path fs = fs.
Proof. unfold open_lock. by intros [? ->]. Qed.

Lemma tmp_lock : tmp <> lock.
Proof. intros [=]%(inj (String.append path)). Qed.

Lemma advance_keeps_lock io opts taken ph fs s fs' s' ph' op :
  holds ph = true -> advance io opts taken ph fs s = (fs', s', ph', op) -> is_Some (fs !! lock) -> is_Some (fs' !! lock).
Proof.
  pose proof tmp_lock as Ht. pose proof (lock_neq path) as Hl.
  destruct ph; simpl; try done; intros _ H; simplify_eq/=; repeat (case_match; simplify_eq/=; try done).
  all: unfold WriteFile, Rename in *; repeat case_match; simplify_eq; rewrite ?lookup_insert_ne, ?lookup_delete_ne by done; done.
Qed.

Lemma finish_flock o io : finish_draft (with_flock o io) = finish_draft io.
Proof. reflexivity. Qed.

#[local] Ltac go := cbn [rest holds Concurrent.advance WriteFile outcome].
(** the whole Save, once it has the lock, is the run of its steps *)
Lemma Save_rest io opts fs s fs' s' ph :
  io.(si_mkdir) = None -> io.(si_open) = None ->
  rest io opts 7 AtRead (open_lock path fs) s = (fs', s', ph) ->
  exists hooks r, Save path (with_flock FlockOk io) opts fs s = (fs', s', hooks, r) /\ outcome ph = Some r.
Proof.
  intros Hm Ho. unfold Save. cbn [with_flock si_mkdir si_open si_flock si_write si_rename si_unlock si_default_now].
  rewrite finish_flock, Hm, Ho. fold (open_lock path fs). generalize (open_lock path fs) as fs1. intros fs1.
  cbn [rest holds Concurrent.advance]. set (m := run_mutate _ _). clearbody m.
  destruct (mut_err m); [go; intros [= <- <- <-]; eauto|].
  go. destruct (finish_draft _ _ _) as [d|]; [|go; intros [= <- <- <-]; eauto].
  destruct (Marshal d) as [data|]; [|go; intros [= <- <- <-]; eauto].
  go. destruct (si_write io) eqn:Hw; go; rewrite ?Hw; go; rewrite ?insert_insert_eq; [|intros [= <- <- <-]; eauto..].
  destruct (si_rename io); go; [intros [= <- <- <-]; eauto|].
  destruct (si_unlock io); go; intros [= <- <- <-]; eauto.
Qed.
(** ** Taking the lock *)

(** the answers a Save needs to get the lock *)
Definition opens (io : SaveIO) : Prop :=
  io.(si_mkdir) = None /\ io.(si_open) = None /\ flock_answer false io = FlockOk.

Definition may_open (b : bool) fs : FS := if b then open_lock path fs else fs.

Lemma may_open_id b fs : is_Some (fs !! lock) -> may_open b fs = fs.
Proof. destruct b; [apply open_lock_id | done]. Qed.
Lemma open_may_open b fs : open_lock path (may_open b fs) = open_lock path fs.
Proof. destruct b; [apply open_lock_id, open_lock_exists | done]. Qed.

(** the first step: the lock, or a refusal, which is a whole Save wherever it happens *)
Lemma advance_lock io opts taken fs s fs' s' ph' op :
  advance io opts taken AtLock fs s = (fs', s', ph', op) ->
  s' = s
  /\ ((op = Acquire /\ taken = false /\ ph' = AtRead /\ opens io /\ fs' = open_lock path fs)
      \/ exists e b, op = Keep /\ ph' = Returned [] (Err e) /\ fs' = may_open b fs
         /\ forall fs0 s0, Save path (with_flock (flock_answer taken io) io) opts fs0 s0 = (may_open b fs0, s0, [], Err e)).
Proof.
  unfold opens, flock_answer, Save. cbn [Concurrent.advance with_flock si_mkdir si_open si_flock].
  destruct (si_mkdir io); [intros [= <- <- <- <-]; split; [done|]; right; by eexists _, false|].
  destruct (si_open io); [intros [= <- <- <- <-]; split; [done|]; right; by eexists _, false|].
  destruct (si_flock io); [destruct taken.. |]; intros [= <- <- <- <-]; (split; [done|]); auto 10; right; by eexists _, true.
Qed.

(** ** The simulation *)

Definition same_call (b b' : Job E) : Prop :=
  b'.(j_proc) = b.(j_proc) /\ b'.(j_io) = b.(j_io) /\ b'.(j_opts) = b.(j_opts).

(** [w] against the files and memories that the whole Saves leave: equal while
    nobody holds the lock; otherwise what is left of the holder's Save leads
    where the whole Save leads from there *)
Definition matches w fs (stores : gmap nat Store) : Prop :=
  match w.(w_lock) with
  | None => w.(w_fs) = fs /\ w.(w_stores) = stores
  | Some j => exists b s sc,
      w.(w_jobs) !! j = Some b /\ stores !! b.(j_proc) = Some s /\ w.(w_stores) = <[b.(j_proc) := sc]> stores
      /\ opens b.(j_io) /\ is_Some (w.(w_fs) !! lock)
      /\ rest b.(j_io) b.(j_opts) (rank b.(j_phase)) b.(j_phase) w.(w_fs) sc
         = rest b.(j_io) b.(j_opts) 7 AtRead (open_lock path fs) s
  end.

Record simulates w0 w order fs (stores : gmap nat Store) : Prop := {
  sim_serial : serial path w0.(w_jobs) (w0.(w_fs), w0.(w_stores)) order (fs, stores);
  sim_calls : forall j b, w.(w_jobs) !! j = Some b -> exists b0, w0.(w_jobs) !! j = Some b0 /\ same_call b0 b;
  sim_holder : forall j b, w.(w_jobs) !! j = Some b -> holds b.(j_phase) = true <-> w.(w_lock) = Some j;
  sim_log : forall j b r, w.(w_jobs) !! j = Some b -> outcome b.(j_phase) = Some r <-> (j, r) ∈ order;
  sim_once : NoDup order.*1 /\ forall j, j ∈ order.*1 -> is_Some (w.(w_jobs) !! j);
  sim_matches : matches w fs stores;
}.

Lemma calls_update w0 w j b ph :
  (forall j b, w.(w_jobs) !! j = Some b -> exists b0, w0.(w_jobs) !! j = Some b0 /\ same_call b0 b) ->
  w.(w_jobs) !! j = Some b ->
  forall k c, <[j := b <| j_phase := ph |>]> w.(w_jobs) !! k = Some c -> exists b0, w0.(w_jobs) !! k = Some b0 /\ same_call b0 c.
Proof. intros H Hj k c [[<- <-]|[_ Hk]]%lookup_insert_Some; [destruct (H j b Hj) as (b0 & ? & ?); by exists b0 | by apply H]. Qed.

Lemma dom_update w j b order :
  (forall k, k ∈ order.*1 -> is_Some (w.(w_jobs) !! k)) ->
  forall k, k ∈ order.*1 -> is_Some (<[j := b]> w.(w_jobs) !! k).
Proof. intros H k Hk. destruct (decide (j = k)) as [->|]; [rewrite lookup_insert_eq; eauto | rewrite lookup_insert_ne by done; auto]. Qed.

(** a job whose outcome does not change yet, or not any more *)
Lemma log_update w j b ph order :
  (forall j b r, w.(w_jobs) !! j = Some b -> outcome b.(j_phase) = Some r <-> (j, r) ∈ order) ->
  w.(w_jobs) !! j = Some b -> outcome ph = outcome b.(j_phase) ->
  forall k c r, <[j := b <| j_phase := ph |>]> w.(w_jobs) !! k = Some c -> outcome c.(j_phase) = Some r <-> (k, r) ∈ order.
Proof. intros H Hj Ho k c r [[<- <-]|[_ Hk]]%lookup_insert_Some; [|by apply H]. simpl. rewrite Ho. by apply H. Qed.

(** a job that gets its outcome *)
Lemma log_snoc w j b ph r0 order :
  (forall j b r, w.(w_jobs) !! j = Some b -> outcome b.(j_phase) = Some r <-> (j, r) ∈ order) ->
  (NoDup order.*1 /\ forall j, j ∈ order.*1 -> is_Some (w.(w_jobs) !! j)) ->
  w.(w_jobs) !! j = Some b -> outcome b.(j_phase) = None -> outcome ph = Some r0 ->
  (forall k c r, <[j := b <| j_phase := ph |>]> w.(w_jobs) !! k = Some c ->
     outcome c.(j_phase) = Some r <-> (k, r) ∈ order ++ [(j, r0)])
  /\ NoDup (order ++ [(j, r0)]).*1 /\ forall k, k ∈ (order ++ [(j, r0)]).*1 -> is_Some (<[j := b <| j_phase := ph |>]> w.(w_jobs) !! k).
Proof.
  intros H [Hn Hd] Hj Hb Hp.
  assert (Hfresh : forall r, (j, r) ∉ order) by (intros r Hr; apply (H j b r Hj) in Hr; congruence).
  assert (Hj1 : j ∉ order.*1) by (intros ([? r] & -> & Hr)%list_elem_of_fmap; by apply (Hfresh r)).
  split_and!.
  - intros k c r Hk. rewrite elem_of_app, list_elem_of_singleton.
    apply lookup_insert_Some in Hk as [[<- <-]|[Hne Hk]]; [simpl; rewrite Hp; naive_solver|].
    rewrite (H k c r Hk). naive_solver.
  - rewrite fmap_app. apply NoDup_app. split_and!; [done| |apply NoDup_singleton]. intros k Hk ->%list_elem_of_singleton. done.
  - intros k Hk. rewrite fmap_app in Hk.
    destruct (decide (j = k)) as [->|]; [rewrite lookup_insert_eq; eauto|].
    rewrite lookup_insert_ne by done. apply elem_of_app in Hk as [Hk|Hk%list_elem_of_singleton]; [by apply Hd | by simplify_eq/=].
Qed.

(** *** A step of a Save that does not hold the lock *)

Lemma matches_store w fs stores p s :
  matches w fs stores -> w.(w_stores) !! p = Some s -> exists s0, stores !! p = Some s0.
Proof.
  unfold matches. destruct (w_lock w); [|intros [_ ->]; eauto].
  intros (b & s0 & sc & _ & Hs & -> & _) [[<- _]|[_ ?]]%lookup_insert_Some; eauto.
Qed.

(** nothing but the phase of a job that is not the holder changes *)
Lemma matches_idle w fs stores j b fs' ph b0 :
  matches w fs stores -> w.(w_jobs) !! j = Some b -> w.(w_lock) <> Some j -> fs' = may_open b0 w.(w_fs) ->
  matches {| w_fs := fs'; w_stores := w.(w_stores); w_jobs := <[j := b <| j_phase := ph |>]> w.(w_jobs); w_lock := w.(w_lock) |}
    (may_open b0 fs) stores.
Proof.
  unfold matches. simpl. intros H Hj Hl ->. destruct (w_lock w) as [k|]; [|by destruct H as [-> ->]].
  destruct H as (c & s & sc & Hk & Hs & Hst & Ho & Hlk & Hr). exists c, s, sc.
  rewrite lookup_insert_ne by congruence. rewrite may_open_id, open_may_open by done. done.
Qed.

Lemma holder_idle w j b ph :
  (forall j b, w.(w_jobs) !! j = Some b -> holds b.(j_phase) = true <-> w.(w_lock) = Some j) ->
  w.(w_jobs) !! j = Some b -> holds b.(j_phase) = false -> holds ph = false ->
  forall k c, <[j := b <| j_phase := ph |>]> w.(w_jobs) !! k = Some c -> holds c.(j_phase) = true <-> w.(w_lock) = Some k.
Proof.
  intros H Hj Hb Hp k c [[<- <-]|[_ Hk]]%lookup_insert_Some; [|by apply H]. simpl. rewrite Hp, <- (H j b Hj). by rewrite Hb.
Qed.

(** the last steps, after the lock was let go *)
Lemma simulates_after w0 w order fs stores j b s ph :
  simulates w0 w order fs stores -> w.(w_jobs) !! j = Some b -> w.(w_stores) !! b.(j_proc) = Some s ->
  holds b.(j_phase) = false -> holds ph = false -> outcome ph = outcome b.(j_phase) ->
  simulates w0 {| w_fs := w.(w_fs); w_stores := <[b.(j_proc) := s]> w.(w_stores);
                  w_jobs := <[j := b <| j_phase := ph |>]> w.(w_jobs); w_lock := w.(w_lock) |} order fs stores.
Proof.
  intros [H1 H2 H3 H4 [H5 H5'] H6] Hj Hs Hb Hp Ho. rewrite insert_id by done. split; simpl; try done.
  - by apply calls_update.
  - by apply holder_idle.
  - by apply log_update.
  - split; [done|]. by apply dom_update.
  - apply (matches_idle w fs stores j b _ ph false); try done. rewrite <- (H3 j b Hj), Hb. done.
Qed.

(** a Save that is refused before it has the lock *)
Lemma simulates_refused w0 w order fs stores j b s fs' e b0 :
  simulates w0 w order fs stores -> w.(w_jobs) !! j = Some b -> w.(w_stores) !! b.(j_proc) = Some s ->
  b.(j_phase) = AtLock -> fs' = may_open b0 w.(w_fs) ->
  (forall fs0 s0, Save path (with_flock (flock_answer (bool_decide (is_Some w.(w_lock))) b.(j_io)) b.(j_io)) b.(j_opts) fs0 s0
     = (may_open b0 fs0, s0, [], Err e)) ->
  simulates w0 {| w_fs := fs'; w_stores := <[b.(j_proc) := s]> w.(w_stores);
                  w_jobs := <[j := b <| j_phase := Returned [] (Err e) |>]> w.(w_jobs); w_lock := w.(w_lock) |}
    (order ++ [(j, Err e)]) (may_open b0 fs) stores.
Proof.
  intros [H1 H2 H3 H4 H5 H6] Hj Hs Hb Hfs Hsave. rewrite insert_id by done.
  assert (Hnb : holds b.(j_phase) = false) by by rewrite Hb.
  destruct (log_snoc w j b (Returned [] (Err e)) (Err e) order H4 H5 Hj) as (L1 & L2 & L3); [by rewrite Hb|done|].
  destruct (H2 j b Hj) as (c & Hc & Ep & Ei & Eo). destruct (matches_store _ _ _ _ _ H6 Hs) as [s0 Hs0].
  split; simpl; try done.
  - rewrite <- (insert_id stores b.(j_proc) s0) by done. rewrite Ep in *. rewrite Ei, Eo in Hsave.
    eapply serial_snoc; [exact H1|done|done|apply Hsave].
  - by apply calls_update.
  - by apply holder_idle.
  - apply (matches_idle w fs stores j b fs'); try done. rewrite <- (H3 j b Hj), Hnb. done.
Qed.

(** *** Taking the lock, working under it, and letting it go *)

Lemma simulates_acquire w0 w order fs stores j b s :
  simulates w0 w order fs stores -> w.(w_jobs) !! j = Some b -> w.(w_stores) !! b.(j_proc) = Some s ->
  b.(j_phase) = AtLock -> w.(w_lock) = None -> opens b.(j_io) ->
  simulates w0 {| w_fs := open_lock path w.(w_fs); w_stores := <[b.(j_proc) := s]> w.(w_stores);
                  w_jobs := <[j := b <| j_phase := AtRead |>]> w.(w_jobs); w_lock := Some j |} order fs stores.
Proof.
  intros [H1 H2 H3 H4 [H5 H5'] H6] Hj Hs Hb Hl Ho. unfold matches in H6. rewrite Hl in H6. destruct H6 as [Hfs Hst].
  split; simpl; try done.
  - by apply calls_update.
  - intros k c [[<- <-]|[Hne Hk]]%lookup_insert_Some; [done|]. rewrite (H3 k c Hk), Hl. naive_solver.
  - apply log_update; [done|done|]. by rewrite Hb.
  - split; [done|]. by apply dom_update.
  - unfold matches. simpl. exists (b <| j_phase := AtRead |>), s, s. rewrite lookup_insert_eq, Hst in *. simpl.
    rewrite Hfs. split_and!; try done; apply Ho || apply open_lock_exists.
Qed.

Lemma only_holder_moves w j k c :
  (forall j b, w.(w_jobs) !! j = Some b -> holds b.(j_phase) = true <-> w.(w_lock) = Some j) ->
  w.(w_lock) = Some j -> w.(w_jobs) !! k = Some c -> k <> j -> holds c.(j_phase) = false.
Proof. intros H Hl Hk Hne. apply not_true_is_false. rewrite (H k c Hk), Hl. congruence. Qed.

Lemma simulates_work w0 w order fs stores j b s fs' s' ph :
  simulates w0 w order fs stores -> w.(w_jobs) !! j = Some b -> w.(w_stores) !! b.(j_proc) = Some s ->
  holds b.(j_phase) = true -> holds ph = true -> outcome ph = None ->
  advance b.(j_io) b.(j_opts) true b.(j_phase) w.(w_fs) s = (fs', s', ph, Keep) ->
  simulates w0 {| w_fs := fs'; w_stores := <[b.(j_proc) := s']> w.(w_stores);
                  w_jobs := <[j := b <| j_phase := ph |>]> w.(w_jobs); w_lock := w.(w_lock) |} order fs stores.
Proof.
  intros [H1 H2 H3 H4 [H5 H5'] H6] Hj Hs Hb Hp Hout Hadv. pose proof (proj1 (H3 j b Hj) Hb) as Hl.
  split; simpl; try done.
  - by apply calls_update.
  - intros k c [[<- <-]|[Hne Hk]]%lookup_insert_Some; [done|by apply H3].
  - apply log_update; [done|done|]. rewrite Hout. by destruct (j_phase b).
  - split; [done|]. by apply dom_update.
  - unfold matches in *. simpl. rewrite Hl in *. destruct H6 as (b' & s0 & sc & Hb' & Hs0 & Hst & Ho & Hlk & Hr).
    rewrite Hj in Hb'. injection Hb' as <-. rewrite Hst, lookup_insert_eq in Hs. injection Hs as ->.
    exists (b <| j_phase := ph |>), s0, s'. rewrite lookup_insert_eq, Hst, insert_insert_eq. simpl.
    split_and!; try done; try apply Ho; [exact (advance_keeps_lock _ _ _ _ _ _ _ _ _ _ Hb Hadv Hlk)|]. by rewrite <- (rest_advance _ _ _ _ _ _ _ _ _ _ Hb Hadv).
Qed.

Lemma simulates_release w0 w order fs stores j b s fs' s' ph r :
  simulates w0 w order fs stores -> w.(w_jobs) !! j = Some b -> w.(w_stores) !! b.(j_proc) = Some s ->
  holds b.(j_phase) = true -> holds ph = false -> outcome ph = Some r ->
  advance b.(j_io) b.(j_opts) true b.(j_phase) w.(w_fs) s = (fs', s', ph, Release) ->
  simulates w0 {| w_fs := fs'; w_stores := <[b.(j_proc) := s']> w.(w_stores);
                  w_jobs := <[j := b <| j_phase := ph |>]> w.(w_jobs); w_lock := None |}
    (order ++ [(j, r)]) fs' (<[b.(j_proc) := s']> stores).
Proof.
  intros [H1 H2 H3 H4 H5 H6] Hj Hs Hb Hp Hout Hadv. pose proof (proj1 (H3 j b Hj) Hb) as Hl.
  unfold matches in H6. rewrite Hl in H6. destruct H6 as (b' & s0 & sc & Hb' & Hs0 & Hst & (Hm & Hop & Hfl) & Hlk & Hr).
  rewrite Hj in Hb'. injection Hb' as <-. rewrite Hst, lookup_insert_eq in Hs. injection Hs as ->.
  rewrite (rest_advance _ _ _ _ _ _ _ _ _ _ Hb Hadv), rest_idle in Hr by done. symmetry in Hr.
  destruct (Save_rest _ _ _ _ _ _ _ Hm Hop Hr) as (hooks & r' & Hsave & Hr'). simplify_eq.
  assert (Hnone : outcome b.(j_phase) = None) by by destruct (j_phase b).
  destruct (log_snoc w j b ph r order H4 H5 Hj Hnone Hout) as (L1 & L2 & L3).
  destruct (H2 j b Hj) as (c & Hc & Ep & Ei & Eo). split; simpl; try done.
  - rewrite Ep in *. rewrite Ei, Eo in *. apply (serial_snoc path _ _ _ fs stores j c false s0 fs' s' hooks r H1 Hc Hs0).
    rewrite Hfl. exact Hsave.
  - by apply calls_update.
  - intros k d [[<- <-]|[Hne Hk]]%lookup_insert_Some; [simpl; by rewrite Hp|].
    rewrite (only_holder_moves w j k d H3 Hl Hk (not_eq_sym Hne)). done.
  - unfold matches. simpl. by rewrite Hst, insert_insert_eq.
Qed.

(** *** The end of a hook *)

Lemma at_lock ph : {ph = AtLock} + {ph <> AtLock}.
Proof. destruct ph; by (left + right). Qed.

Lemma hook_returns_keeps ph s :
  holds (hook_returns ph s) = holds ph /\ outcome (hook_returns ph s) = outcome ph.
Proof. destruct ph; simpl; try done. unfold fire_apply. by case_match. Qed.

(** a step after the lock was let go *)
Lemma advance_after io opts taken ph fs s fs' s' ph' op :
  holds ph = false -> ph <> AtLock -> advance io opts taken ph fs s = (fs', s', ph', op) ->
  fs' = fs /\ s' = s /\ op = Keep /\ holds ph' = false /\ outcome ph' = outcome ph.
Proof. destruct ph; simpl; try done; intros _ _ [= <- <- <- <-]; unfold fire_save, fire_apply; by repeat case_match. Qed.

(** it changes the phase of a Save that waits, or nothing *)
Lemma sched_hook w j :
  sched path (HookEnds j) w = w
  \/ exists b s, w.(w_jobs) !! j = Some b /\ w.(w_stores) !! b.(j_proc) = Some s /\ in_hook b.(j_phase) = true
       /\ sched path (HookEnds j) w
          = {| w_fs := w.(w_fs); w_stores := <[b.(j_proc) := s]> w.(w_stores);
               w_jobs := <[j := b <| j_phase := hook_returns b.(j_phase) s |>]> w.(w_jobs); w_lock := w.(w_lock) |}.
Proof.
  unfold sched. simpl. destruct (w_jobs w !! j) as [b|] eqn:Hj; [|by left].
  destruct (w_stores w !! j_proc b) as [s|] eqn:Hs; [|by left].
  destruct (in_hook b.(j_phase)) eqn:Hb; [right; eauto 10|left].
  assert (Hid : hook_returns b.(j_phase) s = b.(j_phase)) by by destruct (j_phase b).
  rewrite Hid, insert_id by done. rewrite insert_id; [by destruct w | rewrite Hj; by destruct b].
Qed.
Lemma in_hook_idle ph : in_hook ph = true -> holds ph = false.
Proof. by destruct ph. Qed.

Lemma simulates_sched w0 w order fs stores t :
  simulates w0 w order fs stores -> exists order' fs' stores', simulates w0 (sched path t w) order' fs' stores'.
Proof.
  intros H. destruct t as [j|j].
  2: { destruct (sched_hook w j) as [->|(b & s & Hj & Hs & Hb & ->)]; [eauto|].
       pose proof (in_hook_idle _ Hb) as Hi. destruct (hook_returns_keeps b.(j_phase) s) as [Hk Ho].
       do 3 eexists. eapply simulates_after; try done. by rewrite Hk. }
  unfold sched. cbn [turn_of take_turn]. destruct (w_jobs w !! j) as [b|] eqn:Hj; [|eauto]. destruct (w_stores w !! j_proc b) as [s|] eqn:Hs; [|eauto].
  destruct (Concurrent.advance _ _ _ _ _ _) as [[[fs1 s1] ph] op] eqn:Ha. destruct (holds b.(j_phase)) eqn:Hb.
  - rewrite advance_taken in Ha by done.
    destruct (advance_holding _ _ _ _ _ _ _ _ _ _ Hb Ha) as [(-> & Hp & _ & Ho)|(-> & Hp & [r Ho])].
    + do 3 eexists. by eapply simulates_work.
    + do 3 eexists. by eapply simulates_release.
  - destruct (at_lock b.(j_phase)) as [Hph|Hph].
    2: { destruct (advance_after _ _ _ _ _ _ _ _ _ _ Hb Hph Ha) as (-> & -> & -> & Hp & Ho). do 3 eexists. by eapply simulates_after. }
    rewrite Hph in Ha.
    apply advance_lock in Ha as [-> [(-> & Ht & -> & Ho & ->)|(e & b0 & -> & -> & -> & Hsave)]].
    + do 3 eexists. eapply simulates_acquire; try done. apply bool_decide_eq_false in Ht. by apply eq_None_not_Some.
    + do 3 eexists. by eapply simulates_refused.
Qed.

Lemma simulates_fresh w : fresh w -> simulates w w [] w.(w_fs) w.(w_stores).
Proof.
  intros [Hl Hf]. split.
  - constructor.
  - intros j b Hj. by exists b.
  - intros j b Hj. destruct (Hf j b Hj) as [-> _]. by rewrite Hl.
  - intros j b r Hj. destruct (Hf j b Hj) as [-> _]. simpl. split; [done | by intros ?%elem_of_nil].
  - split; [constructor | by intros j ?%elem_of_nil].
  - unfold matches. by rewrite Hl.
Qed.

Lemma simulates_schedule w0 ts : fresh w0 -> exists order fs stores, simulates w0 (schedule path ts w0) order fs stores.
Proof.
  intros Hf. unfold schedule. assert (H : exists order fs stores, simulates w0 w0 order fs stores)
    by (do 3 eexists; by apply simulates_fresh).
  revert H. generalize w0 at 2 4 as w. induction ts as [|t ts IH]; intros w (order & fs & stores & H); [eauto|].
  simpl. apply IH. by eapply simulates_sched.
Qed.

(** C6. Saves are serialisable.  Whatever number of Saves run at once, in whatever
    processes that share the files, and however their steps interleave: there is
    an order in which the whole Saves, one after the other, return what each of
    them returns and leave the same files and the same memories, whenever nobody
    holds the lock.  A Save that met the lock taken is in the order as one that
    returned ErrLocked.  At most one Save holds the lock at any time. *)
Theorem saves_serialise (w0 : World E) (ts : list Turn) :
  fresh w0 ->
  let w := schedule path ts w0 in
  exists order fs stores,
    serial path w0.(w_jobs) (w0.(w_fs), w0.(w_stores)) order (fs, stores)
    /\ NoDup order.*1
    /\ (forall j b r, w.(w_jobs) !! j = Some b -> outcome b.(j_phase) = Some r <-> (j, r) ∈ order)
    /\ (forall j b, w.(w_jobs) !! j = Some b -> holds b.(j_phase) = true <-> w.(w_lock) = Some j)
    /\ (w.(w_lock) = None -> w.(w_fs) = fs /\ w.(w_stores) = stores).
Proof.
  intros Hf w. destruct (simulates_schedule w0 ts Hf) as (order & fs & stores & [H1 _ H3 H4 [H5 _] H6]).
  exists order, fs, stores. split_and!; try done. all: unfold matches in H6; intros Hl; fold w in H6; by rewrite Hl in H6.
Qed.

(** ** What a reader finds *)

Definition written (d : File) (data : string) : Prop := Validate d = Ok d /\ Marshal d = Ok data.
Definition phase_ok fs ph : Prop :=
  match ph with
  | AtTmp d data | AtWrite d data => written d data
  | AtRename d data => written d data /\ fs !! tmp = Some data
  | AtSet d data => written d data
  | _ => True
  end.
Definition whole_file fs fs' : Prop := fs' !! path = fs !! path \/ exists d data, written d data /\ fs' !! path = Some data.

Lemma open_lock_other fs p : p <> lock -> open_lock path fs !! p = fs !! p.
Proof. intros Hp. unfold open_lock. case_match; [done|]. by rewrite lookup_insert_ne. Qed.

Lemma advance_idle io opts taken ph fs s fs' s' ph' op p :
  holds ph = false -> advance io opts taken ph fs s = (fs', s', ph', op) -> p <> lock -> fs' !! p = fs !! p.
Proof.
  destruct ph; simpl; try done; intros _ H Hp; [|by simplify_eq..].
  repeat (case_match; simplify_eq/=; try done). all: by apply open_lock_other.
Qed.

Lemma advance_whole io opts taken ph fs s fs' s' ph' op :
  advance io opts taken ph fs s = (fs', s', ph', op) -> phase_ok fs ph -> phase_ok fs' ph' /\ whole_file fs fs'.
Proof.
  unfold whole_file, phase_ok. pose proof (tmp_neq path) as Ht. pose proof (lock_neq path) as Hk.
  destruct ph as [| |d|d data|d data|d data|d data| | | | |]; simpl.
  - intros H _. repeat (case_match; simplify_eq/=; try (by auto)). all: split; [done|left; by rewrite open_lock_other].
  - intros H _. repeat (case_match; simplify_eq/=; by auto).
  - intros H _. destruct (finish_draft _ _ _) as [d'|] eqn:Hd; [|simplify_eq; auto].
    apply checked_of_Validate in Hd. destruct (Marshal d') eqn:Hm; simplify_eq; unfold written; auto.
  - intros H Hw. destruct (si_write io); simplify_eq; auto; (split; [done|left; by rewrite lookup_insert_ne]).
  - intros H Hw. unfold WriteFile in H.
    destruct (si_write io); simplify_eq; rewrite ?lookup_insert_eq, ?lookup_insert_ne by done; auto.
  - intros H [Hw Hd]. destruct (si_rename io); simplify_eq; [auto|]. split; [done|right]. exists d, data. split; [done|].
    unfold Rename. by rewrite Hd, lookup_insert_eq.
  - intros [= <- <- <- <-] _. auto.
  - intros H _. destruct (si_unlock io); simplify_eq; auto.
  - intros [= <- <- <- <-] _. unfold fire_save, fire_apply. split; [by repeat case_match | by left].
  - intros [= <- <- <- <-] _. auto.
  - intros [= <- <- <- <-] _. auto.
  - intros [= <- <- <- <-] _. auto.
Qed.

Definition phases_ok w : Prop := forall j b, w.(w_jobs) !! j = Some b -> phase_ok w.(w_fs) b.(j_phase).

Lemma sched_whole w t :
  (forall j b, w.(w_jobs) !! j = Some b -> holds b.(j_phase) = true <-> w.(w_lock) = Some j) ->
  phases_ok w -> phases_ok (sched path t w) /\ whole_file w.(w_fs) (sched path t w).(w_fs).
Proof.
  intros Hh Hok. destruct t as [j|j].
  2: { destruct (sched_hook w j) as [->|(b & s & Hj & Hs & Hb & ->)]; (split; [|by left]); [done|].
       intros k c. simpl. intros [[<- <-]|[_ Hk]]%lookup_insert_Some; [|by apply (Hok k)].
       simpl. destruct (j_phase b); try done. simpl. unfold fire_apply. by case_match. }
  unfold sched. cbn [turn_of take_turn].
  destruct (w_jobs w !! j) as [b|] eqn:Hj; [|by split; [|left]]. destruct (w_stores w !! _) as [s|]; [|by split; [|left]].
  destruct (Concurrent.advance _ _ _ _ _ _) as [[[fs1 s1] ph] op] eqn:Ha. simpl.
  destruct (advance_whole _ _ _ _ _ _ _ _ _ _ Ha (Hok j b Hj)) as [Hp Hw]. split; [|done].
  intros k c. simpl. intros [[<- <-]|[Hne Hk]]%lookup_insert_Some; [done|]. specialize (Hok k c Hk).
  destruct (holds b.(j_phase)) eqn:Hb.
  - apply (Hh j b Hj) in Hb. pose proof (only_holder_moves w j k c Hh Hb Hk (not_eq_sym Hne)). by destruct (j_phase c).
  - pose proof (advance_idle _ _ _ _ _ _ _ _ _ _ tmp Hb Ha tmp_lock) as Ht. destruct (j_phase c); simpl in *; try done. by rewrite Ht.
Qed.

(** C7. A reader that opens the configuration at any moment, in the middle of any
    number of Saves, some of which fail, finds the file that was there at the
    start or the whole text of a configuration that Validate accepts. *)
Theorem readers_see_whole_files (w0 : World E) (ts : list Turn) :
  fresh w0 ->
  let w := schedule path ts w0 in
  w.(w_fs) !! path = w0.(w_fs) !! path
  \/ exists d data, Validate d = Ok d /\ Marshal d = Ok data /\ w.(w_fs) !! path = Some data.
Proof.
  intros Hf. pose proof (simulates_fresh w0 Hf) as Hs.
  assert (Hok : phases_ok w0) by (intros j b Hj; by destruct (proj2 Hf j b Hj) as [-> _]).
  cut (forall w, (exists order fs stores, simulates w0 w order fs stores) -> phases_ok w ->
         whole_file w0.(w_fs) w.(w_fs) -> whole_file w0.(w_fs) (schedule path ts w).(w_fs)).
  { intros H. destruct (H w0) as [|(d & data & [? ?] & ?)]; eauto 10. by left. }
  unfold schedule. clear. induction ts as [|t ts IH]; intros w (order & fs & stores & Hs) Hok Hw; [done|].
  destruct (sched_whole w t (sim_holder _ _ _ _ _ Hs) Hok) as [Hok' Hw'].
  simpl. apply IH; [by eapply simulates_sched | done|].
  destruct Hw' as [E'|]; [|by right]. unfold whole_file. by rewrite E'.
Qed.

(** ** What a Save waits for *)

(** what is still to come at most: turns of its own, and then ends of its hooks *)
Definition steps_left ph : nat :=
  match ph with
  | AtLock => 11 | AtRead => 10 | AtValidate _ => 9 | AtTmp _ _ => 8 | AtWrite _ _ => 7 | AtRename _ _ => 6 | AtSet _ _ => 5
  | AtUnlock _ => 4 | AtHooks _ => 3 | InSave _ _ => 2 | InApply _ _ _ => 1 | Returned _ _ => 0
  end.
(** what a turn [t] of the Save [j] takes off, where that many steps are left *)
Definition progress (j : nat) (t : Turn) (left : nat) : nat :=
  match t with
  | Runs i => if decide (i = j) then if (2 <? left)%nat then 1 else 0 else 0
  | HookEnds i => if decide (i = j) then if (2 <? left)%nat then 0 else 1 else 0
  end.

Lemma take_turn_steps io opts taken ph fs s fs' s' ph' op t :
  take_turn path t io opts taken ph fs s = (fs', s', ph', op) ->
  (steps_left ph' <= steps_left ph - progress (turn_of t) t (steps_left ph))%nat.
Proof.
  unfold progress. destruct t as [i|i]; simpl; rewrite decide_True by done.
  - destruct ph; simpl; intros H; simplify_eq/=; unfold fire_save, fire_apply; repeat (case_match; simplify_eq/=); lia.
  - intros [= <- <- <- <-]. destruct ph; simpl; unfold fire_apply; repeat case_match; simpl; lia.
Qed.
Lemma take_turn_outcome io opts taken ph fs s fs' s' ph' op t r :
  take_turn path t io opts taken ph fs s = (fs', s', ph', op) -> outcome ph = Some r -> outcome ph' = Some r.
Proof.
  destruct t as [i|i]; simpl; [|intros [= <- <- <- <-]; by rewrite (proj2 (hook_returns_keeps ph s))].
  intros H Ho. assert (holds ph = false /\ ph <> AtLock) as [Hh Hl] by by destruct ph.
  apply advance_after in H as (_ & _ & _ & _ & ->); done.
Qed.

(** the Save [j] with its process: what is left of it, and what it will return *)
Definition standing (j : nat) w (left : nat) (out : option (result (SaveError E) File)) : Prop :=
  exists b, w.(w_jobs) !! j = Some b /\ is_Some (w.(w_stores) !! b.(j_proc)) /\ (steps_left b.(j_phase) <= left)%nat
    /\ forall r, out = Some r -> outcome b.(j_phase) = Some r.

Lemma sched_standing w t j left out :
  standing j w left out -> standing j (sched path t w) (left - progress j t left) out.
Proof.
  intros (b & Hj & [s Hs] & Hle & Hr). unfold sched. destruct (decide (turn_of t = j)) as [Ht|Hne].
  - rewrite Ht, Hj, Hs. destruct (take_turn _ _ _ _ _ _ _ _) as [[[fs1 s1] ph] op] eqn:Ha.
    exists (b <| j_phase := ph |>). simpl. rewrite !lookup_insert_eq. split_and!; [done|eauto| |].
    + apply take_turn_steps in Ha. rewrite Ht in Ha. unfold progress in *.
      destruct t; simpl in Ht; subst; rewrite !decide_True in * by done; repeat (case_match; try done);
        rewrite ?Nat.ltb_lt, ?Nat.ltb_ge in *; lia.
    + intros r Hout. eapply take_turn_outcome; [exact Ha | by apply Hr].
  - assert (progress j t left = 0)%nat as -> by (unfold progress; destruct t; simpl in Hne; by rewrite decide_False).
    rewrite Nat.sub_0_r. destruct (w_jobs w !! turn_of t) as [c|]; [|exists b; eauto].
    destruct (w_stores w !! j_proc c) as [sc|]; [|exists b; eauto].
    destruct (take_turn _ _ _ _ _ _ _ _) as [[[fs1 s1] ph] op]. exists b. simpl.
    rewrite lookup_insert_ne by done. split_and!; [done| |done|done].
    destruct (decide (j_proc c = j_proc b)) as [->|]; [rewrite lookup_insert_eq | rewrite lookup_insert_ne by done]; eauto.
Qed.

Lemma standing_le j w n m out : standing j w n out -> (n <= m)%nat -> standing j w m out.
Proof. intros (b & Hj & Hs & Hle & Hr) Hm. exists b. split_and!; try done. lia. Qed.

(** how often the turn [t] comes *)
Definition turns (t : Turn) (ts : list Turn) : nat := length (filter (t =.) ts).
Lemma turns_cons t u ts : turns t (u :: ts) = ((if decide (t = u) then 1 else 0) + turns t ts)%nat.
Proof. unfold turns. rewrite filter_cons. by case_decide. Qed.

(** until nothing but its hooks is left *)
Lemma schedule_runs j out ts : forall w n,
  standing j w (n + 2) out -> standing j (schedule path ts w) ((n - turns (Runs j) ts) + 2) out.
Proof.
  induction ts as [|t ts IH]; intros w n H; simpl; [by rewrite Nat.sub_0_r|].
  apply (sched_standing _ t) in H. rewrite turns_cons.
  assert (Hle : (n + 2 - progress j t (n + 2) <= n - (if decide (Runs j = t) then 1 else 0) + 2)%nat).
  { unfold progress. destruct t, (Nat.ltb_spec 2 (n + 2)); repeat case_decide; simplify_eq; lia. }
  eapply standing_le; [exact (IH _ _ (standing_le _ _ _ _ _ H Hle))|]. lia.
Qed.
(** until it has returned *)
Lemma schedule_hooks j out ts : forall w n,
  (n <= 2)%nat -> standing j w n out -> standing j (schedule path ts w) (n - turns (HookEnds j) ts) out.
Proof.
  induction ts as [|t ts IH]; intros w n Hn H; simpl; [by rewrite Nat.sub_0_r|].
  apply (sched_standing _ t) in H. rewrite turns_cons.
  assert (Hle : (n - progress j t n <= n - (if decide (HookEnds j = t) then 1 else 0))%nat).
  { unfold progress. destruct t, (Nat.ltb_spec 2 n); repeat case_decide; simplify_eq; lia. }
  eapply standing_le; [refine (IH _ _ _ (standing_le _ _ _ _ _ H Hle)); lia|]. lia.
Qed.

(** C27. A Save waits for nothing but its own hooks.  Whatever the other Saves do,
    or leave undone, in the meantime: after nine turns of its own it knows what it
    will return, it does not hold the lock, and it has returned or is inside one
    of its hooks (the pushes to the peers, which wait for the answers of other
    processes, and the application); and it has returned this result, whatever
    else happens, when two hooks have ended after that. *)
Theorem save_returns (w0 : World E) (ts : list Turn) (j : nat) :
  fresh w0 -> is_Some (w0.(w_jobs) !! j) -> (9 <= turns (Runs j) ts)%nat ->
  exists b r, (schedule path ts w0).(w_jobs) !! j = Some b
    /\ outcome b.(j_phase) = Some r /\ holds b.(j_phase) = false
    /\ (in_hook b.(j_phase) = true \/ exists hooks, b.(j_phase) = Returned hooks r)
    /\ forall ts', (2 <= turns (HookEnds j) ts')%nat ->
         exists b' hooks, (schedule path (ts ++ ts') w0).(w_jobs) !! j = Some b' /\ b'.(j_phase) = Returned hooks r.
Proof.
  intros Hf [b0 Hj0] Hn. destruct (proj2 Hf j b0 Hj0) as [Hb0 Hs0].
  assert (H0 : standing j w0 (9 + 2) None) by (exists b0; rewrite Hb0; split_and!; try done; simpl; lia).
  destruct (schedule_runs j None ts w0 9 H0) as (b & Hj & Hs & Hle & _).
  assert (Hr : exists r, outcome b.(j_phase) = Some r /\ (in_hook b.(j_phase) = true \/ exists hooks, b.(j_phase) = Returned hooks r)).
  { destruct (j_phase b); simpl in *; try lia; eauto 10. }
  destruct Hr as (r & Hr & Hw). exists b, r. split_and!; [done|done| |done|].
  { destruct (j_phase b); simpl in *; try done; lia. }
  intros ts' Hn'. unfold schedule. rewrite foldl_app. fold (schedule path ts w0).
  assert (H1 : standing j (schedule path ts w0) 2 (Some r)).
  { exists b. split_and!; try done; [lia|]. by intros r' [= <-]. }
  destruct (schedule_hooks j (Some r) ts' _ 2 (le_n 2) H1) as (b' & Hj' & _ & Hle' & Hr'). exists b'.
  specialize (Hr' r eq_refl). destruct (j_phase b'); simpl in *; try lia. simplify_eq. eauto.
Qed.
End concurrent.

(** ** Two processes *)

#[local] Instance ex_yaml3 : Yaml := table_yaml [ex_old; ex_new; ex_lost].
Definition ex_job (p : nat) (io : SaveIO) (opts : SaveOptions string) (ph : Phase string) : Job string :=
  {| j_proc := p; j_io := io; j_opts := opts; j_phase := ph |}.
(** both have loaded the file; the first adds a zone, the second saves its own copy *)
Definition ex_world : World string :=
  {| w_fs := ex_disk; w_stores := {[0%nat := ex_store; 1%nat := ex_store]};
     w_jobs := {[0%nat := ex_job 0 (fine_save 7) (ex_note "z1") AtLock; 1%nat := ex_job 1 (fine_save 8) ex_other AtLock]};
     w_lock := None |}.
(** the second meets the lock of the first *)
Definition ex_meeting : list Turn :=
  [Runs 0; Runs 0; Runs 0; Runs 1; Runs 0; Runs 0; Runs 0; Runs 0; Runs 0; Runs 0].
(** then both hooks of the first end *)
Definition ex_hooks_end : list Turn := [HookEnds 0; HookEnds 0].

Lemma ex_fresh : fresh ex_world.
Proof.
  split; [done|]. intros j b. simpl. intros [[<- <-]|[_ [<- <-]%lookup_singleton_Some]]%lookup_insert_Some; split; try done; by eexists.
Qed.
Lemma ex_first_waits :
  (schedule ex_path ex_meeting ex_world).(w_jobs) !! 0%nat
  = Some (ex_job 0 (fine_save 7) (ex_note "z1") (InSave ex_new [OnSave])).
Proof. vm_compute. reflexivity. Qed.
Lemma ex_second_returns :
  (schedule ex_path ex_meeting ex_world).(w_jobs) !! 1%nat
  = Some (ex_job 1 (fine_save 8) ex_other (Returned [] (Err ErrLocked))).
Proof. vm_compute. reflexivity. Qed.

Lemma saves_serialise_witness :
  exists order stores,
    serial ex_path ex_world.(w_jobs) (ex_disk, ex_world.(w_stores)) order
      ((schedule ex_path ex_meeting ex_world).(w_fs), stores)
    /\ (0%nat, Ok ex_new) ∈ order /\ (1%nat, Err ErrLocked) ∈ order.
Proof.
  destruct (saves_serialise ex_path ex_world ex_meeting ex_fresh) as (order & fs & stores & H & _ & Hlog & _ & Hq).
  exists order, stores. destruct Hq as [Hfs _]; [vm_compute; reflexivity|]. rewrite Hfs. split; [exact H|]. split.
  - by apply (Hlog 0%nat _ (Ok ex_new) ex_first_waits).
  - by apply (Hlog 1%nat _ (Err ErrLocked) ex_second_returns).
Defined.

(** in the middle of the write *)
Lemma readers_see_whole_files_witness :
  (schedule ex_path [Runs 0; Runs 0; Runs 0; Runs 0] ex_world).(w_fs) !! ex_path = ex_disk !! ex_path
  \/ exists d data, Validate d = Ok d /\ Marshal d = Ok data
       /\ (schedule ex_path [Runs 0; Runs 0; Runs 0; Runs 0] ex_world).(w_fs) !! ex_path = Some data.
Proof. exact (readers_see_whole_files ex_path ex_world [Runs 0; Runs 0; Runs 0; Runs 0] ex_fresh). Defined.

Lemma save_returns_witness :
  exists b r, (schedule ex_path ex_meeting ex_world).(w_jobs) !! 0%nat = Some b /\ outcome b.(j_phase) = Some r
    /\ exists b' hooks, (schedule ex_path (ex_meeting ++ ex_hooks_end) ex_world).(w_jobs) !! 0%nat = Some b'
         /\ b'.(j_phase) = Returned hooks r.
Proof.
  destruct (save_returns ex_path ex_world ex_meeting 0%nat ex_fresh) as (b & r & H1 & H2 & _ & _ & H3).
  - exists (ex_job 0 (fine_save 7) (ex_note "z1") AtLock). reflexivity.
  - apply Nat.leb_le. vm_compute. reflexivity.
  - exists b, r. split; [exact H1|]. split; [exact H2|]. apply (H3 ex_hooks_end).
    apply Nat.leb_le. vm_compute. reflexivity.
Defined.

(** ** A poll at the same time *)

Section polls.
Context `{Y : Yaml} (path : string) (env : Env) {E : Type}.
Implicit Types (s : Store) (w : World E) (r : Running E).

(** the three steps of a poll, one right after the other, are [ReloadIfChanged] *)
Definition until_idle (k : PollPhase -> Store -> Store) (r : Store * PollPhase) : Store :=
  match r.2 with PollIdle => r.1 | ph => k ph r.1 end.
Lemma reload_in_steps fault fs s :
  let step ph s := poll_advance path env fault ph fs s in
  until_idle (fun ph s => until_idle (fun ph s => (step ph s).1) (step ph s)) (step PollIdle s)
  = (ReloadIfChanged path env fault fs s).1.
Proof.
  unfold ReloadIfChanged, until_idle. simpl. destruct (ReadFile fault path fs) as [data| |]; simpl; [|done..].
  destruct (_ =? _)%string; [done|]. destruct (Unmarshal data) as [g|]; [|done]. by destruct (Validate _).
Qed.

(** the memory of a process, and what its poll is about to put there *)
Definition coherent s : Prop := current_checked s /\ described env s.
Definition poll_ok (ph : PollPhase) : Prop :=
  match ph with
  | PollSet f h => Validate f = Ok f /\ exists d, text_of env d f /\ h = content_hash d
  | _ => True
  end.

Record calm r : Prop := {
  calm_holder : forall j b, r.(rw_world).(w_jobs) !! j = Some b ->
    holds b.(j_phase) = true <-> r.(rw_world).(w_lock) = Some j;
  calm_jobs : forall j b, r.(rw_world).(w_jobs) !! j = Some b -> respects_peers b.(j_opts);
  calm_phases : phases_ok path r.(rw_world);
  calm_stores : forall p s, r.(rw_world).(w_stores) !! p = Some s -> coherent s;
  calm_polls : forall p, poll_ok (poll_of p r);
}.

Lemma take_turn_coherent t io (opts : SaveOptions E) taken (ph : Phase E) fs s fs' s' ph' op :
  take_turn path t io opts taken ph fs s = (fs', s', ph', op) ->
  respects_peers opts -> phase_ok path fs ph -> coherent s -> coherent s'.
Proof.
  intros H Ho Hp Hs. destruct t as [i|i]; [|by injection H as _ <- _ _]. assert (Hshare : forall io', share_peers (run_mutate opts (Clone (default (DefaultConfig io') s.(current)))).(mut_shared) s = s)
    by (intros; rewrite Ho; apply share_peers_same).
  destruct ph as [| |d|d data|d data|d data|d data| | | | |]; simpl in H; rewrite ?Hshare in H;
    repeat (case_match; simplify_eq/=; try done); simplify_eq/=; try done.
  destruct Hp as [Hv Hm]. split; intros f; simpl; intros [= <-]; [done|]. exists data. split; [by left | done].
Qed.

(** who holds the lock, without the whole simulation *)
Lemma sched_holder w t :
  (forall k b, w.(w_jobs) !! k = Some b -> holds b.(j_phase) = true <-> w.(w_lock) = Some k) ->
  forall k b, (sched path t w).(w_jobs) !! k = Some b -> holds b.(j_phase) = true <-> (sched path t w).(w_lock) = Some k.
Proof.
  intros H. destruct t as [j|j].
  2: { destruct (sched_hook path w j) as [->|(b & s & Hj & _ & Hb & ->)]; [done|]. pose proof (in_hook_idle _ Hb) as Hi.
       cbn [w_jobs w_lock]. apply holder_idle; try done. by rewrite (proj1 (hook_returns_keeps b.(j_phase) s)). }
  unfold sched. cbn [turn_of take_turn]. destruct (w_jobs w !! j) as [b|] eqn:Hj; [|done]. destruct (w_stores w !! _) as [s|]; [|done].
  destruct (Concurrent.advance _ _ _ _ _ _) as [[[fs1 s1] ph] op] eqn:Ha. simpl.
  destruct (holds b.(j_phase)) eqn:Hb.
  - pose proof (proj1 (H j b Hj) Hb) as Hl. rewrite advance_taken in Ha by done.
    destruct (advance_holding _ _ _ _ _ _ _ _ _ _ _ Hb Ha) as [(-> & Hp & _)|(-> & Hp & _)];
      intros k c [[<- <-]|[Hne Hk]]%lookup_insert_Some; simpl; rewrite ?Hp; try done.
    + by apply H.
    + rewrite (only_holder_moves w j k c H Hl Hk (not_eq_sym Hne)). done.
  - destruct (at_lock b.(j_phase)) as [Hph|Hph].
    2: { destruct (advance_after _ _ _ _ _ _ _ _ _ _ _ Hb Hph Ha) as (-> & -> & -> & Hp & Ho). by apply holder_idle. }
    rewrite Hph in Ha.
    apply advance_lock in Ha as [-> [(-> & Ht & -> & _)|(e & b0 & -> & -> & _)]]; [|apply holder_idle; rewrite ?Hph; done].
    apply bool_decide_eq_false, eq_None_not_Some in Ht.
    intros k c [[<- <-]|[Hne Hk]]%lookup_insert_Some; [done|]. rewrite (H k c Hk), Ht. naive_solver.
Qed.

Lemma calm_happen r e : calm r -> calm (happen path env r e).
Proof.
  intros [H1 H2 H3 H4 H5]. destruct e as [t|p fault|data]; simpl.
  - split; simpl; [by apply sched_holder| | |  |done].
    + unfold sched. destruct (w_jobs _ !! turn_of t) as [b|] eqn:Hj; [|done]. destruct (w_stores _ !! _) as [s|]; [|done].
      destruct (take_turn _ _ _ _ _ _ _ _) as [[[fs1 s1] ph] op]. simpl.
      intros k c [[<- <-]|[_ Hk]]%lookup_insert_Some; [by apply (H2 (turn_of t) b) | by eapply H2].
    + by apply sched_whole.
    + unfold sched. destruct (w_jobs _ !! turn_of t) as [b|] eqn:Hj; [|done]. destruct (w_stores _ !! _) as [s|] eqn:Hs; [|done].
      destruct (take_turn _ _ _ _ _ _ _ _) as [[[fs1 s1] ph] op] eqn:Ha. simpl.
      intros k c [[<- <-]|[_ Hk]]%lookup_insert_Some; [|by eapply H4].
      eapply take_turn_coherent; [exact Ha|..]; eauto.
  - destruct (w_stores _ !! p) as [s|] eqn:Hs; [|done]. pose proof (H5 p) as Hp.
    destruct (poll_advance _ _ _ _ _ s) as [s' ph] eqn:Ha. split; simpl; try done.
    + intros k c [[<- <-]|[_ Hk]]%lookup_insert_Some; [|by eapply H4]. specialize (H4 p s Hs).
      unfold poll_advance in Ha. destruct (poll_of p r) as [|d|f h]; simplify_eq/=; repeat (case_match; simplify_eq/=; try done); try done.
      destruct Hp as (Hv & d & Hd & ->). split; intros g; simpl; intros [= <-]; [done | eauto].
    + intros k. unfold poll_of. simpl. destruct (decide (p = k)) as [<-|Hne]; [rewrite lookup_insert_eq | rewrite lookup_insert_ne by done; apply H5].
      simpl. unfold poll_advance in Ha. destruct (poll_of p r) as [|d|f h]; simplify_eq/=; repeat (case_match; simplify_eq/=; try done); try done.
      split; [by eapply checked_of_Validate|]. eexists. split; [right; eauto | done].
  - split; simpl; try done. intros k c Hk. specialize (H3 k c Hk).
    destruct (j_phase c); simpl in *; try done. by rewrite lookup_insert_ne by (apply not_eq_sym, tmp_neq).
Qed.

Lemma calm_happens es r : calm r -> calm (happens path env es r).
Proof. revert r. induction es as [|e es IH]; intros r Hr; simpl; [done|]. by apply IH, calm_happen. Qed.

(** nobody has started, and what the processes have in memory is what they loaded *)
Definition started r : Prop :=
  fresh r.(rw_world) /\ r.(rw_polls) = ∅
  /\ (forall j b, r.(rw_world).(w_jobs) !! j = Some b -> respects_peers b.(j_opts))
  /\ forall p s, r.(rw_world).(w_stores) !! p = Some s -> coherent s.

Lemma calm_started r : started r -> calm r.
Proof.
  intros ([Hl Hf] & Hp & Ho & Hs). split; try done.
  - intros j b Hj. destruct (Hf j b Hj) as [-> _]. by rewrite Hl.
  - intros j b Hj. by destruct (Hf j b Hj) as [-> _].
  - intros p. unfold poll_of. by rewrite Hp.
Qed.

(** C30. Whatever number of Saves run at once, whatever polls run beside them,
    in whatever steps, and whatever outside edits the file gets: what every
    process has in memory is always a configuration that Validate accepts as it
    is, with the hash of a text of this very configuration beside it, as long as
    the callbacks leave the shared peer list alone. *)
Theorem memory_always_described r es p s f :
  started r ->
  (happens path env es r).(rw_world).(w_stores) !! p = Some s -> s.(current) = Some f ->
  Validate f = Ok f /\ exists d, text_of env d f /\ s.(hash) = content_hash d.
Proof.
  intros Hr Hs Hf. destruct (calm_happens es r (calm_started r Hr)) as [_ _ _ Hst _].
  destruct (Hst p s Hs) as [Hc Hd]. split; [by apply Hc | by apply Hd].
Qed.

(** a text that the store can load *)
Definition loadable (data : string) : Prop :=
  exists g f, Unmarshal data = Ok g /\ Validate (SeedFromEnv env g) = Ok f.

(** C15. One undisturbed poll repairs whatever the races left, as long as the
    callbacks of the Saves leave the shared peer list alone and what every process
    had in memory at the start was validated, with the hash of its text: after the
    poll the memory of the process has a configuration of which the text in the file is a
    text (up to a collision of SHA-256), if that text can be loaded at all.  The
    condition is needed: the callbacks that edit or delete a peer write into the
    list in memory, and when their Save fails no poll puts it back. *)
Theorem poll_catches_up r es p s f data :
  started r -> let r1 := happens path env es r in
  r1.(rw_world).(w_stores) !! p = Some s -> s.(current) = Some f -> poll_of p r1 = PollIdle ->
  r1.(rw_world).(w_fs) !! path = Some data -> loadable data ->
  let r2 := happens path env [EvPoll p None; EvPoll p None; EvPoll p None] r1 in
  r2.(rw_world).(w_fs) = r1.(rw_world).(w_fs)
  /\ exists s' f' d, r2.(rw_world).(w_stores) !! p = Some s' /\ s'.(current) = Some f' /\ Validate f' = Ok f'
       /\ text_of env d f' /\ s'.(hash) = content_hash d /\ content_hash d = content_hash data.
Proof.
  intros Hr r1 Hs Hf Hp Hd (g & f1 & Hg & Hv) r2.
  assert (Hc1 : calm r1) by (by apply calm_happens, calm_started).
  assert (Hc2 : calm r2) by (by apply calm_happens).
  cut (r2.(rw_world).(w_fs) = r1.(rw_world).(w_fs)
       /\ exists s' f', r2.(rw_world).(w_stores) !! p = Some s' /\ s'.(current) = Some f' /\ s'.(hash) = content_hash data).
  { intros (Hfs & s' & f' & Hs' & Hf' & Hh). split; [done|]. destruct (calm_stores _ Hc2 p s' Hs') as [H1 H2].
    destruct (H2 f' Hf') as (d & Ht & Hd'). exists s', f', d. split_and!; try done; [by apply H1 | congruence]. }
  clear Hc1 Hc2 Hr. unfold r2. clear r2. clearbody r1. destruct r1 as [w polls]. simpl in *.
  rewrite Hs, Hp. simpl. unfold ReadFile. rewrite Hd. cbn [rw_world w_stores w_fs rw_polls]. unfold poll_of. simpl.
  rewrite !lookup_insert_eq. simpl. destruct (String.eqb_spec (content_hash data) s.(hash)) as [Hh|Hh]; simpl.
  - rewrite !lookup_insert_eq. simpl. unfold ReadFile. rewrite Hd. simpl. rewrite lookup_insert_eq. eauto 10.
  - rewrite Hg, Hv. simpl. rewrite !lookup_insert_eq. simpl. rewrite lookup_insert_eq. split; [done|].
    eexists _, _. done.
Qed.
End polls.

Definition ex_both : Running string := {| rw_world := ex_world; rw_polls := ∅ |}.
(** The poll is not under the lock.  A poll reads the file, and what it has read
    only reaches the memory after a Save of its own process has replaced both. *)
Definition ex_race : list WorldEvent :=
  [EvEdit "xx"; EvPoll 0 None] ++ repeat (EvSave (Runs 0)) 9 ++ [EvPoll 0 None; EvPoll 0 None].
Notation ex_memory r := (current <$> r.(rw_world).(w_stores) !! 0%nat).

(** The memory goes back to the older configuration while the file has the newer
    one; the next poll repairs it, and a Save before that loses the newer one. *)
Example poll_undoes_save :
  let r := happens ex_path no_env ex_race ex_both in
  r.(rw_world).(w_fs) !! ex_path = Some "x" /\ Unmarshal "x" = Ok ex_new
  /\ ex_memory r = Some (Some ex_lost)
  /\ ex_memory (happens ex_path no_env [EvPoll 0 None; EvPoll 0 None; EvPoll 0 None] r) = Some (Some ex_new).
Proof. vm_compute. auto. Qed.

Lemma ex_started : started no_env ex_both.
Proof.
  split; [exact ex_fresh|]. split; [reflexivity|]. split.
  - intros j b. simpl. intros [[_ <-]|[_ [_ <-]%lookup_singleton_Some]]%lookup_insert_Some; intros f; reflexivity.
  - assert (Hc : coherent no_env ex_store).
    { split; intros f [= <-]; [vm_compute; reflexivity|]. exists "". split; [left; vm_compute; reflexivity | vm_compute; reflexivity]. }
    intros p s. simpl. intros [[_ <-]|[_ [_ <-]%lookup_singleton_Some]]%lookup_insert_Some; exact Hc.
Qed.

Lemma ex_raced : exists s, (happens ex_path no_env ex_race ex_both).(rw_world).(w_stores) !! 0%nat = Some s /\ s.(current) = Some ex_lost.
Proof. eexists. split; vm_compute; reflexivity. Qed.

Lemma memory_always_described_witness : Validate ex_lost = Ok ex_lost /\ exists d, text_of no_env d ex_lost.
Proof.
  destruct ex_raced as (s & Hs & Hf).
  destruct (memory_always_described ex_path no_env ex_both ex_race 0 s ex_lost ex_started Hs Hf) as (Hv & d & Hd & _).
  split; [exact Hv|]. exists d. exact Hd.
Defined.

Lemma poll_catches_up_witness :
  exists s f d, (happens ex_path no_env [EvPoll 0 None; EvPoll 0 None; EvPoll 0 None] (happens ex_path no_env ex_race ex_both)).(rw_world).(w_stores) !! 0%nat = Some s
    /\ s.(current) = Some f /\ text_of no_env d f /\ content_hash d = content_hash "x".
Proof.
  destruct ex_raced as (s & Hs & Hf).
  assert (Hp : poll_of 0 (happens ex_path no_env ex_race ex_both) = PollIdle) by (vm_compute; reflexivity).
  assert (Hd : (happens ex_path no_env ex_race ex_both).(rw_world).(w_fs) !! ex_path = Some "x") by (vm_compute; reflexivity).
  assert (Hl : loadable no_env "x") by (exists ex_new, ex_new; split; vm_compute; reflexivity).
  destruct (poll_catches_up ex_path no_env ex_both ex_race 0 s ex_lost "x" ex_started Hs Hf Hp Hd Hl) as (_ & s' & f' & d & H1 & H2 & _ & H3 & _ & H4).
  exists s', f', d. split; [exact H1|]. split; [exact H2|]. split; [exact H3 | exact H4].
Defined.
